(** * JSON-Formatter: a shallow embedding of [script.js]

    The program is a browser page that validates, formats, minifies and
    whitespace-compresses a JSON document held in a text area.  Its logic is
    a thin layer over host functions ([String.prototype.trim],
    [String.prototype.replace] with a global regular expression,
    [JSON.parse], [JSON.stringify], [Blob]), so the embedding has two layers:

    - the host layer, written after ECMAScript: strings as lists of UTF-16
      code units, numbers as IEEE-754 binary64 values, objects as property
      lists in own-property-key order;
    - the program layer, one definition per function of [script.js], with
      the page's globals and DOM fields gathered into one record that is
      passed explicitly. *)

From Stdlib Require Import List Bool Arith ZArith NArith Lia String Ascii.
From Stdlib Require Import SpecFloat.
Import ListNotations.

(* ================================================================== *)
(** * Host layer: strings *)

(** A JavaScript string is a sequence of UTF-16 code units. *)
Abbreviation code_unit := N (only parsing).
Abbreviation text := (list code_unit) (only parsing).

(** Code units of an ASCII literal. *)
Definition lit (s : string) : text :=
  List.map N_of_ascii (list_ascii_of_string s).

Module Ch.
Definition TAB : code_unit := 9%N.
Definition LF : code_unit := 10%N.
Definition VT : code_unit := 11%N.
Definition FF : code_unit := 12%N.
Definition CR : code_unit := 13%N.
Definition SP : code_unit := 32%N.
Definition QUOTE : code_unit := 34%N.      (* double quote *)
Definition PLUS : code_unit := 43%N.
Definition COMMA : code_unit := 44%N.
Definition MINUS : code_unit := 45%N.
Definition DOT : code_unit := 46%N.
Definition SLASH : code_unit := 47%N.
Definition COLON : code_unit := 58%N.
Definition LBRACKET : code_unit := 91%N.
Definition BACKSLASH : code_unit := 92%N.
Definition RBRACKET : code_unit := 93%N.
Definition LBRACE : code_unit := 123%N.
Definition RBRACE : code_unit := 125%N.
End Ch.

(** The character class [\s], which is also the set that [trim] strips:
    ECMAScript WhiteSpace (TAB, VT, FF, SP, NBSP, ZWNBSP and the Unicode
    space separators) together with LineTerminator (LF, CR, LS, PS). *)
Definition isWS (c : code_unit) : bool :=
  ((9 <=? c) && (c <=? 13) || (c =? 32) || (c =? 160) || (c =? 5760)
   || (8192 <=? c) && (c <=? 8202) || (c =? 8232) || (c =? 8233)
   || (c =? 8239) || (c =? 8287) || (c =? 12288) || (c =? 65279))%N.

(** The character class [[{}[\],:]] of the second expression in
    [compressJSON]. *)
Definition isStructural (c : code_unit) : bool :=
  ((c =? Ch.LBRACE) || (c =? Ch.RBRACE) || (c =? Ch.LBRACKET)
   || (c =? Ch.RBRACKET) || (c =? Ch.COMMA) || (c =? Ch.COLON))%N.

Fixpoint dropWhile (p : code_unit -> bool) (s : text) : text :=
  match s with
  | [] => []
  | c :: r => if p c then dropWhile p r else s
  end.

Fixpoint takeWhile (p : code_unit -> bool) (s : text) : text :=
  match s with
  | [] => []
  | c :: r => if p c then c :: takeWhile p r else []
  end.

(** [String.prototype.trim]. *)
Definition trimStart (s : text) : text := dropWhile isWS s.
Definition trimEnd (s : text) : text := rev (dropWhile isWS (rev s)).
Definition trim (s : text) : text := trimEnd (trimStart s).

(** JavaScript truthiness of a string: [!text] holds for the empty one. *)
Definition isEmpty (s : text) : bool :=
  match s with [] => true | _ :: _ => false end.

(* ------------------------------------------------------------------ *)
(** ** [String.prototype.replace] with a global regular expression

    A matcher tells, for the text that starts at the current position,
    whether the expression matches there and, if so, how many code units
    the match spans and what replaces it.  Neither expression of the
    program matches the empty string.  [replaceAll] is the loop of
    [RegExp.prototype[Symbol.replace]] for a global expression: the
    leftmost match is replaced, scanning resumes behind it, and a code unit
    at which nothing matches is copied.  [skip] counts the code units of a
    match still to be passed over. *)
Definition matcher := text -> option (nat * text).

Fixpoint replaceAll (m : matcher) (skip : nat) (s : text) : text :=
  match s with
  | [] => []
  | c :: r =>
      match skip with
      | S k => replaceAll m k r
      | O =>
          match m s with
          | Some (len, repl) => repl ++ replaceAll m (pred len) r
          | None => c :: replaceAll m 0 r
          end
      end
  end.

(** [/\s+/g] replaced by [' ']: the greedy run of whitespace. *)
Definition match_ws_run : matcher := fun s =>
  match List.length (takeWhile isWS s) with
  | O => None
  | n => Some (n, [Ch.SP])
  end.

(** [/\s*([{}[\],:])\s*/g] replaced by ['$1'].  The greedy [\s*] takes the
    whole run of whitespace; the class must match right behind it.
    Backtracking into the run cannot help, since every shorter run is
    followed by a whitespace code unit, not by one of the class. *)
Definition match_structural : matcher := fun s =>
  let lead := takeWhile isWS s in
  match dropWhile isWS s with
  | c :: r =>
      if isStructural c
      then Some (List.length lead + 1 + List.length (takeWhile isWS r), [c])
      else None
  | [] => None
  end.

(** The expression chain of [compressJSON] (script.js 186-189). *)
Definition compressed (t : text) : text :=
  trim (replaceAll match_structural 0 (replaceAll match_ws_run 0 t)).

(** What [compressJSON] leaves in the editor: the guard returns early,
    with the editor untouched, when the trimmed text is empty. *)
Definition compress (value : text) : text :=
  let t := trim value in
  if isEmpty t then value else compressed t.

(* ------------------------------------------------------------------ *)
(** ** The transform of the specification

    Written after the words of the specification, to be compared with
    [compress]: first every run of whitespace collapses to one space, then
    every whitespace code unit that has a structural character as an
    immediate neighbour is removed. *)
Fixpoint spec_collapse (in_run : bool) (s : text) : text :=
  match s with
  | [] => []
  | c :: r =>
      if isWS c
      then (if in_run then spec_collapse true r
            else Ch.SP :: spec_collapse true r)
      else c :: spec_collapse false r
  end.

Definition structural_opt (o : option code_unit) : bool :=
  match o with Some c => isStructural c | None => false end.

Fixpoint spec_remove_adjacent (prev : option code_unit) (s : text) : text :=
  match s with
  | [] => []
  | c :: r =>
      if isWS c && (structural_opt prev || structural_opt (List.hd_error r))
      then spec_remove_adjacent (Some c) r
      else c :: spec_remove_adjacent (Some c) r
  end.

Definition spec_compress (s : text) : text :=
  spec_remove_adjacent None (spec_collapse false s).

(* ================================================================== *)
(** * Host layer: numbers

    A JavaScript number is an IEEE-754 binary64 value: [spec_float] with
    53 bits of precision and infinities at exponent 1024. *)
Definition number := spec_float.
Definition prec : Z := 53.
Definition emax : Z := 1024.

Definition posInfinity : number := S754_infinity false.

Definition number_eqb (x y : number) : bool :=
  match x, y with
  | S754_zero a, S754_zero b => Bool.eqb a b
  | S754_infinity a, S754_infinity b => Bool.eqb a b
  | S754_nan, S754_nan => true
  | S754_finite a m e, S754_finite b m' e' =>
      Bool.eqb a b && Pos.eqb m m' && Z.eqb e e'
  | _, _ => false
  end.

Definition isFiniteNumber (x : number) : bool :=
  match x with
  | S754_zero _ | S754_finite _ _ _ => true
  | S754_infinity _ | S754_nan => false
  end.

(** [ToBoolean] of a number: [+0], [-0] and [NaN] are falsy. *)
Definition number_truthy (x : number) : bool :=
  match x with
  | S754_zero _ | S754_nan => false
  | S754_infinity _ | S754_finite _ _ _ => true
  end.

(** The number nearest to [(-1)^neg * m * 10^e], ties to even: the value
    of a decimal literal with digits [m] and decimal exponent [e].  A
    literal whose digits are all zero keeps its sign, so [-0] reads as
    negative zero; a magnitude beyond the largest finite number rounds to
    an infinity, one below the smallest to a zero. *)
Definition decimal_to_number (neg : bool) (m : Z) (e : Z) : number :=
  match m with
  | Z0 => S754_zero neg
  | Zpos p =>
      if (0 <=? e)%Z
      then binary_round prec emax neg (Z.to_pos (Zpos p * 10 ^ e)) 0
      else
        let '(q, e', l) :=
          SFdiv_core_binary prec emax (Zpos p) 0 (10 ^ (- e)) 0 in
        binary_round_aux prec emax neg q e' l
  | Zneg _ => S754_nan
  end.

(** ** Decimal digits *)

Definition isDigit (c : code_unit) : bool := ((48 <=? c) && (c <=? 57))%N.
Definition digit_value (c : code_unit) : Z := Z.of_N c - 48.
Definition digit_char (d : Z) : code_unit := Z.to_N (d + 48).

(** Value of a digit string, most significant digit first. *)
Fixpoint digits_value (acc : Z) (ds : text) : Z :=
  match ds with
  | [] => acc
  | d :: r => digits_value (acc * 10 + digit_value d) r
  end.

Fixpoint Z_digits_aux (fuel : nat) (z : Z) (acc : text) : text :=
  match fuel with
  | O => acc
  | S f =>
      if (z <? 10)%Z then digit_char z :: acc
      else Z_digits_aux f (z / 10) (digit_char (z mod 10) :: acc)
  end.

(** Decimal digits of a non-negative integer, no leading zero. *)
Definition Z_digits (z : Z) : text :=
  Z_digits_aux (S (Z.to_nat (Z.log2 z))) z [].

(** ** [Number::toString]

    For a positive finite [x], ECMAScript asks for integers [n], [k], [s]
    with [10^(k-1) <= s < 10^k], such that the number nearest to
    [s * 10^(n-k)] is [x], with [k] as small as possible and, among several
    [s], the one nearest to [x].

    The exact value of [x = m * 2^e] is the fraction [num / den]. *)
Definition exact_num (m : positive) (e : Z) : Z :=
  if (0 <=? e)%Z then Zpos m * 2 ^ e else Zpos m.
Definition exact_den (e : Z) : Z :=
  if (0 <=? e)%Z then 1 else 2 ^ (- e).

(** [10^j <= num/den]. *)
Definition pow10_le (j : Z) (num den : Z) : bool :=
  if (0 <=? j)%Z then (10 ^ j * den <=? num)%Z
  else (den <=? num * 10 ^ (- j))%Z.

(** The [n] with [10^(n-1) <= num/den < 10^n], found downwards from an
    upper bound. *)
Fixpoint decimal_exponent (fuel : nat) (n : Z) (num den : Z) : Z :=
  match fuel with
  | O => n
  | S f => if pow10_le (n - 1) num den then n
           else decimal_exponent f (n - 1) num den
  end.

(** [floor ((num/den) / 10^j)]. *)
Definition scaled_floor (j : Z) (num den : Z) : Z :=
  if (0 <=? j)%Z then num / (den * 10 ^ j)
  else (num * 10 ^ (- j)) / den.

(** Sign of [(2*s+1) * 10^j - 2 * num/den]: which of [s] and [s+1] is
    nearer to the value. *)
Definition midpoint_compare (s j : Z) (num den : Z) : comparison :=
  if (0 <=? j)%Z then ((2 * s + 1) * 10 ^ j * den ?= 2 * num)%Z
  else ((2 * s + 1) * den ?= 2 * num * 10 ^ (- j))%Z.

(** A candidate is a pair [(s, j)] that stands for [s * 10^j]; it reads
    back when the number nearest to it is [x]. *)
Definition reads_back (x : number) (sj : Z * Z) : bool :=
  number_eqb (decimal_to_number false (fst sj) (snd sj)) x.

(** The candidates with [k] digits: the two multiples of [10^(n0-k)]
    around the value, the upper one written with [k] digits when it is a
    power of ten.  [None] when neither reads back as [x]. *)
Definition candidate (x : number) (num den n0 k : Z) : option (Z * Z) :=
  let j := (n0 - k)%Z in
  let lo := scaled_floor j num den in
  let hi := (lo + 1)%Z in
  let c_lo := (lo, j) in
  let c_hi := if (hi =? 10 ^ k)%Z then (10 ^ (k - 1), j + 1)%Z else (hi, j) in
  match reads_back x c_lo, reads_back x c_hi with
  | true, false => Some c_lo
  | false, true => Some c_hi
  | false, false => None
  | true, true =>
      match midpoint_compare lo j num den with
      | Gt => Some c_lo
      | Lt => Some c_hi
      | Eq => Some (if Z.even lo then c_lo else c_hi)
      end
  end.

(** The exact decimal expansion of [m * 2^e]: for a negative [e] it is
    [m * 5^(-e) * 10^e].  It always reads back as [x]. *)
Definition exact_expansion (m : positive) (e : Z) : Z * Z :=
  if (0 <=? e)%Z then (Zpos m * 2 ^ e, 0)%Z
  else (Zpos m * 5 ^ (- e), e)%Z.

(** The search for the smallest [k].  Seventeen digits always suffice for
    a binary64 value; the exact expansion ends the search and keeps the
    function total without relying on that fact. *)
Fixpoint shortest_from (fuel : nat) (x : number) (m : positive) (e : Z)
    (n0 k : Z) : Z * Z :=
  match fuel with
  | O => exact_expansion m e
  | S f =>
      match candidate x (exact_num m e) (exact_den e) n0 k with
      | Some r => r
      | None => shortest_from f x m e n0 (k + 1)
      end
  end.

Definition shortest_digits (m : positive) (e : Z) : Z * Z :=
  let num := exact_num m e in
  let den := exact_den e in
  let n0 := decimal_exponent 640 310 num den in
  shortest_from 17 (S754_finite false m e) m e n0 1.

(** Steps 6 to 10 of [Number::toString]: the layout of the digits of [s]
    for the decimal exponent [n]. *)
Definition exponent_part (n : Z) : text :=
  let e := (n - 1)%Z in
  [101%N] ++ (if (0 <=? e)%Z then [Ch.PLUS] else [Ch.MINUS])
          ++ Z_digits (Z.abs e).

Definition layout_digits (ds : text) (n : Z) : text :=
  let k := Z.of_nat (List.length ds) in
  if ((k <=? n) && (n <=? 21))%Z then
    ds ++ List.repeat 48%N (Z.to_nat (n - k))
  else if ((0 <? n) && (n <=? 21))%Z then
    firstn (Z.to_nat n) ds ++ [Ch.DOT] ++ skipn (Z.to_nat n) ds
  else if ((-6 <? n) && (n <=? 0))%Z then
    [48%N; Ch.DOT] ++ List.repeat 48%N (Z.to_nat (- n)) ++ ds
  else
    match ds with
    | [d] => [d] ++ exponent_part n
    | d :: r => [d; Ch.DOT] ++ r ++ exponent_part n
    | [] => []
    end.

Definition Number_toString (x : number) : text :=
  match x with
  | S754_nan => lit "NaN"
  | S754_zero _ => lit "0"
  | S754_infinity neg =>
      (if neg then [Ch.MINUS] else []) ++ lit "Infinity"
  | S754_finite neg m e =>
      let '(s, j) := shortest_digits m e in
      let ds := Z_digits s in
      (if neg then [Ch.MINUS] else [])
      ++ layout_digits ds (Z.of_nat (List.length ds) + j)
  end.

(* ================================================================== *)
(** * Host layer: JSON values

    The values [JSON.parse] builds.  An object is its list of own
    properties in the order [OrdinaryOwnPropertyKeys] reports them. *)
#[warnings="-register-all"]
Inductive value :=
| JNull
| JBool (b : bool)
| JNumber (x : number)
| JString (s : text)
| JArray (elements : list value)
| JObject (properties : list (text * value)).

Definition object := list (text * value).

Fixpoint text_eqb (a b : text) : bool :=
  match a, b with
  | [], [] => true
  | x :: a', y :: b' => (x =? y)%N && text_eqb a' b'
  | _, _ => false
  end.

(** ** Results of a partial computation *)
Inductive result (A : Type) :=
| Ok (a : A)
| SyntaxError
| OutOfFuel.
Arguments Ok {A} a.
Arguments SyntaxError {A}.
Arguments OutOfFuel {A}.

Definition bind {A B} (r : result A) (f : A -> result B) : result B :=
  match r with
  | Ok a => f a
  | SyntaxError => SyntaxError
  | OutOfFuel => OutOfFuel
  end.

Notation "'let*' p ':=' r 'in' k" := (bind r (fun p => k))
  (at level 10, p pattern, r at level 100, k at level 200).

(* ------------------------------------------------------------------ *)
(** ** [JSON.stringify] *)

Definition isHighSurrogate (c : code_unit) : bool :=
  ((55296 <=? c) && (c <=? 56319))%N.
Definition isLowSurrogate (c : code_unit) : bool :=
  ((56320 <=? c) && (c <=? 57343))%N.

Definition hex_char (d : N) : code_unit :=
  if (d <? 10)%N then (48 + d)%N else (87 + d)%N.

(** [UnicodeEscape]: backslash, u and four lowercase hexadecimal digits. *)
Definition unicodeEscape (c : code_unit) : text :=
  [Ch.BACKSLASH; 117%N;
   hex_char (c / 4096 mod 16); hex_char (c / 256 mod 16);
   hex_char (c / 16 mod 16); hex_char (c mod 16)]%N.

(** One code point of [QuoteJSONString] that is a single code unit. *)
Definition quote_unit (c : code_unit) : text :=
  if (c =? 8)%N then [Ch.BACKSLASH; 98%N]
  else if (c =? 9)%N then [Ch.BACKSLASH; 116%N]
  else if (c =? 10)%N then [Ch.BACKSLASH; 110%N]
  else if (c =? 12)%N then [Ch.BACKSLASH; 102%N]
  else if (c =? 13)%N then [Ch.BACKSLASH; 114%N]
  else if (c =? Ch.QUOTE)%N then [Ch.BACKSLASH; Ch.QUOTE]
  else if (c =? Ch.BACKSLASH)%N then [Ch.BACKSLASH; Ch.BACKSLASH]
  else if (c <? 32)%N || isHighSurrogate c || isLowSurrogate c
       then unicodeEscape c
  else [c].

(** The loop of [QuoteJSONString] over the code points of the string: a
    leading surrogate followed by a trailing one is one code point and is
    copied; a surrogate on its own is escaped. *)
Fixpoint quote_units (s : text) : text :=
  match s with
  | [] => []
  | c :: r =>
      if isHighSurrogate c then
        match r with
        | d :: r' =>
            if isLowSurrogate d then c :: d :: quote_units r'
            else quote_unit c ++ quote_units r
        | [] => quote_unit c
        end
      else quote_unit c ++ quote_units r
  end.

Definition QuoteJSONString (s : text) : text :=
  [Ch.QUOTE] ++ quote_units s ++ [Ch.QUOTE].

Fixpoint join (sep : text) (parts : list text) : text :=
  match parts with
  | [] => []
  | [p] => p
  | p :: ps => p ++ sep ++ join sep ps
  end.

(** [SerializeJSONObject] and [SerializeJSONArray] once the members are
    serialized: [inner] is the indentation of the members, [stepback] that
    of the closing bracket. *)
Definition wrap (open close : code_unit) (gap stepback inner : text)
    (partial : list text) : text :=
  match partial with
  | [] => [open; close]
  | _ =>
      if isEmpty gap
      then [open] ++ join [Ch.COMMA] partial ++ [close]
      else [open] ++ [Ch.LF] ++ inner
           ++ join ([Ch.COMMA; Ch.LF] ++ inner) partial
           ++ [Ch.LF] ++ stepback ++ [close]
  end.

(** [SerializeJSONProperty] for the values above, with the state of the
    abstract operation ([gap], [indent]) passed along. *)
Fixpoint SerializeJSONProperty (gap indent : text) (v : value) : text :=
  match v with
  | JNull => lit "null"
  | JBool true => lit "true"
  | JBool false => lit "false"
  | JString s => QuoteJSONString s
  | JNumber x => if isFiniteNumber x then Number_toString x else lit "null"
  | JArray l =>
      let inner := indent ++ gap in
      wrap Ch.LBRACKET Ch.RBRACKET gap indent inner
        (List.map (SerializeJSONProperty gap inner) l)
  | JObject ps =>
      let inner := indent ++ gap in
      wrap Ch.LBRACE Ch.RBRACE gap indent inner
        (List.map (fun p : text * value =>
                     let (k, w) := p in
                     QuoteJSONString k ++ [Ch.COLON]
                       ++ (if isEmpty gap then [] else [Ch.SP])
                       ++ SerializeJSONProperty gap inner w) ps)
  end.

(** [JSON.stringify(value, null, space)] for a number [space]: the gap is
    [min(10, space)] spaces.  [JSON.stringify(value)] has the empty gap. *)
Definition JSON_stringify (v : value) (space : nat) : text :=
  SerializeJSONProperty (List.repeat Ch.SP (Nat.min 10 space)) [] v.

(* ------------------------------------------------------------------ *)
(** ** [JSON.parse] *)

(** JSON whitespace: tab, line feed, carriage return, space. *)
Definition isJSONWS (c : code_unit) : bool :=
  ((c =? 9) || (c =? 10) || (c =? 13) || (c =? 32))%N.

Definition skip_ws (s : text) : text := dropWhile isJSONWS s.

Definition hex_value (c : code_unit) : option N :=
  if ((48 <=? c) && (c <=? 57))%N then Some (c - 48)%N
  else if ((97 <=? c) && (c <=? 102))%N then Some (c - 87)%N
  else if ((65 <=? c) && (c <=? 70))%N then Some (c - 55)%N
  else None.

(** The characters of a string literal behind the opening quote. *)
Fixpoint lex_string (s : text) : result (text * text) :=
  match s with
  | [] => SyntaxError
  | c :: r =>
      if (c =? Ch.QUOTE)%N then Ok ([], r)
      else if (c =? Ch.BACKSLASH)%N then
        match r with
        | [] => SyntaxError
        | e :: r1 =>
            let simple u :=
              let* (str, rest) := lex_string r1 in Ok (u :: str, rest) in
            if (e =? Ch.QUOTE)%N then simple Ch.QUOTE
            else if (e =? Ch.BACKSLASH)%N then simple Ch.BACKSLASH
            else if (e =? Ch.SLASH)%N then simple Ch.SLASH
            else if (e =? 98)%N then simple 8%N
            else if (e =? 102)%N then simple 12%N
            else if (e =? 110)%N then simple 10%N
            else if (e =? 114)%N then simple 13%N
            else if (e =? 116)%N then simple 9%N
            else if (e =? 117)%N then
              match r1 with
              | h1 :: h2 :: h3 :: h4 :: r2 =>
                  match hex_value h1, hex_value h2,
                        hex_value h3, hex_value h4 with
                  | Some a, Some b, Some c', Some d =>
                      let* (str, rest) := lex_string r2 in
                      Ok ((a * 4096 + b * 256 + c' * 16 + d)%N :: str, rest)
                  | _, _, _, _ => SyntaxError
                  end
              | _ => SyntaxError
              end
            else SyntaxError
        end
      else if (c <? 32)%N then SyntaxError
      else let* (str, rest) := lex_string r in Ok (c :: str, rest)
  end.

(** A number literal: an optional minus sign; an integer part, either a
    single zero or a digit from 1 to 9 followed by any digits; an optional
    fraction, a dot followed by at least one digit; an optional exponent,
    e or E, an optional sign and at least one digit. *)
Definition lex_int (s : text) : result (text * text) :=
  match s with
  | [] => SyntaxError
  | d :: r =>
      if (d =? 48)%N then Ok ([d], r)
      else if isDigit d then Ok (d :: takeWhile isDigit r, dropWhile isDigit r)
      else SyntaxError
  end.

Definition lex_frac (s : text) : result (text * text) :=
  match s with
  | c :: r =>
      if (c =? Ch.DOT)%N then
        match takeWhile isDigit r with
        | [] => SyntaxError
        | ds => Ok (ds, dropWhile isDigit r)
        end
      else Ok ([], s)
  | [] => Ok ([], s)
  end.

Definition lex_exp (s : text) : result (Z * text) :=
  match s with
  | c :: r =>
      if ((c =? 101) || (c =? 69))%N then
        let '(neg, r1) :=
          match r with
          | sg :: r' =>
              if (sg =? Ch.MINUS)%N then (true, r')
              else if (sg =? Ch.PLUS)%N then (false, r')
              else (false, r)
          | [] => (false, r)
          end in
        match takeWhile isDigit r1 with
        | [] => SyntaxError
        | ds => let e := digits_value 0 ds in
                Ok (if neg then (- e)%Z else e, dropWhile isDigit r1)
        end
      else Ok (0%Z, s)
  | [] => Ok (0%Z, s)
  end.

Definition lex_unsigned (neg : bool) (s1 : text) : result (number * text) :=
  let* (int, s2) := lex_int s1 in
  let* (frac, s3) := lex_frac s2 in
  let* (e, s4) := lex_exp s3 in
  Ok (decimal_to_number neg (digits_value 0 (int ++ frac))
        (e - Z.of_nat (List.length frac)), s4).

Definition lex_number (s : text) : result (number * text) :=
  match s with
  | c :: r => if (c =? Ch.MINUS)%N then lex_unsigned true r
              else lex_unsigned false s
  | [] => lex_unsigned false s
  end.

(** [s] starts with the keyword [kw]. *)
Fixpoint strip_prefix (kw s : text) : option text :=
  match kw, s with
  | [], _ => Some s
  | k :: kw', c :: r => if (k =? c)%N then strip_prefix kw' r else None
  | _ :: _, [] => None
  end.

Definition lex_keyword (kw : text) (v : value) (s : text)
  : result (value * text) :=
  match strip_prefix kw s with
  | Some r => Ok (v, r)
  | None => SyntaxError
  end.

(** The grammar, by recursive descent.  The members of an object literal
    are returned in the order of the text; [evaluate] below turns them
    into properties. *)
Fixpoint parse_value (fuel : nat) (s : text) {struct fuel}
  : result (value * text) :=
  match fuel with
  | O => OutOfFuel
  | S f =>
      match skip_ws s with
      | [] => SyntaxError
      | c :: r =>
          if (c =? Ch.LBRACE)%N then
            match skip_ws r with
            | c' :: r' =>
                if (c' =? Ch.RBRACE)%N then Ok (JObject [], r')
                else let* (ms, rest) := parse_members f r in
                     Ok (JObject ms, rest)
            | [] => SyntaxError
            end
          else if (c =? Ch.LBRACKET)%N then
            match skip_ws r with
            | c' :: r' =>
                if (c' =? Ch.RBRACKET)%N then Ok (JArray [], r')
                else let* (vs, rest) := parse_elements f r in
                     Ok (JArray vs, rest)
            | [] => SyntaxError
            end
          else if (c =? Ch.QUOTE)%N then
            let* (str, rest) := lex_string r in Ok (JString str, rest)
          else if (c =? 116)%N then lex_keyword (lit "true") (JBool true) (c :: r)
          else if (c =? 102)%N then lex_keyword (lit "false") (JBool false) (c :: r)
          else if (c =? 110)%N then lex_keyword (lit "null") JNull (c :: r)
          else if (c =? Ch.MINUS)%N || isDigit c then
            let* (x, rest) := lex_number (c :: r) in Ok (JNumber x, rest)
          else SyntaxError
      end
  end
with parse_elements (fuel : nat) (s : text) {struct fuel}
  : result (list value * text) :=
  match fuel with
  | O => OutOfFuel
  | S f =>
      let* (v, r) := parse_value f s in
      match skip_ws r with
      | c :: r' =>
          if (c =? Ch.COMMA)%N then
            let* (vs, rest) := parse_elements f r' in Ok (v :: vs, rest)
          else if (c =? Ch.RBRACKET)%N then Ok ([v], r')
          else SyntaxError
      | [] => SyntaxError
      end
  end
with parse_members (fuel : nat) (s : text) {struct fuel}
  : result (list (text * value) * text) :=
  match fuel with
  | O => OutOfFuel
  | S f =>
      match skip_ws s with
      | q :: r0 =>
          if (q =? Ch.QUOTE)%N then
            let* (k, r1) := lex_string r0 in
            match skip_ws r1 with
            | c1 :: r2 =>
                if (c1 =? Ch.COLON)%N then
                  let* (v, r3) := parse_value f r2 in
                  match skip_ws r3 with
                  | c :: r' =>
                      if (c =? Ch.COMMA)%N then
                        let* (ms, rest) := parse_members f r' in
                        Ok ((k, v) :: ms, rest)
                      else if (c =? Ch.RBRACE)%N then Ok ([(k, v)], r')
                      else SyntaxError
                  | [] => SyntaxError
                  end
                else SyntaxError
            | [] => SyntaxError
            end
          else SyntaxError
      | [] => SyntaxError
      end
  end.

(** ** Property order of an ordinary object

    [OrdinaryOwnPropertyKeys] lists the array-index keys first, in
    ascending numeric order, then the other string keys in the order in
    which they were created.  An array index is the canonical decimal
    spelling of an integer from 0 to 2^32 - 2. *)
Definition array_index (k : text) : option Z :=
  if forallb isDigit k && negb (isEmpty k) then
    let i := digits_value 0 k in
    if text_eqb (Z_digits i) k && (i <? 4294967295)%Z then Some i else None
  else None.

Fixpoint has_key (k : text) (o : object) : bool :=
  match o with
  | [] => false
  | (k', _) :: r => text_eqb k k' || has_key k r
  end.

Fixpoint set_value (k : text) (v : value) (o : object) : object :=
  match o with
  | [] => []
  | (k', v') :: r =>
      if text_eqb k k' then (k', v) :: r else (k', v') :: set_value k v r
  end.

Fixpoint insert_index (i : Z) (k : text) (v : value) (o : object) : object :=
  match o with
  | [] => [(k, v)]
  | (k', v') :: r =>
      match array_index k' with
      | Some i' => if (i <? i')%Z then (k, v) :: o
                   else (k', v') :: insert_index i k v r
      | None => (k, v) :: o
      end
  end.

(** [CreateDataProperty] on an ordinary object: an existing key keeps its
    place and takes the new value; a new key goes where the order above
    puts it. *)
Definition define_property (o : object) (k : text) (v : value) : object :=
  if has_key k o then set_value k v o
  else match array_index k with
       | Some i => insert_index i k v o
       | None => o ++ [(k, v)]
       end.

(** Evaluation of the parsed literal: the members of every object literal
    are defined one after the other, in the order of the text. *)
Fixpoint evaluate (v : value) : value :=
  match v with
  | JArray l => JArray (List.map evaluate l)
  | JObject ms =>
      JObject (fold_left
                 (fun (o : object) (p : text * value) =>
                    let (k, w) := p in define_property o k (evaluate w))
                 ms [])
  | _ => v
  end.

(** [JSON.parse(text)].  Every call of the descent is preceded by at most
    one call that consumes nothing, so twice the length of the text is
    fuel enough (theorem [JSON_parse_fuel] below). *)
Definition JSON_parse (t : text) : result value :=
  match parse_value (2 * List.length t + 1) t with
  | Ok (v, r) =>
      match skip_ws r with
      | [] => Ok (evaluate v)
      | _ :: _ => SyntaxError
      end
  | SyntaxError => SyntaxError
  | OutOfFuel => OutOfFuel
  end.

(** [ToBoolean] of a value: [null], [false], zero and the empty string are
    falsy; every array and object is truthy. *)
Definition truthy (v : value) : bool :=
  match v with
  | JNull => false
  | JBool b => b
  | JNumber x => number_truthy x
  | JString s => negb (isEmpty s)
  | JArray _ | JObject _ => true
  end.

(** ** [Blob] size and [String.prototype.split]

    [new Blob([text]).size] is the length of the UTF-8 encoding of the
    text, in which a surrogate pair takes four bytes and a surrogate on its
    own is replaced by U+FFFD, three bytes. *)
Fixpoint utf8_length (s : text) : N :=
  match s with
  | [] => 0
  | c :: r =>
      if (c <? 128)%N then 1 + utf8_length r
      else if (c <? 2048)%N then 2 + utf8_length r
      else if isHighSurrogate c then
        match r with
        | d :: r' => if isLowSurrogate d then 4 + utf8_length r'
                     else 3 + utf8_length r
        | [] => 3
        end
      else 3 + utf8_length r
  end%N.

(** [text.split(sep)] for a separator of one code unit: the segments
    between the separators, at least one. *)
Fixpoint split (sep : code_unit) (s : text) : list text :=
  match s with
  | [] => [[]]
  | c :: r =>
      if (c =? sep)%N then [] :: split sep r
      else match split sep r with
           | seg :: segs => (c :: seg) :: segs
           | [] => [[c]]
           end
  end.

(* ================================================================== *)
(** * The program: [script.js] *)

(** ** [analyzeJSON] (script.js 119-135)

    The closure [traverse] increments the two counters of the enclosing
    call; the counters are passed through as a pair [(objects, arrays)].
    [forEach] visits the elements in order, [Object.values] lists the
    values of the properties in key order. *)
Record stats := { objects : nat; arrays : nat }.

Fixpoint traverse (obj : value) (st : stats) : stats :=
  match obj with
  | JArray l =>
      fold_left (fun st' elt => traverse elt st') l
        {| objects := objects st; arrays := S (arrays st) |}
  | JObject ps =>
      fold_left (fun st' (p : text * value) => traverse (snd p) st') ps
        {| objects := S (objects st); arrays := arrays st |}
  | _ => st
  end.

Definition analyzeJSON (data : value) : stats :=
  traverse data {| objects := 0; arrays := 0 |}.

(** The reference count of the specification: an array node counts one
    array and adds the counts of its elements, a keyed node counts one
    object and adds the counts of its values, a scalar counts nothing. *)
Fixpoint count_objects (v : value) : nat :=
  match v with
  | JArray l => list_sum (List.map count_objects l)
  | JObject ps => S (list_sum (List.map (fun p => count_objects (snd p)) ps))
  | _ => 0
  end.

Fixpoint count_arrays (v : value) : nat :=
  match v with
  | JArray l => S (list_sum (List.map count_arrays l))
  | JObject ps => list_sum (List.map (fun p => count_arrays (snd p)) ps)
  | _ => 0
  end.

(** ** The state of the page

    The globals of the script ([isValidJSON], [jsonData]), the fields of
    the document it reads and writes, and the entry [jsonToolContent] of
    [localStorage].  [jsonData] is a JavaScript value; its initial [null]
    is the same value as the one [JSON.parse] returns for the text
    [null].  [jsonSize] holds the byte count that [formatFileSize] then
    renders; the rendering is not modelled. *)
Record EditorState := {
  isValidJSON : bool;
  jsonData : value;
  editor_value : text;
  editor_className : text;
  errorDisplay : text;
  errorDisplay_show : bool;
  successDisplay : text;
  successDisplay_show : bool;
  jsonStatus : text;
  jsonSize : N;
  jsonLines : nat;
  jsonObjects : nat;
  jsonArrays : nat;
  jsonToolContent : option text;
  notification : option (text * text)
}.

Definition initialState : EditorState := {|
  isValidJSON := false;
  jsonData := JNull;
  editor_value := [];
  editor_className := lit "json-editor";
  errorDisplay := [];
  errorDisplay_show := false;
  successDisplay := [];
  successDisplay_show := false;
  jsonStatus := lit "Ready";
  jsonSize := 0;
  jsonLines := 0;
  jsonObjects := 0;
  jsonArrays := 0;
  jsonToolContent := None;
  notification := None
|}.

Definition set_editor_value (v : text) (st : EditorState) : EditorState := {|
  isValidJSON := isValidJSON st;
  jsonData := jsonData st;
  editor_value := v;
  editor_className := editor_className st;
  errorDisplay := errorDisplay st;
  errorDisplay_show := errorDisplay_show st;
  successDisplay := successDisplay st;
  successDisplay_show := successDisplay_show st;
  jsonStatus := jsonStatus st;
  jsonSize := jsonSize st;
  jsonLines := jsonLines st;
  jsonObjects := jsonObjects st;
  jsonArrays := jsonArrays st;
  jsonToolContent := jsonToolContent st;
  notification := notification st
|}.

(** [showNotification] (script.js 367-376); the removal of the message
    after three seconds is not modelled. *)
Definition showNotification (message type : text) (st : EditorState)
  : EditorState := {|
  isValidJSON := isValidJSON st;
  jsonData := jsonData st;
  editor_value := editor_value st;
  editor_className := editor_className st;
  errorDisplay := errorDisplay st;
  errorDisplay_show := errorDisplay_show st;
  successDisplay := successDisplay st;
  successDisplay_show := successDisplay_show st;
  jsonStatus := jsonStatus st;
  jsonSize := jsonSize st;
  jsonLines := jsonLines st;
  jsonObjects := jsonObjects st;
  jsonArrays := jsonArrays st;
  jsonToolContent := jsonToolContent st;
  notification := Some (message, type)
|}.

(** [localStorage.setItem('jsonToolContent', text)] when the store
    accepts the text. *)
Definition setItem_jsonToolContent (t : text) (st : EditorState)
  : EditorState := {|
  isValidJSON := isValidJSON st;
  jsonData := jsonData st;
  editor_value := editor_value st;
  editor_className := editor_className st;
  errorDisplay := errorDisplay st;
  errorDisplay_show := errorDisplay_show st;
  successDisplay := successDisplay st;
  successDisplay_show := successDisplay_show st;
  jsonStatus := jsonStatus st;
  jsonSize := jsonSize st;
  jsonLines := jsonLines st;
  jsonObjects := jsonObjects st;
  jsonArrays := jsonArrays st;
  jsonToolContent := Some t;
  notification := notification st
|}.

(** [updateStatistics] (script.js 99-105). *)
Definition updateStatistics (t : text) (st : EditorState) : EditorState :=
  let size := utf8_length t in
  let lines := if isEmpty t then 0 else List.length (split Ch.LF t) in
  {|
    isValidJSON := isValidJSON st;
    jsonData := jsonData st;
    editor_value := editor_value st;
    editor_className := editor_className st;
    errorDisplay := errorDisplay st;
    errorDisplay_show := errorDisplay_show st;
    successDisplay := successDisplay st;
    successDisplay_show := successDisplay_show st;
    jsonStatus := jsonStatus st;
    jsonSize := size;
    jsonLines := lines;
    jsonObjects := jsonObjects st;
    jsonArrays := jsonArrays st;
    jsonToolContent := jsonToolContent st;
    notification := notification st
  |}.

(** [updateJSONStatistics] (script.js 110-114). *)
Definition updateJSONStatistics (data : value) (st : EditorState)
  : EditorState :=
  let s := analyzeJSON data in
  {|
    isValidJSON := isValidJSON st;
    jsonData := jsonData st;
    editor_value := editor_value st;
    editor_className := editor_className st;
    errorDisplay := errorDisplay st;
    errorDisplay_show := errorDisplay_show st;
    successDisplay := successDisplay st;
    successDisplay_show := successDisplay_show st;
    jsonStatus := jsonStatus st;
    jsonSize := jsonSize st;
    jsonLines := jsonLines st;
    jsonObjects := objects s;
    jsonArrays := arrays s;
    jsonToolContent := jsonToolContent st;
    notification := notification st
  |}.

(** The two tests of the catch block, [/line (\d+)/i] and
    [/position (\d+)/i]: somewhere in the message stands the word, in any
    case of its ASCII letters, then a space and a digit. *)
Definition toLower (c : code_unit) : code_unit :=
  if ((65 <=? c) && (c <=? 90))%N then (c + 32)%N else c.

Fixpoint starts_with_ci (w s : text) : option text :=
  match w, s with
  | [], _ => Some s
  | a :: w', c :: r =>
      if (a =? toLower c)%N then starts_with_ci w' r else None
  | _ :: _, [] => None
  end.

Fixpoint matches_word_digits (w : text) (s : text) : bool :=
  match s with
  | [] => false
  | _ :: r =>
      match starts_with_ci (w ++ [Ch.SP]) s with
      | Some (d :: _) => isDigit d || matches_word_digits w r
      | _ => matches_word_digits w r
      end
  end.

Definition CROSS_MARK : code_unit := 10060%N.        (* U+274C *)
Definition CHECK_MARK : code_unit := 9989%N.         (* U+2705 *)

(** The state in which the guard of [formatJSON] and [minifyJSON] leaves
    the page (script.js 141-144, 160-163). *)
Definition precondition_error (st : EditorState) : EditorState :=
  showNotification (lit "Please enter valid JSON first!") (lit "error") st.

Section Host.

(** The message of the exception that the host's [JSON.parse] throws for
    a text it rejects.  ECMAScript leaves it to the implementation. *)
Variable error_message : text -> text.

(** [validateJSON] (script.js 32-94) in a run in which the store
    accepts the text and the stack suffices for [analyzeJSON]: the catch
    block then receives only what [JSON.parse] throws.  The run with the
    exceptions of the host is [Exn.validateJSON] below. *)
Definition validateJSON (st : EditorState) : EditorState :=
  let t := trim (editor_value st) in
  let st := setItem_jsonToolContent t st in
  let st := updateStatistics t st in
  if isEmpty t then
    {|
      isValidJSON := false;
      jsonData := JNull;
      editor_value := editor_value st;
      editor_className := lit "json-editor";
      errorDisplay := errorDisplay st;
      errorDisplay_show := false;
      successDisplay := successDisplay st;
      successDisplay_show := false;
      jsonStatus := lit "Ready";
      jsonSize := jsonSize st;
      jsonLines := jsonLines st;
      jsonObjects := jsonObjects st;
      jsonArrays := jsonArrays st;
      jsonToolContent := jsonToolContent st;
      notification := notification st
    |}
  else
    match JSON_parse t with
    | Ok data =>
        updateJSONStatistics data
          {|
            isValidJSON := true;
            jsonData := data;
            editor_value := editor_value st;
            editor_className := lit "json-editor success";
            errorDisplay := errorDisplay st;
            errorDisplay_show := false;
            successDisplay := CHECK_MARK :: lit " Valid JSON";
            successDisplay_show := true;
            jsonStatus := lit "Valid";
            jsonSize := jsonSize st;
            jsonLines := jsonLines st;
            jsonObjects := jsonObjects st;
            jsonArrays := jsonArrays st;
            jsonToolContent := jsonToolContent st;
            notification := notification st
          |}
    | _ =>
        let errorMessage := error_message t in
        let lineMatch := matches_word_digits (lit "line") errorMessage in
        let posMatch := matches_word_digits (lit "position") errorMessage in
        let errorMessage :=
          if lineMatch || posMatch
          then CROSS_MARK :: lit " Syntax Error: " ++ errorMessage
          else CROSS_MARK :: lit " Invalid JSON: " ++ errorMessage in
        {|
          isValidJSON := false;
          jsonData := JNull;
          editor_value := editor_value st;
          editor_className := lit "json-editor error";
          errorDisplay := errorMessage;
          errorDisplay_show := true;
          successDisplay := successDisplay st;
          successDisplay_show := false;
          jsonStatus := lit "Invalid";
          jsonSize := jsonSize st;
          jsonLines := jsonLines st;
          jsonObjects := jsonObjects st;
          jsonArrays := jsonArrays st;
          jsonToolContent := jsonToolContent st;
          notification := notification st
        |}
    end.

(** [formatJSON] (script.js 140-154) in a run in which neither
    [JSON.stringify] nor [validateJSON] throws, so that the catch block
    is not entered.  The run with the exceptions of the host is
    [Exn.formatJSON] below. *)
Definition formatJSON (st : EditorState) : EditorState :=
  if negb (isValidJSON st) || negb (truthy (jsonData st)) then
    precondition_error st
  else
    let formatted := JSON_stringify (jsonData st) 2 in
    let st := set_editor_value formatted st in
    let st := validateJSON st in
    showNotification (lit "JSON formatted successfully!") (lit "success") st.

(** [minifyJSON] (script.js 159-173), likewise; with the exceptions of
    the host it is [Exn.minifyJSON]. *)
Definition minifyJSON (st : EditorState) : EditorState :=
  if negb (isValidJSON st) || negb (truthy (jsonData st)) then
    precondition_error st
  else
    let minified := JSON_stringify (jsonData st) 0 in
    let st := set_editor_value minified st in
    let st := validateJSON st in
    showNotification (lit "JSON minified successfully!") (lit "success") st.

(** [compressJSON] (script.js 178-194). *)
Definition compressJSON (st : EditorState) : EditorState :=
  let t := trim (editor_value st) in
  if isEmpty t then
    showNotification (lit "Please enter some JSON first!") (lit "error") st
  else
    let st := set_editor_value (compressed t) st in
    let st := validateJSON st in
    showNotification (lit "Whitespace removed successfully!")
      (lit "success") st.

(** The object literal of [loadSampleJSON] (script.js 284-315): its
    members are defined in the order of the source. *)
Definition str (s : string) : value := JString (lit s).



(** ** The outcome of a validation pass

    The three states of the specification, read off the page: the status
    label tells them apart, [jsonData] holds the value and [errorDisplay]
    the message. *)
Inductive ValidationOutcome :=
| Empty
| Valid (v : value)
| Invalid (message : text).

Definition outcome (st : EditorState) : ValidationOutcome :=
  if text_eqb (jsonStatus st) (lit "Valid") then Valid (jsonData st)
  else if text_eqb (jsonStatus st) (lit "Invalid") then Invalid (errorDisplay st)
  else Empty.

(** [validate(text)]: the outcome of [validateJSON] on a page whose editor
    holds [text], a text without carriage return as the editor returns
    it.  [Exn.validate] below takes any text. *)
Definition validate (t : text) : ValidationOutcome :=
  outcome (validateJSON (set_editor_value t initialState)).

End Host.

(* ================================================================== *)
(** * Reference definitions of the specification *)

(** ** The two canonical forms

    Written after the words of the specification, to be compared with
    [JSON_stringify]: the pretty form puts every member of a non-empty
    array or object on a line of its own, behind two spaces for each
    level of nesting, in the order of the value; the compact form has no
    whitespace between tokens. *)
Definition scalar_text (v : value) : text :=
  match v with
  | JNull => lit "null"
  | JBool true => lit "true"
  | JBool false => lit "false"
  | JString s => QuoteJSONString s
  | JNumber x => if isFiniteNumber x then Number_toString x else lit "null"
  | JArray _ | JObject _ => []
  end.

Definition spec_indent (level : nat) : text := List.repeat Ch.SP (2 * level).

Definition spec_block (open close : code_unit) (level : nat)
    (members : list text) : text :=
  match members with
  | [] => [open; close]
  | _ =>
      [open] ++ [Ch.LF]
      ++ join [Ch.COMMA; Ch.LF]
           (List.map (fun m => spec_indent (S level) ++ m) members)
      ++ [Ch.LF] ++ spec_indent level ++ [close]
  end.

Fixpoint spec_pretty (level : nat) (v : value) : text :=
  match v with
  | JArray l =>
      spec_block Ch.LBRACKET Ch.RBRACKET level
        (List.map (spec_pretty (S level)) l)
  | JObject ps =>
      spec_block Ch.LBRACE Ch.RBRACE level
        (List.map (fun p : text * value =>
                     QuoteJSONString (fst p) ++ [Ch.COLON; Ch.SP]
                       ++ spec_pretty (S level) (snd p)) ps)
  | _ => scalar_text v
  end.

Fixpoint spec_compact (v : value) : text :=
  match v with
  | JArray l =>
      [Ch.LBRACKET] ++ join [Ch.COMMA] (List.map spec_compact l)
      ++ [Ch.RBRACKET]
  | JObject ps =>
      [Ch.LBRACE]
      ++ join [Ch.COMMA]
           (List.map (fun p : text * value =>
                        QuoteJSONString (fst p) ++ [Ch.COLON]
                          ++ spec_compact (snd p)) ps)
      ++ [Ch.RBRACE]
  | _ => scalar_text v
  end.

(** Insignificant whitespace is JSON whitespace outside string literals.
    [strip_layout] removes it; the scanner remembers whether it is inside
    a literal and whether the previous code unit was an escaping
    backslash. *)
Inductive scan_mode := Outside | InString | Escaped.

Fixpoint strip_layout (mode : scan_mode) (s : text) : text :=
  match s with
  | [] => []
  | c :: r =>
      match mode with
      | Outside =>
          if (c =? Ch.QUOTE)%N then c :: strip_layout InString r
          else if isJSONWS c then strip_layout Outside r
          else c :: strip_layout Outside r
      | InString =>
          if (c =? Ch.BACKSLASH)%N then c :: strip_layout Escaped r
          else if (c =? Ch.QUOTE)%N then c :: strip_layout Outside r
          else c :: strip_layout InString r
      | Escaped => c :: strip_layout InString r
      end
  end.

(** ** Values the parser can produce

    A binary64 value is a [spec_float] whose mantissa and exponent are in
    range.  The numbers that survive serialization are the finite ones
    other than negative zero: [JSON.stringify] writes [null] for an
    infinity and [0] for both zeros. *)
Definition binary64 (x : number) : bool := valid_binary prec emax x.

(** What rounding returns: a binary64 value other than NaN. *)
Definition rounded (x : number) : bool :=
  match x with
  | S754_nan => false
  | _ => binary64 x
  end.

Definition number_survives (x : number) : bool :=
  match x with
  | S754_zero neg => negb neg
  | S754_finite _ _ _ => true
  | S754_infinity _ | S754_nan => false
  end.

Fixpoint numbers_survive (v : value) : bool :=
  match v with
  | JNumber x => number_survives x
  | JArray l => forallb numbers_survive l
  | JObject ps => forallb (fun p => numbers_survive (snd p)) ps
  | _ => true
  end.

(** The keys of an ordinary object: array indices first, ascending, then
    the other keys, no key twice.  [last] is the greatest index so far,
    [seen] the other keys so far. *)
Fixpoint ordered_keys (last : option Z) (seen : option (list text))
    (ks : list text) : bool :=
  match ks with
  | [] => true
  | k :: r =>
      match array_index k, seen with
      | Some i, None =>
          match last with
          | Some j => (j <? i)%Z
          | None => true
          end && ordered_keys (Some i) None r
      | Some _, Some _ => false
      | None, None => ordered_keys last (Some [k]) r
      | None, Some ks' =>
          negb (existsb (text_eqb k) ks') && ordered_keys last (Some (k :: ks')) r
      end
  end.

Fixpoint well_formed (v : value) : bool :=
  match v with
  | JNumber x => rounded x
  | JArray l => forallb well_formed l
  | JObject ps =>
      ordered_keys None None (List.map fst ps)
      && forallb (fun p => well_formed (snd p)) ps
  | _ => true
  end.

(** The order of the keys alone, in every object of a value. *)
Fixpoint keys_ordered (v : value) : bool :=
  match v with
  | JArray l => forallb keys_ordered l
  | JObject ps =>
      ordered_keys None None (List.map fst ps)
      && forallb (fun p => keys_ordered (snd p)) ps
  | _ => true
  end.

(** The keys of an object literal that are no array indices, each once,
    in the order in which the literal first has them. *)
Definition is_index (k : text) : bool :=
  match array_index k with Some _ => true | None => false end.

Definition other_keys (ks : list text) : list text :=
  filter (fun k => negb (is_index k)) ks.

Fixpoint first_occurrences (seen ks : list text) : list text :=
  match ks with
  | [] => []
  | k :: r =>
      if existsb (text_eqb k) seen then first_occurrences seen r
      else k :: first_occurrences (k :: seen) r
  end.

(** Every number of the value is finite. *)
Fixpoint numbers_finite (v : value) : bool :=
  match v with
  | JNumber x => isFiniteNumber x
  | JArray l => forallb numbers_finite l
  | JObject ps => forallb (fun p => numbers_finite (snd p)) ps
  | _ => true
  end.

(** The value with every negative zero replaced by zero.  The two zeros
    are equal for [===]; [JSON.stringify] writes both as [0]. *)
Fixpoint positive_zero (v : value) : value :=
  match v with
  | JNumber (S754_zero _) => JNumber (S754_zero false)
  | JArray l => JArray (List.map positive_zero l)
  | JObject ps =>
      JObject (List.map (fun p : text * value =>
                           (fst p, positive_zero (snd p))) ps)
  | _ => v
  end.

(** ** Shapes of whitespace

    [separated]: no two whitespace code units in a row.  [closed]: the
    text does not end in whitespace.  [spaced]: every whitespace code unit
    is a space and is followed by a code unit that is not whitespace.
    [compact_form blocked]: moreover no space stands next to a structural
    character; [blocked] tells that a space may not come first. *)
Fixpoint separated (s : text) : bool :=
  match s with
  | c :: (d :: _) as r => negb (isWS c && isWS d) && separated r
  | _ => true
  end.

Fixpoint closed (s : text) : bool :=
  match s with
  | [] => true
  | c :: [] => negb (isWS c)
  | _ :: (_ :: _) as r => closed r
  end.

Definition starts_plain (s : text) : bool :=
  match s with
  | d :: _ => negb (isWS d)
  | [] => false
  end.

Fixpoint spaced (s : text) : bool :=
  match s with
  | [] => true
  | c :: r =>
      (if isWS c then (c =? Ch.SP)%N && starts_plain r else true) && spaced r
  end.

Fixpoint compact_form (blocked : bool) (s : text) : bool :=
  match s with
  | [] => true
  | c :: r =>
      if isWS c then
        (c =? Ch.SP)%N && negb blocked
        && match r with
           | d :: _ => negb (isWS d) && negb (isStructural d)
           | [] => false
           end
        && compact_form true r
      else compact_form (isStructural c) r
  end.

(** ** Where a number literal ends

    The text behind a number literal does not continue it: it is empty or
    starts with something other than a digit, a dot or an exponent
    mark. *)
Definition number_stop (rest : text) : bool :=
  match rest with
  | [] => true
  | c :: _ => negb (isDigit c || (c =? Ch.DOT) || (c =? 101) || (c =? 69))%N
  end.

(** ** Layout of a serialized value

    [all_ws]: a text of JSON whitespace only.  [value_start c]: [c] can be
    the first code unit of a serialized value; it is not whitespace and
    closes no array and no object. *)
Abbreviation all_ws := (Forall (fun c : N => isJSONWS c = true)).

Definition value_start (c : N) : Prop :=
  isJSONWS c = false /\ (c =? Ch.RBRACKET)%N = false
  /\ (c =? Ch.RBRACE)%N = false.

(** The descent reads [v] from its text [ser v], whatever whitespace
    precedes it and whatever text follows that does not continue a
    number. *)
Definition reads (ser : value -> text) (v : value) : Prop :=
  forall lead rest,
    all_ws lead -> number_stop rest = true ->
    exists n0, forall n, n0 <= n ->
      parse_value n (lead ++ ser v ++ rest) = Ok (v, rest).

(** Every number of the value is a binary64 number other than NaN. *)
Fixpoint numbers_rounded (v : value) : bool :=
  match v with
  | JNumber x => rounded x
  | JArray l => forallb numbers_rounded l
  | JObject ps => forallb (fun p => numbers_rounded (snd p)) ps
  | _ => true
  end.

(** An object in property order whose values are well-formed. *)
Definition ordered_object (o : object) : Prop :=
  ordered_keys None None (List.map fst o) = true
  /\ forallb (fun p => well_formed (snd p)) o = true.

(** The two serializations of the program: [JSON.stringify(jsonData,
    null, 2)] (script.js 147) and [JSON.stringify(jsonData)]
    (script.js 166). *)
Definition format (v : value) : text := JSON_stringify v 2.
Definition minify (v : value) : text := JSON_stringify v 0.

(** What the scan of [ordered_keys] knows about the keys passed so far:
    before the first other key they are all indices, none above [last];
    afterwards the other keys are those in [seen]. *)
Definition scanned (keys : list text) (last : option Z)
    (seen : option (list text)) : Prop :=
  match seen with
  | None =>
      forall k, In k keys ->
        exists i j, array_index k = Some i /\ last = Some j /\ (i <= j)%Z
  | Some ks =>
      forall k, In k keys -> array_index k = None -> In k ks
  end.

(** ** UTF-8

    The scalar values of a text, as the conversion to a [USVString] gives
    them: a surrogate pair is one scalar value, a surrogate on its own
    becomes U+FFFD.  [utf8_encode] is the UTF-8 encoding of one scalar
    value. *)
Fixpoint scalar_values (s : text) : list N :=
  match s with
  | [] => []
  | c :: r =>
      if isHighSurrogate c then
        match r with
        | d :: r' =>
            if isLowSurrogate d
            then (65536 + (c - 55296) * 1024 + (d - 56320))%N
                 :: scalar_values r'
            else 65533%N :: scalar_values r
        | [] => [65533%N]
        end
      else if isLowSurrogate c then 65533%N :: scalar_values r
      else c :: scalar_values r
  end.

Definition utf8_encode (cp : N) : list N :=
  (if cp <? 128 then [cp]
   else if cp <? 2048 then [192 + cp / 64; 128 + cp mod 64]
   else if cp <? 65536 then
     [224 + cp / 4096; 128 + (cp / 64) mod 64; 128 + cp mod 64]
   else [240 + cp / 262144; 128 + (cp / 4096) mod 64;
         128 + (cp / 64) mod 64; 128 + cp mod 64])%N.

Definition utf8_bytes (s : text) : list N :=
  flat_map utf8_encode (scalar_values s).

(** A text is a sequence of 16-bit code units. *)
Definition code_units (s : text) : bool := forallb (fun c => c <? 65536)%N s.

(** ** Falsy parsed values: [null], [false], a zero and the empty
    string. *)
Definition falsy_json (v : value) : bool :=
  match v with
  | JNull | JBool false | JNumber (S754_zero _) | JString [] => true
  | _ => false
  end.

(** The text that the catch block of [validateJSON] displays. *)
Definition displayed_error (errorMessage : text) : text :=
  if matches_word_digits (lit "line") errorMessage
     || matches_word_digits (lit "position") errorMessage
  then CROSS_MARK :: lit " Syntax Error: " ++ errorMessage
  else CROSS_MARK :: lit " Invalid JSON: " ++ errorMessage.

(** A code unit that [strip_layout] copies outside string literals without
    changing its mode: neither a quote nor JSON whitespace. *)
Definition isToken (c : N) : bool := negb (c =? Ch.QUOTE)%N && negb (isJSONWS c).

(* ================================================================== *)
(** * The rest of [script.js]: storage, themes, clipboard, download *)

(** ** What [JSON.stringify] writes of a value

    An infinity and NaN are written as [null], both zeros as [0]; every
    other value is written as it is.  [written_value v] is the value that
    stands in the text. *)
Fixpoint written_value (v : value) : value :=
  match v with
  | JNumber (S754_zero _) => JNumber (S754_zero false)
  | JNumber (S754_infinity _) | JNumber S754_nan => JNull
  | JArray l => JArray (List.map written_value l)
  | JObject ps =>
      JObject (List.map (fun p : text * value =>
                           (fst p, written_value (snd p))) ps)
  | _ => v
  end.

(** No string and no key of the value holds a whitespace code unit. *)
Definition no_ws (s : text) : bool := forallb (fun c => negb (isWS c)) s.

Fixpoint strings_no_ws (v : value) : bool :=
  match v with
  | JString s => no_ws s
  | JArray l => forallb strings_no_ws l
  | JObject ps =>
      forallb (fun p : text * value =>
                 no_ws (fst p) && strings_no_ws (snd p)) ps
  | _ => true
  end.

(** A message mentions the word [w] with a number: somewhere in it stands
    [w], in any case of its letters, then a space and a digit. *)
Definition mentions (w s : text) : Prop :=
  exists pre w' d post,
    s = pre ++ w' ++ [Ch.SP; d] ++ post
    /\ List.map toLower w' = w /\ isDigit d = true.

(** ** The value of a text area

    The [value] of a text area is read with its line breaks normalized: a
    carriage return followed by a line feed, and a carriage return on its
    own, read as one line feed.  The functions of the first part only
    store texts without carriage return; the stored document that
    [DOMContentLoaded] puts back can be any text. *)
Fixpoint normalize_newlines (s : text) : text :=
  match s with
  | [] => []
  | c :: r =>
      if (c =? Ch.CR)%N then
        Ch.LF :: match r with
                 | d :: r' => if (d =? Ch.LF)%N then normalize_newlines r'
                              else normalize_newlines r
                 | [] => []
                 end
      else c :: normalize_newlines r
  end.


(** ** The page

    The state of the first part, the global [currentTheme], the theme
    fields of the document, the entry [jsonToolTheme] of [localStorage],
    the focus and the selection of the editor, and what the page has
    handed to the host: the text last written to the clipboard, the
    messages shown by [alert] and the files offered for download, latest
    first. *)
Record Page := {
  editor : EditorState;
  currentTheme : text;
  data_theme : option text;
  theme_icon : text;
  prism_dark_disabled : bool;
  jsonToolTheme : option text;
  focused : bool;
  selection : option (N * N);
  clipboard : option text;
  alerts : list text;
  downloads : list (text * text)
}.

Definition on_editor (f : EditorState -> EditorState) (p : Page) : Page := {|
  editor := f (editor p);
  currentTheme := currentTheme p;
  data_theme := data_theme p;
  theme_icon := theme_icon p;
  prism_dark_disabled := prism_dark_disabled p;
  jsonToolTheme := jsonToolTheme p;
  focused := focused p;
  selection := selection p;
  clipboard := clipboard p;
  alerts := alerts p;
  downloads := downloads p
|}.

Definition set_currentTheme (theme : text) (p : Page) : Page := {|
  editor := editor p;
  currentTheme := theme;
  data_theme := data_theme p;
  theme_icon := theme_icon p;
  prism_dark_disabled := prism_dark_disabled p;
  jsonToolTheme := jsonToolTheme p;
  focused := focused p;
  selection := selection p;
  clipboard := clipboard p;
  alerts := alerts p;
  downloads := downloads p
|}.

(** [localStorage.setItem('jsonToolTheme', theme)]. *)
Definition setItem_jsonToolTheme (theme : text) (p : Page) : Page := {|
  editor := editor p;
  currentTheme := currentTheme p;
  data_theme := data_theme p;
  theme_icon := theme_icon p;
  prism_dark_disabled := prism_dark_disabled p;
  jsonToolTheme := Some theme;
  focused := focused p;
  selection := selection p;
  clipboard := clipboard p;
  alerts := alerts p;
  downloads := downloads p
|}.

(** [editor.focus()]. *)
Definition focus (p : Page) : Page := {|
  editor := editor p;
  currentTheme := currentTheme p;
  data_theme := data_theme p;
  theme_icon := theme_icon p;
  prism_dark_disabled := prism_dark_disabled p;
  jsonToolTheme := jsonToolTheme p;
  focused := true;
  selection := selection p;
  clipboard := clipboard p;
  alerts := alerts p;
  downloads := downloads p
|}.

(** [editor.setSelectionRange(start, end)]: both ends are clamped to the
    length of the text.  [editor.select()] selects the whole text. *)
Definition setSelectionRange (first last : N) (p : Page) : Page :=
  let n := N.of_nat (List.length (editor_value (editor p))) in
  {|
    editor := editor p;
    currentTheme := currentTheme p;
    data_theme := data_theme p;
    theme_icon := theme_icon p;
    prism_dark_disabled := prism_dark_disabled p;
    jsonToolTheme := jsonToolTheme p;
    focused := focused p;
    selection := Some (N.min first n, N.min last n);
    clipboard := clipboard p;
    alerts := alerts p;
    downloads := downloads p
  |}.

Definition select (p : Page) : Page :=
  setSelectionRange 0 (N.of_nat (List.length (editor_value (editor p)))) p.

(** The selected part of the editor text. *)
Definition selected_text (p : Page) : text :=
  match selection p with
  | Some (first, last) =>
      firstn (N.to_nat (last - first))
        (skipn (N.to_nat first) (editor_value (editor p)))
  | None => []
  end.

Definition set_clipboard (t : text) (p : Page) : Page := {|
  editor := editor p;
  currentTheme := currentTheme p;
  data_theme := data_theme p;
  theme_icon := theme_icon p;
  prism_dark_disabled := prism_dark_disabled p;
  jsonToolTheme := jsonToolTheme p;
  focused := focused p;
  selection := selection p;
  clipboard := Some t;
  alerts := alerts p;
  downloads := downloads p
|}.

(** [alert(message)]. *)
Definition alert (message : text) (p : Page) : Page := {|
  editor := editor p;
  currentTheme := currentTheme p;
  data_theme := data_theme p;
  theme_icon := theme_icon p;
  prism_dark_disabled := prism_dark_disabled p;
  jsonToolTheme := jsonToolTheme p;
  focused := focused p;
  selection := selection p;
  clipboard := clipboard p;
  alerts := message :: alerts p;
  downloads := downloads p
|}.

(** The click on a link whose [href] is the URL of a blob and whose
    [download] is a file name. *)
Definition offer_download (name content : text) (p : Page) : Page := {|
  editor := editor p;
  currentTheme := currentTheme p;
  data_theme := data_theme p;
  theme_icon := theme_icon p;
  prism_dark_disabled := prism_dark_disabled p;
  jsonToolTheme := jsonToolTheme p;
  focused := focused p;
  selection := selection p;
  clipboard := clipboard p;
  alerts := alerts p;
  downloads := (name, content) :: downloads p
|}.

(** [showNotification] on the page; the type defaults to [success]. *)
Definition notify (message type : text) (p : Page) : Page :=
  on_editor (showNotification message type) p.

(** ** Themes (script.js 340-362) *)

Definition SUN : text := [9728; 65039]%N.            (* U+2600 U+FE0F *)
Definition MOON : text := [55356; 57113]%N.          (* U+1F319 *)

(** [applyTheme] (script.js 350-362). *)
Definition applyTheme (p : Page) : Page :=
  let dark := text_eqb (currentTheme p) (lit "dark") in
  {|
    editor := editor p;
    currentTheme := currentTheme p;
    data_theme := Some (currentTheme p);
    theme_icon := if dark then SUN else MOON;
    prism_dark_disabled := negb dark;
    jsonToolTheme := jsonToolTheme p;
    focused := focused p;
    selection := selection p;
    clipboard := clipboard p;
    alerts := alerts p;
    downloads := downloads p
  |}.

(** [toggleTheme] (script.js 340-345). *)
Definition toggleTheme (p : Page) : Page :=
  let theme := if text_eqb (currentTheme p) (lit "light")
               then lit "dark" else lit "light" in
  let p := set_currentTheme theme p in
  let p := applyTheme p in
  let p := setItem_jsonToolTheme (currentTheme p) p in
  notify (lit "Switched to " ++ currentTheme p ++ lit " mode!")
    (lit "success") p.

(** ** The file name of a download

    [now.toISOString().slice(0, 19).replace(/[:.]/g, '-')] for the text
    [iso] that [toISOString] returns. *)
Definition match_colon_dot : matcher := fun s =>
  match s with
  | c :: _ => if ((c =? Ch.COLON) || (c =? Ch.DOT))%N
              then Some (1, [Ch.MINUS]) else None
  | [] => None
  end.

Definition download_name (iso : text) : text :=
  let timestamp := replaceAll match_colon_dot 0 (firstn 19 iso) in
  lit "json-data-" ++ timestamp ++ lit ".json".

(** ** What the host answers

    [navigator.clipboard.writeText] settles or fails (it rejects, or the
    clipboard object is missing and the call throws);
    [document.execCommand('copy')] copies the selection, returns without
    copying, or throws; [confirm] returns the choice of the user;
    [new Date().toISOString()] returns a text. *)
Inductive writeText_outcome := Written | WriteFailed.
Inductive execCommand_outcome := Copied | NotCopied | CopyThrew.

Record Host := {
  writeText : writeText_outcome;
  execCommand_copy : execCommand_outcome;
  confirmed : bool;
  toISOString : text
}.

(** A [keydown] event, as far as the handler reads it. *)
Record KeyboardEvent := {
  ctrlKey : bool;
  metaKey : bool;
  shiftKey : bool;
  key : text
}.

Definition BULLET : code_unit := 8226%N.             (* U+2022 *)

Section PageFunctions.

Variable error_message : text -> text.

(** [formatFileSize] (script.js 381-389) computes its unit with
    [Math.log] and [Math.pow], which ECMAScript leaves to the
    implementation to approximate; the text it returns for a byte count is
    a parameter here. *)
Variable formatFileSize : N -> text.

(** The handler of [DOMContentLoaded] (script.js 7-27).  A stored entry
    counts when it is a non-empty text.  [setupKeyboardShortcuts]
    registers [keydown] below. *)
Definition DOMContentLoaded (p : Page) : Page :=
  let p :=
    match jsonToolTheme p with
    | Some savedTheme =>
        if isEmpty savedTheme then p
        else applyTheme (set_currentTheme savedTheme p)
    | None => p
    end in
  let p :=
    match jsonToolContent (editor p) with
    | Some savedJSON =>
        if isEmpty savedJSON then p
        else on_editor
               (fun st => validateJSON error_message
                            (set_editor_value (normalize_newlines savedJSON)
                               st)) p
    | None => p
    end in
  on_editor (validateJSON error_message) p.

(** The [input] listener (script.js 428-435), when its timer fires: the
    text of the editor is stored as it is. *)
Definition autosave (p : Page) : Page :=
  on_editor (fun st => setItem_jsonToolContent (editor_value st) st) p.

(** The [load] listener (script.js 438-440). *)
Definition load (p : Page) : Page := focus p.


(** [copyToClipboard] (script.js 199-223). *)
Definition copyToClipboard (h : Host) (p : Page) : Page :=
  let t := editor_value (editor p) in
  if isEmpty (trim t) then notify (lit "No JSON to copy!") (lit "error") p
  else
    match writeText h with
    | Written =>
        notify (lit "JSON copied to clipboard!") (lit "success")
          (set_clipboard t p)
    | WriteFailed =>
        let p := select p in
        let p := setSelectionRange 0 99999 p in
        match execCommand_copy h with
        | Copied =>
            notify (lit "JSON copied to clipboard!") (lit "success")
              (set_clipboard (selected_text p) p)
        | NotCopied =>
            notify (lit "JSON copied to clipboard!") (lit "success") p
        | CopyThrew =>
            notify (lit "Failed to copy. Please try manually.")
              (lit "error") p
        end
    end.

(** [downloadJSON] (script.js 228-258). *)
Definition downloadJSON (h : Host) (p : Page) : Page :=
  let t := trim (editor_value (editor p)) in
  if isEmpty t then notify (lit "No JSON to download!") (lit "error") p
  else
    let p := offer_download (download_name (toISOString h)) t p in
    notify (lit "JSON file downloaded successfully!") (lit "success") p.

(** [validateAndShowDetails] (script.js 325-335).  A count is an integer
    below 10^21 and is written with its decimal digits; [jsonSize] holds
    the byte count whose rendering the page shows. *)
Definition details_message (s : stats) (size : text) : text :=
  CHECK_MARK :: lit " JSON is valid!" ++ [Ch.LF; Ch.LF]
  ++ lit "Details:" ++ [Ch.LF]
  ++ BULLET :: lit " Objects: " ++ Z_digits (Z.of_nat (objects s)) ++ [Ch.LF]
  ++ BULLET :: lit " Arrays: " ++ Z_digits (Z.of_nat (arrays s)) ++ [Ch.LF]
  ++ BULLET :: lit " Size: " ++ size.

Definition validateAndShowDetails (p : Page) : Page :=
  let p := on_editor (validateJSON error_message) p in
  if isValidJSON (editor p) then
    let s := analyzeJSON (jsonData (editor p)) in
    alert (details_message s (formatFileSize (jsonSize (editor p)))) p
  else notify (lit "Please fix JSON errors first!") (lit "error") p.

(** The [keydown] handler of [setupKeyboardShortcuts] (script.js 394-426):
    five tests one after the other.  The result holds the page and
    whether [preventDefault] was called. *)
Definition keydown (h : Host) (e : KeyboardEvent) (p : Page) : Page * bool :=
  let modifier := ctrlKey e || metaKey e in
  let step (test : bool) (action : Page -> Page) (s : Page * bool) :=
    if test then (action (fst s), true) else s in
  let s := (p, false) in
  let s := step (modifier && text_eqb (key e) (lit "Enter"))
             (on_editor (formatJSON error_message)) s in
  let s := step (modifier && text_eqb (key e) (lit "m"))
             (on_editor (minifyJSON error_message)) s in
  let s := step (modifier && text_eqb (key e) (lit "s")) (downloadJSON h) s in
  let s := step (modifier && shiftKey e && text_eqb (key e) (lit "C"))
             (copyToClipboard h) s in
  step (modifier && text_eqb (key e) (lit "d")) toggleTheme s.

End PageFunctions.

(** ** The scan of [spec_compress] over a piece of text

    [compresses_to T U]: the text [T] starts with a code unit that is not
    whitespace, and wherever it stands the two passes of [spec_compress]
    leave [U] for it and go on behind it as after any text. *)
Definition compresses_to (T U : text) : Prop :=
  starts_plain T = true
  /\ forall p b X,
       exists p',
         spec_remove_adjacent p (spec_collapse b (T ++ X))
         = U ++ spec_remove_adjacent p' (spec_collapse false X).

(* ================================================================== *)
(** * The exceptions of the host

    [validateJSON], [formatJSON], [minifyJSON] and [compressJSON] above
    follow the run in which the host raises no exception of its own and
    the editor holds a text without carriage return.  Three calls of
    [script.js] can fail for a reason that ECMAScript and the storage
    interface leave to the host: [localStorage.setItem] throws when the
    store refuses the text (its quota), the recursion of [traverse]
    throws when the stack is exhausted, and so does [JSON.stringify].
    The module [Exn] follows the same functions with these exceptions.

    [Limits] holds what the host answers during one call of an
    operation: the message of the [SyntaxError] of [JSON.parse] for a
    text that is not JSON, and for each of the three calls the message of
    the exception it throws, or [None] when it returns.  The answers of
    the host can differ from one call to the next; an operation that runs
    [validateJSON] twice takes two records. *)
Record Limits := {
  SyntaxError_message : text -> text;
  setItem_error : text -> option text;
  traverse_error : value -> option text;
  stringify_error : value -> nat -> option text
}.

(** A host that raises no exception of its own. *)
Definition no_limits (error_message : text -> text) : Limits := {|
  SyntaxError_message := error_message;
  setItem_error := fun _ => None;
  traverse_error := fun _ => None;
  stringify_error := fun _ _ => None
|}.

(** Two hosts answer alike for the text [t]: the store, the message for
    [t], and the stack for the value of [t]. *)
Definition same_answers (h h' : Limits) (t : text) : Prop :=
  setItem_error h' t = setItem_error h t
  /\ SyntaxError_message h' t = SyntaxError_message h t
  /\ forall v, JSON_parse t = Ok v -> traverse_error h' v = traverse_error h v.

(** The host raises no exception while the value [v] is written with
    [space], the text stored and the value of the text analysed. *)
Definition serves (h : Limits) (v : value) (space : nat) : Prop :=
  stringify_error h v space = None
  /\ setItem_error h (JSON_stringify v space) = None
  /\ traverse_error h (written_value v) = None.

(** A call returns, or it throws an exception with a message; either way
    it leaves a state behind. *)
Inductive completion (A : Type) :=
| Returns (a : A)
| Throws (message : text) (a : A).

Arguments Returns {A} a.
Arguments Throws {A} message a.

Definition state_of {A : Type} (c : completion A) : A :=
  match c with
  | Returns a => a
  | Throws _ a => a
  end.

(** [document.getElementById('jsonEditor').value]: the field
    [editor_value] holds the raw value of the text area, which can be any
    text, and the script reads it with its line breaks normalized. *)
Definition jsonEditor_value (st : EditorState) : text :=
  normalize_newlines (editor_value st).

Module Exn.

(** The branch of [validateJSON] for an empty text (script.js 44-53). *)
Definition shown_empty (st : EditorState) : EditorState := {|
  isValidJSON := false;
  jsonData := JNull;
  editor_value := editor_value st;
  editor_className := lit "json-editor";
  errorDisplay := errorDisplay st;
  errorDisplay_show := false;
  successDisplay := successDisplay st;
  successDisplay_show := false;
  jsonStatus := lit "Ready";
  jsonSize := jsonSize st;
  jsonLines := jsonLines st;
  jsonObjects := jsonObjects st;
  jsonArrays := jsonArrays st;
  jsonToolContent := jsonToolContent st;
  notification := notification st
|}.

(** The try block of [validateJSON] after [JSON.parse] has returned
    [data], up to the call of [updateJSONStatistics] (script.js 57-65). *)
Definition shown_valid (data : value) (st : EditorState) : EditorState := {|
  isValidJSON := true;
  jsonData := data;
  editor_value := editor_value st;
  editor_className := lit "json-editor success";
  errorDisplay := errorDisplay st;
  errorDisplay_show := false;
  successDisplay := CHECK_MARK :: lit " Valid JSON";
  successDisplay_show := true;
  jsonStatus := lit "Valid";
  jsonSize := jsonSize st;
  jsonLines := jsonLines st;
  jsonObjects := jsonObjects st;
  jsonArrays := jsonArrays st;
  jsonToolContent := jsonToolContent st;
  notification := notification st
|}.

(** The catch block of [validateJSON] (script.js 70-93) for an exception
    with the message [message]. *)
Definition shown_invalid (message : text) (st : EditorState) : EditorState := {|
  isValidJSON := false;
  jsonData := JNull;
  editor_value := editor_value st;
  editor_className := lit "json-editor error";
  errorDisplay := displayed_error message;
  errorDisplay_show := true;
  successDisplay := successDisplay st;
  successDisplay_show := false;
  jsonStatus := lit "Invalid";
  jsonSize := jsonSize st;
  jsonLines := jsonLines st;
  jsonObjects := jsonObjects st;
  jsonArrays := jsonArrays st;
  jsonToolContent := jsonToolContent st;
  notification := notification st
|}.

(** [validateJSON] (script.js 32-94).  [localStorage.setItem] stands in
    front of the try block: when it throws, nothing has been written and
    the exception leaves the function.  The try block encloses
    [JSON.parse] and [updateJSONStatistics]; [analyzeJSON] throws before a
    counter is written, and the catch block then finds the page as line
    65 left it. *)
Definition validateJSON (h : Limits) (st : EditorState)
  : completion EditorState :=
  let t := trim (jsonEditor_value st) in
  match setItem_error h t with
  | Some message => Throws message st
  | None =>
      let st := setItem_jsonToolContent t st in
      let st := updateStatistics t st in
      if isEmpty t then Returns (shown_empty st)
      else
        match JSON_parse t with
        | Ok data =>
            let st := shown_valid data st in
            match traverse_error h data with
            | None => Returns (updateJSONStatistics data st)
            | Some message => Returns (shown_invalid message st)
            end
        | _ => Returns (shown_invalid (SyntaxError_message h t) st)
        end
  end.

(** The body of [formatJSON] and of [minifyJSON] behind the guard
    (script.js 146-153, 165-172): the try block encloses
    [JSON.stringify], the assignment to the editor and [validateJSON];
    the catch block notifies the message of the exception. *)
Definition serialize_into_editor (h : Limits) (space : nat)
    (done failed : text) (st : EditorState) : EditorState :=
  match stringify_error h (jsonData st) space with
  | Some message =>
      showNotification (failed ++ message) (lit "error") st
  | None =>
      let st := set_editor_value (JSON_stringify (jsonData st) space) st in
      match validateJSON h st with
      | Returns st => showNotification done (lit "success") st
      | Throws message st =>
          showNotification (failed ++ message) (lit "error") st
      end
  end.

(** [formatJSON] (script.js 140-154). *)
Definition formatJSON (h : Limits) (st : EditorState) : EditorState :=
  if negb (isValidJSON st) || negb (truthy (jsonData st)) then
    precondition_error st
  else
    serialize_into_editor h 2 (lit "JSON formatted successfully!")
      (lit "Error formatting JSON: ") st.

(** [minifyJSON] (script.js 159-173). *)
Definition minifyJSON (h : Limits) (st : EditorState) : EditorState :=
  if negb (isValidJSON st) || negb (truthy (jsonData st)) then
    precondition_error st
  else
    serialize_into_editor h 0 (lit "JSON minified successfully!")
      (lit "Error minifying JSON: ") st.

(** [compressJSON] (script.js 178-194): [validateJSON] is called without
    a handler, so its exception leaves [compressJSON] after the editor has
    been assigned and before the notification. *)
Definition compressJSON (h : Limits) (st : EditorState)
  : completion EditorState :=
  let t := trim (jsonEditor_value st) in
  if isEmpty t then
    Returns
      (showNotification (lit "Please enter some JSON first!") (lit "error")
         st)
  else
    let st := set_editor_value (compressed t) st in
    match validateJSON h st with
    | Returns st =>
        Returns
          (showNotification (lit "Whitespace removed successfully!")
             (lit "success") st)
    | Throws message st => Throws message st
    end.

(** [validate(text)]: the outcome of [validateJSON] on a page whose editor
    holds [text]; there is none when [validateJSON] throws. *)
Definition validate (h : Limits) (t : text) : option ValidationOutcome :=
  match validateJSON h (set_editor_value t initialState) with
  | Returns st => Some (outcome st)
  | Throws _ _ => None
  end.

(** A call on the editor of a page. *)
Definition run_on_editor (f : EditorState -> completion EditorState)
    (p : Page) : completion Page :=
  match f (editor p) with
  | Returns st => Returns (on_editor (fun _ => st) p)
  | Throws message st => Throws message (on_editor (fun _ => st) p)
  end.

(** The [input] listener (script.js 428-435), when its timer fires. *)
Definition autosave (h : Limits) (p : Page) : completion Page :=
  let t := jsonEditor_value (editor p) in
  match setItem_error h t with
  | Some message => Throws message p
  | None => Returns (on_editor (setItem_jsonToolContent t) p)
  end.

(** The handler of [DOMContentLoaded] (script.js 7-27).  [h1] answers
    during the validation of the stored document and [h2] during the
    initial validation; an exception of the first ends the handler. *)
Definition DOMContentLoaded (h1 h2 : Limits) (p : Page) : completion Page :=
  let p :=
    match jsonToolTheme p with
    | Some savedTheme =>
        if isEmpty savedTheme then p
        else applyTheme (set_currentTheme savedTheme p)
    | None => p
    end in
  let restored :=
    match jsonToolContent (editor p) with
    | Some savedJSON =>
        if isEmpty savedJSON then Returns p
        else run_on_editor
               (fun st => validateJSON h1 (set_editor_value savedJSON st)) p
    | None => Returns p
    end in
  match restored with
  | Returns p => run_on_editor (validateJSON h2) p
  | Throws message p => Throws message p
  end.

Section Details.

Variable formatFileSize : N -> text.

(** [validateAndShowDetails] (script.js 325-335).  [h] answers during
    [validateJSON] and [h'] during the call of [analyzeJSON] in line 329,
    which stands outside any try block. *)
Definition validateAndShowDetails (h h' : Limits) (p : Page)
  : completion Page :=
  match run_on_editor (validateJSON h) p with
  | Returns p =>
      if isValidJSON (editor p) then
        match traverse_error h' (jsonData (editor p)) with
        | Some message => Throws message p
        | None =>
            let s := analyzeJSON (jsonData (editor p)) in
            Returns
              (alert (details_message s (formatFileSize (jsonSize (editor p))))
                 p)
        end
      else
        Returns (notify (lit "Please fix JSON errors first!") (lit "error") p)
  | Throws message p => Throws message p
  end.

End Details.

End Exn.

(* ================================================================== *)
(** * Induction on values *)

(** The induction principle that reaches the values inside arrays and
    objects. *)
Lemma value_induction (P : value -> Prop) :
  P JNull ->
  (forall b, P (JBool b)) ->
  (forall x, P (JNumber x)) ->
  (forall s, P (JString s)) ->
  (forall l, Forall P l -> P (JArray l)) ->
  (forall ps, Forall (fun p => P (snd p)) ps -> P (JObject ps)) ->
  forall v, P v.
Proof.
  intros Hnull Hbool Hnum Hstr Harr Hobj.
  fix IH 1.
  intros [ | b | x | s | l | ps ].
  - exact Hnull.
  - apply Hbool.
  - apply Hnum.
  - apply Hstr.
  - apply Harr. induction l as [ | v l IHl ]; constructor.
    + apply IH.
    + exact IHl.
  - apply Hobj. induction ps as [ | [k v] ps IHps ]; constructor.
    + apply IH.
    + exact IHps.
Qed.

(* ================================================================== *)
(** * [analyzeJSON] against the reference count *)

Lemma fold_traverse_elements (l : list value) :
  Forall (fun v => forall st, traverse v st =
            {| objects := objects st + count_objects v;
               arrays := arrays st + count_arrays v |}) l ->
  forall st,
    fold_left (fun st' elt => traverse elt st') l st =
    {| objects := objects st + list_sum (map count_objects l);
       arrays := arrays st + list_sum (map count_arrays l) |}.
Proof.
  induction 1 as [ | v l Hv _ IH ]; intros st; simpl.
  - destruct st; simpl. f_equal; lia.
  - rewrite Hv, IH. simpl. f_equal; lia.
Qed.

Lemma fold_traverse_properties (ps : list (text * value)) :
  Forall (fun p => forall st, traverse (snd p) st =
            {| objects := objects st + count_objects (snd p);
               arrays := arrays st + count_arrays (snd p) |}) ps ->
  forall st,
    fold_left (fun st' (p : text * value) => traverse (snd p) st') ps st =
    {| objects := objects st
                  + list_sum (map (fun p => count_objects (snd p)) ps);
       arrays := arrays st
                 + list_sum (map (fun p => count_arrays (snd p)) ps) |}.
Proof.
  induction 1 as [ | p ps Hp _ IH ]; intros st; simpl.
  - destruct st; simpl. f_equal; lia.
  - rewrite Hp, IH. simpl. f_equal; lia.
Qed.

Lemma traverse_counts (v : value) :
  forall st, traverse v st =
    {| objects := objects st + count_objects v;
       arrays := arrays st + count_arrays v |}.
Proof.
  induction v as [ | b | x | s | l IH | ps IH ] using value_induction;
    intros st;
    try (destruct st; simpl; f_equal; lia).
  - cbn [traverse count_objects count_arrays].
    rewrite (fold_traverse_elements l IH). simpl. f_equal; lia.
  - cbn [traverse count_objects count_arrays].
    rewrite (fold_traverse_properties ps IH). simpl. f_equal; lia.
Qed.

(** C6.  For every parsed value, [analyzeJSON] returns the counts of the
    reference recursive definition: an array node adds one to the array
    count and its elements are visited, a keyed node adds one to the
    object count and its values are visited, a scalar adds nothing. *)
Theorem analyzeJSON_reference (v : value) :
  analyzeJSON v =
  {| objects := count_objects v; arrays := count_arrays v |}.
Proof.
  unfold analyzeJSON. rewrite traverse_counts. reflexivity.
Qed.

(* ================================================================== *)
(** * The guard of [formatJSON] and [minifyJSON] *)

Lemma validateJSON_editor_value (error_message : list N -> list N) st :
  editor_value (validateJSON error_message st) = editor_value st.
Proof.
  unfold validateJSON.
  destruct (isEmpty (trim (editor_value st))); [ reflexivity | ].
  destruct (JSON_parse (trim (editor_value st))); reflexivity.
Qed.

Section Guard.

Variable error_message : text -> text.

(** C9.  When no valid document exists ([isValidJSON] is false),
    [formatJSON] and [minifyJSON] return normally with the error
    notification set and every other field of the page, the editor text
    among them, as it was. *)
Theorem format_minify_without_valid_document (st : EditorState) :
  isValidJSON st = false ->
  formatJSON error_message st = precondition_error st
  /\ minifyJSON error_message st = precondition_error st
  /\ notification (precondition_error st)
     = Some (lit "Please enter valid JSON first!", lit "error")
  /\ editor_value (precondition_error st) = editor_value st
  /\ jsonToolContent (precondition_error st) = jsonToolContent st
  /\ jsonData (precondition_error st) = jsonData st
  /\ isValidJSON (precondition_error st) = isValidJSON st.
Proof.
  intros Hinvalid.
  repeat split; try reflexivity;
    unfold formatJSON, minifyJSON; rewrite Hinvalid; reflexivity.
Qed.

End Guard.

Lemma format_minify_without_valid_document_witness :
  isValidJSON initialState = false
  /\ formatJSON (fun _ => lit "Unexpected end of JSON input") initialState
     = precondition_error initialState.
Proof.
  split; [ reflexivity | ].
  apply (format_minify_without_valid_document
           (fun _ => lit "Unexpected end of JSON input") initialState).
  reflexivity.
Defined.

(* ================================================================== *)
(** * [compressJSON]: the regular expressions against the transform of
      the specification *)

Lemma ws_not_structural c : isWS c = true -> isStructural c = false.
Proof.
  unfold isWS, isStructural, Ch.LBRACE, Ch.RBRACE, Ch.LBRACKET,
    Ch.RBRACKET, Ch.COMMA, Ch.COLON.
  rewrite !orb_true_iff, !andb_true_iff, !N.leb_le, !N.eqb_eq.
  rewrite !orb_false_iff, !N.eqb_neq. lia.
Qed.

Lemma SP_is_ws : isWS Ch.SP = true.
Proof. reflexivity. Qed.

(** ** The first expression *)

Lemma match_ws_run_cons c r :
  match_ws_run (c :: r)
  = if isWS c then Some (S (List.length (takeWhile isWS r)), [Ch.SP])
    else None.
Proof.
  unfold match_ws_run. cbn [takeWhile]. destruct (isWS c); reflexivity.
Qed.

Lemma replace_ws_runs_collapse (s : text) :
  replaceAll match_ws_run (List.length (takeWhile isWS s)) s = spec_collapse true s
  /\ replaceAll match_ws_run 0 s = spec_collapse false s.
Proof.
  induction s as [ | c r [IHrun IHplain] ].
  - split; reflexivity.
  - assert (Hplain : replaceAll match_ws_run 0 (c :: r)
                     = spec_collapse false (c :: r)).
    { cbn [replaceAll spec_collapse]. rewrite match_ws_run_cons.
      destruct (isWS c).
      - cbn [pred app]. rewrite IHrun. reflexivity.
      - rewrite IHplain. reflexivity. }
    split; [ | exact Hplain ].
    cbn [takeWhile spec_collapse]. destruct (isWS c) eqn:Ec.
    + cbn [List.length replaceAll]. exact IHrun.
    + cbn [List.length]. rewrite Hplain. cbn [spec_collapse]. rewrite Ec.
      reflexivity.
Qed.

Lemma collapse_true_starts (s : text) :
  match spec_collapse true s with
  | d :: _ => isWS d = false
  | [] => True
  end.
Proof.
  induction s as [ | c r IH ]; cbn [spec_collapse]; [ exact I | ].
  destruct (isWS c) eqn:Ec; [ exact IH | exact Ec ].
Qed.

Lemma separated_cons c d r :
  separated (c :: d :: r) = negb (isWS c && isWS d) && separated (d :: r).
Proof. reflexivity. Qed.

Lemma collapse_separated (s : text) (b : bool) :
  separated (spec_collapse b s) = true.
Proof.
  revert b. induction s as [ | c r IH ]; intros b; [ reflexivity | ].
  cbn [spec_collapse]. destruct (isWS c) eqn:Ec.
  - destruct b; [ apply IH | ].
    pose proof (collapse_true_starts r) as Hs. pose proof (IH true) as Hr.
    destruct (spec_collapse true r) as [ | d r' ]; [ reflexivity | ].
    rewrite separated_cons, Hs, andb_false_r. exact Hr.
  - pose proof (IH false) as Hr.
    destruct (spec_collapse false r) as [ | d r' ]; [ reflexivity | ].
    rewrite separated_cons, Ec. exact Hr.
Qed.

(** ** The second expression, on text without runs of whitespace *)

Lemma match_structural_plain c r :
  isWS c = false ->
  match_structural (c :: r)
  = if isStructural c
    then Some (S (List.length (takeWhile isWS r)), [c]) else None.
Proof.
  intros Hc. unfold match_structural. cbn [takeWhile dropWhile].
  rewrite Hc. destruct (isStructural c); reflexivity.
Qed.

Lemma match_structural_ws c r :
  isWS c = true -> takeWhile isWS r = [] ->
  match_structural (c :: r)
  = match r with
    | d :: r' =>
        if isStructural d
        then Some (S (S (List.length (takeWhile isWS r'))), [d]) else None
    | [] => None
    end.
Proof.
  intros Hc Hr. unfold match_structural. cbn [takeWhile dropWhile].
  rewrite Hc, Hr. destruct r as [ | d r' ]; [ reflexivity | ].
  cbn [takeWhile] in Hr. cbn [dropWhile].
  destruct (isWS d); [ discriminate | ].
  destruct (isStructural d); reflexivity.
Qed.

Lemma takeWhile_separated c r :
  separated (c :: r) = true -> isWS c = true -> takeWhile isWS r = [].
Proof.
  destruct r as [ | d r' ]; [ reflexivity | ].
  rewrite separated_cons. cbn [takeWhile]. intros H Hc. rewrite Hc in H.
  destruct (isWS d); [ discriminate | reflexivity ].
Qed.

Lemma separated_tail c r : separated (c :: r) = true -> separated r = true.
Proof.
  destruct r as [ | d r' ]; [ reflexivity | ].
  rewrite separated_cons, andb_true_iff. tauto.
Qed.

Lemma replace_structural_remove (s : text) :
  separated s = true ->
  forall p,
    (structural_opt p = false \/ starts_plain s = true \/ s = [] ->
     replaceAll match_structural 0 s = spec_remove_adjacent p s)
    /\ (structural_opt p = true ->
        replaceAll match_structural (List.length (takeWhile isWS s)) s
        = spec_remove_adjacent p s).
Proof.
  induction s as [ | c r IH ]; intros Hsep p.
  - split; reflexivity.
  - pose proof (separated_tail c r Hsep) as Hsepr.
    specialize (IH Hsepr).
    assert (Hkeep : forall q, isWS c = false ->
              replaceAll match_structural 0 (c :: r)
              = spec_remove_adjacent q (c :: r)).
    { intros q Hc. cbn [replaceAll spec_remove_adjacent].
      rewrite (match_structural_plain c r Hc), Hc.
      cbn [andb]. destruct (isStructural c) eqn:Es.
      - cbn [pred app]. f_equal.
        apply (IH (Some c)). exact Es.
      - f_equal. apply (IH (Some c)). left. exact Es. }
    assert (Hfree : structural_opt p = false -> isWS c = true ->
              replaceAll match_structural 0 (c :: r)
              = spec_remove_adjacent p (c :: r)).
    { intros Hp Ec.
      cbn [replaceAll spec_remove_adjacent].
      rewrite (match_structural_ws c r Ec (takeWhile_separated c r Hsep Ec)).
      rewrite Ec, Hp. cbn [andb orb].
      assert (Hc : structural_opt (Some c) = false)
        by (apply ws_not_structural; exact Ec).
      destruct r as [ | d r' ].
      - reflexivity.
      - cbn [hd_error structural_opt].
        assert (Hd : isWS d = false).
        { rewrite separated_cons, Ec in Hsep.
          destruct (isWS d); [ discriminate | reflexivity ]. }
        destruct (isStructural d) eqn:Ed.
        + cbn [pred app Nat.add replaceAll].
          rewrite <- (proj1 (IH (Some c)) (or_introl Hc)).
          cbn [replaceAll]. rewrite (match_structural_plain d r' Hd), Ed.
          reflexivity.
        + f_equal. apply (IH (Some c)). left. exact Hc. }
    split.
    + intros [Hp | [Hs | Hs]].
      * destruct (isWS c) eqn:Ec; [ apply Hfree; [ exact Hp | reflexivity ] | ].
        apply Hkeep. reflexivity.
      * apply Hkeep. cbn [starts_plain] in Hs.
        destruct (isWS c); [ discriminate | reflexivity ].
      * discriminate.
    + intros Hp. cbn [takeWhile]. destruct (isWS c) eqn:Ec.
      * rewrite (takeWhile_separated c r Hsep Ec).
        cbn [List.length replaceAll spec_remove_adjacent].
        rewrite Ec, Hp. cbn [andb orb].
        apply (IH (Some c)). left. apply ws_not_structural. exact Ec.
      * cbn [List.length]. apply Hkeep. reflexivity.
Qed.

(** The chain of the two replacements is the transform of the
    specification. *)
Lemma replacements_spec_compress (t : text) :
  replaceAll match_structural 0 (replaceAll match_ws_run 0 t)
  = spec_compress t.
Proof.
  rewrite (proj2 (replace_ws_runs_collapse t)).
  unfold spec_compress.
  apply (replace_structural_remove _ (collapse_separated t false) None).
  left. reflexivity.
Qed.

(** ** [trim] *)

Lemma trimStart_plain (s : text) :
  starts_plain s = true \/ s = [] -> trimStart s = s.
Proof.
  intros [H | H]; [ | subst; reflexivity ].
  destruct s as [ | c r ]; [ reflexivity | ].
  unfold trimStart. cbn [dropWhile]. cbn [starts_plain] in H.
  destruct (isWS c); [ discriminate | reflexivity ].
Qed.

Lemma closed_cons c d r : closed (c :: d :: r) = closed (d :: r).
Proof. reflexivity. Qed.

Lemma closed_snoc (s : text) (x : code_unit) :
  closed (s ++ [x]) = negb (isWS x).
Proof.
  induction s as [ | c r IH ]; [ reflexivity | ].
  destruct r as [ | d r' ]; [ reflexivity | ].
  cbn [app] in *. rewrite closed_cons. exact IH.
Qed.

Lemma closed_last (s : text) :
  closed s = true ->
  s = [] \/ exists init x, s = init ++ [x] /\ isWS x = false.
Proof.
  destruct s as [ | c r ] using rev_ind; [ left; reflexivity | ].
  rewrite closed_snoc. intros H. right. exists r, c. split; [ reflexivity | ].
  destruct (isWS c); [ discriminate | reflexivity ].
Qed.

Lemma trimEnd_closed (s : text) : closed s = true -> trimEnd s = s.
Proof.
  intros H. destruct (closed_last s H) as [-> | (init & x & -> & Hx)];
    [ reflexivity | ].
  unfold trimEnd. rewrite rev_app_distr. cbn [rev app dropWhile].
  rewrite Hx. cbn [rev]. rewrite rev_involutive. reflexivity.
Qed.

Lemma dropWhile_shape (s : text) :
  dropWhile isWS s = []
  \/ exists y r, dropWhile isWS s = y :: r /\ isWS y = false.
Proof.
  induction s as [ | c r IH ]; [ left; reflexivity | ].
  cbn [dropWhile]. destruct (isWS c) eqn:Ec; [ exact IH | ].
  right. exists c, r. split; [ reflexivity | exact Ec ].
Qed.

Lemma dropWhile_snoc_plain (l : text) (y : code_unit) :
  isWS y = false -> exists l', dropWhile isWS (l ++ [y]) = l' ++ [y].
Proof.
  intros Hy. induction l as [ | c r IH ]; cbn [app dropWhile].
  - rewrite Hy. exists []. reflexivity.
  - destruct (isWS c); [ exact IH | ]. exists (c :: r). reflexivity.
Qed.

Lemma trimEnd_is_closed (s : text) : closed (trimEnd s) = true.
Proof.
  unfold trimEnd.
  destruct (dropWhile_shape (rev s)) as [-> | (y & r & -> & Hy)];
    [ reflexivity | ].
  cbn [rev]. rewrite closed_snoc, Hy. reflexivity.
Qed.

Lemma trim_shape (s : text) :
  closed (trim s) = true /\ (starts_plain (trim s) = true \/ trim s = []).
Proof.
  split; [ apply trimEnd_is_closed | ].
  unfold trim, trimStart.
  destruct (dropWhile_shape s) as [-> | (y & r & -> & Hy)];
    [ right; reflexivity | ].
  left. unfold trimEnd. cbn [rev].
  destruct (dropWhile_snoc_plain (rev r) y Hy) as [l' ->].
  rewrite rev_app_distr. cbn [rev app starts_plain]. rewrite Hy. reflexivity.
Qed.

Lemma trim_fixed (s : text) :
  closed s = true -> starts_plain s = true \/ s = [] -> trim s = s.
Proof.
  intros Hc Hs. unfold trim. rewrite (trimStart_plain s Hs).
  apply trimEnd_closed. exact Hc.
Qed.

(** ** The shape of the result *)

Lemma closed_tail c r : closed (c :: r) = true -> r <> [] -> closed r = true.
Proof.
  destruct r as [ | d r' ]; [ congruence | ]. rewrite closed_cons. tauto.
Qed.

Lemma closed_ws_head c r :
  closed (c :: r) = true -> isWS c = true -> r <> [].
Proof.
  destruct r; [ | discriminate ]. cbn [closed]. intros H Hc.
  rewrite Hc in H. discriminate.
Qed.

Lemma collapse_run_starts_plain (r : text) :
  closed r = true -> r <> [] -> starts_plain (spec_collapse true r) = true.
Proof.
  induction r as [ | d r' IH ]; intros Hc Hne; [ congruence | ].
  cbn [spec_collapse]. destruct (isWS d) eqn:Ed.
  - pose proof (closed_ws_head d r' Hc Ed) as Hne'.
    apply IH; [ apply (closed_tail d r' Hc Hne') | exact Hne' ].
  - cbn [starts_plain]. rewrite Ed. reflexivity.
Qed.

Lemma collapse_spaced (t : text) :
  closed t = true -> forall b, spaced (spec_collapse b t) = true.
Proof.
  induction t as [ | c r IH ]; intros Hc b; [ reflexivity | ].
  cbn [spec_collapse]. destruct (isWS c) eqn:Ec.
  - pose proof (closed_ws_head c r Hc Ec) as Hne.
    pose proof (closed_tail c r Hc Hne) as Hr.
    destruct b; [ apply IH; exact Hr | ].
    cbn [spaced]. rewrite SP_is_ws, N.eqb_refl.
    rewrite (collapse_run_starts_plain r Hr Hne). apply IH. exact Hr.
  - cbn [spaced]. rewrite Ec. cbn [andb].
    destruct r as [ | d r' ]; [ reflexivity | ].
    apply IH. rewrite closed_cons in Hc. exact Hc.
Qed.

Lemma collapse_starts_plain (t : text) (b : bool) :
  starts_plain t = true -> starts_plain (spec_collapse b t) = true.
Proof.
  destruct t as [ | c r ]; [ discriminate | ].
  cbn [starts_plain spec_collapse]. destruct (isWS c) eqn:Ec;
    [ discriminate | ].
  intros _. cbn [starts_plain]. rewrite Ec. reflexivity.
Qed.

Lemma remove_adjacent_compact (a : text) :
  spaced a = true ->
  forall p b,
    (starts_plain a = true \/ a = []
     \/ exists e, p = Some e /\ isWS e = false /\ b = isStructural e) ->
    compact_form b (spec_remove_adjacent p a) = true.
Proof.
  induction a as [ | c r IH ]; intros Hsp p b Hp; [ reflexivity | ].
  cbn [spaced] in Hsp. apply andb_true_iff in Hsp as [Hc Hr].
  specialize (IH Hr). cbn [spec_remove_adjacent].
  destruct (isWS c) eqn:Ec.
  - apply andb_true_iff in Hc as [Hc Hd]. apply N.eqb_eq in Hc.
    destruct Hp as [Hp | [Hp | (e & -> & He & ->)]];
      [ cbn [starts_plain] in Hp; rewrite Ec in Hp; discriminate
      | discriminate | ].
    destruct r as [ | d r' ]; [ discriminate | ].
    cbn [starts_plain] in Hd. cbn [andb structural_opt hd_error].
    destruct (isStructural e || isStructural d) eqn:Eadj.
    + apply IH. left. exact Hd.
    + apply orb_false_iff in Eadj as [Ee Ed].
      specialize (IH (Some c) true (or_introl Hd)).
      assert (Ewd : isWS d = false)
        by (destruct (isWS d); [ discriminate | reflexivity ]).
      cbn [compact_form]. rewrite Ec, Ee, Hc, N.eqb_refl.
      rewrite Hc in IH. cbn [spec_remove_adjacent] in IH |- *.
      rewrite Ewd in IH |- *. cbn [andb negb] in IH |- *.
      rewrite Ewd, Ed. exact IH.
  - cbn [andb compact_form]. rewrite Ec. apply IH.
    right. right. exists c. repeat split. exact Ec.
Qed.

Lemma compact_form_closed (r : text) (b : bool) :
  compact_form b r = true -> closed r = true.
Proof.
  revert b. induction r as [ | c r' IH ]; intros b H; [ reflexivity | ].
  cbn [compact_form] in H. destruct (isWS c) eqn:Ec.
  - apply andb_true_iff in H as [H Hr]. apply andb_true_iff in H as [_ Hd].
    destruct r' as [ | d r'' ]; [ discriminate | ].
    rewrite closed_cons. apply (IH true). exact Hr.
  - destruct r' as [ | d r'' ]; [ cbn [closed]; rewrite Ec; reflexivity | ].
    rewrite closed_cons. apply (IH _ H).
Qed.

Lemma compact_form_starts (r : text) :
  compact_form true r = true -> starts_plain r = true \/ r = [].
Proof.
  destruct r as [ | c r' ]; [ right; reflexivity | ].
  cbn [compact_form starts_plain]. destruct (isWS c).
  - rewrite andb_false_r. discriminate.
  - left. reflexivity.
Qed.

Lemma compact_form_collapse (r : text) (b : bool) :
  compact_form b r = true ->
  spec_collapse false r = r
  /\ (starts_plain r = true \/ r = [] -> spec_collapse true r = r).
Proof.
  revert b. induction r as [ | c r' IH ]; intros b H;
    [ split; reflexivity | ].
  cbn [compact_form] in H. cbn [spec_collapse starts_plain].
  destruct (isWS c) eqn:Ec.
  - apply andb_true_iff in H as [H Hr]. apply andb_true_iff in H as [H Hd].
    apply andb_true_iff in H as [Hc _]. apply N.eqb_eq in Hc.
    destruct (IH true Hr) as [_ IHrun].
    split.
    + rewrite IHrun; [ congruence | ].
      destruct r' as [ | d r'' ]; [ discriminate | ].
      left. cbn [starts_plain]. apply andb_true_iff in Hd. tauto.
    + intros [Hs | Hs]; discriminate.
  - destruct (IH _ H) as [IHplain _]. rewrite IHplain. split; reflexivity.
Qed.

Lemma compact_form_remove (r : text) :
  forall b p,
    compact_form b r = true ->
    (structural_opt p = true -> b = true) ->
    spec_remove_adjacent p r = r.
Proof.
  induction r as [ | c r' IH ]; intros b p H Hp; [ reflexivity | ].
  cbn [compact_form] in H. cbn [spec_remove_adjacent].
  destruct (isWS c) eqn:Ec.
  - apply andb_true_iff in H as [H Hr]. apply andb_true_iff in H as [H Hd].
    apply andb_true_iff in H as [_ Hb].
    destruct b; [ discriminate | ].
    destruct (structural_opt p); [ specialize (Hp eq_refl); discriminate | ].
    destruct r' as [ | d r'' ]; [ discriminate | ].
    apply andb_true_iff in Hd as [_ Hd]. cbn [hd_error structural_opt].
    destruct (isStructural d); [ discriminate | ].
    cbn [andb orb]. f_equal. apply (IH true); [ exact Hr | reflexivity ].
  - cbn [andb]. f_equal. apply (IH _ _ H). cbn [structural_opt]. tauto.
Qed.

Lemma spec_compress_compact (t : text) :
  closed t = true -> starts_plain t = true \/ t = [] ->
  compact_form true (spec_compress t) = true.
Proof.
  intros Hc Hs. unfold spec_compress.
  apply remove_adjacent_compact; [ apply collapse_spaced; exact Hc | ].
  destruct Hs as [Hs | ->]; [ | right; left; reflexivity ].
  left. apply collapse_starts_plain. exact Hs.
Qed.

Lemma compressed_trimmed (t : text) :
  closed t = true -> starts_plain t = true \/ t = [] ->
  compressed t = spec_compress t.
Proof.
  intros Hc Hs. unfold compressed. rewrite replacements_spec_compress.
  pose proof (spec_compress_compact t Hc Hs) as Hcf.
  apply trim_fixed.
  - apply (compact_form_closed _ _ Hcf).
  - apply compact_form_starts. exact Hcf.
Qed.

Lemma spec_compress_fixed (r : text) :
  compact_form true r = true -> spec_compress r = r.
Proof.
  intros H. unfold spec_compress.
  rewrite (proj1 (compact_form_collapse r true H)).
  apply (compact_form_remove r true None H). discriminate.
Qed.

Lemma spec_compress_nonempty (t : text) :
  starts_plain t = true -> isEmpty (spec_compress t) = false.
Proof.
  destruct t as [ | c r ]; [ discriminate | ].
  cbn [starts_plain]. intros Hc. unfold spec_compress.
  cbn [spec_collapse]. destruct (isWS c) eqn:Ec; [ discriminate | ].
  cbn [spec_remove_adjacent]. rewrite Ec. reflexivity.
Qed.

Lemma compressJSON_editor_value (error_message : list N -> list N) st :
  editor_value (compressJSON error_message st) = compress (editor_value st).
Proof.
  unfold compressJSON, compress. cbv zeta.
  destruct (isEmpty (trim (editor_value st))); [ reflexivity | ].
  cbn [showNotification editor_value].
  rewrite validateJSON_editor_value. reflexivity.
Qed.

(** C5, as the claim has it, fails: the code trims first, so a text in
    spaces loses them where the transform of the specification keeps
    one. *)
Lemma compress_differs_from_spec :
  compress (lit " a ") = lit "a"
  /\ spec_compress (lit " a ") = lit " a ".
Proof. split; vm_compute; reflexivity. Qed.

(** C4.  [compress] is idempotent on every text: a second run of
    [compressJSON] leaves the editor as the first run left it. *)
Theorem compress_idempotent :
  (forall s, compress (compress s) = compress s)
  /\ (forall error_message st,
        editor_value
          (compressJSON error_message (compressJSON error_message st))
        = editor_value (compressJSON error_message st)).
Proof.
  assert (compress_unfold :
            forall u, compress u
                      = if isEmpty (trim u) then u else spec_compress (trim u)).
  { intros u. unfold compress.
    destruct (isEmpty (trim u)) eqn:E; [ reflexivity | ].
    destruct (trim_shape u) as [Hc Hs].
    apply compressed_trimmed; assumption. }
  assert (Hidem : forall s, compress (compress s) = compress s).
  { intros s. rewrite (compress_unfold s).
    destruct (isEmpty (trim s)) eqn:E.
    - rewrite compress_unfold, E. reflexivity.
    - destruct (trim_shape s) as [Hc Hs].
      assert (Hplain : starts_plain (trim s) = true).
      { destruct Hs as [Hs | Hs]; [ exact Hs | ].
        rewrite Hs in E. discriminate. }
      pose proof (spec_compress_compact (trim s) Hc Hs) as Hcf.
      rewrite compress_unfold.
      rewrite (trim_fixed _ (compact_form_closed _ _ Hcf)
                 (compact_form_starts _ Hcf)).
      rewrite (spec_compress_nonempty _ Hplain).
      apply spec_compress_fixed. exact Hcf. }
  split; [ exact Hidem | ].
  intros h st. rewrite !compressJSON_editor_value. apply Hidem.
Qed.

(* ================================================================== *)
(** * [JSON.parse]: the descent consumes text and never runs out of fuel *)

(** Case analysis on the tests and sub-results inside a hypothesis. *)
Ltac break_match :=
  repeat match goal with
         | |- context [match ?x with _ => _ end] => destruct x eqn:?
         end.

Lemma dropWhile_length p (s : text) :
  List.length (dropWhile p s) <= List.length s.
Proof.
  induction s as [ | c r IH ]; cbn [dropWhile List.length]; [ lia | ].
  destruct (p c); cbn [List.length]; lia.
Qed.

Lemma skip_ws_cons s c r :
  skip_ws s = c :: r -> List.length r < List.length s.
Proof.
  intros H. pose proof (dropWhile_length isJSONWS s) as L.
  unfold skip_ws in H. rewrite H in L. cbn [List.length] in L. lia.
Qed.

Lemma lex_string_length s str r :
  lex_string s = Ok (str, r) -> List.length r < List.length s.
Proof.
  revert str r.
  induction s as [s IH] using (induction_ltof1 _ (@List.length code_unit)).
  unfold ltof in IH. intros str r H.
  destruct s as [ | c s1 ]; [ discriminate | ].
  cbn [lex_string] in H.
  destruct (c =? Ch.QUOTE)%N.
  { injection H as <- <-. cbn [List.length]. lia. }
  destruct (c =? Ch.BACKSLASH)%N.
  - destruct s1 as [ | e s2 ]; [ discriminate | ].
    assert (Hsimple : forall u,
      (let* (str0, rest) := lex_string s2 in Ok (u :: str0, rest))
      = Ok (str, r) -> List.length r < List.length (c :: e :: s2)).
    { intros u Hu. destruct (lex_string s2) as [ [str0 rest] | | ] eqn:E;
        try discriminate Hu.
      cbn [bind] in Hu. injection Hu as <- <-.
      apply IH in E; cbn [List.length] in *; lia. }
    repeat (match type of H with
            | (if ?b then _ else _) = _ =>
                destruct b; [ apply (Hsimple _ H) | ]
            end).
    destruct (e =? 117)%N; [ | discriminate ].
    destruct s2 as [ | h1 [ | h2 [ | h3 [ | h4 s3 ] ] ] ]; try discriminate.
    destruct (hex_value h1), (hex_value h2), (hex_value h3), (hex_value h4);
      try discriminate.
    destruct (lex_string s3) as [ [str0 rest] | | ] eqn:E; try discriminate.
    cbn [bind] in H. injection H as <- <-.
    apply IH in E; cbn [List.length] in *; lia.
  - destruct (c <? 32)%N; [ discriminate | ].
    destruct (lex_string s1) as [ [str0 rest] | | ] eqn:E; try discriminate.
    cbn [bind] in H. injection H as <- <-.
    apply IH in E; cbn [List.length] in *; lia.
Qed.

Lemma lex_string_fuel s : lex_string s <> OutOfFuel.
Proof.
  induction s as [s IH] using (induction_ltof1 _ (@List.length code_unit)).
  unfold ltof in IH.
  destruct s as [ | c s1 ]; [ discriminate | ].
  cbn [lex_string].
  destruct (c =? Ch.QUOTE)%N; [ discriminate | ].
  destruct (c =? Ch.BACKSLASH)%N.
  - destruct s1 as [ | e s2 ]; [ discriminate | ].
    assert (Hsimple : forall u,
      (let* (str0, rest) := lex_string s2 in Ok (u :: str0, rest))
      <> OutOfFuel).
    { intros u. pose proof (IH s2) as IH2.
      destruct (lex_string s2) as [ [str0 rest] | | ]; cbn [bind];
        try discriminate.
      apply IH2. cbn [List.length]. lia. }
    repeat (match goal with
            | |- (if ?b then _ else _) <> _ =>
                destruct b; [ apply Hsimple | ]
            end).
    destruct (e =? 117)%N; [ | discriminate ].
    destruct s2 as [ | h1 [ | h2 [ | h3 [ | h4 s3 ] ] ] ]; try discriminate.
    destruct (hex_value h1), (hex_value h2), (hex_value h3), (hex_value h4);
      try discriminate.
    pose proof (IH s3) as IH3.
    destruct (lex_string s3) as [ [str0 rest] | | ]; cbn [bind];
      try discriminate.
    apply IH3. cbn [List.length]. lia.
  - destruct (c <? 32)%N; [ discriminate | ].
    pose proof (IH s1) as IH1.
    destruct (lex_string s1) as [ [str0 rest] | | ]; cbn [bind];
      try discriminate.
    apply IH1. cbn [List.length]. lia.
Qed.

Lemma lex_int_length s ds r :
  lex_int s = Ok (ds, r) -> List.length r < List.length s.
Proof.
  destruct s as [ | d s1 ]; [ discriminate | ]. cbn [lex_int].
  pose proof (dropWhile_length isDigit s1).
  destruct (d =? 48)%N; [ | destruct (isDigit d); [ | discriminate ] ];
    intros H'; injection H' as <- <-; cbn [List.length]; lia.
Qed.

Lemma lex_frac_length s ds r :
  lex_frac s = Ok (ds, r) -> List.length r <= List.length s.
Proof.
  destruct s as [ | d s1 ]; cbn [lex_frac].
  - intros H; injection H as <- <-. lia.
  - pose proof (dropWhile_length isDigit s1).
    destruct (d =? Ch.DOT)%N.
    + destruct (takeWhile isDigit s1); [ discriminate | ].
      intros H'; injection H' as <- <-. cbn [List.length]. lia.
    + intros H'; injection H' as <- <-. lia.
Qed.

Lemma lex_exp_length s e r :
  lex_exp s = Ok (e, r) -> List.length r <= List.length s.
Proof.
  destruct s as [ | d s1 ]; cbn [lex_exp].
  - intros H; injection H as <- <-. lia.
  - destruct ((d =? 101) || (d =? 69))%N.
    + destruct s1 as [ | sg s2 ].
      * cbn [takeWhile]. discriminate.
      * pose proof (dropWhile_length isDigit s2).
        pose proof (dropWhile_length isDigit (sg :: s2)).
        destruct (sg =? Ch.MINUS)%N; [ | destruct (sg =? Ch.PLUS)%N ];
          cbv beta iota;
          match goal with
          | |- context [takeWhile isDigit ?x] =>
              destruct (takeWhile isDigit x); [ discriminate | ]
          end;
          intros H'; injection H' as <- <-;
          cbn [List.length dropWhile] in *;
          try destruct (isDigit sg); cbn [List.length] in *; lia.
    + intros H'; injection H' as <- <-. lia.
Qed.

Lemma lex_unsigned_length neg s x r :
  lex_unsigned neg s = Ok (x, r) -> List.length r < List.length s.
Proof.
  unfold lex_unsigned.
  destruct (lex_int s) as [ [int s2] | | ] eqn:E1; try discriminate.
  cbn [bind].
  destruct (lex_frac s2) as [ [frac s3] | | ] eqn:E2; try discriminate.
  cbn [bind].
  destruct (lex_exp s3) as [ [e s4] | | ] eqn:E3; try discriminate.
  cbn [bind]. intros H. injection H as _ <-.
  apply lex_int_length in E1. apply lex_frac_length in E2.
  apply lex_exp_length in E3. lia.
Qed.

Lemma lex_number_length s x r :
  lex_number s = Ok (x, r) -> List.length r < List.length s.
Proof.
  unfold lex_number. destruct s as [ | c s1 ].
  - intros H. apply lex_unsigned_length in H. exact H.
  - destruct (c =? Ch.MINUS)%N; intros H; apply lex_unsigned_length in H;
      cbn [List.length] in *; lia.
Qed.

Lemma lex_unsigned_fuel neg s : lex_unsigned neg s <> OutOfFuel.
Proof.
  unfold lex_unsigned.
  assert (H1 : lex_int s <> OutOfFuel).
  { unfold lex_int. break_match; discriminate. }
  destruct (lex_int s) as [ [int s2] | | ]; try discriminate; [ | tauto ].
  cbn [bind].
  assert (H2 : lex_frac s2 <> OutOfFuel).
  { unfold lex_frac. break_match; discriminate. }
  destruct (lex_frac s2) as [ [frac s3] | | ]; try discriminate; [ | tauto ].
  cbn [bind].
  assert (H3 : lex_exp s3 <> OutOfFuel).
  { unfold lex_exp. break_match; discriminate. }
  destruct (lex_exp s3) as [ [e s4] | | ]; try discriminate. tauto.
Qed.

Lemma lex_number_fuel s : lex_number s <> OutOfFuel.
Proof.
  unfold lex_number. destruct s as [ | c s1 ];
    [ | destruct (c =? Ch.MINUS)%N ]; apply lex_unsigned_fuel.
Qed.

Lemma strip_prefix_length kw s r :
  strip_prefix kw s = Some r ->
  List.length r + List.length kw = List.length s.
Proof.
  revert s. induction kw as [ | k kw IH ]; intros s H.
  - injection H as <-. cbn [List.length]. lia.
  - destruct s as [ | c s1 ]; [ discriminate | ]. cbn [strip_prefix] in H.
    destruct (k =? c)%N; [ | discriminate ].
    apply IH in H. cbn [List.length]. lia.
Qed.

Lemma lex_keyword_length kw v s v' r :
  kw <> [] -> lex_keyword kw v s = Ok (v', r) ->
  List.length r < List.length s.
Proof.
  unfold lex_keyword. intros Hkw H.
  destruct (strip_prefix kw s) eqn:E; [ | discriminate ].
  injection H as _ <-. apply strip_prefix_length in E.
  destruct kw; [ congruence | ]. cbn [List.length] in E. lia.
Qed.

Lemma lex_keyword_fuel kw v s : lex_keyword kw v s <> OutOfFuel.
Proof.
  unfold lex_keyword. destruct (strip_prefix kw s); discriminate.
Qed.

Lemma parse_value_unfold f s :
  parse_value (S f) s =
  match skip_ws s with
  | [] => SyntaxError
  | c :: r =>
      if (c =? Ch.LBRACE)%N then
        match skip_ws r with
        | c' :: r' =>
            if (c' =? Ch.RBRACE)%N then Ok (JObject [], r')
            else let* (ms, rest) := parse_members f r in
                 Ok (JObject ms, rest)
        | [] => SyntaxError
        end
      else if (c =? Ch.LBRACKET)%N then
        match skip_ws r with
        | c' :: r' =>
            if (c' =? Ch.RBRACKET)%N then Ok (JArray [], r')
            else let* (vs, rest) := parse_elements f r in
                 Ok (JArray vs, rest)
        | [] => SyntaxError
        end
      else if (c =? Ch.QUOTE)%N then
        let* (str, rest) := lex_string r in Ok (JString str, rest)
      else if (c =? 116)%N then lex_keyword (lit "true") (JBool true) (c :: r)
      else if (c =? 102)%N then lex_keyword (lit "false") (JBool false) (c :: r)
      else if (c =? 110)%N then lex_keyword (lit "null") JNull (c :: r)
      else if (c =? Ch.MINUS)%N || isDigit c then
        let* (x, rest) := lex_number (c :: r) in Ok (JNumber x, rest)
      else SyntaxError
  end.
Proof. reflexivity. Qed.

Lemma parse_elements_unfold f s :
  parse_elements (S f) s =
  let* (v, r) := parse_value f s in
  match skip_ws r with
  | c :: r' =>
      if (c =? Ch.COMMA)%N then
        let* (vs, rest) := parse_elements f r' in Ok (v :: vs, rest)
      else if (c =? Ch.RBRACKET)%N then Ok ([v], r')
      else SyntaxError
  | [] => SyntaxError
  end.
Proof. reflexivity. Qed.

Lemma parse_members_unfold f s :
  parse_members (S f) s =
  match skip_ws s with
  | q :: r0 =>
      if (q =? Ch.QUOTE)%N then
        let* (k, r1) := lex_string r0 in
        match skip_ws r1 with
        | c1 :: r2 =>
            if (c1 =? Ch.COLON)%N then
              let* (v, r3) := parse_value f r2 in
              match skip_ws r3 with
              | c :: r' =>
                  if (c =? Ch.COMMA)%N then
                    let* (ms, rest) := parse_members f r' in
                    Ok ((k, v) :: ms, rest)
                  else if (c =? Ch.RBRACE)%N then Ok ([(k, v)], r')
                  else SyntaxError
              | [] => SyntaxError
              end
            else SyntaxError
        | [] => SyntaxError
        end
      else SyntaxError
  | [] => SyntaxError
  end.
Proof. reflexivity. Qed.

(** One case split inside the hypothesis [H], with the impossible cases
    closed. *)
Ltac step_in H :=
  match type of H with
  | context [match ?x with _ => _ end] => destruct x eqn:?
  end; try discriminate H; cbv beta iota in H.

Ltac length_facts :=
  repeat match goal with
         | H : skip_ws _ = _ :: _ |- _ => apply skip_ws_cons in H
         | H : lex_string _ = Ok _ |- _ => apply lex_string_length in H
         | H : lex_number _ = Ok _ |- _ => apply lex_number_length in H
         | H : lex_keyword _ _ _ = Ok _ |- _ =>
             apply lex_keyword_length in H; [ | discriminate ]
         end;
  cbn [List.length] in *.

Lemma parse_consumes n :
  (forall s v r, parse_value n s = Ok (v, r) ->
                 List.length r < List.length s)
  /\ (forall s vs r, parse_elements n s = Ok (vs, r) ->
                     List.length r < List.length s)
  /\ (forall s ms r, parse_members n s = Ok (ms, r) ->
                     List.length r < List.length s).
Proof.
  induction n as [ | n (IHv & IHe & IHm) ].
  - repeat split; intros; discriminate.
  - repeat split; intros s v r H.
    + rewrite parse_value_unfold in H. unfold bind in H.
      repeat step_in H;
        try (injection H as <- <-);
        repeat match goal with
               | E : parse_members _ _ = Ok _ |- _ => apply IHm in E
               | E : parse_elements _ _ = Ok _ |- _ => apply IHe in E
               end;
        length_facts; lia.
    + rewrite parse_elements_unfold in H. unfold bind in H.
      repeat step_in H;
        try (injection H as <- <-);
        repeat match goal with
               | E : parse_value _ _ = Ok _ |- _ => apply IHv in E
               | E : parse_elements _ _ = Ok _ |- _ => apply IHe in E
               end;
        length_facts; lia.
    + rewrite parse_members_unfold in H. unfold bind in H.
      repeat step_in H;
        try (injection H as <- <-);
        repeat match goal with
               | E : parse_value _ _ = Ok _ |- _ => apply IHv in E
               | E : parse_members _ _ = Ok _ |- _ => apply IHm in E
               end;
        length_facts; lia.
Qed.

Ltac consumed_facts n :=
  repeat match goal with
         | E : parse_value n _ = Ok _ |- _ =>
             apply (proj1 (parse_consumes n)) in E
         | E : parse_elements n _ = Ok _ |- _ =>
             apply (proj1 (proj2 (parse_consumes n))) in E
         | E : parse_members n _ = Ok _ |- _ =>
             apply (proj2 (proj2 (parse_consumes n))) in E
         end;
  length_facts.

Lemma parse_fuel n :
  (forall s, 2 * List.length s + 1 <= n -> parse_value n s <> OutOfFuel)
  /\ (forall s, 2 * List.length s + 2 <= n ->
                parse_elements n s <> OutOfFuel)
  /\ (forall s, 2 * List.length s + 2 <= n ->
                parse_members n s <> OutOfFuel).
Proof.
  induction n as [ | n (IHv & IHe & IHm) ].
  - repeat split; intros s Hn; cbn [List.length] in Hn; lia.
  - repeat split; intros s Hn H.
    + rewrite parse_value_unfold in H. unfold bind in H.
      repeat step_in H;
        match goal with
        | E : parse_members n _ = OutOfFuel |- _ =>
            apply IHm in E; [ exact E | consumed_facts n; lia ]
        | E : parse_elements n _ = OutOfFuel |- _ =>
            apply IHe in E; [ exact E | consumed_facts n; lia ]
        | E : lex_string _ = OutOfFuel |- _ => exact (lex_string_fuel _ E)
        | E : lex_number _ = OutOfFuel |- _ => exact (lex_number_fuel _ E)
        | _ => exact (lex_keyword_fuel _ _ _ H)
        end.
    + rewrite parse_elements_unfold in H. unfold bind in H.
      repeat step_in H;
        match goal with
        | E : parse_elements n _ = OutOfFuel |- _ =>
            apply IHe in E; [ exact E | consumed_facts n; lia ]
        | E : parse_value n _ = OutOfFuel |- _ =>
            apply IHv in E; [ exact E | consumed_facts n; lia ]
        end.
    + rewrite parse_members_unfold in H. unfold bind in H.
      repeat step_in H;
        match goal with
        | E : parse_members n _ = OutOfFuel |- _ =>
            apply IHm in E; [ exact E | consumed_facts n; lia ]
        | E : parse_value n _ = OutOfFuel |- _ =>
            apply IHv in E; [ exact E | consumed_facts n; lia ]
        | E : lex_string _ = OutOfFuel |- _ => exact (lex_string_fuel _ E)
        end.
Qed.

(** The fuel of [JSON_parse] is enough: the parser decides every text. *)
Theorem JSON_parse_fuel (t : text) : JSON_parse t <> OutOfFuel.
Proof.
  unfold JSON_parse.
  pose proof (proj1 (parse_fuel (2 * List.length t + 1)) t (le_n _)) as H.
  destruct (parse_value (2 * List.length t + 1) t) as [ [v r] | | ];
    [ destruct (skip_ws r); discriminate | discriminate | congruence ].
Qed.

(** More fuel does not change a result. *)
Ltac split_in H :=
  match type of H with
  | context [match ?x with _ => _ end] => destruct x eqn:?
  end; cbv beta iota in H.

Lemma parse_fuel_stable n :
  (forall s, parse_value n s <> OutOfFuel ->
     forall m, n <= m -> parse_value m s = parse_value n s)
  /\ (forall s, parse_elements n s <> OutOfFuel ->
        forall m, n <= m -> parse_elements m s = parse_elements n s)
  /\ (forall s, parse_members n s <> OutOfFuel ->
        forall m, n <= m -> parse_members m s = parse_members n s).
Proof.
  induction n as [ | n (IHv & IHe & IHm) ].
  - repeat split; intros s Hne; exfalso; apply Hne; reflexivity.
  - repeat split; intros s Hne m Hm;
      (destruct m as [ | m ]; [ lia | ]);
      assert (Hm' : n <= m) by lia;
      match goal with
      | |- _ = ?rhs => remember rhs as R eqn:H
      end;
      symmetry in H;
      [ rewrite parse_value_unfold in H |- *
      | rewrite parse_elements_unfold in H |- *
      | rewrite parse_members_unfold in H |- * ];
      unfold bind in H |- *;
      repeat split_in H;
      repeat (match goal with
              | E : parse_value n _ = OutOfFuel |- _ =>
                  exfalso; apply Hne; rewrite <- H; reflexivity
              | E : parse_elements n _ = OutOfFuel |- _ =>
                  exfalso; apply Hne; rewrite <- H; reflexivity
              | E : parse_members n _ = OutOfFuel |- _ =>
                  exfalso; apply Hne; rewrite <- H; reflexivity
              | E : parse_value n ?r = _ |- _ =>
                  rewrite (IHv r ltac:(rewrite E; discriminate) m Hm'), E;
                  clear E
              | E : parse_elements n ?r = _ |- _ =>
                  rewrite (IHe r ltac:(rewrite E; discriminate) m Hm'), E;
                  clear E
              | E : parse_members n ?r = _ |- _ =>
                  rewrite (IHm r ltac:(rewrite E; discriminate) m Hm'), E;
                  clear E
              | E : ?l = _ |- context [?l] => rewrite E; clear E
              end; cbv beta iota);
      try exact H; try reflexivity.
Qed.

(** A text read with some fuel is read by [JSON_parse]. *)
Lemma JSON_parse_of_parse_value n t v r :
  parse_value n t = Ok (v, r) -> skip_ws r = [] ->
  JSON_parse t = Ok (evaluate v).
Proof.
  intros Hn Hr. unfold JSON_parse.
  set (N := 2 * List.length t + 1).
  pose proof (proj1 (parse_fuel N) t (le_n _)) as Hfuel.
  assert (HN : parse_value N t = Ok (v, r)).
  { destruct (Nat.le_ge_cases n N) as [Hle | Hge].
    - rewrite (proj1 (parse_fuel_stable n) t
                 ltac:(rewrite Hn; discriminate) N Hle).
      exact Hn.
    - rewrite <- (proj1 (parse_fuel_stable N) t Hfuel n Hge). exact Hn. }
  rewrite HN, Hr. reflexivity.
Qed.

(* ================================================================== *)
(** * Decimal digits *)

Local Open Scope Z_scope.

Lemma isDigit_range c : isDigit c = true <-> (48 <= c <= 57)%N.
Proof.
  unfold isDigit. rewrite andb_true_iff, !N.leb_le. tauto.
Qed.

Lemma digit_char_digit d : 0 <= d < 10 -> isDigit (digit_char d) = true.
Proof.
  intros H. apply isDigit_range. unfold digit_char. lia.
Qed.

Lemma digit_value_char d : 0 <= d < 10 -> digit_value (digit_char d) = d.
Proof.
  intros H. unfold digit_value, digit_char. lia.
Qed.

Lemma digit_value_range c : isDigit c = true -> 0 <= digit_value c < 10.
Proof.
  intros H. apply isDigit_range in H. unfold digit_value. lia.
Qed.

Lemma digits_value_app a ds1 ds2 :
  digits_value a (ds1 ++ ds2) = digits_value (digits_value a ds1) ds2.
Proof.
  revert a. induction ds1 as [ | d r IH ]; intros a; [ reflexivity | ].
  cbn [app digits_value]. apply IH.
Qed.

Lemma digits_value_nonneg ds :
  Forall (fun c => isDigit c = true) ds ->
  forall a, 0 <= a -> 0 <= digits_value a ds.
Proof.
  induction 1 as [ | d r Hd _ IH ]; intros a Ha; [ exact Ha | ].
  cbn [digits_value]. apply IH. apply digit_value_range in Hd. lia.
Qed.

Lemma digits_value_zeros n a :
  digits_value a (List.repeat 48%N n) = a * 10 ^ Z.of_nat n.
Proof.
  revert a. induction n as [ | n IH ]; intros a.
  - cbn. lia.
  - cbn [List.repeat digits_value]. rewrite IH.
    rewrite Nat2Z.inj_succ, Z.pow_succ_r by lia.
    change (digit_value 48%N) with 0. ring.
Qed.

(** The digits of a non-negative integer: all digits, at least one, no
    leading zero unless the integer is zero, and they read back. *)
Lemma Z_digits_aux_spec fuel :
  forall z acc, fuel <> O -> 0 <= z < 2 ^ Z.of_nat fuel ->
    exists ds,
      Z_digits_aux fuel z acc = ds ++ acc
      /\ Forall (fun c => isDigit c = true) ds
      /\ ds <> []
      /\ digits_value 0 ds = z
      /\ (0 < z -> List.hd_error ds <> Some 48%N).
Proof.
  induction fuel as [ | f IH ]; intros z acc Hf Hz; [ congruence | ].
  cbn [Z_digits_aux]. destruct (z <? 10) eqn:E.
  - apply Z.ltb_lt in E. exists [digit_char z]. repeat split.
    + constructor; [ apply digit_char_digit; lia | constructor ].
    + discriminate.
    + cbn [digits_value]. rewrite digit_value_char; lia.
    + intros Hpos. cbn [List.hd_error]. unfold digit_char.
      intros Heq. injection Heq as Heq. lia.
  - apply Z.ltb_ge in E.
    assert (Hq : 1 <= z / 10) by (apply Z.div_le_lower_bound; lia).
    assert (Hq2 : z / 10 < 2 ^ Z.of_nat f).
    { rewrite Nat2Z.inj_succ, Z.pow_succ_r in Hz by lia.
      apply Z.div_lt_upper_bound; lia. }
    assert (Hf' : f <> O).
    { intros ->. cbn in Hq2. lia. }
    destruct (IH (z / 10) (digit_char (z mod 10) :: acc) Hf'
                 (conj (Z.le_trans _ _ _ Z.le_0_1 Hq) Hq2))
      as (ds & Heq & Hds & Hne & Hval & Hhd).
    pose proof (Z.mod_pos_bound z 10 ltac:(lia)) as Hm.
    exists (ds ++ [digit_char (z mod 10)]). repeat split.
    + rewrite Heq, <- app_assoc. reflexivity.
    + apply Forall_app. split; [ exact Hds | ].
      constructor; [ apply digit_char_digit; exact Hm | constructor ].
    + destruct ds; discriminate.
    + rewrite digits_value_app, Hval. cbn [digits_value].
      rewrite digit_value_char by exact Hm.
      pose proof (Z.div_mod z 10 ltac:(lia)). lia.
    + intros _. destruct ds as [ | d ds' ]; [ congruence | ].
      cbn [app List.hd_error] in *. apply Hhd. lia.
Qed.

Lemma Z_digits_spec z :
  0 <= z ->
  Forall (fun c => isDigit c = true) (Z_digits z)
  /\ Z_digits z <> []
  /\ digits_value 0 (Z_digits z) = z
  /\ (0 < z -> List.hd_error (Z_digits z) <> Some 48%N).
Proof.
  intros Hz. unfold Z_digits.
  assert (Hb : 0 <= z < 2 ^ Z.of_nat (S (Z.to_nat (Z.log2 z)))).
  { split; [ exact Hz | ].
    rewrite Nat2Z.inj_succ, Z2Nat.id by apply Z.log2_nonneg.
    destruct (Z.eq_dec z 0) as [-> | Hnz]; [ reflexivity | ].
    apply Z.log2_spec. lia. }
  destruct (Z_digits_aux_spec (S (Z.to_nat (Z.log2 z))) z [] ltac:(discriminate) Hb)
    as (ds & Heq & H1 & H2 & H3 & H4).
  rewrite app_nil_r in Heq. rewrite Heq. auto.
Qed.

(** ** Runs of digits in front of other text *)

Lemma takeWhile_digits ds rest :
  Forall (fun c => isDigit c = true) ds ->
  takeWhile isDigit (ds ++ rest) = ds ++ takeWhile isDigit rest.
Proof.
  induction 1 as [ | d r Hd _ IH ]; [ reflexivity | ].
  cbn [app takeWhile]. rewrite Hd, IH. reflexivity.
Qed.

Lemma dropWhile_digits ds rest :
  Forall (fun c => isDigit c = true) ds ->
  dropWhile isDigit (ds ++ rest) = dropWhile isDigit rest.
Proof.
  induction 1 as [ | d r Hd _ IH ]; [ reflexivity | ].
  cbn [app dropWhile]. rewrite Hd, IH. reflexivity.
Qed.

Lemma takeWhile_stop p c r : p c = false -> takeWhile p (c :: r) = [].
Proof. intros H. cbn [takeWhile]. rewrite H. reflexivity. Qed.

Lemma dropWhile_stop p c r : p c = false -> dropWhile p (c :: r) = c :: r.
Proof. intros H. cbn [dropWhile]. rewrite H. reflexivity. Qed.

Lemma number_stop_take rest :
  number_stop rest = true -> takeWhile isDigit rest = [].
Proof.
  destruct rest as [ | c r ]; [ reflexivity | ].
  cbn [number_stop]. rewrite negb_true_iff, !orb_false_iff.
  intros (((H & _) & _) & _). apply takeWhile_stop. exact H.
Qed.

Lemma number_stop_drop rest :
  number_stop rest = true -> dropWhile isDigit rest = rest.
Proof.
  destruct rest as [ | c r ]; [ reflexivity | ].
  cbn [number_stop]. rewrite negb_true_iff, !orb_false_iff.
  intros (((H & _) & _) & _). apply dropWhile_stop. exact H.
Qed.

Lemma number_stop_frac rest :
  number_stop rest = true -> lex_frac rest = Ok ([], rest).
Proof.
  destruct rest as [ | c r ]; [ reflexivity | ].
  cbn [number_stop lex_frac]. rewrite negb_true_iff, !orb_false_iff.
  intros (((_ & H) & _) & _). rewrite H. reflexivity.
Qed.

Lemma number_stop_exp rest :
  number_stop rest = true -> lex_exp rest = Ok (0, rest).
Proof.
  destruct rest as [ | c r ]; [ reflexivity | ].
  cbn [number_stop lex_exp]. rewrite negb_true_iff, !orb_false_iff.
  intros (((_ & _) & H1) & H2). rewrite H1, H2. reflexivity.
Qed.

(** ** Reading the layouts of [Number::toString] *)

Lemma decimal_to_number_scaled neg s j :
  0 < s -> 0 <= j ->
  decimal_to_number neg (s * 10 ^ j) 0 = decimal_to_number neg s j.
Proof.
  intros Hs Hj.
  assert (Hp : 0 < s * 10 ^ j) by (apply Z.mul_pos_pos; [ lia | apply Z.pow_pos_nonneg; lia ]).
  unfold decimal_to_number.
  destruct (s * 10 ^ j) as [ | p' | p' ] eqn:E; try lia.
  destruct s as [ | p | p ]; try lia.
  apply Z.leb_le in Hj. rewrite Hj. cbn [Z.leb Z.compare].
  rewrite Z.pow_0_r, Z.mul_1_r, E. reflexivity.
Qed.

Lemma lex_int_digits d dt rest :
  isDigit d = true -> d <> 48%N ->
  Forall (fun c => isDigit c = true) dt ->
  takeWhile isDigit rest = [] -> dropWhile isDigit rest = rest ->
  lex_int (d :: dt ++ rest) = Ok (d :: dt, rest).
Proof.
  intros Hd Hnz Hdt Ht Hr. cbn [lex_int].
  apply N.eqb_neq in Hnz. rewrite Hnz, Hd.
  rewrite takeWhile_digits, dropWhile_digits, Ht, Hr, app_nil_r by exact Hdt.
  reflexivity.
Qed.

Lemma lex_frac_digits ds rest :
  Forall (fun c => isDigit c = true) ds -> ds <> [] ->
  takeWhile isDigit rest = [] -> dropWhile isDigit rest = rest ->
  lex_frac (Ch.DOT :: ds ++ rest) = Ok (ds, rest).
Proof.
  intros Hds Hne Ht Hr. cbn [lex_frac]. rewrite N.eqb_refl.
  rewrite takeWhile_digits, dropWhile_digits, Ht, Hr, app_nil_r by exact Hds.
  destruct ds; [ congruence | reflexivity ].
Qed.

Lemma lex_exp_part n rest :
  number_stop rest = true ->
  lex_exp (exponent_part n ++ rest) = Ok (n - 1, rest).
Proof.
  intros Hstop. unfold exponent_part.
  destruct (Z_digits_spec (Z.abs (n - 1)) (Z.abs_nonneg _))
    as (Hds & Hne & Hval & _).
  remember (Z_digits (Z.abs (n - 1))) as ds eqn:Eds in *.
  destruct ds as [ | c0 l ]; [ congruence | ].
  destruct (0 <=? n - 1) eqn:E; cbn [app lex_exp];
    unfold Ch.PLUS, Ch.MINUS; cbn [N.eqb Pos.eqb orb]; cbv beta iota;
    change (c0 :: l ++ rest) with ((c0 :: l) ++ rest);
    rewrite takeWhile_digits, dropWhile_digits by exact Hds;
    rewrite (number_stop_take rest Hstop), (number_stop_drop rest Hstop),
      app_nil_r, Hval;
    apply Z.leb_le in E || apply Z.leb_gt in E;
    f_equal; f_equal; lia.
Qed.

Lemma e_not_digit : isDigit 101%N = false.
Proof. reflexivity. Qed.

Lemma dot_not_digit : isDigit Ch.DOT = false.
Proof. reflexivity. Qed.

Lemma exponent_part_head n :
  exists tail, exponent_part n = 101%N :: tail.
Proof. unfold exponent_part. eexists. reflexivity. Qed.

Lemma lex_unsigned_layout neg s j rest :
  0 < s -> number_stop rest = true ->
  lex_unsigned neg
    (layout_digits (Z_digits s) (Z.of_nat (List.length (Z_digits s)) + j)
     ++ rest)
  = Ok (decimal_to_number neg s j, rest).
Proof.
  intros Hs Hstop.
  destruct (Z_digits_spec s (Z.lt_le_incl _ _ Hs)) as (Hds & Hne & Hval & Hhd).
  specialize (Hhd Hs).
  pose proof (number_stop_take rest Hstop) as Htake.
  pose proof (number_stop_drop rest Hstop) as Hdrop.
  remember (Z_digits s) as ds eqn:Eds in *.
  destruct ds as [ | d0 dt ]; [ congruence | ].
  set (k := Z.of_nat (List.length (d0 :: dt))).
  assert (Hd0 : isDigit d0 = true) by (inversion Hds; assumption).
  assert (Hdt : Forall (fun c => isDigit c = true) dt)
    by (inversion Hds; assumption).
  assert (Hnz : d0 <> 48%N).
  { intros Heq. apply Hhd. cbn [List.hd_error]. rewrite Heq. reflexivity. }
  assert (Hk : 1 <= k) by (subst k; cbn [List.length]; lia).
  unfold layout_digits. fold k.
  destruct ((k <=? k + j) && (k + j <=? 21)) eqn:EA.
  { (* digits followed by zeros *)
    apply andb_true_iff in EA as [EA _]. apply Z.leb_le in EA.
    replace (k + j - k) with j by lia.
    unfold lex_unsigned. cbn [app].
    rewrite lex_int_digits; try assumption;
      [ | apply Forall_app; split;
          [ exact Hdt | apply Forall_forall; intros c Hc;
                        apply repeat_spec in Hc; subst c; reflexivity ] ].
    cbn [bind]. rewrite (number_stop_frac rest Hstop). cbn [bind].
    rewrite (number_stop_exp rest Hstop). cbn [bind].
    rewrite app_nil_r. cbn [List.length Z.of_nat Z.sub].
    change (d0 :: dt ++ List.repeat 48%N (Z.to_nat j))
      with ((d0 :: dt) ++ List.repeat 48%N (Z.to_nat j)).
    rewrite digits_value_app, Hval, digits_value_zeros.
    rewrite Z2Nat.id by lia.
    rewrite decimal_to_number_scaled by lia. reflexivity. }
  destruct ((0 <? k + j) && (k + j <=? 21)) eqn:EB.
  { (* a decimal point inside the digits *)
    apply andb_true_iff in EB as [EB1 EB2].
    apply Z.ltb_lt in EB1. apply Z.leb_le in EB2.
    assert (Hlt : k + j < k).
    { apply andb_false_iff in EA as [EA | EA];
        [ apply Z.leb_gt in EA | apply Z.leb_gt in EA ]; lia. }
    set (n := Z.to_nat (k + j)).
    assert (Hn : (1 <= n < List.length (d0 :: dt))%nat) by (subst n k; lia).
    destruct n as [ | n' ] eqn:En; [ lia | ].
    cbn [firstn skipn app]. rewrite <- app_assoc.
    pose proof Hdt as Hparts. rewrite <- (firstn_skipn n' dt) in Hparts.
    apply Forall_app in Hparts as [Hfirst Hskip].
    assert (Hskip_ne : skipn n' dt <> []).
    { intros Hnil. apply (f_equal (@List.length _)) in Hnil.
      rewrite length_skipn in Hnil. cbn [List.length] in Hn, Hnil. lia. }
    unfold lex_unsigned.
    rewrite lex_int_digits; try assumption;
      [ | apply takeWhile_stop; exact dot_not_digit
        | apply dropWhile_stop; exact dot_not_digit ].
    cbn [bind app].
    rewrite lex_frac_digits; try assumption.
    cbn [bind]. rewrite (number_stop_exp rest Hstop). cbn [bind].
    change ((d0 :: firstn n' dt) ++ skipn n' dt)
      with (d0 :: (firstn n' dt ++ skipn n' dt)).
    rewrite firstn_skipn, Hval. f_equal. f_equal. f_equal.
    rewrite length_skipn. subst k. cbn [List.length] in *. lia. }
  destruct ((-6 <? k + j) && (k + j <=? 0)) eqn:EC.
  { (* zero, point, zeros, digits *)
    apply andb_true_iff in EC as [EC1 EC2].
    apply Z.ltb_lt in EC1. apply Z.leb_le in EC2.
    unfold lex_unsigned. cbn [app lex_int N.eqb Pos.eqb bind].
    rewrite <- app_assoc.
    assert (Hz : Forall (fun c => isDigit c = true)
                   (List.repeat 48%N (Z.to_nat (- (k + j))) ++ d0 :: dt)).
    { apply Forall_app. split; [ | exact Hds ].
      apply Forall_forall. intros c Hc. apply repeat_spec in Hc.
      subst c. reflexivity. }
    rewrite app_assoc.
    rewrite lex_frac_digits; try assumption;
      [ | destruct (List.repeat 48%N (Z.to_nat (- (k + j)))); discriminate ].
    cbn [bind]. rewrite (number_stop_exp rest Hstop). cbn [bind].
    cbn [app digits_value]. change (0 * 10 + digit_value 48%N) with 0.
    rewrite digits_value_app, digits_value_zeros, Z.mul_0_l, Hval.
    f_equal. f_equal. f_equal.
    rewrite length_app, repeat_length. subst k. cbn [List.length] in *. lia. }
  (* exponent notation *)
  destruct (exponent_part_head (k + j)) as [tail Htail].
  destruct dt as [ | d1 dt' ].
  - unfold lex_unsigned. cbn [app].
    change (d0 :: exponent_part (k + j) ++ rest)
      with (d0 :: [] ++ (exponent_part (k + j) ++ rest)).
    rewrite lex_int_digits;
      [ | exact Hd0 | exact Hnz | constructor
        | rewrite Htail; apply takeWhile_stop; exact e_not_digit
        | rewrite Htail; apply dropWhile_stop; exact e_not_digit ].
    cbn [bind]. rewrite Htail at 1. cbn [app lex_frac].
    change (101 =? Ch.DOT)%N with false. cbv iota.
    change (101%N :: tail ++ rest) with ((101%N :: tail) ++ rest).
    rewrite <- Htail. cbn [bind].
    rewrite (lex_exp_part (k + j) rest Hstop). cbn [bind].
    rewrite Hval. f_equal. f_equal. f_equal.
    subst k. cbn [List.length]. lia.
  - unfold lex_unsigned. rewrite <- !app_assoc. cbn [app].
    change (d0 :: Ch.DOT :: d1 :: dt' ++ exponent_part (k + j) ++ rest)
      with (d0 :: [] ++ (Ch.DOT :: (d1 :: dt') ++ exponent_part (k + j) ++ rest)).
    rewrite lex_int_digits;
      [ | exact Hd0 | exact Hnz | constructor
        | apply takeWhile_stop; exact dot_not_digit
        | apply dropWhile_stop; exact dot_not_digit ].
    cbn [bind].
    rewrite lex_frac_digits;
      [ | exact Hdt | discriminate
        | rewrite Htail; apply takeWhile_stop; exact e_not_digit
        | rewrite Htail; apply dropWhile_stop; exact e_not_digit ].
    cbn [bind]. rewrite (lex_exp_part (k + j) rest Hstop). cbn [bind].
    change ([d0] ++ d1 :: dt') with (d0 :: d1 :: dt'). rewrite Hval.
    f_equal. f_equal. f_equal. subst k. cbn [List.length]. lia.
Qed.

Local Close Scope Z_scope.

(* ================================================================== *)
(** * Rounding to binary64 *)

Local Open Scope Z_scope.

(** ** Number of binary digits *)

Lemma digits2_pos_size p : digits2_pos p = Pos.size p.
Proof. induction p; cbn; congruence. Qed.

Lemma Zdigits2_log2 m : 0 < m -> Zdigits2 m = Z.log2 m + 1.
Proof.
  destruct m as [ | p | p ]; try lia. intros _.
  cbn [Zdigits2]. rewrite digits2_pos_size.
  destruct p; cbn [Z.log2 Pos.size]; lia.
Qed.

Lemma Zdigits2_nonneg m : 0 <= Zdigits2 m.
Proof. destruct m; cbn; lia. Qed.

Lemma Zdigits2_bounds m :
  0 < m -> 2 ^ (Zdigits2 m - 1) <= m < 2 ^ Zdigits2 m.
Proof.
  intros H. rewrite (Zdigits2_log2 m H).
  replace (Z.log2 m + 1 - 1) with (Z.log2 m) by lia.
  apply (Z.log2_spec m H).
Qed.

Lemma Zdigits2_unique m d :
  0 < m -> 2 ^ (d - 1) <= m < 2 ^ d -> Zdigits2 m = d.
Proof.
  intros Hm Hd. rewrite (Zdigits2_log2 m Hm).
  assert (Hd1 : 0 <= d - 1).
  { destruct (Z.le_gt_cases 1 d) as [ | Hlt ]; [ lia | ]. exfalso.
    destruct (Z.eq_dec d 0) as [-> | Hnz].
    - rewrite Z.pow_0_r in Hd. lia.
    - rewrite (Z.pow_neg_r 2 d) in Hd by lia. lia. }
  rewrite (Z.log2_unique m (d - 1) Hd1); [ lia | ].
  replace (Z.succ (d - 1)) with d by lia. exact Hd.
Qed.

Lemma Zdigits2_mul_pow2 m k :
  0 < m -> 0 <= k -> Zdigits2 (m * 2 ^ k) = Zdigits2 m + k.
Proof.
  intros Hm Hk.
  assert (0 < m * 2 ^ k) by (apply Z.mul_pos_pos; [ lia | apply Z.pow_pos_nonneg; lia ]).
  rewrite !Zdigits2_log2 by assumption.
  rewrite Z.log2_mul_pow2 by lia. lia.
Qed.

Lemma Zdigits2_mul_le a b :
  0 < a -> 0 < b -> Zdigits2 (a * b) <= Zdigits2 a + Zdigits2 b.
Proof.
  intros Ha Hb.
  assert (0 < a * b) by (apply Z.mul_pos_pos; lia).
  rewrite !Zdigits2_log2 by assumption.
  pose proof (Z.log2_mul_above a b ltac:(lia) ltac:(lia)). lia.
Qed.

Lemma Zdigits2_ge_pow2 m d : 2 ^ d <= m -> 0 <= d -> d + 1 <= Zdigits2 m.
Proof.
  intros Hle Hd.
  assert (0 < m) by (pose proof (Z.pow_pos_nonneg 2 d); lia).
  rewrite Zdigits2_log2 by lia.
  apply Z.log2_le_pow2 in Hle; lia.
Qed.

Lemma Zdigits2_div_pow2 m n :
  0 < m -> 0 <= n -> n < Zdigits2 m ->
  Zdigits2 (m / 2 ^ n) = Zdigits2 m - n.
Proof.
  intros Hm Hn Hlt.
  pose proof (Zdigits2_bounds m Hm) as [Hlo Hhi].
  assert (Hp : 0 < 2 ^ n) by (apply Z.pow_pos_nonneg; lia).
  apply Zdigits2_unique.
  - apply Z.div_str_pos. split; [ exact Hp | ].
    apply Z.le_trans with (2 ^ (Zdigits2 m - 1)); [ | exact Hlo ].
    apply Z.pow_le_mono_r; lia.
  - split.
    + apply Z.div_le_lower_bound; [ exact Hp | ].
      rewrite <- Z.pow_add_r by lia.
      replace (n + (Zdigits2 m - n - 1)) with (Zdigits2 m - 1) by lia.
      exact Hlo.
    + apply Z.div_lt_upper_bound; [ exact Hp | ].
      rewrite <- Z.pow_add_r by lia.
      replace (n + (Zdigits2 m - n)) with (Zdigits2 m) by lia. exact Hhi.
Qed.

(** ** Shifting a mantissa to the right *)

Lemma iter_pos_nat {A} (f : A -> A) p x :
  iter_pos f p x = Nat.iter (Pos.to_nat p) f x.
Proof.
  revert x. induction p as [ p IH | p IH | ]; intros x; cbn [iter_pos].
  - rewrite !IH, Pos2Nat.inj_xI.
    replace (S (2 * Pos.to_nat p))%nat
      with (Pos.to_nat p + (Pos.to_nat p + 1))%nat by lia.
    rewrite !Nat.iter_add. reflexivity.
  - rewrite !IH, Pos2Nat.inj_xO.
    replace (2 * Pos.to_nat p)%nat with (Pos.to_nat p + Pos.to_nat p)%nat
      by lia.
    rewrite Nat.iter_add. reflexivity.
  - reflexivity.
Qed.

Lemma shr_1_m mrs : 0 <= shr_m mrs -> shr_m (shr_1 mrs) = shr_m mrs / 2.
Proof.
  destruct mrs as [m r s]. cbn [shr_m]. intros Hm.
  destruct m as [ | [ p | p | ] | p ]; try lia; cbn [shr_1 shr_m];
    try reflexivity.
  - rewrite Pos2Z.inj_xI. apply (Z.div_unique _ 2 _ 1); lia.
  - rewrite Pos2Z.inj_xO. apply (Z.div_unique _ 2 _ 0); lia.
Qed.

Lemma shr_iter_m n mrs :
  0 <= shr_m mrs ->
  shr_m (Nat.iter n shr_1 mrs) = shr_m mrs / 2 ^ Z.of_nat n.
Proof.
  intros Hm. induction n as [ | n IH ].
  - change (Nat.iter 0 shr_1 mrs) with mrs.
    rewrite Z.pow_0_r, Z.div_1_r. reflexivity.
  - rewrite Nat.iter_succ, shr_1_m.
    + rewrite IH, Nat2Z.inj_succ, Z.pow_succ_r by lia.
      rewrite Z.div_div by (try apply Z.pow_pos_nonneg; lia).
      f_equal. lia.
    + rewrite IH. apply Z.div_pos; [ lia | apply Z.pow_pos_nonneg; lia ].
Qed.

Lemma shr_1_exact a :
  0 <= a ->
  shr_1 {| shr_m := 2 * a; shr_r := false; shr_s := false |}
  = {| shr_m := a; shr_r := false; shr_s := false |}.
Proof. destruct a as [ | p | p ]; try lia; reflexivity. Qed.

Lemma shr_iter_exact n a :
  0 <= a ->
  Nat.iter n shr_1
    {| shr_m := a * 2 ^ Z.of_nat n; shr_r := false; shr_s := false |}
  = {| shr_m := a; shr_r := false; shr_s := false |}.
Proof.
  intros Ha. revert a Ha. induction n as [ | n IH ]; intros a Ha.
  - rewrite Z.pow_0_r, Z.mul_1_r. reflexivity.
  - rewrite Nat2Z.inj_succ, Z.pow_succ_r by lia.
    replace (a * (2 * 2 ^ Z.of_nat n)) with ((2 * a) * 2 ^ Z.of_nat n) by ring.
    rewrite Nat.iter_succ, IH by lia. apply shr_1_exact. exact Ha.
Qed.

(** What [shr] leaves: the mantissa divided by the power of two, at the
    raised exponent. *)
Lemma shr_spec m l e n :
  0 <= m ->
  let '(mrs, e') := shr (shr_record_of_loc m l) e n in
  shr_m mrs = m / 2 ^ Z.max 0 n /\ e' = e + Z.max 0 n.
Proof.
  intros Hm.
  assert (Hrec : shr_m (shr_record_of_loc m l) = m)
    by (destruct l as [ | [ | | ] ]; reflexivity).
  destruct n as [ | p | p ]; cbn [shr].
  - rewrite Hrec, Z.div_1_r. split; [ reflexivity | lia ].
  - rewrite iter_pos_nat, shr_iter_m by (rewrite Hrec; exact Hm).
    rewrite Hrec, positive_nat_Z. split; [ | lia ].
    rewrite Z.max_r by lia. reflexivity.
  - rewrite Hrec. cbn [Z.max Z.compare]. rewrite Z.div_1_r.
    split; [ reflexivity | lia ].
Qed.

Lemma shr_exact a e n :
  0 <= a -> 0 <= n ->
  shr (shr_record_of_loc (a * 2 ^ n) loc_Exact) e n
  = ({| shr_m := a; shr_r := false; shr_s := false |}, e + n).
Proof.
  intros Ha Hn. destruct n as [ | p | p ]; try lia; cbn [shr shr_record_of_loc].
  - rewrite Z.pow_0_r, Z.mul_1_r, Z.add_0_r. reflexivity.
  - rewrite iter_pos_nat. rewrite <- (positive_nat_Z p) at 1.
    rewrite shr_iter_exact by exact Ha. reflexivity.
Qed.

(** ** Rounding a value that is a binary64 number already *)

Lemma fexp_eq e : fexp prec emax e = Z.max (e - 53) (-1074).
Proof. reflexivity. Qed.

Lemma fexp_monotone a b : a <= b -> fexp prec emax a <= fexp prec emax b.
Proof. rewrite !fexp_eq. lia. Qed.

Lemma bounded_spec m e :
  bounded prec emax m e = true <->
  fexp prec emax (Zdigits2 (Zpos m) + e) = e /\ e <= 971.
Proof.
  unfold bounded, canonical_mantissa. rewrite andb_true_iff, Z.eqb_eq, Z.leb_le.
  cbn [Zdigits2]. reflexivity.
Qed.

Lemma binary_round_aux_exact sx m e d :
  bounded prec emax m e = true -> 0 <= d ->
  binary_round_aux prec emax sx (Zpos m * 2 ^ d) (e - d) loc_Exact
  = S754_finite sx m e.
Proof.
  intros Hb Hd. apply bounded_spec in Hb as [Hcan Hmax].
  unfold binary_round_aux, shr_fexp.
  rewrite Zdigits2_mul_pow2 by lia.
  replace (Zdigits2 (Z.pos m) + d + (e - d)) with (Zdigits2 (Z.pos m) + e)
    by lia.
  rewrite Hcan. replace (e - (e - d)) with d by lia.
  rewrite shr_exact by lia.
  cbn [shr_m loc_of_shr_record round_nearest_even].
  replace (e - d + d) with e by lia.
  rewrite Hcan, Z.sub_diag. cbn [shr shr_record_of_loc shr_m].
  apply Z.leb_le in Hmax. unfold prec, emax in *.
  change (1024 - 53) with 971. rewrite Hmax. reflexivity.
Qed.

(** ** The result of rounding is a binary64 number *)

Lemma round_nearest_even_range m l :
  round_nearest_even m l = m \/ round_nearest_even m l = m + 1.
Proof.
  destruct l as [ | [ | | ] ]; cbn [round_nearest_even]; auto.
  destruct (Z.even m); auto.
Qed.

Lemma shr_fexp_spec m e l :
  0 <= m -> e <= fexp prec emax (Zdigits2 m + e) ->
  let '(mrs, e') := shr_fexp prec emax m e l in
  0 <= shr_m mrs
  /\ e' = fexp prec emax (Zdigits2 m + e)
  /\ fexp prec emax (Zdigits2 (shr_m mrs) + e') = e'.
Proof.
  intros Hm He. unfold shr_fexp.
  set (t := fexp prec emax (Zdigits2 m + e)) in *.
  pose proof (shr_spec m l e (t - e) Hm) as Hshr.
  destruct (shr (shr_record_of_loc m l) e (t - e)) as [mrs e'].
  destruct Hshr as [Hmrs He'].
  rewrite Z.max_r in Hmrs, He' by lia.
  assert (Hpow : 0 < 2 ^ (t - e)) by (apply Z.pow_pos_nonneg; lia).
  split; [ rewrite Hmrs; apply Z.div_pos; lia | ].
  split; [ lia | ].
  replace e' with t by lia. rewrite Hmrs.
  destruct (Z.eq_dec m 0) as [-> | Hnz].
  - rewrite Z.div_0_l by lia. subst t. cbn [Zdigits2] in *.
    rewrite !fexp_eq in *. lia.
  - destruct (Z_lt_le_dec (t - e) (Zdigits2 m)) as [Hlt | Hge].
    + rewrite Zdigits2_div_pow2 by lia.
      replace (Zdigits2 m - (t - e) + t) with (Zdigits2 m + e) by lia.
      reflexivity.
    + assert (Hsmall : m / 2 ^ (t - e) = 0).
      { apply Z.div_small. split; [ lia | ].
        apply Z.lt_le_trans with (2 ^ Zdigits2 m).
        - apply Zdigits2_bounds. lia.
        - apply Z.pow_le_mono_r; lia. }
      rewrite Hsmall. cbn [Zdigits2]. subst t.
      rewrite !fexp_eq in *. lia.
Qed.

Lemma Zdigits2_succ m :
  0 <= m ->
  Zdigits2 (m + 1) = Zdigits2 m
  \/ (Zdigits2 (m + 1) = Zdigits2 m + 1 /\ m + 1 = 2 ^ Zdigits2 m).
Proof.
  intros Hm. destruct (Z.eq_dec m 0) as [-> | Hnz].
  - right. cbn. lia.
  - pose proof (Zdigits2_bounds m ltac:(lia)) as [Hlo Hhi].
    pose proof (Zdigits2_nonneg m) as Hn.
    destruct (Z.eq_dec (m + 1) (2 ^ Zdigits2 m)) as [Heq | Hne].
    + right. split; [ | exact Heq ].
      apply Zdigits2_unique; [ lia | ].
      replace (Zdigits2 m + 1 - 1) with (Zdigits2 m) by lia.
      rewrite Z.pow_add_r, Z.pow_1_r by lia. lia.
    + left. apply Zdigits2_unique; lia.
Qed.

Lemma rounded_binary64 x : rounded x = true -> binary64 x = true.
Proof. destruct x; cbn [rounded]; congruence. Qed.

Lemma binary_round_aux_rounded sx mx ex lx :
  0 <= mx -> ex <= fexp prec emax (Zdigits2 mx + ex) ->
  rounded (binary_round_aux prec emax sx mx ex lx) = true.
Proof.
  intros Hm He. unfold binary_round_aux.
  pose proof (shr_fexp_spec mx ex lx Hm He) as H1.
  destruct (shr_fexp prec emax mx ex lx) as [mrs1 e1].
  destruct H1 as (Hm1 & _ & Hcan1).
  set (m1 := shr_m mrs1) in *.
  set (m1' := round_nearest_even m1 (loc_of_shr_record mrs1)).
  assert (Hm1' : 0 <= m1')
    by (destruct (round_nearest_even_range m1 (loc_of_shr_record mrs1));
        subst m1'; lia).
  assert (Hstep : e1 <= fexp prec emax (Zdigits2 m1' + e1)).
  { rewrite <- Hcan1 at 1. apply fexp_monotone.
    destruct (round_nearest_even_range m1 (loc_of_shr_record mrs1)) as [E | E];
      subst m1'; rewrite E; [ lia | ].
    destruct (Zdigits2_succ m1 Hm1) as [E' | [E' _]]; lia. }
  pose proof (shr_fexp_spec m1' e1 loc_Exact Hm1' Hstep) as H2.
  destruct (shr_fexp prec emax m1' e1 loc_Exact) as [mrs2 e2].
  destruct H2 as (Hm2 & _ & Hcan2).
  destruct (shr_m mrs2) as [ | p | p ] eqn:E2; try lia.
  - exact eq_refl.
  - destruct (e2 <=? emax - prec) eqn:Emax; [ | exact eq_refl ].
    cbn [rounded binary64 valid_binary]. apply bounded_spec.
    apply Z.leb_le in Emax. unfold emax, prec in Emax. split; [ | lia ].
    exact Hcan2.
Qed.

Lemma shl_align_spec mx ex ex' :
  let '(mz, ez) := shl_align mx ex ex' in
  exists d, 0 <= d /\ Zpos mz = Zpos mx * 2 ^ d /\ ez = ex - d
            /\ (ex' < ex -> ez = ex') /\ (ex <= ex' -> d = 0).
Proof.
  unfold shl_align. destruct (ex' - ex) as [ | d | d ] eqn:E.
  - exists 0. rewrite Z.pow_0_r. repeat split; lia.
  - exists 0. rewrite Z.pow_0_r. repeat split; lia.
  - exists (Zpos d). change (Pos.iter xO mx d) with (shift_pos d mx).
    rewrite shift_pos_correct, Z.pow_pos_fold. repeat split; lia.
Qed.

Lemma binary_round_rounded sx mx ex :
  rounded (binary_round prec emax sx mx ex) = true.
Proof.
  unfold binary_round.
  pose proof (shl_align_spec mx ex
                (fexp prec emax (Zpos (digits2_pos mx) + ex))) as H.
  destruct (shl_align mx ex (fexp prec emax (Zpos (digits2_pos mx) + ex)))
    as [mz ez].
  destruct H as (d & Hd & Hmz & Hez & Hshift & Hkeep).
  apply binary_round_aux_rounded; [ lia | ].
  rewrite Hmz, Zdigits2_mul_pow2 by lia.
  replace (Zdigits2 (Z.pos mx) + d + ez) with (Zdigits2 (Z.pos mx) + ex)
    by lia.
  cbn [Zdigits2].
  destruct (Z_lt_le_dec (fexp prec emax (Zpos (digits2_pos mx) + ex)) ex)
    as [Hlt | Hle].
  - rewrite (Hshift Hlt). lia.
  - specialize (Hkeep Hle). lia.
Qed.

Lemma Zdigits2_div_ge a b :
  0 < a -> 0 < b -> Zdigits2 a - Zdigits2 b <= Zdigits2 (a / b).
Proof.
  intros Ha Hb.
  pose proof (Zdigits2_nonneg (a / b)) as Hq.
  destruct (Z_le_gt_dec (Zdigits2 a - Zdigits2 b) 0) as [ | Hk ]; [ lia | ].
  pose proof (Zdigits2_bounds a Ha) as [Hlo _].
  pose proof (Zdigits2_bounds b Hb) as [_ Hhi].
  pose proof (Zdigits2_nonneg b) as Hdb.
  set (k := Zdigits2 a - Zdigits2 b) in *.
  assert (Hpow : 2 ^ (Zdigits2 a - 1) = 2 ^ (k - 1) * 2 ^ Zdigits2 b).
  { rewrite <- Z.pow_add_r by lia. f_equal. lia. }
  assert (Hp : 0 < 2 ^ (k - 1)) by (apply Z.pow_pos_nonneg; lia).
  assert (Hdiv : 2 ^ (k - 1) <= a / b).
  { apply Z.div_le_lower_bound; [ exact Hb | ]. nia. }
  pose proof (Zdigits2_ge_pow2 (a / b) (k - 1) Hdiv ltac:(lia)). lia.
Qed.

Lemma div_eucl_div a b : Z.div_eucl a b = (a / b, a mod b).
Proof.
  unfold Z.div, Z.modulo. destruct (Z.div_eucl a b). reflexivity.
Qed.

Lemma SFdiv_core_spec (S T : Z) :
  0 < S -> 0 < T ->
  let '(q, e', l) := SFdiv_core_binary prec emax S 0 T 0 in
  e' = Z.min (fexp prec emax (Zdigits2 S - Zdigits2 T)) 0
  /\ q = (S * 2 ^ (- e')) / T
  /\ l = new_location T ((S * 2 ^ (- e')) mod T).
Proof.
  intros HS HT. unfold SFdiv_core_binary.
  rewrite !Z.add_0_r, Z.sub_diag.
  set (e' := Z.min (fexp prec emax (Zdigits2 S - Zdigits2 T)) 0).
  assert (He' : e' <= 0) by (subst e'; lia).
  assert (Hm' : match 0 - e' with
                | 0 => S
                | Z.pos _ => Z.shiftl S (0 - e')
                | Z.neg _ => 0
                end = S * 2 ^ (- e')).
  { destruct (0 - e') as [ | p | p ] eqn:E; try lia.
    - replace (- e') with 0 by lia. rewrite Z.pow_0_r. lia.
    - rewrite Z.shiftl_mul_pow2 by lia. f_equal. f_equal. lia. }
  rewrite Hm', div_eucl_div. repeat split.
Qed.

Lemma new_location_exact T : new_location T 0 = loc_Exact.
Proof.
  unfold new_location, new_location_even, new_location_odd.
  destruct (Z.even T); reflexivity.
Qed.

(** Every decimal literal reads as a binary64 number. *)
Lemma decimal_to_number_rounded neg m e :
  0 <= m -> rounded (decimal_to_number neg m e) = true.
Proof.
  intros Hm. unfold decimal_to_number.
  destruct m as [ | p | p ]; try lia; [ exact eq_refl | ].
  destruct (0 <=? e) eqn:Ee; [ apply binary_round_rounded | ].
  apply Z.leb_gt in Ee.
  assert (HT : 0 < 10 ^ (- e)) by (apply Z.pow_pos_nonneg; lia).
  pose proof (SFdiv_core_spec (Zpos p) (10 ^ (- e)) ltac:(lia) HT) as Hcore.
  destruct (SFdiv_core_binary prec emax (Z.pos p) 0 (10 ^ (- e)) 0)
    as [[q e'] l].
  destruct Hcore as (He' & Hq & _).
  assert (Hle : e' <= 0) by lia.
  assert (Hnum : 0 < Zpos p * 2 ^ (- e'))
    by (apply Z.mul_pos_pos; [ lia | apply Z.pow_pos_nonneg; lia ]).
  apply binary_round_aux_rounded.
  - rewrite Hq. apply Z.div_pos; lia.
  - pose proof (Zdigits2_div_ge _ _ Hnum HT) as Hd.
    rewrite Zdigits2_mul_pow2 in Hd by lia. rewrite <- Hq in Hd.
    apply Z.le_trans with (fexp prec emax (Zdigits2 (Z.pos p) - Zdigits2 (10 ^ (- e)))).
    + lia.
    + apply fexp_monotone. lia.
Qed.

(** ** The exact expansion reads back *)

Lemma binary_round_aux_sign mx ex lx :
  binary_round_aux prec emax true mx ex lx
  = SFopp (binary_round_aux prec emax false mx ex lx).
Proof.
  unfold binary_round_aux.
  destruct (shr_fexp prec emax mx ex lx) as [mrs1 e1].
  destruct (shr_fexp prec emax _ e1 loc_Exact) as [mrs2 e2].
  destruct (shr_m mrs2); [ reflexivity | | reflexivity ].
  destruct (e2 <=? emax - prec); reflexivity.
Qed.

Lemma decimal_to_number_sign neg s j :
  decimal_to_number neg s j
  = if neg then SFopp (decimal_to_number false s j)
    else decimal_to_number false s j.
Proof.
  destruct neg; [ | reflexivity ].
  unfold decimal_to_number. destruct s as [ | p | p ]; try reflexivity.
  destruct (0 <=? j).
  - unfold binary_round.
    destruct (shl_align _ 0 _) as [mz ez]. apply binary_round_aux_sign.
  - destruct (SFdiv_core_binary prec emax (Z.pos p) 0 (10 ^ (- j)) 0)
      as [[q e'] l].
    apply binary_round_aux_sign.
Qed.

Lemma exact_expansion_reads_back m e :
  bounded prec emax m e = true ->
  decimal_to_number false (fst (exact_expansion m e))
    (snd (exact_expansion m e))
  = S754_finite false m e.
Proof.
  intros Hb. pose proof Hb as Hb'. apply bounded_spec in Hb' as [Hcan Hmax].
  unfold exact_expansion. destruct (0 <=? e) eqn:Ee; cbn [fst snd].
  - apply Z.leb_le in Ee.
    assert (Hp : 0 < Zpos m * 2 ^ e)
      by (apply Z.mul_pos_pos; [ lia | apply Z.pow_pos_nonneg; lia ]).
    unfold decimal_to_number.
    destruct (Zpos m * 2 ^ e) as [ | v | v ] eqn:Ev; try lia.
    cbn [Z.leb Z.compare]. rewrite Z.pow_0_r, Z.mul_1_r.
    cbn [Z.to_pos]. unfold binary_round.
    pose proof (shl_align_spec v 0 (fexp prec emax (Zpos (digits2_pos v) + 0)))
      as H.
    destruct (shl_align v 0 (fexp prec emax (Zpos (digits2_pos v) + 0)))
      as [mz ez].
    destruct H as (d & Hd & Hmz & Hez & _ & Hkeep).
    assert (Hfexp : fexp prec emax (Zpos (digits2_pos v) + 0) = e).
    { change (Zpos (digits2_pos v)) with (Zdigits2 (Zpos v)).
      rewrite <- Ev, Zdigits2_mul_pow2, Z.add_0_r by lia. exact Hcan. }
    rewrite Hfexp in Hkeep. specialize (Hkeep Ee). subst d.
    rewrite Z.pow_0_r, Z.mul_1_r in Hmz. rewrite Hmz, <- Ev.
    replace ez with (e - e) by lia.
    apply binary_round_aux_exact; [ exact Hb | exact Ee ].
  - apply Z.leb_gt in Ee. set (k := - e). assert (Hk : 0 < k) by lia.
    assert (H5 : 0 < 5 ^ k) by (apply Z.pow_pos_nonneg; lia).
    assert (HS : 0 < Zpos m * 5 ^ k) by (apply Z.mul_pos_pos; lia).
    assert (HT : 0 < 10 ^ k) by (apply Z.pow_pos_nonneg; lia).
    assert (H10 : 10 ^ k = 5 ^ k * 2 ^ k).
    { change 10 with (5 * 2). apply Z.pow_mul_l. }
    unfold decimal_to_number.
    destruct (Zpos m * 5 ^ k) as [ | v | v ] eqn:Ev; try lia.
    replace (0 <=? e) with false by (symmetry; apply Z.leb_gt; lia).
    fold k.
    pose proof (SFdiv_core_spec (Zpos v) (10 ^ k) ltac:(lia) HT) as Hcore.
    destruct (SFdiv_core_binary prec emax (Z.pos v) 0 (10 ^ k) 0)
      as [[q e'] l].
    destruct Hcore as (He' & Hq & Hl).
    assert (Hle : e' <= e).
    { apply Z.le_trans with (fexp prec emax (Zdigits2 (Zpos v) - Zdigits2 (10 ^ k)));
        [ lia | ].
      rewrite <- Hcan. apply fexp_monotone.
      rewrite <- Ev, H10, Zdigits2_mul_pow2 by lia.
      pose proof (Zdigits2_mul_le (Zpos m) (5 ^ k) ltac:(lia) H5). lia. }
    set (d := e - e'). assert (Hd : 0 <= d) by lia.
    assert (Hnum : Zpos v * 2 ^ (- e') = (Zpos m * 2 ^ d) * 10 ^ k).
    { rewrite <- Ev, H10. replace (- e') with (d + k) by lia.
      rewrite Z.pow_add_r by lia. ring. }
    rewrite Hnum in Hq, Hl.
    rewrite Z.div_mul in Hq by lia. rewrite Z.mod_mul in Hl by lia.
    rewrite new_location_exact in Hl. subst q l.
    replace e' with (e - d) by lia.
    apply binary_round_aux_exact; assumption.
Qed.

Local Close Scope Z_scope.

(* ================================================================== *)
(** * [Number::toString] reads back *)

Local Open Scope Z_scope.

Lemma number_eqb_eq x y : number_eqb x y = true -> x = y.
Proof.
  destruct x as [ a | a | | a m e ], y as [ b | b | | b m' e' ];
    cbn [number_eqb]; try discriminate; try reflexivity.
  - intros H. apply Bool.eqb_prop in H. congruence.
  - intros H. apply Bool.eqb_prop in H. congruence.
  - rewrite !andb_true_iff, Pos.eqb_eq, Z.eqb_eq.
    intros [[H1 H2] H3]. apply Bool.eqb_prop in H1. congruence.
Qed.

Lemma candidate_reads_back x num den n0 k r :
  candidate x num den n0 k = Some r -> reads_back x r = true.
Proof.
  unfold candidate.
  set (c_lo := (scaled_floor (n0 - k) num den, n0 - k)).
  set (c_hi := if scaled_floor (n0 - k) num den + 1 =? 10 ^ k
               then (10 ^ (k - 1), n0 - k + 1)
               else (scaled_floor (n0 - k) num den + 1, n0 - k)).
  destruct (reads_back x c_lo) eqn:Elo, (reads_back x c_hi) eqn:Ehi;
    try discriminate.
  - destruct (midpoint_compare _ _ _ _);
      [ destruct (Z.even _) | | ]; intros H; injection H as <-; assumption.
  - intros H; injection H as <-; assumption.
  - intros H; injection H as <-; assumption.
Qed.

Lemma shortest_from_reads_back fuel m e n0 k :
  bounded prec emax m e = true ->
  reads_back (S754_finite false m e)
    (shortest_from fuel (S754_finite false m e) m e n0 k) = true.
Proof.
  intros Hb. revert k. induction fuel as [ | f IH ]; intros k;
    cbn [shortest_from].
  - unfold reads_back. rewrite (exact_expansion_reads_back m e Hb).
    cbn [number_eqb]. rewrite Pos.eqb_refl, Z.eqb_refl. reflexivity.
  - destruct (candidate _ _ _ n0 k) as [ r | ] eqn:E.
    + apply (candidate_reads_back _ _ _ _ _ _ E).
    + apply IH.
Qed.

Lemma shortest_digits_reads_back m e :
  bounded prec emax m e = true ->
  decimal_to_number false (fst (shortest_digits m e))
    (snd (shortest_digits m e))
  = S754_finite false m e.
Proof.
  intros Hb. apply number_eqb_eq.
  apply (shortest_from_reads_back 17 m e _ 1 Hb).
Qed.

Lemma decimal_finite_positive s j m e :
  decimal_to_number false s j = S754_finite false m e -> 0 < s.
Proof.
  destruct s as [ | p | p ]; cbn [decimal_to_number]; try discriminate. lia.
Qed.

(** The first code unit of a layout is a digit. *)
Lemma layout_digits_head d0 dt n :
  isDigit d0 = true ->
  exists c tail,
    layout_digits (d0 :: dt) n = c :: tail /\ isDigit c = true.
Proof.
  intros Hd. unfold layout_digits.
  destruct ((_ <=? n) && (n <=? 21)); [ eexists _, _; split; [ reflexivity | exact Hd ] | ].
  destruct ((0 <? n) && (n <=? 21)) eqn:EB.
  { apply andb_true_iff in EB as [EB _]. apply Z.ltb_lt in EB.
    destruct (Z.to_nat n) as [ | n' ] eqn:En; [ lia | ].
    eexists _, _; split; [ reflexivity | exact Hd ]. }
  destruct ((-6 <? n) && (n <=? 0));
    [ eexists _, _; split; reflexivity | ].
  destruct dt; eexists _, _; split; try reflexivity; exact Hd.
Qed.

Lemma digit_not_minus c : isDigit c = true -> (c =? Ch.MINUS)%N = false.
Proof.
  intros H. apply isDigit_range in H. apply N.eqb_neq. unfold Ch.MINUS. lia.
Qed.

(** A finite number other than negative zero is read back from its own
    text. *)
Lemma lex_number_toString x rest :
  binary64 x = true -> number_survives x = true ->
  number_stop rest = true ->
  lex_number (Number_toString x ++ rest) = Ok (x, rest).
Proof.
  intros Hval Hsurv Hstop.
  destruct x as [ neg | neg | | neg m e ]; try discriminate.
  - destruct neg; [ discriminate | ].
    cbn [Number_toString lit list_ascii_of_string List.map app].
    change (N_of_ascii "0") with 48%N.
    cbn [lex_number]. change (48 =? Ch.MINUS)%N with false. cbv iota.
    unfold lex_unsigned. cbn [lex_int N.eqb Pos.eqb bind].
    rewrite (number_stop_frac rest Hstop). cbn [bind].
    rewrite (number_stop_exp rest Hstop). reflexivity.
  - cbn [Number_toString].
    pose proof (shortest_digits_reads_back m e Hval) as Hback.
    destruct (shortest_digits m e) as [s j]. cbn [fst snd] in Hback.
    pose proof (decimal_finite_positive s j m e Hback) as Hs.
    destruct (Z_digits_spec s (Z.lt_le_incl _ _ Hs)) as (Hds & Hne & _ & _).
    pose proof (lex_unsigned_layout neg s j rest Hs Hstop) as Hlex.
    rewrite decimal_to_number_sign, Hback in Hlex.
    destruct (Z_digits s) as [ | d0 dt ] eqn:Eds; [ congruence | ].
    destruct (layout_digits_head d0 dt
                (Z.of_nat (List.length (d0 :: dt)) + j)
                ltac:(inversion Hds; assumption))
      as (c & tail & Hhead & Hc).
    destruct neg.
    + cbn [app lex_number]. rewrite N.eqb_refl. exact Hlex.
    + cbn [app]. rewrite Hhead in Hlex |- *. cbn [app lex_number].
      rewrite (digit_not_minus c Hc). exact Hlex.
Qed.

Local Close Scope Z_scope.

(* ================================================================== *)
(** * [QuoteJSONString] reads back *)

Local Open Scope N_scope.

Lemma hex_value_char d : d < 16 -> hex_value (hex_char d) = Some d.
Proof.
  intros H.
  assert (Hcases : d = 0 \/ d = 1 \/ d = 2 \/ d = 3 \/ d = 4 \/ d = 5
                   \/ d = 6 \/ d = 7 \/ d = 8 \/ d = 9 \/ d = 10 \/ d = 11
                   \/ d = 12 \/ d = 13 \/ d = 14 \/ d = 15) by lia.
  repeat (destruct Hcases as [-> | Hcases]; [ reflexivity | ]).
  subst d. reflexivity.
Qed.

Lemma hex_digits_value c :
  c < 65536 ->
  (c / 4096 mod 16) * 4096 + (c / 256 mod 16) * 256
  + (c / 16 mod 16) * 16 + c mod 16 = c.
Proof.
  intros H.
  pose proof (N.div_mod c 16 ltac:(lia)) as H1.
  pose proof (N.div_mod (c / 16) 16 ltac:(lia)) as H2.
  pose proof (N.div_mod (c / 16 / 16) 16 ltac:(lia)) as H3.
  pose proof (N.mod_lt c 16 ltac:(lia)).
  pose proof (N.mod_lt (c / 16) 16 ltac:(lia)).
  pose proof (N.mod_lt (c / 16 / 16) 16 ltac:(lia)).
  assert (E256 : c / 256 = c / 16 / 16)
    by (rewrite N.Div0.div_div; reflexivity).
  assert (E4096 : c / 4096 = c / 16 / 16 / 16)
    by (rewrite !N.Div0.div_div; reflexivity).
  assert (Hsmall : c / 16 / 16 / 16 < 16).
  { rewrite !N.Div0.div_div. apply N.Div0.div_lt_upper_bound; lia. }
  rewrite E256, E4096.
  rewrite (N.mod_small (c / 16 / 16 / 16) 16 Hsmall).
  lia.
Qed.

Lemma lex_string_plain c X :
  (c =? Ch.QUOTE) = false -> (c =? Ch.BACKSLASH) = false ->
  (c <? 32) = false ->
  lex_string (c :: X)
  = let* (str, rest) := lex_string X in Ok (c :: str, rest).
Proof.
  intros H1 H2 H3. cbn [lex_string]. rewrite H1, H2, H3. reflexivity.
Qed.

Lemma lex_string_unicodeEscape c X :
  c < 65536 ->
  lex_string (unicodeEscape c ++ X)
  = let* (str, rest) := lex_string X in Ok (c :: str, rest).
Proof.
  intros Hc. unfold unicodeEscape. cbn [app lex_string].
  change (Ch.BACKSLASH =? Ch.QUOTE) with false.
  change (Ch.BACKSLASH =? Ch.BACKSLASH) with true.
  change (117 =? Ch.QUOTE) with false.
  change (117 =? Ch.BACKSLASH) with false.
  change (117 =? Ch.SLASH) with false.
  change (117 =? 98) with false. change (117 =? 102) with false.
  change (117 =? 110) with false. change (117 =? 114) with false.
  change (117 =? 116) with false. change (117 =? 117) with true.
  cbv iota.
  rewrite !hex_value_char by (apply N.mod_lt; lia).
  rewrite (hex_digits_value c Hc). reflexivity.
Qed.

Lemma surrogate_range c :
  isHighSurrogate c || isLowSurrogate c = true -> 55296 <= c <= 57343.
Proof.
  unfold isHighSurrogate, isLowSurrogate.
  rewrite orb_true_iff, !andb_true_iff, !N.leb_le. lia.
Qed.

Lemma lex_string_quote_unit c X :
  lex_string (quote_unit c ++ X)
  = let* (str, rest) := lex_string X in Ok (c :: str, rest).
Proof.
  unfold quote_unit.
  repeat match goal with
         | |- context [if (c =? ?k) then _ else _] =>
             destruct (N.eqb_spec c k) as [-> | ?]; [ reflexivity | ]
         end.
  destruct ((c <? 32) || isHighSurrogate c || isLowSurrogate c) eqn:E.
  - apply lex_string_unicodeEscape.
    rewrite <- orb_assoc in E. apply orb_true_iff in E as [E | E].
    + apply N.ltb_lt in E. lia.
    + apply surrogate_range in E. lia.
  - apply orb_false_iff in E as [E _]. apply orb_false_iff in E as [E _].
    cbn [app]. apply lex_string_plain; [ | | exact E ];
      apply N.eqb_neq; assumption.
Qed.

Lemma surrogate_plain c :
  isHighSurrogate c || isLowSurrogate c = true ->
  (c =? Ch.QUOTE) = false /\ (c =? Ch.BACKSLASH) = false /\ (c <? 32) = false.
Proof.
  intros H. apply surrogate_range in H.
  unfold Ch.QUOTE, Ch.BACKSLASH.
  repeat split; [ apply N.eqb_neq | apply N.eqb_neq | apply N.ltb_ge ]; lia.
Qed.

Lemma quote_units_pair c d r :
  quote_units (c :: d :: r)
  = if isHighSurrogate c && isLowSurrogate d then c :: d :: quote_units r
    else quote_unit c ++ quote_units (d :: r).
Proof.
  cbn [quote_units]. destruct (isHighSurrogate c), (isLowSurrogate d);
    reflexivity.
Qed.

Lemma quote_units_single c : quote_units [c] = quote_unit c.
Proof.
  cbn [quote_units]. destruct (isHighSurrogate c);
    [ reflexivity | apply app_nil_r ].
Qed.

Lemma lex_string_quote_units (s : text) :
  (forall rest,
     lex_string (quote_units s ++ Ch.QUOTE :: rest) = Ok (s, rest))
  /\ (forall c rest,
        lex_string (quote_units (c :: s) ++ Ch.QUOTE :: rest)
        = Ok (c :: s, rest)).
Proof.
  induction s as [ | d r [IHr IHdr] ].
  - assert (H0 : forall rest,
              lex_string (Ch.QUOTE :: rest) = Ok ([], rest)).
    { intros rest. cbn [lex_string]. rewrite N.eqb_refl. reflexivity. }
    split; [ exact H0 | ]. intros c rest.
    rewrite quote_units_single, lex_string_quote_unit, H0. reflexivity.
  - split; [ apply IHdr | ]. intros c rest.
    rewrite quote_units_pair.
    destruct (isHighSurrogate c && isLowSurrogate d) eqn:E.
    + apply andb_true_iff in E as [Eh El]. cbn [app].
      destruct (surrogate_plain c) as (H1 & H2 & H3);
        [ rewrite Eh; reflexivity | ].
      destruct (surrogate_plain d) as (H4 & H5 & H6);
        [ rewrite El; apply orb_true_r | ].
      rewrite (lex_string_plain c _ H1 H2 H3).
      rewrite (lex_string_plain d _ H4 H5 H6).
      rewrite IHr. reflexivity.
    + rewrite <- app_assoc, lex_string_quote_unit.
      rewrite IHdr. reflexivity.
Qed.

Lemma lex_string_quoted (s rest : text) :
  lex_string (quote_units s ++ Ch.QUOTE :: rest) = Ok (s, rest).
Proof. apply (proj1 (lex_string_quote_units s)). Qed.

Local Close Scope N_scope.

(* ================================================================== *)
(** * [JSON.parse] reads the text of [JSON.stringify] *)

Lemma skip_ws_lead lead X : all_ws lead -> skip_ws (lead ++ X) = skip_ws X.
Proof.
  induction 1 as [ | c r Hc _ IH ]; [ reflexivity | ].
  unfold skip_ws in *. cbn [app dropWhile]. rewrite Hc. exact IH.
Qed.

Lemma skip_ws_plain c X : isJSONWS c = false -> skip_ws (c :: X) = c :: X.
Proof. intros H. unfold skip_ws. cbn [dropWhile]. rewrite H. reflexivity. Qed.

Lemma number_stop_ws W c X :
  all_ws W -> number_stop (c :: X) = true -> number_stop (W ++ c :: X) = true.
Proof.
  intros HW Hc. destruct HW as [ | w W' Hw _ ]; [ exact Hc | ].
  cbn [app number_stop]. unfold isJSONWS in Hw. unfold isDigit, Ch.DOT.
  rewrite !orb_true_iff, !N.eqb_eq in Hw.
  rewrite negb_true_iff, !orb_false_iff, andb_false_iff, !N.leb_gt, !N.eqb_neq.
  lia.
Qed.

Lemma repeat_SP_ws n : all_ws (List.repeat Ch.SP n).
Proof.
  apply Forall_forall. intros c Hc. apply repeat_spec in Hc. subst c.
  reflexivity.
Qed.

(** ** The first code unit of a serialized value *)

Lemma Number_toString_head x :
  binary64 x = true -> number_survives x = true ->
  exists c tail,
    Number_toString x = c :: tail /\ (isDigit c = true \/ c = Ch.MINUS).
Proof.
  intros Hval Hsurv.
  destruct x as [ neg | neg | | neg m e ]; try discriminate.
  - exists 48%N, []. split; [ reflexivity | left; reflexivity ].
  - cbn [Number_toString].
    pose proof (shortest_digits_reads_back m e Hval) as Hback.
    destruct (shortest_digits m e) as [s j]. cbn [fst snd] in Hback.
    pose proof (decimal_finite_positive s j m e Hback) as Hs.
    destruct neg.
    + eexists _, _. split; [ reflexivity | right; reflexivity ].
    + destruct (Z_digits_spec s (Z.lt_le_incl _ _ Hs)) as (Hds & Hne & _ & _).
      destruct (Z_digits s) as [ | d0 dt ] eqn:Eds; [ congruence | ].
      destruct (layout_digits_head d0 dt
                  (Z.of_nat (List.length (d0 :: dt)) + j)
                  ltac:(inversion Hds; assumption))
        as (c & tail & Hhead & Hc).
      exists c, tail. cbn [app]. split; [ exact Hhead | left; exact Hc ].
Qed.

Lemma digit_or_minus_start c :
  isDigit c = true \/ c = Ch.MINUS ->
  value_start c
  /\ (c =? Ch.LBRACE)%N = false /\ (c =? Ch.LBRACKET)%N = false
  /\ (c =? Ch.QUOTE)%N = false /\ (c =? 116)%N = false
  /\ (c =? 102)%N = false /\ (c =? 110)%N = false
  /\ (c =? Ch.MINUS)%N || isDigit c = true.
Proof.
  intros H.
  assert (Hr : (48 <= c <= 57)%N \/ c = 45%N).
  { destruct H as [H | H]; [ left; apply isDigit_range; exact H | right; exact H ]. }
  unfold value_start, isJSONWS, Ch.RBRACKET, Ch.RBRACE, Ch.LBRACE,
    Ch.LBRACKET, Ch.QUOTE, Ch.MINUS, isDigit.
  rewrite !orb_false_iff, !orb_true_iff, !andb_true_iff, !N.eqb_neq,
    !N.leb_le, !N.eqb_eq.
  lia.
Qed.

(** ** Members of arrays and objects *)

Lemma join_cons sep p q ps :
  join sep (p :: q :: ps) = p ++ sep ++ join sep (q :: ps).
Proof. reflexivity. Qed.

Lemma wrap_shape open close gap stepback inner p ps :
  wrap open close gap stepback inner (p :: ps)
  = let W1 := if isEmpty gap then [] else Ch.LF :: inner in
    let W2 := if isEmpty gap then [] else Ch.LF :: stepback in
    open :: W1 ++ join (Ch.COMMA :: W1) (p :: ps) ++ W2 ++ [close].
Proof.
  unfold wrap. destruct (isEmpty gap); reflexivity.
Qed.

Lemma parse_elements_joined ser W1 W2 rest l :
  all_ws W1 -> all_ws W2 -> l <> [] ->
  Forall (reads ser) l ->
  exists n0, forall n, (n0 <= n)%nat ->
    parse_elements n
      (W1 ++ join (Ch.COMMA :: W1) (List.map ser l)
       ++ W2 ++ Ch.RBRACKET :: rest)
    = Ok (l, rest).
Proof.
  intros HW1 HW2. induction l as [ | v l' IH ]; intros Hne Hl;
    [ congruence | ].
  inversion Hl as [ | ? ? Hv Hl' ]; subst.
  destruct l' as [ | v' l'' ].
  - cbn [List.map join].
    destruct (Hv W1 (W2 ++ Ch.RBRACKET :: rest) HW1
                (number_stop_ws W2 Ch.RBRACKET rest HW2 eq_refl)) as [nv Hnv].
    exists (S nv). intros [ | n ] Hn; [ lia | ].
    rewrite parse_elements_unfold, Hnv by lia. cbn [bind].
    rewrite (skip_ws_lead W2 _ HW2), skip_ws_plain by reflexivity.
    reflexivity.
  - destruct (IH ltac:(discriminate) Hl') as [n1 Hn1].
    cbn [List.map]. rewrite join_cons, <- !app_assoc. cbn [app].
    match goal with
    | |- context [ser v ++ Ch.COMMA :: ?R] =>
        destruct (Hv W1 (Ch.COMMA :: R) HW1 eq_refl) as [nv Hnv]
    end.
    exists (S (Nat.max nv n1)). intros [ | n ] Hn; [ lia | ].
    rewrite parse_elements_unfold, Hnv by lia. cbn [bind].
    rewrite skip_ws_plain by reflexivity. rewrite N.eqb_refl.
    cbn [List.map] in Hn1. rewrite Hn1 by lia. reflexivity.
Qed.

Lemma parse_member_key k X :
  exists r0,
    skip_ws (QuoteJSONString k ++ X) = Ch.QUOTE :: r0
    /\ lex_string r0 = Ok (k, X).
Proof.
  unfold QuoteJSONString. cbn [app]. rewrite skip_ws_plain by reflexivity.
  eexists. split; [ reflexivity | ].
  rewrite <- app_assoc. cbn [app]. apply lex_string_quoted.
Qed.

Lemma parse_members_joined ser sp W1 W2 rest ps :
  all_ws sp -> all_ws W1 -> all_ws W2 -> ps <> [] ->
  Forall (fun p => reads ser (snd p)) ps ->
  exists n0, forall n, (n0 <= n)%nat ->
    parse_members n
      (W1 ++ join (Ch.COMMA :: W1)
               (List.map (fun p : text * value =>
                            QuoteJSONString (fst p) ++ Ch.COLON :: sp
                              ++ ser (snd p)) ps)
       ++ W2 ++ Ch.RBRACE :: rest)
    = Ok (ps, rest).
Proof.
  intros Hsp HW1 HW2. induction ps as [ | [k v] ps' IH ]; intros Hne Hps;
    [ congruence | ].
  inversion Hps as [ | ? ? Hv Hps' ]; subst. cbn [fst snd] in Hv.
  destruct ps' as [ | p' ps'' ].
  - cbn [List.map join fst snd].
    destruct (Hv sp (W2 ++ Ch.RBRACE :: rest) Hsp
                (number_stop_ws W2 Ch.RBRACE rest HW2 eq_refl)) as [nv Hnv].
    exists (S nv). intros [ | n ] Hn; [ lia | ].
    rewrite parse_members_unfold, (skip_ws_lead W1 _ HW1).
    rewrite <- !app_assoc.
    destruct (parse_member_key k
                ((Ch.COLON :: sp ++ ser v) ++ W2 ++ Ch.RBRACE :: rest))
      as (r0 & -> & ->).
    rewrite N.eqb_refl. cbn [bind app].
    rewrite skip_ws_plain by reflexivity. rewrite N.eqb_refl.
    rewrite <- app_assoc, Hnv by lia. cbn [bind].
    rewrite (skip_ws_lead W2 _ HW2), skip_ws_plain by reflexivity.
    reflexivity.
  - destruct (IH ltac:(discriminate) Hps') as [n1 Hn1].
    cbn [List.map]. rewrite join_cons, <- !app_assoc. cbn [app fst snd].
    rewrite <- !app_assoc.
    match goal with
    | |- context [ser v ++ Ch.COMMA :: ?R] =>
        destruct (Hv sp (Ch.COMMA :: R) Hsp eq_refl) as [nv Hnv]
    end.
    exists (S (Nat.max nv n1)). intros [ | n ] Hn; [ lia | ].
    rewrite parse_members_unfold, (skip_ws_lead W1 _ HW1).
    match goal with
    | |- context [QuoteJSONString k ++ ?X] =>
        destruct (parse_member_key k X) as (r0 & -> & ->)
    end.
    rewrite N.eqb_refl. cbn [bind].
    rewrite skip_ws_plain by reflexivity. rewrite N.eqb_refl.
    rewrite Hnv by lia. cbn [bind].
    rewrite skip_ws_plain by reflexivity. rewrite N.eqb_refl.
    cbn [List.map] in Hn1. rewrite Hn1 by lia. reflexivity.
Qed.

(** ** Values *)

Lemma wrap_head open close gap stepback inner partial :
  exists tail, wrap open close gap stepback inner partial = open :: tail.
Proof.
  unfold wrap. destruct partial; [ eexists; reflexivity | ].
  destruct (isEmpty gap); eexists; reflexivity.
Qed.

Lemma survives_finite x : number_survives x = true -> isFiniteNumber x = true.
Proof. destruct x; cbn; congruence. Qed.

Lemma serialize_start v gap indent :
  well_formed v = true -> numbers_survive v = true ->
  exists c tail,
    SerializeJSONProperty gap indent v = c :: tail /\ value_start c.
Proof.
  intros Hwf Hsurv.
  destruct v as [ | [ | ] | x | s | l | ps ]; cbn [SerializeJSONProperty].
  - eexists _, _. split; [ reflexivity | repeat split ].
  - eexists _, _. split; [ reflexivity | repeat split ].
  - eexists _, _. split; [ reflexivity | repeat split ].
  - cbn [well_formed numbers_survive] in *.
    rewrite (survives_finite x Hsurv). apply rounded_binary64 in Hwf.
    destruct (Number_toString_head x Hwf Hsurv) as (c & tail & -> & Hc).
    exists c, tail. split; [ reflexivity | ].
    apply digit_or_minus_start. exact Hc.
  - eexists _, _. split; [ reflexivity | repeat split ].
  - destruct (wrap_head Ch.LBRACKET Ch.RBRACKET gap indent (indent ++ gap)
                (List.map (SerializeJSONProperty gap (indent ++ gap)) l))
      as [tail ->].
    eexists _, _. split; [ reflexivity | repeat split ].
  - match goal with
    | |- context [wrap ?o ?c ?g ?s ?i ?p] =>
        destruct (wrap_head o c g s i p) as [tail ->]
    end.
    eexists _, _. split; [ reflexivity | repeat split ].
Qed.

Lemma all_ws_app a b : all_ws a -> all_ws b -> all_ws (a ++ b).
Proof. intros Ha Hb. apply Forall_app. split; assumption. Qed.

Lemma layout_ws gap X :
  all_ws X -> all_ws (if isEmpty gap then [] else Ch.LF :: X).
Proof.
  intros HX. destruct (isEmpty gap); [ constructor | ].
  constructor; [ reflexivity | exact HX ].
Qed.

Lemma gap_space_ws (gap : text) :
  all_ws (if isEmpty gap then [] else [Ch.SP]).
Proof.
  destruct (isEmpty gap); [ constructor | ].
  constructor; [ reflexivity | constructor ].
Qed.

Lemma parse_value_serialized v :
  well_formed v = true -> numbers_survive v = true ->
  forall gap indent,
    all_ws gap -> all_ws indent ->
    reads (SerializeJSONProperty gap indent) v.
Proof.
  induction v as [ | b | x | s | l IH | ps IH ] using value_induction;
    intros Hwf Hsurv gap indent Hgap Hindent lead rest Hlead Hstop.
  - exists 1%nat. intros [ | n ] Hn; [ lia | ].
    rewrite parse_value_unfold, (skip_ws_lead lead _ Hlead). reflexivity.
  - exists 1%nat. intros [ | n ] Hn; [ lia | ].
    rewrite parse_value_unfold, (skip_ws_lead lead _ Hlead).
    destruct b; reflexivity.
  - cbn [well_formed numbers_survive] in Hwf, Hsurv.
    apply rounded_binary64 in Hwf.
    exists 1%nat. intros [ | n ] Hn; [ lia | ].
    rewrite parse_value_unfold, (skip_ws_lead lead _ Hlead).
    cbn [SerializeJSONProperty]. rewrite (survives_finite x Hsurv).
    pose proof (lex_number_toString x rest Hwf Hsurv Hstop) as Hlex.
    destruct (Number_toString_head x Hwf Hsurv) as (c & tail & Heq & Hc).
    rewrite Heq in Hlex |- *. cbn [app] in Hlex |- *.
    destruct (digit_or_minus_start c Hc)
      as ((Hws & _ & _) & H1 & H2 & H3 & H4 & H5 & H6 & H7).
    rewrite (skip_ws_plain c _ Hws), H1, H2, H3, H4, H5, H6, H7, Hlex.
    reflexivity.
  - exists 1%nat. intros [ | n ] Hn; [ lia | ].
    rewrite parse_value_unfold, (skip_ws_lead lead _ Hlead).
    cbn [SerializeJSONProperty]. unfold QuoteJSONString. cbn [app].
    rewrite skip_ws_plain by reflexivity.
    change (Ch.QUOTE =? Ch.LBRACE)%N with false.
    change (Ch.QUOTE =? Ch.LBRACKET)%N with false.
    rewrite N.eqb_refl. cbv iota.
    rewrite <- app_assoc. cbn [app]. rewrite lex_string_quoted. reflexivity.
  - cbn [well_formed numbers_survive] in Hwf, Hsurv.
    rewrite forallb_forall in Hwf, Hsurv.
    cbn [SerializeJSONProperty].
    destruct l as [ | v l' ].
    + exists 1%nat. intros [ | n ] Hn; [ lia | ].
      rewrite parse_value_unfold, (skip_ws_lead lead _ Hlead). reflexivity.
    + set (inner := indent ++ gap).
      assert (Hinner : all_ws inner) by (apply all_ws_app; assumption).
      assert (Hreads : Forall (reads (SerializeJSONProperty gap inner))
                         (v :: l')).
      { rewrite Forall_forall in IH |- *. intros w Hw.
        apply (IH w Hw (Hwf w Hw) (Hsurv w Hw) gap inner Hgap Hinner). }
      cbn [List.map]. rewrite wrap_shape. cbv zeta.
      set (W1 := if isEmpty gap then [] else Ch.LF :: inner).
      set (W2 := if isEmpty gap then [] else Ch.LF :: indent).
      assert (HW1 : all_ws W1) by (apply layout_ws; exact Hinner).
      assert (HW2 : all_ws W2) by (apply layout_ws; exact Hindent).
      destruct (parse_elements_joined (SerializeJSONProperty gap inner)
                  W1 W2 rest (v :: l') HW1 HW2 ltac:(discriminate) Hreads)
        as [n1 Hn1].
      exists (S n1). intros [ | n ] Hn; [ lia | ].
      rewrite parse_value_unfold, (skip_ws_lead lead _ Hlead).
      cbn [app]. rewrite skip_ws_plain by reflexivity.
      change (Ch.LBRACKET =? Ch.LBRACE)%N with false.
      rewrite N.eqb_refl. cbv iota.
      rewrite <- !app_assoc. cbn [app].
      cbn [List.map] in Hn1. rewrite (Hn1 n ltac:(lia)). cbn [bind].
      destruct (serialize_start v gap inner (Hwf v (or_introl eq_refl))
                  (Hsurv v (or_introl eq_refl)))
        as (c & tail & Hhead & Hws & Hbr & _).
      rewrite (skip_ws_lead W1 _ HW1).
      destruct l' as [ | v' l'' ]; cbn [List.map join];
        rewrite Hhead; cbn [app]; rewrite (skip_ws_plain c _ Hws), Hbr;
        reflexivity.
  - cbn [well_formed numbers_survive] in Hwf, Hsurv.
    apply andb_true_iff in Hwf as [_ Hwf].
    rewrite forallb_forall in Hwf, Hsurv.
    cbn [SerializeJSONProperty].
    destruct ps as [ | [k v] ps' ].
    + exists 1%nat. intros [ | n ] Hn; [ lia | ].
      rewrite parse_value_unfold, (skip_ws_lead lead _ Hlead). reflexivity.
    + set (inner := indent ++ gap).
      assert (Hinner : all_ws inner) by (apply all_ws_app; assumption).
      set (sp := if isEmpty gap then [] else [Ch.SP]).
      assert (Hsp : all_ws sp) by apply gap_space_ws.
      assert (Hreads : Forall (fun p => reads (SerializeJSONProperty gap inner)
                                          (snd p)) ((k, v) :: ps')).
      { rewrite Forall_forall in IH |- *. intros p Hp.
        apply (IH p Hp (Hwf p Hp) (Hsurv p Hp) gap inner Hgap Hinner). }
      rewrite (List.map_ext _
                 (fun p : text * value =>
                    QuoteJSONString (fst p) ++ Ch.COLON :: sp
                      ++ SerializeJSONProperty gap inner (snd p)))
        by (intros [k' w]; reflexivity).
      cbn [List.map]. rewrite wrap_shape. cbv zeta.
      set (W1 := if isEmpty gap then [] else Ch.LF :: inner).
      set (W2 := if isEmpty gap then [] else Ch.LF :: indent).
      assert (HW1 : all_ws W1) by (apply layout_ws; exact Hinner).
      assert (HW2 : all_ws W2) by (apply layout_ws; exact Hindent).
      destruct (parse_members_joined (SerializeJSONProperty gap inner)
                  sp W1 W2 rest ((k, v) :: ps') Hsp HW1 HW2
                  ltac:(discriminate) Hreads)
        as [n1 Hn1].
      exists (S n1). intros [ | n ] Hn; [ lia | ].
      rewrite parse_value_unfold, (skip_ws_lead lead _ Hlead).
      cbn [app]. rewrite skip_ws_plain by reflexivity.
      rewrite N.eqb_refl. cbv iota.
      rewrite <- !app_assoc. cbn [app].
      cbn [List.map] in Hn1. rewrite (Hn1 n ltac:(lia)). cbn [bind].
      rewrite (skip_ws_lead W1 _ HW1).
      destruct ps' as [ | p' ps'' ]; cbn [List.map join fst];
        unfold QuoteJSONString; cbn [app];
        rewrite skip_ws_plain by reflexivity; reflexivity.
Qed.

(* ================================================================== *)
(** * Evaluation keeps a property list that is in order *)

Lemma text_eqb_eq a b : text_eqb a b = true <-> a = b.
Proof.
  revert b. induction a as [ | x a IH ]; intros [ | y b ]; cbn [text_eqb];
    try (split; [ discriminate | congruence ]); [ tauto | ].
  rewrite andb_true_iff, N.eqb_eq, IH. split; [ intros []; congruence | ].
  intros H; injection H; auto.
Qed.

Lemma text_eqb_refl a : text_eqb a a = true.
Proof. apply text_eqb_eq. reflexivity. Qed.

Lemma has_key_in k (o : object) :
  has_key k o = true <-> In k (List.map fst o).
Proof.
  induction o as [ | [k' v'] o IH ]; cbn [has_key List.map fst In];
    [ split; [ discriminate | tauto ] | ].
  rewrite orb_true_iff, text_eqb_eq, IH. split; intros []; auto.
Qed.

Lemma existsb_text_in k ks :
  existsb (text_eqb k) ks = true <-> In k ks.
Proof.
  rewrite existsb_exists. split.
  - intros (x & Hx & E). apply text_eqb_eq in E. subst. exact Hx.
  - intros H. exists k. split; [ exact H | apply text_eqb_refl ].
Qed.

Lemma insert_index_last i k v (o : object) :
  (forall k', In k' (List.map fst o) ->
     exists i', array_index k' = Some i' /\ (i' < i)%Z) ->
  insert_index i k v o = o ++ [(k, v)].
Proof.
  induction o as [ | [k' v'] o IH ]; intros H; [ reflexivity | ].
  cbn [insert_index app].
  destruct (H k' (or_introl eq_refl)) as (i' & -> & Hlt).
  replace (i <? i')%Z with false by (symmetry; apply Z.ltb_ge; lia).
  f_equal. apply IH. intros k'' Hin. apply H. right. exact Hin.
Qed.

Lemma define_property_ordered (o : object) k v last seen :
  scanned (List.map fst o) last seen ->
  ordered_keys last seen [k] = true ->
  define_property o k v = o ++ [(k, v)].
Proof.
  intros Hscan Hord. unfold define_property.
  cbn [ordered_keys] in Hord.
  assert (Hnew : has_key k o = false).
  { destruct (has_key k o) eqn:E; [ | reflexivity ]. exfalso.
    apply has_key_in in E.
    destruct (array_index k) as [ i | ] eqn:Ek, seen as [ ks | ];
      cbn [scanned] in Hscan; try discriminate.
    - destruct (Hscan k E) as (i' & j & Hi' & -> & Hle).
      rewrite andb_true_r in Hord. apply Z.ltb_lt in Hord.
      rewrite Ek in Hi'. injection Hi' as <-. lia.
    - apply andb_true_iff in Hord as [Hord _].
      apply negb_true_iff in Hord.
      specialize (Hscan k E Ek). apply existsb_text_in in Hscan.
      congruence.
    - destruct (Hscan k E) as (i' & j & Hi' & _). congruence. }
  rewrite Hnew.
  destruct (array_index k) as [ i | ] eqn:Ek; [ | reflexivity ].
  destruct seen as [ ks | ]; [ discriminate | ].
  cbn [scanned] in Hscan. apply insert_index_last. intros k' Hin.
  destruct (Hscan k' Hin) as (i' & j & Hi' & -> & Hle).
  rewrite andb_true_r in Hord. apply Z.ltb_lt in Hord.
  exists i'. split; [ exact Hi' | lia ].
Qed.

Lemma ordered_keys_cons last seen k ks :
  ordered_keys last seen (k :: ks) = true ->
  ordered_keys last seen [k] = true
  /\ exists last' seen',
       ordered_keys last' seen' ks = true
       /\ forall keys, scanned keys last seen ->
                       scanned (keys ++ [k]) last' seen'.
Proof.
  cbn [ordered_keys].
  destruct (array_index k) as [ i | ] eqn:Ek, seen as [ seen | ];
    try discriminate.
  - rewrite !andb_true_iff. intros [Hlt Hrest].
    split; [ split; [ exact Hlt | reflexivity ] | ].
    exists (Some i), None. split; [ exact Hrest | ].
    intros keys Hscan k' Hin. cbn [scanned] in Hscan.
    apply in_app_or in Hin as [Hin | [<- | []]].
    + destruct (Hscan k' Hin) as (i' & j & Hi' & -> & Hle).
      apply Z.ltb_lt in Hlt. exists i', i. repeat split; [ exact Hi' | lia ].
    + exists i, i. repeat split; [ exact Ek | lia ].
  - rewrite !andb_true_iff. intros [Hnot Hrest].
    split; [ split; [ exact Hnot | reflexivity ] | ].
    exists last, (Some (k :: seen)). split; [ exact Hrest | ].
    intros keys Hscan k' Hin Hk'. cbn [scanned] in Hscan.
    apply in_app_or in Hin as [Hin | [<- | []]].
    + right. apply Hscan; assumption.
    + left. reflexivity.
  - intros Hrest. split; [ reflexivity | ].
    exists last, (Some [k]). split; [ exact Hrest | ].
    intros keys Hscan k' Hin Hk'. cbn [scanned] in Hscan.
    apply in_app_or in Hin as [Hin | [<- | []]].
    + destruct (Hscan k' Hin) as (i' & j & Hi' & _). congruence.
    + left. reflexivity.
Qed.

Lemma fold_define_ordered (ps : object) :
  (forall p, In p ps -> evaluate (snd p) = snd p) ->
  forall (acc : object) last seen,
    scanned (List.map fst acc) last seen ->
    ordered_keys last seen (List.map fst ps) = true ->
    fold_left (fun (o : object) (p : list N * value) =>
                 let (k, w) := p in define_property o k (evaluate w))
      ps acc
    = acc ++ ps.
Proof.
  induction ps as [ | [k w] ps IH ]; intros Hev acc last seen Hscan Hord.
  - cbn [fold_left]. rewrite app_nil_r. reflexivity.
  - cbn [List.map fst] in Hord.
    destruct (ordered_keys_cons last seen k _ Hord)
      as (Hk & last' & seen' & Hrest & Hnext).
    cbn [fold_left].
    pose proof (Hev (k, w) (or_introl eq_refl)) as Hw. cbn [snd] in Hw.
    rewrite Hw.
    rewrite (define_property_ordered acc k w last seen Hscan Hk).
    rewrite (IH (fun p Hp => Hev p (or_intror Hp)) (acc ++ [(k, w)])
               last' seen').
    + rewrite <- app_assoc. reflexivity.
    + rewrite List.map_app. cbn [List.map fst]. apply Hnext. exact Hscan.
    + exact Hrest.
Qed.

(** A value with its objects in property order evaluates to itself. *)
Lemma evaluate_well_formed v : well_formed v = true -> evaluate v = v.
Proof.
  induction v as [ | b | x | s | l IH | ps IH ] using value_induction;
    intros Hwf; try reflexivity.
  - cbn [well_formed evaluate] in *. rewrite forallb_forall in Hwf.
    f_equal. rewrite <- (List.map_id l) at 2. apply List.map_ext_in.
    rewrite Forall_forall in IH. intros w Hw. apply IH; auto.
  - cbn [well_formed evaluate] in *.
    apply andb_true_iff in Hwf as [Hord Hwf].
    rewrite forallb_forall in Hwf. rewrite Forall_forall in IH.
    f_equal.
    apply (fold_define_ordered ps (fun p Hp => IH p Hp (Hwf p Hp))
             [] None None); [ | exact Hord ].
    intros k [].
Qed.

(* ================================================================== *)
(** * What [JSON.parse] returns is well-formed *)

(** ** Numbers *)

Lemma takeWhile_all p (s : list N) :
  Forall (fun c => p c = true) (takeWhile p s).
Proof.
  induction s as [ | c r IH ]; cbn [takeWhile]; [ constructor | ].
  destruct (p c) eqn:E; constructor; assumption.
Qed.

Lemma lex_int_digits_only s ds r :
  lex_int s = Ok (ds, r) -> Forall (fun c => isDigit c = true) ds.
Proof.
  destruct s as [ | d s1 ]; [ discriminate | ]. cbn [lex_int].
  destruct (N.eqb_spec d 48) as [-> | _].
  - intros H; injection H as <- <-. constructor; [ reflexivity | constructor ].
  - destruct (isDigit d) eqn:Ed; [ | discriminate ].
    intros H; injection H as <- <-.
    constructor; [ exact Ed | apply takeWhile_all ].
Qed.

Lemma lex_frac_digits_only s ds r :
  lex_frac s = Ok (ds, r) -> Forall (fun c => isDigit c = true) ds.
Proof.
  destruct s as [ | d s1 ]; cbn [lex_frac].
  - intros H; injection H as <- <-. constructor.
  - destruct (d =? Ch.DOT)%N.
    + pose proof (takeWhile_all isDigit s1) as Hall.
      destruct (takeWhile isDigit s1); [ discriminate | ].
      intros H; injection H as <- <-. exact Hall.
    + intros H; injection H as <- <-. constructor.
Qed.

Lemma lex_unsigned_rounded neg s x r :
  lex_unsigned neg s = Ok (x, r) -> rounded x = true.
Proof.
  unfold lex_unsigned.
  destruct (lex_int s) as [ [int s2] | | ] eqn:E1; try discriminate.
  cbn [bind].
  destruct (lex_frac s2) as [ [frac s3] | | ] eqn:E2; try discriminate.
  cbn [bind].
  destruct (lex_exp s3) as [ [e s4] | | ] eqn:E3; try discriminate.
  cbn [bind]. intros H. injection H as <- _.
  apply decimal_to_number_rounded. apply digits_value_nonneg; [ | lia ].
  apply Forall_app. split;
    [ apply (lex_int_digits_only _ _ _ E1)
    | apply (lex_frac_digits_only _ _ _ E2) ].
Qed.

Lemma lex_number_rounded s x r :
  lex_number s = Ok (x, r) -> rounded x = true.
Proof.
  unfold lex_number. destruct s as [ | c s1 ];
    [ | destruct (c =? Ch.MINUS)%N ]; apply lex_unsigned_rounded.
Qed.

Lemma lex_keyword_value kw v s v' r :
  lex_keyword kw v s = Ok (v', r) -> v' = v.
Proof.
  unfold lex_keyword. destruct (strip_prefix kw s); [ | discriminate ].
  intros H; injection H as <- _. reflexivity.
Qed.

Lemma parse_numbers_rounded n :
  (forall s v r, parse_value n s = Ok (v, r) -> numbers_rounded v = true)
  /\ (forall s vs r, parse_elements n s = Ok (vs, r) ->
        forallb numbers_rounded vs = true)
  /\ (forall s ms r, parse_members n s = Ok (ms, r) ->
        forallb (fun p => numbers_rounded (snd p)) ms = true).
Proof.
  induction n as [ | n (IHv & IHe & IHm) ].
  - repeat split; intros; discriminate.
  - repeat split; intros s v r H;
      [ rewrite parse_value_unfold in H
      | rewrite parse_elements_unfold in H
      | rewrite parse_members_unfold in H ];
      unfold bind in H;
      repeat step_in H;
      try (injection H as <- <-);
      repeat match goal with
             | E : parse_value n _ = Ok _ |- _ => apply IHv in E
             | E : parse_elements n _ = Ok _ |- _ => apply IHe in E
             | E : parse_members n _ = Ok _ |- _ => apply IHm in E
             | E : lex_number _ = Ok _ |- _ =>
                 apply lex_number_rounded in E
             | E : lex_keyword _ _ _ = Ok _ |- _ =>
                 apply lex_keyword_value in E; subst
             end;
      cbn [numbers_rounded forallb snd];
      rewrite ?andb_true_iff; auto.
Qed.

(** ** Property order *)

Lemma array_index_spelling k i : array_index k = Some i -> k = Z_digits i.
Proof.
  unfold array_index.
  destruct (forallb isDigit k && negb (isEmpty k)); [ | discriminate ].
  destruct (text_eqb (Z_digits (digits_value 0 k)) k) eqn:E;
    [ | discriminate ].
  cbn [andb]. destruct (digits_value 0 k <? 4294967295)%Z; [ | discriminate ].
  intros H; injection H as <-. apply text_eqb_eq in E. congruence.
Qed.

Lemma array_index_injective k k' i :
  array_index k = Some i -> array_index k' = Some i -> k = k'.
Proof.
  intros H H'. apply array_index_spelling in H, H'. congruence.
Qed.

Lemma set_value_keys k v (o : object) :
  List.map fst (set_value k v o) = List.map fst o.
Proof.
  induction o as [ | [k' v'] o IH ]; [ reflexivity | ].
  cbn [set_value]. destruct (text_eqb k k'); cbn [List.map fst];
    [ reflexivity | rewrite IH; reflexivity ].
Qed.

Lemma ordered_keys_last_irrelevant l1 l2 seen ks :
  ordered_keys l1 (Some seen) ks = ordered_keys l2 (Some seen) ks.
Proof.
  revert seen. induction ks as [ | k ks IH ]; intros seen; [ reflexivity | ].
  cbn [ordered_keys]. destruct (array_index k); [ reflexivity | ].
  rewrite (IH (k :: seen)). reflexivity.
Qed.

Lemma ordered_after_index i last ks :
  ordered_keys last None ks = true ->
  match ks with
  | k' :: _ => match array_index k' with
               | Some i' => (i < i')%Z
               | None => True
               end
  | [] => True
  end ->
  ordered_keys (Some i) None ks = true.
Proof.
  destruct ks as [ | k' ks ]; [ reflexivity | ].
  cbn [ordered_keys]. destruct (array_index k') as [ i' | ].
  - rewrite !andb_true_iff. intros [_ Hrest] Hlt. split; [ | exact Hrest ].
    apply Z.ltb_lt. exact Hlt.
  - intros H _. rewrite <- H. apply ordered_keys_last_irrelevant.
Qed.

Lemma insert_index_ordered i k v (o : object) :
  array_index k = Some i ->
  forall last,
    ordered_keys last None (List.map fst o) = true ->
    match last with Some j => (j < i)%Z | None => True end ->
    ~ In k (List.map fst o) ->
    ordered_keys last None (List.map fst (insert_index i k v o)) = true.
Proof.
  intros Hk. induction o as [ | [k' v'] o IH ]; intros last Hord Hlast Hnew.
  - cbn [insert_index List.map fst ordered_keys]. rewrite Hk, andb_true_r.
    destruct last; [ apply Z.ltb_lt; exact Hlast | reflexivity ].
  - cbn [insert_index]. cbn [List.map fst] in Hord, Hnew.
    assert (Hhead : forall rest,
              ordered_keys (Some i) None rest = true ->
              ordered_keys last None (k :: rest) = true).
    { intros rest Hrest. cbn [ordered_keys]. rewrite Hk, Hrest, andb_true_r.
      destruct last; [ apply Z.ltb_lt; exact Hlast | reflexivity ]. }
    destruct (array_index k') as [ i' | ] eqn:Ek'.
    + destruct (i <? i')%Z eqn:Elt.
      * cbn [List.map fst]. apply Hhead.
        apply (ordered_after_index i last); [ exact Hord | ].
        rewrite Ek'. apply Z.ltb_lt. exact Elt.
      * apply Z.ltb_ge in Elt.
        assert (Hne : i <> i').
        { intros ->. apply Hnew. left.
          apply (array_index_injective k' k i' Ek' Hk). }
        cbn [List.map fst ordered_keys] in Hord |- *. rewrite Ek' in Hord |- *.
        apply andb_true_iff in Hord as [Hcheck Hrest].
        rewrite Hcheck. cbn [andb].
        apply IH; [ exact Hrest | lia | ].
        intros H. apply Hnew. right. exact H.
    + cbn [List.map fst]. apply Hhead.
      apply (ordered_after_index i last); [ exact Hord | ].
      rewrite Ek'. exact I.
Qed.

Lemma append_ordered k ks :
  array_index k = None ->
  forall last seen,
    ordered_keys last seen ks = true ->
    ~ In k ks ->
    match seen with Some s => ~ In k s | None => True end ->
    ordered_keys last seen (ks ++ [k]) = true.
Proof.
  intros Hk. induction ks as [ | k0 ks IH ]; intros last seen Hord Hnew Hseen.
  - cbn [app ordered_keys]. rewrite Hk. destruct seen as [ s | ];
      [ | reflexivity ].
    rewrite andb_true_r. apply negb_true_iff.
    destruct (existsb (text_eqb k) s) eqn:E; [ | reflexivity ].
    apply existsb_text_in in E. tauto.
  - cbn [app ordered_keys] in Hord |- *.
    assert (Hk0 : k <> k0) by (intros ->; apply Hnew; left; reflexivity).
    assert (Hks : ~ In k ks) by (intros H; apply Hnew; right; exact H).
    destruct (array_index k0) as [ i0 | ], seen as [ s | ];
      try discriminate.
    + apply andb_true_iff in Hord as [Hc Hrest]. rewrite Hc. cbn [andb].
      apply IH; [ exact Hrest | exact Hks | exact I ].
    + apply andb_true_iff in Hord as [Hc Hrest]. rewrite Hc. cbn [andb].
      apply IH; [ exact Hrest | exact Hks | ].
      intros [H | H]; [ congruence | tauto ].
    + apply IH; [ exact Hord | exact Hks | ].
      intros [H | []]. congruence.
Qed.

(** ** Objects and values *)

Lemma forallb_set_value (P : value -> bool) k v (o : object) :
  P v = true -> forallb (fun p => P (snd p)) o = true ->
  forallb (fun p => P (snd p)) (set_value k v o) = true.
Proof.
  intros Hv. induction o as [ | [k' v'] o IH ]; [ reflexivity | ].
  cbn [forallb set_value snd]. rewrite andb_true_iff. intros [H1 H2].
  destruct (text_eqb k k'); cbn [forallb snd];
    rewrite ?Hv, ?H1, ?H2, ?IH; auto.
Qed.

Lemma forallb_insert_index (P : value -> bool) i k v (o : object) :
  P v = true -> forallb (fun p => P (snd p)) o = true ->
  forallb (fun p => P (snd p)) (insert_index i k v o) = true.
Proof.
  intros Hv. induction o as [ | [k' v'] o IH ];
    [ intros _; cbn; rewrite Hv; reflexivity | ].
  cbn [forallb insert_index snd]. rewrite andb_true_iff. intros [H1 H2].
  destruct (array_index k') as [ i' | ]; [ destruct (i <? i')%Z | ];
    cbn [forallb snd]; rewrite ?Hv, ?H1, ?H2, ?IH; auto.
Qed.

Lemma define_property_ordered_object (o : object) k v :
  ordered_object o -> well_formed v = true ->
  ordered_object (define_property o k v).
Proof.
  intros [Hord Hvals] Hv. unfold define_property.
  destruct (has_key k o) eqn:Ehas.
  - split; [ rewrite set_value_keys; exact Hord | ].
    apply forallb_set_value; assumption.
  - assert (Hnew : ~ In k (List.map fst o)).
    { intros H. apply has_key_in in H. congruence. }
    destruct (array_index k) as [ i | ] eqn:Ek.
    + split; [ apply insert_index_ordered; auto | ].
      apply forallb_insert_index; assumption.
    + split.
      * rewrite List.map_app. cbn [List.map fst].
        apply append_ordered; auto.
      * rewrite forallb_app. cbn [forallb snd].
        rewrite Hvals, Hv. reflexivity.
Qed.

Lemma fold_define_ordered_object (ms : object) :
  (forall p, In p ms -> well_formed (evaluate (snd p)) = true) ->
  forall acc : object,
    ordered_object acc ->
    ordered_object
      (fold_left (fun (o : object) (p : list N * value) =>
                    let (k, w) := p in define_property o k (evaluate w))
         ms acc).
Proof.
  induction ms as [ | [k w] ms IH ]; intros Hev acc Hacc; [ exact Hacc | ].
  cbn [fold_left]. apply IH.
  - intros p Hp. apply Hev. right. exact Hp.
  - apply define_property_ordered_object; [ exact Hacc | ].
    apply (Hev (k, w)). left. reflexivity.
Qed.

Lemma evaluate_is_well_formed v :
  numbers_rounded v = true -> well_formed (evaluate v) = true.
Proof.
  induction v as [ | b | x | s | l IH | ps IH ] using value_induction;
    intros Hnum; try reflexivity.
  - exact Hnum.
  - cbn [numbers_rounded evaluate well_formed] in *.
    rewrite forallb_forall in Hnum |- *. rewrite Forall_forall in IH.
    intros w Hw. apply in_map_iff in Hw as (w0 & <- & Hw0).
    apply IH; auto.
  - cbn [numbers_rounded evaluate well_formed] in *.
    rewrite forallb_forall in Hnum. rewrite Forall_forall in IH.
    apply andb_true_iff.
    apply (fold_define_ordered_object ps
             (fun p Hp => IH p Hp (Hnum p Hp)) []).
    split; reflexivity.
Qed.

(** Every value that [JSON.parse] returns has binary64 numbers and its
    objects in property order. *)
Theorem JSON_parse_well_formed t v :
  JSON_parse t = Ok v -> well_formed v = true.
Proof.
  unfold JSON_parse.
  destruct (parse_value (2 * List.length t + 1) t) as [ [raw r] | | ] eqn:E;
    try discriminate.
  destruct (skip_ws r); [ | discriminate ].
  intros H; injection H as <-.
  apply evaluate_is_well_formed.
  apply (proj1 (parse_numbers_rounded _) _ _ _ E).
Qed.

(* ================================================================== *)
(** * The size of a [Blob] *)

Lemma utf8_encode_length cp :
  List.length (utf8_encode cp)
  = if (cp <? 128)%N then 1
    else if (cp <? 2048)%N then 2
    else if (cp <? 65536)%N then 3 else 4.
Proof.
  unfold utf8_encode.
  destruct (cp <? 128)%N; [ reflexivity | ].
  destruct (cp <? 2048)%N; [ reflexivity | ].
  destruct (cp <? 65536)%N; reflexivity.
Qed.

(** [utf8_length] counts the bytes of the UTF-8 encoding of the scalar
    values of a text. *)
Lemma utf8_length_bytes (s : list N) :
  code_units s = true ->
  utf8_length s = N.of_nat (List.length (utf8_bytes s)).
Proof.
  unfold utf8_bytes.
  assert (H : forall n s, (List.length s <= n)%nat -> code_units s = true ->
            utf8_length s
            = N.of_nat (List.length (flat_map utf8_encode (scalar_values s)))).
  { clear s. induction n as [ | n IH ]; intros [ | c r ] Hlen Hs;
      try reflexivity; cbn [List.length] in Hlen; [ lia | ].
    cbn [code_units forallb] in Hs. apply andb_true_iff in Hs as [Hc Hr].
    apply N.ltb_lt in Hc.
    cbn [utf8_length scalar_values].
    unfold isHighSurrogate, isLowSurrogate.
    destruct (N.ltb_spec c 128) as [H1 | H1].
    { replace ((55296 <=? c) && (c <=? 56319))%N with false
        by (symmetry; apply andb_false_iff; left; apply N.leb_gt; lia).
      replace ((56320 <=? c) && (c <=? 57343))%N with false
        by (symmetry; apply andb_false_iff; left; apply N.leb_gt; lia).
      cbn [flat_map]. rewrite length_app, utf8_encode_length.
      destruct (N.ltb_spec c 128); [ | lia ].
      rewrite (IH r ltac:(lia) Hr). lia. }
    destruct (N.ltb_spec c 2048) as [H2 | H2].
    { replace ((55296 <=? c) && (c <=? 56319))%N with false
        by (symmetry; apply andb_false_iff; left; apply N.leb_gt; lia).
      replace ((56320 <=? c) && (c <=? 57343))%N with false
        by (symmetry; apply andb_false_iff; left; apply N.leb_gt; lia).
      cbn [flat_map]. rewrite length_app, utf8_encode_length.
      destruct (N.ltb_spec c 128); [ lia | ].
      destruct (N.ltb_spec c 2048); [ | lia ].
      rewrite (IH r ltac:(lia) Hr). lia. }
    destruct ((55296 <=? c) && (c <=? 56319))%N eqn:Ehigh.
    - destruct r as [ | d r' ]; [ reflexivity | ].
      destruct ((56320 <=? d) && (d <=? 57343))%N eqn:Elow.
      + cbn [code_units forallb] in Hr. apply andb_true_iff in Hr as [_ Hr'].
        cbn [flat_map]. rewrite length_app, utf8_encode_length.
        apply andb_true_iff in Ehigh as [Eh1 Eh2].
        apply N.leb_le in Eh1, Eh2.
        apply andb_true_iff in Elow as [El1 El2].
        apply N.leb_le in El1, El2.
        set (cp := (65536 + (c - 55296) * 1024 + (d - 56320))%N).
        assert (Hcp : (65536 <= cp)%N) by (unfold cp; lia).
        destruct (N.ltb_spec cp 128); [ lia | ].
        destruct (N.ltb_spec cp 2048); [ lia | ].
        destruct (N.ltb_spec cp 65536); [ lia | ].
        cbn [List.length] in Hlen.
        rewrite (IH r' ltac:(lia) Hr'). lia.
      + cbn [flat_map]. rewrite length_app.
        change (List.length (utf8_encode 65533)) with 3%nat.
        rewrite (IH (d :: r') ltac:(lia) Hr). lia.
    - destruct ((56320 <=? c) && (c <=? 57343))%N.
      + cbn [flat_map]. rewrite length_app.
        change (List.length (utf8_encode 65533)) with 3%nat.
        rewrite (IH r ltac:(lia) Hr). lia.
      + cbn [flat_map]. rewrite length_app, utf8_encode_length.
        destruct (N.ltb_spec c 128); [ lia | ].
        destruct (N.ltb_spec c 2048); [ lia | ].
        destruct (N.ltb_spec c 65536); [ | lia ].
        rewrite (IH r ltac:(lia) Hr). lia. }
  intros Hs. apply (H (List.length s) s (le_n _) Hs).
Qed.

(* ================================================================== *)
(** * Whitespace around a document

    [trim] removes more than JSON allows around a document, and all that
    JSON allows.  A text that [JSON.parse] accepts is therefore accepted
    with the same value after [trim]: the descent stops in front of
    trailing whitespace, and what it returns does not depend on it. *)

Abbreviation blank := (Forall (fun c : N => isWS c = true)).

(** A test of a whitespace code unit against a code unit that is not
    whitespace fails. *)
Ltac blank_test c Hc k :=
  let E := fresh "E" in
  assert (E : (c =? k)%N = false)
    by (apply N.eqb_neq; intros E; rewrite E in Hc; vm_compute in Hc;
        discriminate Hc);
  rewrite ?E in *; clear E.

Ltac blank_tests c Hc :=
  repeat match goal with
         | H : context [(c =? ?k)%N] |- _ => blank_test c Hc k
         | |- context [(c =? ?k)%N] => blank_test c Hc k
         end.

Lemma blank_range c : isWS c = true -> (c <= 32 \/ 160 <= c)%N.
Proof.
  unfold isWS.
  rewrite !orb_true_iff, !andb_true_iff, !N.leb_le, !N.eqb_eq. lia.
Qed.

Lemma blank_not_digit c : isWS c = true -> isDigit c = false.
Proof.
  intros H. apply blank_range in H. unfold isDigit.
  apply andb_false_iff. rewrite !N.leb_gt. lia.
Qed.

Lemma blank_not_hex c : isWS c = true -> hex_value c = None.
Proof.
  intros H. apply blank_range in H. unfold hex_value.
  repeat match goal with
         | |- (if ?b then _ else _) = None =>
             replace b with false;
             [ | symmetry; apply andb_false_iff; rewrite !N.leb_gt; lia ]
         end.
  reflexivity.
Qed.

Lemma takeWhile_digits_blank s w :
  blank w -> takeWhile isDigit (s ++ w) = takeWhile isDigit s.
Proof.
  intros Hw. induction s as [ | c r IH ]; cbn [app takeWhile].
  - destruct Hw as [ | x w' Hx _ ]; [ reflexivity | ].
    cbn [takeWhile]. rewrite (blank_not_digit x Hx). reflexivity.
  - rewrite IH. reflexivity.
Qed.

Lemma dropWhile_digits_blank s w :
  blank w -> dropWhile isDigit (s ++ w) = dropWhile isDigit s ++ w.
Proof.
  intros Hw. induction s as [ | c r IH ]; cbn [app dropWhile].
  - destruct Hw as [ | x w' Hx _ ]; [ reflexivity | ].
    cbn [dropWhile]. rewrite (blank_not_digit x Hx). reflexivity.
  - rewrite IH. destruct (isDigit c); reflexivity.
Qed.

(** ** The lexers *)

Lemma lex_string_blank w :
  blank w -> forall str r, lex_string w <> Ok (str, r).
Proof.
  induction 1 as [ | c w' Hc _ IH ]; intros str r H; [ discriminate | ].
  cbn [lex_string] in H. blank_tests c Hc.
  destruct (c <? 32)%N; [ discriminate | ].
  destruct (lex_string w') as [ [str0 rest] | | ] eqn:E; try discriminate.
  apply (IH _ _ eq_refl).
Qed.

Lemma hex_prefix s w h r :
  blank w -> s ++ w = h :: r -> hex_value h <> None ->
  exists s', s = h :: s' /\ r = s' ++ w.
Proof.
  intros Hw E Hh. destruct s as [ | c s' ]; cbn [app] in E.
  - exfalso. rewrite E in Hw. inversion Hw as [ | ? ? Hx _ ]; subst.
    apply Hh. apply blank_not_hex. exact Hx.
  - injection E as -> <-. exists s'. split; reflexivity.
Qed.

Lemma lex_string_truncate w :
  blank w ->
  forall s str r,
    lex_string (s ++ w) = Ok (str, r) ->
    exists r0, r = r0 ++ w /\ lex_string s = Ok (str, r0).
Proof.
  intros Hw s.
  induction s as [s IH] using (induction_ltof1 _ (@List.length N)).
  unfold ltof in IH. intros str r H.
  destruct s as [ | c s1 ];
    [ exfalso; apply (lex_string_blank w Hw _ _ H) | ].
  cbn [app lex_string] in H. cbn [lex_string].
  destruct (c =? Ch.QUOTE)%N.
  { injection H as <- <-. exists s1. split; reflexivity. }
  assert (Hrec : forall u s2 str r,
            (List.length s2 < List.length (c :: s1))%nat ->
            (let* (str0, rest) := lex_string (s2 ++ w) in Ok (u :: str0, rest))
            = Ok (str, r) ->
            exists r0, r = r0 ++ w
              /\ (let* (str0, rest) := lex_string s2 in Ok (u :: str0, rest))
                 = Ok (str, r0)).
  { intros u s2 str' r' Hlen Hu.
    destruct (lex_string (s2 ++ w)) as [ [str0 rest] | | ] eqn:E;
      try discriminate Hu.
    cbn [bind] in Hu. injection Hu as <- <-.
    destruct (IH s2 Hlen _ _ E) as (r0 & -> & E0).
    exists r0. rewrite E0. split; reflexivity. }
  destruct (c =? Ch.BACKSLASH)%N.
  - destruct s1 as [ | e s2 ].
    + exfalso. cbn [app] in H.
      destruct Hw as [ | e w' He _ ]; [ discriminate | ].
      blank_tests e He. discriminate.
    + cbn [app] in H.
      repeat match type of H with
             | (if ?b then _ else _) = _ =>
                 destruct b;
                 [ apply Hrec; [ cbn [List.length]; lia | exact H ] | ]
             end.
      destruct (e =? 117)%N; [ | discriminate H ].
      destruct (s2 ++ w) as [ | h1 [ | h2 [ | h3 [ | h4 r2 ] ] ] ] eqn:E;
        try discriminate H.
      destruct (hex_value h1) as [ a1 | ] eqn:E1; [ | discriminate H ].
      destruct (hex_value h2) as [ a2 | ] eqn:E2; [ | discriminate H ].
      destruct (hex_value h3) as [ a3 | ] eqn:E3; [ | discriminate H ].
      destruct (hex_value h4) as [ a4 | ] eqn:E4; [ | discriminate H ].
      destruct (hex_prefix _ _ _ _ Hw E ltac:(congruence)) as (t1 & -> & Ea).
      symmetry in Ea.
      destruct (hex_prefix _ _ _ _ Hw Ea ltac:(congruence)) as (t2 & -> & Eb).
      symmetry in Eb.
      destruct (hex_prefix _ _ _ _ Hw Eb ltac:(congruence)) as (t3 & -> & Ec).
      symmetry in Ec.
      destruct (hex_prefix _ _ _ _ Hw Ec ltac:(congruence)) as (t4 & -> & ->).
      rewrite E1, E2, E3, E4.
      apply Hrec; [ cbn [List.length]; lia | exact H ].
  - destruct (c <? 32)%N; [ discriminate | ].
    apply Hrec; [ cbn [List.length]; lia | exact H ].
Qed.

Lemma lex_int_truncate w s ds r :
  blank w -> lex_int (s ++ w) = Ok (ds, r) ->
  exists r0, r = r0 ++ w /\ lex_int s = Ok (ds, r0).
Proof.
  intros Hw H. destruct s as [ | d s1 ]; cbn [app] in H.
  - exfalso. destruct Hw as [ | x w' Hx _ ]; [ discriminate | ].
    cbn [lex_int] in H. blank_tests x Hx.
    rewrite (blank_not_digit x Hx) in H. discriminate.
  - cbn [lex_int] in *. destruct (d =? 48)%N.
    + injection H as <- <-. exists s1. split; reflexivity.
    + destruct (isDigit d); [ | discriminate ].
      rewrite (takeWhile_digits_blank _ _ Hw),
        (dropWhile_digits_blank _ _ Hw) in H.
      injection H as <- <-. eexists. split; reflexivity.
Qed.

Lemma lex_frac_truncate w s ds r :
  blank w -> lex_frac (s ++ w) = Ok (ds, r) ->
  exists r0, r = r0 ++ w /\ lex_frac s = Ok (ds, r0).
Proof.
  intros Hw H. destruct s as [ | c s1 ]; cbn [app] in H.
  - exists []. destruct Hw as [ | x w' Hx _ ]; cbn [lex_frac] in H.
    + injection H as <- <-. split; reflexivity.
    + blank_tests x Hx. injection H as <- <-. split; reflexivity.
  - cbn [lex_frac] in *. destruct (c =? Ch.DOT)%N.
    + rewrite (takeWhile_digits_blank _ _ Hw),
        (dropWhile_digits_blank _ _ Hw) in H.
      destruct (takeWhile isDigit s1); [ discriminate | ].
      injection H as <- <-. eexists. split; reflexivity.
    + injection H as <- <-. exists (c :: s1). split; reflexivity.
Qed.

Lemma lex_exp_truncate w s e r :
  blank w -> lex_exp (s ++ w) = Ok (e, r) ->
  exists r0, r = r0 ++ w /\ lex_exp s = Ok (e, r0).
Proof.
  intros Hw H. destruct s as [ | c s1 ]; cbn [app] in H.
  - exists []. destruct Hw as [ | x w' Hx _ ]; cbn [lex_exp] in H.
    + injection H as <- <-. split; reflexivity.
    + blank_tests x Hx. cbn [orb] in H.
      injection H as <- <-. split; reflexivity.
  - cbn [lex_exp] in *. destruct ((c =? 101) || (c =? 69))%N.
    + destruct s1 as [ | sg s2 ]; cbn [app] in H.
      * exfalso. destruct Hw as [ | x w' Hx _ ]; [ discriminate | ].
        blank_tests x Hx. cbn [takeWhile] in H.
        rewrite (blank_not_digit x Hx) in H. discriminate.
      * destruct (sg =? Ch.MINUS)%N; [ | destruct (sg =? Ch.PLUS)%N ];
          rewrite ?app_comm_cons in H;
          rewrite (takeWhile_digits_blank _ _ Hw),
            (dropWhile_digits_blank _ _ Hw) in H;
          match type of H with
          | context [takeWhile isDigit ?u] => destruct (takeWhile isDigit u)
          end; try discriminate;
          injection H as <- <-; eexists; split; reflexivity.
    + injection H as <- <-. exists (c :: s1). split; reflexivity.
Qed.

Lemma lex_unsigned_truncate w neg s x r :
  blank w -> lex_unsigned neg (s ++ w) = Ok (x, r) ->
  exists r0, r = r0 ++ w /\ lex_unsigned neg s = Ok (x, r0).
Proof.
  intros Hw H. unfold lex_unsigned in *.
  destruct (lex_int (s ++ w)) as [ [int s2] | | ] eqn:E1; try discriminate.
  destruct (lex_int_truncate _ _ _ _ Hw E1) as (t2 & -> & ->).
  cbn [bind] in *.
  destruct (lex_frac (t2 ++ w)) as [ [frac s3] | | ] eqn:E2; try discriminate.
  destruct (lex_frac_truncate _ _ _ _ Hw E2) as (t3 & -> & ->).
  cbn [bind] in *.
  destruct (lex_exp (t3 ++ w)) as [ [e s4] | | ] eqn:E3; try discriminate.
  destruct (lex_exp_truncate _ _ _ _ Hw E3) as (t4 & -> & ->).
  cbn [bind] in *. injection H as <- <-. exists t4. split; reflexivity.
Qed.

Lemma lex_number_truncate w s x r :
  blank w -> lex_number (s ++ w) = Ok (x, r) ->
  exists r0, r = r0 ++ w /\ lex_number s = Ok (x, r0).
Proof.
  intros Hw H. destruct s as [ | c s1 ].
  - cbn [app] in H. cbn [lex_number].
    apply (lex_unsigned_truncate w false [] x r Hw).
    destruct Hw as [ | y w' Hy _ ]; [ exact H | ].
    cbn [lex_number] in H. blank_tests y Hy. exact H.
  - cbn [app lex_number] in *. destruct (c =? Ch.MINUS)%N.
    + apply (lex_unsigned_truncate _ _ _ _ _ Hw H).
    + apply (lex_unsigned_truncate w false (c :: s1) x r Hw H).
Qed.

Lemma strip_prefix_truncate w kw :
  blank w -> Forall (fun k => isWS k = false) kw ->
  forall s r, strip_prefix kw (s ++ w) = Some r ->
    exists r0, r = r0 ++ w /\ strip_prefix kw s = Some r0.
Proof.
  intros Hw. induction 1 as [ | k kw' Hk _ IH ]; intros s r H.
  - cbn [strip_prefix] in *. injection H as <-. exists s. split; reflexivity.
  - destruct s as [ | c s1 ]; cbn [app] in H.
    + exfalso. destruct Hw as [ | y w' Hy _ ]; [ discriminate | ].
      cbn [strip_prefix] in H.
      destruct (N.eqb_spec k y) as [-> | _]; [ congruence | discriminate ].
    + cbn [strip_prefix] in *. destruct (k =? c)%N; [ | discriminate ].
      apply IH. exact H.
Qed.

Lemma lex_keyword_truncate w kw v s v' r :
  blank w -> forallb (fun k => negb (isWS k)) kw = true ->
  lex_keyword kw v (s ++ w) = Ok (v', r) ->
  exists r0, r = r0 ++ w /\ lex_keyword kw v s = Ok (v', r0).
Proof.
  intros Hw Hkw H. unfold lex_keyword in *.
  destruct (strip_prefix kw (s ++ w)) as [ r1 | ] eqn:E; [ | discriminate ].
  injection H as <- <-.
  assert (Hkw' : Forall (fun k => isWS k = false) kw).
  { apply Forall_forall. intros k Hk.
    rewrite forallb_forall in Hkw. apply negb_true_iff. apply Hkw. exact Hk. }
  destruct (strip_prefix_truncate w kw Hw Hkw' s r1 E) as (r0 & -> & ->).
  exists r0. split; reflexivity.
Qed.

(** ** The descent *)

Lemma dropWhile_head (P : N -> Prop) p (w : list N) c r :
  Forall P w -> dropWhile p w = c :: r -> P c.
Proof.
  induction 1 as [ | x w' Hx _ IH ]; cbn [dropWhile]; [ discriminate | ].
  destruct (p x); [ exact IH | ].
  intros E. injection E as <- _. exact Hx.
Qed.

Lemma skip_ws_blank s w c r :
  blank w -> skip_ws (s ++ w) = c :: r ->
  (skip_ws s = [] /\ isWS c = true)
  \/ (exists r0, skip_ws s = c :: r0 /\ r = r0 ++ w).
Proof.
  intros Hw. unfold skip_ws.
  induction s as [ | d s IH ]; cbn [app dropWhile]; intros H.
  - left. split; [ reflexivity | ].
    apply (dropWhile_head (fun c => isWS c = true) _ _ _ _ Hw H).
  - destruct (isJSONWS d); [ apply IH; exact H | ].
    injection H as <- <-. right. exists s. split; reflexivity.
Qed.

Lemma parse_value_start n s v r :
  parse_value n s = Ok (v, r) ->
  exists c r1, skip_ws s = c :: r1 /\ isWS c = false.
Proof.
  destruct n as [ | f ]; [ discriminate | ].
  rewrite parse_value_unfold.
  destruct (skip_ws s) as [ | c r1 ]; [ discriminate | ].
  intros H. exists c, r1. split; [ reflexivity | ].
  destruct (isWS c) eqn:Hc; [ exfalso | reflexivity ].
  blank_tests c Hc. rewrite (blank_not_digit c Hc) in H. discriminate.
Qed.

Lemma parse_elements_start n s vs r :
  parse_elements n s = Ok (vs, r) ->
  exists c r1, skip_ws s = c :: r1 /\ isWS c = false.
Proof.
  destruct n as [ | f ]; [ discriminate | ].
  rewrite parse_elements_unfold.
  destruct (parse_value f s) as [ [v r0] | | ] eqn:E; try discriminate.
  intros _. apply (parse_value_start _ _ _ _ E).
Qed.

Lemma parse_members_start n s ms r :
  parse_members n s = Ok (ms, r) ->
  exists r0, skip_ws s = Ch.QUOTE :: r0.
Proof.
  destruct n as [ | f ]; [ discriminate | ].
  rewrite parse_members_unfold.
  destruct (skip_ws s) as [ | q r0 ]; [ discriminate | ].
  destruct (N.eqb_spec q Ch.QUOTE) as [-> | _]; [ | discriminate ].
  intros _. exists r0. reflexivity.
Qed.

(** A whitespace code unit where a value, a comma or a bracket has to
    stand ends the descent. *)
Ltac blank_next Hw :=
  match goal with
  | H : context [skip_ws (?r ++ _)] |- context [skip_ws ?r] =>
      let c := fresh "c" in
      let r' := fresh "r" in
      let Es := fresh "Es" in
      let E0 := fresh "E0" in
      let Hc := fresh "Hc" in
      let t := fresh "t" in
      destruct (skip_ws (r ++ _)) as [ | c r' ] eqn:Es;
      [ discriminate H | ];
      destruct (skip_ws_blank _ _ _ _ Hw Es) as [ [E0 Hc] | (t & E0 & ->) ];
      rewrite E0
  end.

Lemma parse_truncate w :
  blank w ->
  forall n,
    (forall s v r, parse_value n (s ++ w) = Ok (v, r) ->
       exists r0, r = r0 ++ w /\ parse_value n s = Ok (v, r0))
    /\ (forall s vs r, parse_elements n (s ++ w) = Ok (vs, r) ->
          exists r0, r = r0 ++ w /\ parse_elements n s = Ok (vs, r0))
    /\ (forall s ms r, parse_members n (s ++ w) = Ok (ms, r) ->
          exists r0, r = r0 ++ w /\ parse_members n s = Ok (ms, r0)).
Proof.
  intros Hw. induction n as [ | f (IHv & IHe & IHm) ].
  { repeat split; intros; discriminate. }
  repeat split.
  - intros s v r H.
    destruct (parse_value_start _ _ _ _ H) as (c & r1 & Es & Hc).
    rewrite parse_value_unfold in *. rewrite Es in H.
    destruct (skip_ws_blank _ _ _ _ Hw Es) as [ [_ Hc'] | (t & E0 & ->) ];
      [ congruence | ].
    rewrite E0.
    destruct (c =? Ch.LBRACE)%N.
    { blank_next Hw.
      - exfalso. blank_tests c0 Hc0.
        destruct (parse_members f (t ++ w)) as [ [ms rest] | | ] eqn:Em;
          try discriminate H.
        destruct (parse_members_start _ _ _ _ Em) as (q & Eq).
        rewrite Eq in Es0. injection Es0 as <- _.
        vm_compute in Hc0. discriminate Hc0.
      - destruct (c0 =? Ch.RBRACE)%N.
        + injection H as <- <-. exists t0. split; reflexivity.
        + destruct (parse_members f (t ++ w)) as [ [ms rest] | | ] eqn:Em;
            try discriminate H.
          destruct (IHm _ _ _ Em) as (r0 & -> & ->).
          cbn [bind] in *. injection H as <- <-.
          exists r0. split; reflexivity. }
    destruct (c =? Ch.LBRACKET)%N.
    { blank_next Hw.
      - exfalso. blank_tests c0 Hc0.
        destruct (parse_elements f (t ++ w)) as [ [vs rest] | | ] eqn:Ee;
          try discriminate H.
        destruct (parse_elements_start _ _ _ _ Ee) as (q & q' & Eq & Hq).
        rewrite Eq in Es0. injection Es0 as <- _. congruence.
      - destruct (c0 =? Ch.RBRACKET)%N.
        + injection H as <- <-. exists t0. split; reflexivity.
        + destruct (parse_elements f (t ++ w)) as [ [vs rest] | | ] eqn:Ee;
            try discriminate H.
          destruct (IHe _ _ _ Ee) as (r0 & -> & ->).
          cbn [bind] in *. injection H as <- <-.
          exists r0. split; reflexivity. }
    destruct (c =? Ch.QUOTE)%N.
    { destruct (lex_string (t ++ w)) as [ [str rest] | | ] eqn:El;
        try discriminate H.
      destruct (lex_string_truncate w Hw _ _ _ El) as (r0 & -> & ->).
      cbn [bind] in *. injection H as <- <-. exists r0. split; reflexivity. }
    change (c :: t ++ w) with ((c :: t) ++ w) in H.
    destruct (c =? 116)%N;
      [ apply (lex_keyword_truncate w (lit "true") (JBool true) _ _ _ Hw eq_refl H) | ].
    destruct (c =? 102)%N;
      [ apply (lex_keyword_truncate w (lit "false") (JBool false) _ _ _ Hw eq_refl H) | ].
    destruct (c =? 110)%N;
      [ apply (lex_keyword_truncate w (lit "null") JNull _ _ _ Hw eq_refl H) | ].
    destruct ((c =? Ch.MINUS)%N || isDigit c); [ | discriminate H ].
    destruct (lex_number ((c :: t) ++ w)) as [ [x rest] | | ] eqn:El;
      try discriminate H.
    destruct (lex_number_truncate w _ _ _ Hw El) as (r0 & -> & ->).
    cbn [bind] in *. injection H as <- <-. exists r0. split; reflexivity.
  - intros s vs r H. rewrite parse_elements_unfold in *.
    destruct (parse_value f (s ++ w)) as [ [v r1] | | ] eqn:Ev;
      try discriminate H.
    destruct (IHv _ _ _ Ev) as (t & -> & ->). cbn [bind] in *.
    blank_next Hw.
    + exfalso. blank_tests c Hc. discriminate H.
    + destruct (c =? Ch.COMMA)%N.
      * destruct (parse_elements f (t0 ++ w)) as [ [vs' rest] | | ] eqn:Ee;
          try discriminate H.
        destruct (IHe _ _ _ Ee) as (r0 & -> & ->).
        cbn [bind] in *. injection H as <- <-.
        exists r0. split; reflexivity.
      * destruct (c =? Ch.RBRACKET)%N; [ | discriminate H ].
        injection H as <- <-. exists t0. split; reflexivity.
  - intros s ms r H.
    destruct (parse_members_start _ _ _ _ H) as (q & Eq).
    rewrite parse_members_unfold in *. rewrite Eq in H.
    destruct (skip_ws_blank _ _ _ _ Hw Eq) as [ [_ Hc'] | (t & E0 & ->) ];
      [ vm_compute in Hc'; discriminate Hc' | ].
    rewrite E0. change (Ch.QUOTE =? Ch.QUOTE)%N with true in *. cbv iota in *.
    destruct (lex_string (t ++ w)) as [ [k r1] | | ] eqn:El;
      try discriminate H.
    destruct (lex_string_truncate w Hw _ _ _ El) as (t1 & -> & ->).
    cbn [bind] in *.
    blank_next Hw.
    + exfalso. blank_tests c Hc. discriminate H.
    + destruct (c =? Ch.COLON)%N; [ | discriminate H ].
      destruct (parse_value f (t0 ++ w)) as [ [v r3] | | ] eqn:Ev;
        try discriminate H.
      destruct (IHv _ _ _ Ev) as (t3 & -> & ->). cbn [bind] in *.
      blank_next Hw.
      * exfalso. blank_tests c0 Hc. discriminate H.
      * destruct (c0 =? Ch.COMMA)%N.
        -- destruct (parse_members f (t2 ++ w)) as [ [ms' rest] | | ] eqn:Em;
             try discriminate H.
           destruct (IHm _ _ _ Em) as (r0 & -> & ->).
           cbn [bind] in *. injection H as <- <-.
           exists r0. split; reflexivity.
        -- destruct (c0 =? Ch.RBRACE)%N; [ | discriminate H ].
           injection H as <- <-. exists t2. split; reflexivity.
Qed.

(** ** [trim] *)

Lemma takeWhile_dropWhile p (s : list N) :
  s = takeWhile p s ++ dropWhile p s.
Proof.
  induction s as [ | c r IH ]; [ reflexivity | ].
  cbn [takeWhile dropWhile]. destruct (p c); [ | reflexivity ].
  cbn [app]. f_equal. exact IH.
Qed.

Lemma takeWhile_Forall p (s : list N) :
  Forall (fun c => p c = true) (takeWhile p s).
Proof.
  induction s as [ | c r IH ]; [ constructor | ].
  cbn [takeWhile]. destruct (p c) eqn:E; constructor; assumption.
Qed.

(** What [trim] removes is whitespace. *)
Lemma trim_decompose (t : list N) :
  exists l w, t = l ++ trim t ++ w /\ blank l /\ blank w.
Proof.
  exists (takeWhile isWS t), (rev (takeWhile isWS (rev (trimStart t)))).
  split; [ | split ].
  - unfold trim, trimEnd. rewrite <- rev_app_distr.
    rewrite <- (takeWhile_dropWhile isWS (rev (trimStart t))).
    rewrite rev_involutive. apply takeWhile_dropWhile.
  - apply takeWhile_Forall.
  - apply Forall_rev. apply takeWhile_Forall.
Qed.

Lemma parse_value_lead n l x v r :
  blank l -> parse_value n (l ++ x) = Ok (v, r) ->
  parse_value n x = Ok (v, r).
Proof.
  induction 1 as [ | c l' Hc _ IH ]; intros H; [ exact H | ].
  destruct (isJSONWS c) eqn:Ej.
  - apply IH. destruct n as [ | f ]; [ discriminate | ].
    rewrite parse_value_unfold in *. cbn [app] in H.
    unfold skip_ws in *. cbn [dropWhile] in H. rewrite Ej in H. exact H.
  - exfalso. destruct (parse_value_start _ _ _ _ H) as (d & r1 & Es & Hd).
    unfold skip_ws in Es. cbn [app dropWhile] in Es. rewrite Ej in Es.
    injection Es as <- _. congruence.
Qed.

Lemma skip_ws_app_nil (a b : list N) : skip_ws (a ++ b) = [] -> skip_ws a = [].
Proof.
  unfold skip_ws. induction a as [ | c r IH ]; cbn [app dropWhile];
    [ reflexivity | ].
  destruct (isJSONWS c); [ exact IH | discriminate ].
Qed.

(** A text that [JSON.parse] accepts is not blank, and its trimmed form is
    accepted with the same value. *)
Lemma JSON_parse_trim t v :
  JSON_parse t = Ok v ->
  isEmpty (trim t) = false /\ JSON_parse (trim t) = Ok v.
Proof.
  intros H. unfold JSON_parse in H.
  destruct (parse_value (2 * List.length t + 1) t) as [ [v0 r] | | ] eqn:E;
    try discriminate H.
  destruct (skip_ws r) eqn:Er; [ | discriminate H ].
  injection H as <-.
  destruct (trim_decompose t) as (l & w & Ht & Hl & Hw).
  rewrite Ht in E at 2.
  apply (parse_value_lead _ _ _ _ _ Hl) in E.
  destruct (proj1 (parse_truncate w Hw _) _ _ _ E) as (r0 & -> & E0).
  apply skip_ws_app_nil in Er.
  split; [ | apply (JSON_parse_of_parse_value _ _ _ _ E0 Er) ].
  destruct (trim t); [ | reflexivity ].
  replace (2 * List.length t + 1) with (S (2 * List.length t)) in E0 by lia.
  rewrite parse_value_unfold in E0. discriminate E0.
Qed.

(* ================================================================== *)
(** * Negative zero *)

Lemma serialize_positive_zero v :
  forall gap indent,
    SerializeJSONProperty gap indent (positive_zero v)
    = SerializeJSONProperty gap indent v.
Proof.
  induction v as [ | b | x | s | l IH | ps IH ] using value_induction;
    intros gap indent; try reflexivity.
  - destruct x; reflexivity.
  - cbn [positive_zero SerializeJSONProperty]. cbv zeta. f_equal.
    rewrite map_map. apply map_ext_Forall.
    revert IH. apply Forall_impl. intros w Hw. apply Hw.
  - cbn [positive_zero SerializeJSONProperty]. cbv zeta. f_equal.
    rewrite map_map. apply map_ext_Forall.
    revert IH. apply Forall_impl. intros [k w] Hw. cbn [fst snd] in *.
    rewrite Hw. reflexivity.
Qed.

Lemma positive_zero_well_formed v :
  well_formed v = true -> well_formed (positive_zero v) = true.
Proof.
  induction v as [ | b | x | s | l IH | ps IH ] using value_induction;
    try (intros H; exact H).
  - destruct x; intros H; exact H.
  - cbn [positive_zero well_formed]. rewrite !forallb_forall.
    intros H w Hw. apply in_map_iff in Hw as (u & <- & Hu).
    rewrite Forall_forall in IH. apply (IH u Hu). apply (H u Hu).
  - cbn [positive_zero well_formed]. rewrite map_map. cbn [fst].
    intros H. apply andb_true_iff in H as [Hk Hv].
    apply andb_true_iff. split; [ exact Hk | ].
    rewrite forallb_forall in *. intros p Hp.
    apply in_map_iff in Hp as (q & <- & Hq). cbn [snd].
    rewrite Forall_forall in IH. apply (IH q Hq). apply (Hv q Hq).
Qed.

Lemma positive_zero_survives v :
  numbers_finite v = true -> numbers_survive (positive_zero v) = true.
Proof.
  induction v as [ | b | x | s | l IH | ps IH ] using value_induction;
    try (intros H; exact H).
  - destruct x; intros H; try discriminate H; reflexivity.
  - cbn [positive_zero numbers_finite numbers_survive].
    rewrite !forallb_forall.
    intros H w Hw. apply in_map_iff in Hw as (u & <- & Hu).
    rewrite Forall_forall in IH. apply (IH u Hu). apply (H u Hu).
  - cbn [positive_zero numbers_finite numbers_survive].
    rewrite !forallb_forall. intros H p Hp.
    apply in_map_iff in Hp as (q & <- & Hq). cbn [snd].
    rewrite Forall_forall in IH. apply (IH q Hq). apply (H q Hq).
Qed.

Lemma well_formed_keys_ordered v :
  well_formed v = true -> keys_ordered v = true.
Proof.
  induction v as [ | b | x | s | l IH | ps IH ] using value_induction;
    try reflexivity.
  - cbn [well_formed keys_ordered]. rewrite !forallb_forall.
    rewrite Forall_forall in IH. intros H w Hw. apply (IH w Hw), (H w Hw).
  - cbn [well_formed keys_ordered]. intros H.
    apply andb_true_iff in H as [Hk Hv].
    apply andb_true_iff. split; [ exact Hk | ].
    rewrite forallb_forall in *. rewrite Forall_forall in IH.
    intros p Hp. apply (IH p Hp), (Hv p Hp).
Qed.

(* ================================================================== *)
(** * The order of the keys of a parsed object *)

Lemma insert_index_other_keys i k v (o : object) :
  is_index k = true ->
  other_keys (List.map fst (insert_index i k v o))
  = other_keys (List.map fst o).
Proof.
  intros Hk. unfold other_keys.
  induction o as [ | [k' v'] o IH ]; cbn [insert_index List.map fst filter].
  - rewrite Hk. reflexivity.
  - destruct (array_index k') as [ i' | ] eqn:E;
      [ destruct (i <? i')%Z | ];
      cbn [List.map fst filter]; rewrite ?Hk, ?IH; reflexivity.
Qed.

Lemma insert_index_keys i k v (o : object) k' :
  In k' (List.map fst (insert_index i k v o))
  <-> k' = k \/ In k' (List.map fst o).
Proof.
  induction o as [ | [k0 v0] o IH ]; cbn [insert_index List.map fst In].
  - split; intros [H | H]; auto.
  - destruct (array_index k0) as [ i0 | ];
      [ destruct (i <? i0)%Z | ];
      cbn [List.map fst In]; rewrite ?IH; intuition auto.
Qed.

Lemma define_property_keys (o : object) k v k' :
  In k' (List.map fst (define_property o k v))
  <-> k' = k \/ In k' (List.map fst o).
Proof.
  unfold define_property. destruct (has_key k o) eqn:E.
  - rewrite set_value_keys. apply has_key_in in E.
    split; [ auto | intros [-> | H]; assumption ].
  - destruct (array_index k) as [ i | ]; [ apply insert_index_keys | ].
    rewrite map_app, in_app_iff. cbn [List.map fst In]. intuition auto.
Qed.

Lemma has_key_define_property (o : object) k v k' :
  has_key k' (define_property o k v) = text_eqb k' k || has_key k' o.
Proof.
  apply eq_true_iff_eq.
  rewrite orb_true_iff, !has_key_in, text_eqb_eq.
  apply define_property_keys.
Qed.

Lemma define_property_other_keys (o : object) k v :
  other_keys (List.map fst (define_property o k v))
  = if has_key k o || is_index k then other_keys (List.map fst o)
    else other_keys (List.map fst o) ++ [k].
Proof.
  unfold define_property. destruct (has_key k o) eqn:E; cbn [orb].
  - rewrite set_value_keys. reflexivity.
  - unfold is_index. destruct (array_index k) as [ i | ] eqn:Ei.
    + apply insert_index_other_keys. unfold is_index. rewrite Ei. reflexivity.
    + unfold other_keys. rewrite map_app, filter_app.
      cbn [List.map fst filter]. unfold is_index. rewrite Ei. reflexivity.
Qed.

Lemma fold_define_other_keys (f : value -> value) (ms : object) :
  forall (acc : object) seen,
    (forall k, is_index k = false ->
               existsb (text_eqb k) seen = has_key k acc) ->
    other_keys
      (List.map fst
         (fold_left (fun (o : object) (p : list N * value) =>
                       let (k, w) := p in define_property o k (f w))
            ms acc))
    = other_keys (List.map fst acc)
      ++ first_occurrences seen (other_keys (List.map fst ms)).
Proof.
  induction ms as [ | [k w] ms IH ]; intros acc seen Hseen.
  - cbn. rewrite app_nil_r. reflexivity.
  - cbn [fold_left List.map fst]. unfold other_keys at 3.
    cbn [filter]. fold (other_keys (List.map fst ms)).
    destruct (is_index k) eqn:Ek; cbn [negb].
    + rewrite (IH _ seen).
      * rewrite define_property_other_keys, Ek, orb_true_r. reflexivity.
      * intros k' Hk'. rewrite has_key_define_property, (Hseen k' Hk').
        destruct (text_eqb k' k) eqn:E; [ | reflexivity ].
        apply text_eqb_eq in E. congruence.
    + cbn [first_occurrences]. rewrite (Hseen k Ek).
      destruct (has_key k acc) eqn:Eh.
      * rewrite (IH _ seen).
        -- rewrite define_property_other_keys, Eh. reflexivity.
        -- intros k' Hk'. rewrite has_key_define_property, (Hseen k' Hk').
           destruct (text_eqb k' k) eqn:E; [ | reflexivity ].
           apply text_eqb_eq in E. subst k'. rewrite Eh. reflexivity.
      * rewrite (IH _ (k :: seen)).
        -- rewrite define_property_other_keys, Eh, Ek. cbn [orb].
           rewrite <- app_assoc. reflexivity.
        -- intros k' Hk'. rewrite has_key_define_property.
           cbn [existsb]. rewrite (Hseen k' Hk'). reflexivity.
Qed.

Lemma fold_define_keys (f : value -> value) (ms : object) :
  forall (acc : object) k,
    In k (List.map fst
            (fold_left (fun (o : object) (p : list N * value) =>
                          let (k, w) := p in define_property o k (f w))
               ms acc))
    <-> In k (List.map fst acc) \/ In k (List.map fst ms).
Proof.
  induction ms as [ | [k0 w] ms IH ]; intros acc k.
  - cbn. tauto.
  - cbn [fold_left List.map fst In]. rewrite IH, define_property_keys.
    intuition auto.
Qed.

(** The keys of the object that an object literal evaluates to are the
    keys of the literal, and those that are no array indices stand in the
    order in which the literal first has them. *)
Lemma evaluate_object_keys (ms o : object) :
  evaluate (JObject ms) = JObject o ->
  other_keys (List.map fst o)
  = first_occurrences [] (other_keys (List.map fst ms))
  /\ forall k, In k (List.map fst o) <-> In k (List.map fst ms).
Proof.
  cbn [evaluate]. intros H. injection H as <-. split.
  - rewrite (fold_define_other_keys evaluate ms [] []); [ reflexivity | ].
    intros k _. reflexivity.
  - intros k. rewrite fold_define_keys. cbn [List.map In]. tauto.
Qed.

(* ================================================================== *)
(** * Round trip *)

Lemma parse_stringify v space :
  well_formed v = true -> numbers_survive v = true ->
  JSON_parse (JSON_stringify v space) = Ok v.
Proof.
  intros Hwf Hsurv. unfold JSON_stringify.
  destruct (parse_value_serialized v Hwf Hsurv
              (List.repeat Ch.SP (Nat.min 10 space)) []
              (repeat_SP_ws _) (Forall_nil _) [] [] (Forall_nil _) eq_refl)
    as [n0 Hn0].
  specialize (Hn0 n0 (le_n _)). cbn [app] in Hn0. rewrite app_nil_r in Hn0.
  rewrite (JSON_parse_of_parse_value n0 _ v [] Hn0 eq_refl).
  rewrite (evaluate_well_formed v Hwf). reflexivity.
Qed.

Lemma parse_stringify_finite v space :
  well_formed v = true -> numbers_finite v = true ->
  JSON_parse (JSON_stringify v space) = Ok (positive_zero v).
Proof.
  intros Hwf Hfin. unfold JSON_stringify.
  rewrite <- serialize_positive_zero.
  apply (parse_stringify (positive_zero v) space
           (positive_zero_well_formed v Hwf) (positive_zero_survives v Hfin)).
Qed.

(** C1, as the code has it.  For every value [v] that the parser returns
    for some text and in which every number is finite, parsing [format v]
    and parsing [minify v] both return [v] with every negative zero
    replaced by zero, key order included; they return [v] itself when it
    has no negative zero. *)
Theorem round_trip (t : list N) (v : value) :
  JSON_parse t = Ok v -> numbers_finite v = true ->
  JSON_parse (format v) = Ok (positive_zero v)
  /\ JSON_parse (minify v) = Ok (positive_zero v)
  /\ (numbers_survive v = true ->
      JSON_parse (format v) = Ok v /\ JSON_parse (minify v) = Ok v).
Proof.
  intros Hparse Hfin. pose proof (JSON_parse_well_formed t v Hparse) as Hwf.
  split; [ apply parse_stringify_finite; assumption | ].
  split; [ apply parse_stringify_finite; assumption | ].
  intros Hsurv. split; apply parse_stringify; assumption.
Qed.

Lemma round_trip_witness :
  let t := lit "[-0, 1.5, {}]" in
  let v := JArray [JNumber (S754_zero true);
                   JNumber (decimal_to_number false 15 (-1)); JObject []] in
  JSON_parse t = Ok v
  /\ JSON_parse (format v)
     = Ok (JArray [JNumber (S754_zero false);
                   JNumber (decimal_to_number false 15 (-1)); JObject []]).
Proof.
  intros t v.
  assert (H : JSON_parse t = Ok v) by (vm_compute; reflexivity).
  assert (Hfin : numbers_finite v = true) by (vm_compute; reflexivity).
  split; [ exact H | ].
  exact (proj1 (round_trip t v H Hfin)).
Defined.

(** C1, as the claim has it, fails: the text [1e999] parses to
    [Infinity], which [JSON.stringify] writes as [null]. *)
Lemma round_trip_fails_on_overflow :
  JSON_parse (lit "1e999") = Ok (JNumber posInfinity)
  /\ JSON_parse (format (JNumber posInfinity)) = Ok JNull
  /\ JSON_parse (minify (JNumber posInfinity)) = Ok JNull
  /\ ~ (forall t v, JSON_parse t = Ok v ->
          JSON_parse (format v) = Ok v /\ JSON_parse (minify v) = Ok v).
Proof.
  assert (H1 : JSON_parse (lit "1e999") = Ok (JNumber posInfinity))
    by (vm_compute; reflexivity).
  assert (H2 : JSON_parse (format (JNumber posInfinity)) = Ok JNull)
    by (vm_compute; reflexivity).
  split; [ exact H1 | ]. split; [ exact H2 | ].
  split; [ vm_compute; reflexivity | ].
  intros H. destruct (H _ _ H1) as [H3 _]. rewrite H2 in H3. discriminate.
Qed.

(* ================================================================== *)
(** * [validateJSON] *)

Section Validation.

Variable error_message : list N -> list N.

(** What [validateJSON] writes, field by field. *)
Lemma validateJSON_fields (st : EditorState) :
  let t := trim (editor_value st) in
  let st' := validateJSON error_message st in
  editor_value st' = editor_value st
  /\ jsonToolContent st' = Some t
  /\ jsonSize st' = utf8_length t
  /\ jsonLines st' = (if isEmpty t then 0 else List.length (split Ch.LF t))
  /\ notification st' = notification st
  /\ outcome st'
     = (if isEmpty t then Empty
        else match JSON_parse t with
             | Ok v => Valid v
             | _ => Invalid (displayed_error (error_message t))
             end)
  /\ (isValidJSON st', jsonData st')
     = (if isEmpty t then (false, JNull)
        else match JSON_parse t with
             | Ok v => (true, v)
             | _ => (false, JNull)
             end)
  /\ (match JSON_parse t with
      | Ok v => isEmpty t = false ->
                jsonObjects st' = objects (analyzeJSON v)
                /\ jsonArrays st' = arrays (analyzeJSON v)
      | _ => True
      end).
Proof.
  cbv zeta. unfold validateJSON.
  destruct (isEmpty (trim (editor_value st))) eqn:Eempty.
  - repeat split; try reflexivity.
    + cbn [jsonLines updateStatistics]. rewrite Eempty. reflexivity.
    + destruct (JSON_parse (trim (editor_value st))); try exact I.
      intros Habs. discriminate Habs.
  - destruct (JSON_parse (trim (editor_value st))) as [ v | | ];
      repeat split; try reflexivity;
      cbn [jsonLines updateStatistics updateJSONStatistics];
      rewrite Eempty; reflexivity.
Qed.

Lemma validate_outcome (t : list N) :
  validate error_message t
  = if isEmpty (trim t) then Empty
    else match JSON_parse (trim t) with
         | Ok v => Valid v
         | _ => Invalid (displayed_error (error_message (trim t)))
         end.
Proof.
  unfold validate.
  destruct (validateJSON_fields (set_editor_value t initialState))
    as (_ & _ & _ & _ & _ & H & _).
  exact H.
Qed.

Lemma displayed_error_nonempty msg : displayed_error msg <> [].
Proof. unfold displayed_error. destruct (_ || _); discriminate. Qed.

Lemma split_length (s : list N) :
  List.length (split Ch.LF s) = S (count_occ N.eq_dec s Ch.LF).
Proof.
  induction s as [ | c r IH ]; [ reflexivity | ].
  cbn [split count_occ]. destruct (N.eqb_spec c Ch.LF) as [-> | Hne].
  - destruct (N.eq_dec Ch.LF Ch.LF); [ | congruence ].
    cbn [List.length]. rewrite IH. reflexivity.
  - destruct (N.eq_dec c Ch.LF); [ congruence | ].
    destruct (split Ch.LF r); [ discriminate | ].
    cbn [List.length] in *. exact IH.
Qed.

End Validation.

(** C7, as the claim has it, fails: for the text of a digit between two
    spaces the stored text and the byte count are those of the digit
    alone, in the run without exceptions and in the run on a host that
    raises none. *)
Lemma validateJSON_does_not_store_raw_text :
  let raw := lit " 1 " in
  let st' := validateJSON (fun _ => []) (set_editor_value raw initialState) in
  jsonToolContent st' = Some (lit "1")
  /\ jsonToolContent st' <> Some raw
  /\ jsonSize st' = 1%N
  /\ utf8_length raw = 3%N
  /\ Exn.validateJSON (no_limits (fun _ => []))
       (set_editor_value raw initialState)
     = Returns st'.
Proof. vm_compute. repeat split; discriminate. Qed.

(** C3, as the claim has it, fails: a vertical tab is not JSON
    whitespace, so the text of a vertical tab and a digit is not JSON, yet
    [trim] strips the tab and the outcome is Valid, in the run without
    exceptions and in the run on a host that raises none. *)
Lemma validate_accepts_trimmed_invalid :
  let raw := [Ch.VT; 49%N] in
  JSON_parse raw = SyntaxError
  /\ isEmpty (trim raw) = false
  /\ validate (fun _ => lit "Unexpected token") raw
     = Valid (JNumber (decimal_to_number false 1 0))
  /\ Exn.validate (no_limits (fun _ => lit "Unexpected token")) raw
     = Some (Valid (JNumber (decimal_to_number false 1 0))).
Proof. vm_compute. repeat split. Qed.

(* ================================================================== *)
(** * The sample document *)







(* ================================================================== *)
(** * Valid documents that the guard rejects *)

Lemma truthy_parsed v :
  well_formed v = true -> truthy v = negb (falsy_json v).
Proof.
  destruct v as [ | [ | ] | x | [ | c s ] | l | ps ]; try reflexivity.
  destruct x; try reflexivity. discriminate.
Qed.

(* ================================================================== *)
(** * The layout of [format] and [minify] *)

(** ** Against the reference forms *)

Lemma join_indent inner sep (parts : list (list N)) :
  parts <> [] ->
  inner ++ join (sep ++ inner) parts
  = join sep (List.map (fun m => inner ++ m) parts).
Proof.
  induction parts as [ | p ps IH ]; intros Hne; [ congruence | ].
  destruct ps as [ | q ps' ]; [ reflexivity | ].
  cbn [List.map]. rewrite !join_cons.
  specialize (IH ltac:(discriminate)). cbn [List.map] in IH.
  rewrite <- IH, <- !app_assoc. reflexivity.
Qed.

Lemma spec_indent_succ level :
  spec_indent level ++ List.repeat Ch.SP 2 = spec_indent (S level).
Proof.
  unfold spec_indent. rewrite <- repeat_app. f_equal. lia.
Qed.

Lemma wrap_pretty open close level partial :
  wrap open close (List.repeat Ch.SP 2) (spec_indent level)
    (spec_indent (S level)) partial
  = spec_block open close level partial.
Proof.
  destruct partial as [ | p ps ]; [ reflexivity | ].
  unfold wrap, spec_block. cbn [isEmpty List.repeat].
  change ([Ch.COMMA; Ch.LF] ++ spec_indent (S level))
    with ([Ch.COMMA; Ch.LF] ++ spec_indent (S level)).
  rewrite <- (join_indent (spec_indent (S level)) [Ch.COMMA; Ch.LF] (p :: ps))
    by discriminate.
  rewrite <- !app_assoc. reflexivity.
Qed.

Lemma scalar_serialized gap indent v :
  match v with JArray _ | JObject _ => False | _ => True end ->
  SerializeJSONProperty gap indent v = scalar_text v.
Proof. destruct v as [ | [ | ] | | | | ]; intros H; try reflexivity; destruct H. Qed.

Lemma serialize_pretty v :
  forall level,
    SerializeJSONProperty (List.repeat Ch.SP 2) (spec_indent level) v
    = spec_pretty level v.
Proof.
  induction v as [ | b | x | s | l IH | ps IH ] using value_induction;
    intros level; try (apply scalar_serialized; exact I).
  - cbn [SerializeJSONProperty spec_pretty].
    rewrite spec_indent_succ, <- wrap_pretty. f_equal.
    apply List.map_ext_in. rewrite Forall_forall in IH.
    intros w Hw. apply IH. exact Hw.
  - cbn [SerializeJSONProperty spec_pretty].
    rewrite spec_indent_succ, <- wrap_pretty. f_equal.
    apply List.map_ext_in. rewrite Forall_forall in IH.
    intros [k w] Hp. specialize (IH (k, w) Hp (S level)).
    cbn [fst snd isEmpty List.repeat] in IH |- *.
    rewrite IH. reflexivity.
Qed.

Lemma serialize_compact v :
  SerializeJSONProperty [] [] v = spec_compact v.
Proof.
  induction v as [ | b | x | s | l IH | ps IH ] using value_induction;
    try (apply scalar_serialized; exact I).
  - cbn [SerializeJSONProperty spec_compact app].
    rewrite (List.map_ext_in _ spec_compact)
      by (rewrite Forall_forall in IH; exact IH).
    unfold wrap. cbn [isEmpty]. destruct (List.map spec_compact l);
      reflexivity.
  - cbn [SerializeJSONProperty spec_compact app].
    rewrite (List.map_ext_in _
               (fun p : list N * value =>
                  QuoteJSONString (fst p) ++ [Ch.COLON]
                    ++ spec_compact (snd p))).
    + unfold wrap. cbn [isEmpty].
      destruct (List.map _ ps); reflexivity.
    + rewrite Forall_forall in IH. intros [k w] Hp.
      specialize (IH (k, w) Hp). cbn [fst snd isEmpty app] in IH |- *.
      rewrite IH. reflexivity.
Qed.

(** ** Insignificant whitespace *)

Lemma strip_tokens (p X : list N) :
  Forall (fun c => isToken c = true) p ->
  strip_layout Outside (p ++ X) = p ++ strip_layout Outside X.
Proof.
  induction 1 as [ | c r Hc _ IH ]; [ reflexivity | ].
  cbn [app strip_layout]. unfold isToken in Hc.
  apply andb_true_iff in Hc as [H1 H2]. apply negb_true_iff in H1, H2.
  rewrite H1, H2, IH. reflexivity.
Qed.

Lemma strip_ws (W X : list N) :
  all_ws W -> strip_layout Outside (W ++ X) = strip_layout Outside X.
Proof.
  induction 1 as [ | c r Hc _ IH ]; [ reflexivity | ].
  cbn [app strip_layout].
  assert (Hq : (c =? Ch.QUOTE)%N = false).
  { unfold isJSONWS in Hc. rewrite !orb_true_iff, !N.eqb_eq in Hc.
    apply N.eqb_neq. unfold Ch.QUOTE. lia. }
  rewrite Hq, Hc. exact IH.
Qed.

Lemma digit_token c : isDigit c = true -> isToken c = true.
Proof.
  intros H. apply isDigit_range in H. unfold isToken, isJSONWS, Ch.QUOTE.
  rewrite andb_true_iff, !negb_true_iff, !orb_false_iff, !N.eqb_neq. lia.
Qed.

Lemma digits_tokens ds :
  Forall (fun c => isDigit c = true) ds ->
  Forall (fun c => isToken c = true) ds.
Proof. apply Forall_impl. exact digit_token. Qed.

Lemma hex_char_plain d :
  (d < 16)%N ->
  (hex_char d =? Ch.QUOTE)%N = false
  /\ (hex_char d =? Ch.BACKSLASH)%N = false.
Proof.
  intros H. unfold hex_char, Ch.QUOTE, Ch.BACKSLASH.
  destruct (d <? 10)%N eqn:E; [ apply N.ltb_lt in E | apply N.ltb_ge in E ];
    split; apply N.eqb_neq; lia.
Qed.

Lemma strip_in_string_plain c X :
  (c =? Ch.QUOTE)%N = false -> (c =? Ch.BACKSLASH)%N = false ->
  strip_layout InString (c :: X) = c :: strip_layout InString X.
Proof.
  intros H1 H2. cbn [strip_layout]. rewrite H1, H2. reflexivity.
Qed.

Lemma strip_quote_unit c X :
  strip_layout InString (quote_unit c ++ X)
  = quote_unit c ++ strip_layout InString X.
Proof.
  unfold quote_unit.
  repeat match goal with
         | |- context [if (c =? ?k)%N then _ else _] =>
             destruct (N.eqb_spec c k) as [-> | ?]; [ reflexivity | ]
         end.
  destruct ((c <? 32)%N || isHighSurrogate c || isLowSurrogate c).
  - unfold unicodeEscape. cbn [app strip_layout].
    change (Ch.BACKSLASH =? Ch.BACKSLASH)%N with true. cbv iota.
    destruct (hex_char_plain ((c / 4096) mod 16) ltac:(apply N.mod_lt; lia))
      as [Ha1 Ha2].
    destruct (hex_char_plain ((c / 256) mod 16) ltac:(apply N.mod_lt; lia))
      as [Hb1 Hb2].
    destruct (hex_char_plain ((c / 16) mod 16) ltac:(apply N.mod_lt; lia))
      as [Hc1 Hc2].
    destruct (hex_char_plain (c mod 16) ltac:(apply N.mod_lt; lia))
      as [Hd1 Hd2].
    change (117 =? Ch.BACKSLASH)%N with false.
    change (117 =? Ch.QUOTE)%N with false.
    rewrite ?Ha1, ?Ha2, ?Hb1, ?Hb2, ?Hc1, ?Hc2, ?Hd1, ?Hd2. reflexivity.
  - cbn [app]. apply strip_in_string_plain; apply N.eqb_neq; assumption.
Qed.

Lemma strip_quote_units (s : list N) :
  (forall X, strip_layout InString (quote_units s ++ Ch.QUOTE :: X)
             = quote_units s ++ Ch.QUOTE :: strip_layout Outside X)
  /\ (forall c X,
        strip_layout InString (quote_units (c :: s) ++ Ch.QUOTE :: X)
        = quote_units (c :: s) ++ Ch.QUOTE :: strip_layout Outside X).
Proof.
  induction s as [ | d r [IHr IHdr] ].
  - assert (H0 : forall X, strip_layout InString (Ch.QUOTE :: X)
                           = Ch.QUOTE :: strip_layout Outside X)
      by reflexivity.
    split; [ exact H0 | ]. intros c X.
    rewrite quote_units_single, strip_quote_unit, H0. reflexivity.
  - split; [ apply IHdr | ]. intros c X.
    rewrite quote_units_pair.
    destruct (isHighSurrogate c && isLowSurrogate d) eqn:E.
    + apply andb_true_iff in E as [Eh El]. cbn [app].
      destruct (surrogate_plain c) as (H1 & H2 & _);
        [ rewrite Eh; reflexivity | ].
      destruct (surrogate_plain d) as (H4 & H5 & _);
        [ rewrite El; apply orb_true_r | ].
      rewrite (strip_in_string_plain c _ H1 H2).
      rewrite (strip_in_string_plain d _ H4 H5).
      rewrite IHr. reflexivity.
    + rewrite <- !app_assoc, strip_quote_unit. rewrite IHdr. reflexivity.
Qed.

Lemma strip_quoted (s X : list N) :
  strip_layout Outside (QuoteJSONString s ++ X)
  = QuoteJSONString s ++ strip_layout Outside X.
Proof.
  unfold QuoteJSONString. cbn [app strip_layout].
  rewrite N.eqb_refl. rewrite <- !app_assoc. cbn [app].
  rewrite (proj1 (strip_quote_units s)). reflexivity.
Qed.

(** The text of a number has no quote and no whitespace. *)
Local Open Scope Z_scope.

Lemma scaled_floor_nonneg j num den :
  0 <= num -> 0 < den -> 0 <= scaled_floor j num den.
Proof.
  intros Hn Hd. unfold scaled_floor. destruct (0 <=? j) eqn:E.
  - apply Z.div_pos; [ exact Hn | ].
    apply Z.mul_pos_pos; [ exact Hd | apply Z.pow_pos_nonneg; lia ].
  - apply Z.leb_gt in E. apply Z.div_pos; [ | exact Hd ].
    apply Z.mul_nonneg_nonneg; [ exact Hn | apply Z.pow_nonneg; lia ].
Qed.

Lemma candidate_nonneg x num den n0 k r :
  0 <= num -> 0 < den ->
  candidate x num den n0 k = Some r -> 0 <= fst r.
Proof.
  intros Hn Hd. unfold candidate.
  pose proof (scaled_floor_nonneg (n0 - k) num den Hn Hd) as Hlo.
  assert (Hhi : 0 <= fst (if scaled_floor (n0 - k) num den + 1 =? 10 ^ k
                          then (10 ^ (k - 1), n0 - k + 1)
                          else (scaled_floor (n0 - k) num den + 1, n0 - k))).
  { destruct (_ =? _); cbn [fst]; [ apply Z.pow_nonneg; lia | lia ]. }
  destruct (reads_back x _), (reads_back x _); try discriminate;
    [ destruct (midpoint_compare _ _ _ _); [ destruct (Z.even _) | | ] | | ];
    intros H; injection H as <-; assumption.
Qed.

Lemma shortest_from_nonneg fuel x m e n0 k :
  0 <= fst (shortest_from fuel x m e n0 k).
Proof.
  assert (Hn : 0 <= exact_num m e).
  { unfold exact_num. destruct (0 <=? e); [ | lia ].
    apply Z.mul_nonneg_nonneg; [ lia | apply Z.pow_nonneg; lia ]. }
  assert (Hd : 0 < exact_den e).
  { unfold exact_den. destruct (0 <=? e) eqn:E; [ lia | ].
    apply Z.leb_gt in E. apply Z.pow_pos_nonneg; lia. }
  revert k. induction fuel as [ | f IH ]; intros k; cbn [shortest_from].
  - unfold exact_expansion. destruct (0 <=? e); cbn [fst];
      (apply Z.mul_nonneg_nonneg; [ lia | apply Z.pow_nonneg; lia ]).
  - destruct (candidate _ _ _ n0 k) as [ r | ] eqn:E;
      [ apply (candidate_nonneg _ _ _ _ _ _ Hn Hd E) | apply IH ].
Qed.

Lemma shortest_digits_nonneg m e : 0 <= fst (shortest_digits m e).
Proof. apply shortest_from_nonneg. Qed.

Lemma tokens_app (a b : list N) :
  Forall (fun c => isToken c = true) a ->
  Forall (fun c => isToken c = true) b ->
  Forall (fun c => isToken c = true) (a ++ b).
Proof. intros Ha Hb. apply Forall_app. split; assumption. Qed.

Lemma tokens_repeat c n :
  isToken c = true -> Forall (fun c => isToken c = true) (List.repeat c n).
Proof.
  intros H. apply Forall_forall. intros d Hd. apply repeat_spec in Hd.
  subst d. exact H.
Qed.

Lemma layout_digits_tokens ds n :
  Forall (fun c => isDigit c = true) ds ->
  Forall (fun c => isToken c = true) (layout_digits ds n).
Proof.
  intros Hds. pose proof (digits_tokens ds Hds) as Ht.
  assert (Hexp : Forall (fun c => isToken c = true) (exponent_part n)).
  { unfold exponent_part. apply tokens_app; [ repeat constructor | ].
    apply tokens_app; [ destruct (0 <=? n - 1); repeat constructor | ].
    apply digits_tokens. apply Z_digits_spec. apply Z.abs_nonneg. }
  assert (Hparts : forall k,
            Forall (fun c => isToken c = true) (firstn k ds)
            /\ Forall (fun c => isToken c = true) (skipn k ds)).
  { intros k. apply Forall_app. rewrite firstn_skipn. exact Ht. }
  unfold layout_digits.
  destruct (_ && _); [ apply tokens_app; [ exact Ht | apply tokens_repeat; reflexivity ] | ].
  destruct (_ && _).
  { apply tokens_app; [ apply Hparts | ].
    apply tokens_app; [ repeat constructor | apply Hparts ]. }
  destruct (_ && _).
  { apply tokens_app; [ repeat constructor | ].
    apply tokens_app; [ apply tokens_repeat; reflexivity | exact Ht ]. }
  destruct ds as [ | d [ | d' r ] ]; [ constructor | | ].
  - apply tokens_app; [ exact Ht | exact Hexp ].
  - inversion Ht as [ | ? ? Hd Hr ]; subst.
    apply tokens_app; [ repeat constructor; exact Hd | ].
    apply tokens_app; [ exact Hr | exact Hexp ].
Qed.

Lemma scalar_number_tokens x :
  Forall (fun c => isToken c = true)
    (if isFiniteNumber x then Number_toString x else lit "null").
Proof.
  destruct x as [ neg | neg | | neg m e ]; cbn [isFiniteNumber Number_toString];
    try (repeat constructor).
  pose proof (shortest_digits_nonneg m e) as Hs.
  destruct (shortest_digits m e) as [s j]. cbn [fst] in Hs.
  apply tokens_app; [ destruct neg; repeat constructor | ].
  apply layout_digits_tokens. apply Z_digits_spec. exact Hs.
Qed.

Local Close Scope Z_scope.

(** ** Values *)

Lemma strip_token c X :
  isToken c = true ->
  strip_layout Outside (c :: X) = c :: strip_layout Outside X.
Proof.
  intros Hc. apply (strip_tokens [c] X). repeat constructor. exact Hc.
Qed.

Lemma strip_joined {A} (f g : A -> list N) W (items : list A) :
  all_ws W ->
  Forall (fun a => forall X, strip_layout Outside (f a ++ X)
                             = g a ++ strip_layout Outside X) items ->
  forall Y,
    strip_layout Outside (join (Ch.COMMA :: W) (List.map f items) ++ Y)
    = join [Ch.COMMA] (List.map g items) ++ strip_layout Outside Y.
Proof.
  intros HW. induction 1 as [ | a items Ha Hitems IH ]; intros Y;
    [ reflexivity | ].
  destruct items as [ | b items' ].
  - cbn [List.map join]. apply Ha.
  - cbn [List.map]. rewrite !join_cons, <- !app_assoc, Ha.
    cbn [app strip_layout]. change (Ch.COMMA =? Ch.QUOTE)%N with false.
    change (isJSONWS Ch.COMMA) with false. cbv iota.
    rewrite (strip_ws W _ HW). cbn [List.map] in IH. rewrite IH. reflexivity.
Qed.

Lemma strip_wrap {A} (f g : A -> list N) open close gap stepback inner
    (items : list A) :
  isToken open = true -> isToken close = true ->
  all_ws stepback -> all_ws inner ->
  Forall (fun a => forall X, strip_layout Outside (f a ++ X)
                             = g a ++ strip_layout Outside X) items ->
  forall X,
    strip_layout Outside
      (wrap open close gap stepback inner (List.map f items) ++ X)
    = wrap open close [] [] [] (List.map g items)
      ++ strip_layout Outside X.
Proof.
  intros Ho Hc Hstep Hinner Hitems X.
  destruct items as [ | a items' ].
  - cbn [List.map wrap].
    apply (strip_tokens [open; close] X). repeat constructor; assumption.
  - cbn [List.map]. rewrite !wrap_shape. cbv zeta. cbn [isEmpty app].
    rewrite (strip_token open _ Ho). f_equal. rewrite <- !app_assoc.
    rewrite (strip_ws _ _ (layout_ws gap inner Hinner)).
    pose proof (strip_joined f g _ (a :: items')
                  (layout_ws gap inner Hinner) Hitems) as Hj.
    cbn [List.map] in Hj. rewrite Hj. f_equal.
    rewrite (strip_ws _ _ (layout_ws gap stepback Hstep)).
    cbn [app]. apply (strip_token close _ Hc).
Qed.

Lemma strip_serialized v :
  forall gap indent X,
    all_ws gap -> all_ws indent ->
    strip_layout Outside (SerializeJSONProperty gap indent v ++ X)
    = SerializeJSONProperty [] [] v ++ strip_layout Outside X.
Proof.
  induction v as [ | b | x | s | l IH | ps IH ] using value_induction;
    intros gap indent X Hgap Hindent.
  - apply strip_tokens. repeat constructor.
  - destruct b; apply strip_tokens; repeat constructor.
  - apply strip_tokens. apply scalar_number_tokens.
  - apply strip_quoted.
  - cbn [SerializeJSONProperty app].
    apply strip_wrap; try reflexivity;
      [ exact Hindent | apply all_ws_app; assumption | ].
    revert IH. apply Forall_impl. intros w Hw Y.
    apply Hw; [ exact Hgap | apply all_ws_app; assumption ].
  - cbn [SerializeJSONProperty app].
    apply strip_wrap; try reflexivity;
      [ exact Hindent | apply all_ws_app; assumption | ].
    revert IH. apply Forall_impl. intros [k w] Hw Y. cbn [snd] in Hw.
    rewrite <- !app_assoc, strip_quoted. cbn [app isEmpty strip_layout].
    change (Ch.COLON =? Ch.QUOTE)%N with false.
    change (isJSONWS Ch.COLON) with false. cbv iota.
    rewrite <- app_assoc, (strip_ws _ _ (gap_space_ws gap)).
    rewrite (Hw gap (indent ++ gap) Y Hgap (all_ws_app _ _ Hindent Hgap)).
    reflexivity.
Qed.

(* ================================================================== *)
(** * [formatJSON] and [minifyJSON] on a valid document *)

Lemma format_layout (v : value) :
  format v = spec_pretty 0 v
  /\ minify v = spec_compact v
  /\ strip_layout Outside (format v) = minify v
  /\ strip_layout Outside (minify v) = minify v.
Proof.
  unfold format, minify, JSON_stringify.
  change (List.repeat Ch.SP (Nat.min 10 0)) with (@nil N).
  change (Nat.min 10 2) with 2.
  split; [ apply (serialize_pretty v 0) | ].
  split; [ apply serialize_compact | ].
  split.
  - rewrite <- (app_nil_r (SerializeJSONProperty (List.repeat Ch.SP 2) [] v)).
    rewrite (strip_serialized v _ [] [] (repeat_SP_ws 2) (Forall_nil _)).
    apply app_nil_r.
  - rewrite <- (app_nil_r (SerializeJSONProperty [] [] v)) at 1.
    rewrite (strip_serialized v [] [] [] (Forall_nil _) (Forall_nil _)).
    apply app_nil_r.
Qed.

(** C8, as the claim has it, fails: in the text of an object with the key
    [b] before the key [1], the array index [1] comes first in the parsed
    value, and so in what [minifyJSON] and [formatJSON] write. *)
Lemma format_reorders_index_keys :
  let one := JNumber (decimal_to_number false 1 0) in
  let two := JNumber (decimal_to_number false 2 0) in
  let t := lit "{" ++ QuoteJSONString (lit "b") ++ lit ":1,"
           ++ QuoteJSONString (lit "1") ++ lit ":2}" in
  let reordered := lit "{" ++ QuoteJSONString (lit "1") ++ lit ":2,"
                   ++ QuoteJSONString (lit "b") ++ lit ":1}" in
  let st := validateJSON (fun _ => []) (set_editor_value t initialState) in
  outcome st = Valid (JObject [(lit "1", two); (lit "b", one)])
  /\ editor_value (minifyJSON (fun _ => []) st) = reordered
  /\ editor_value (formatJSON (fun _ => []) st)
     = lit "{" ++ [Ch.LF] ++ lit "  " ++ QuoteJSONString (lit "1")
       ++ lit ": 2," ++ [Ch.LF] ++ lit "  " ++ QuoteJSONString (lit "b")
       ++ lit ": 1" ++ [Ch.LF] ++ lit "}"
  /\ Exn.validateJSON (no_limits (fun _ => []))
       (set_editor_value t initialState)
     = Returns st
  /\ editor_value (Exn.minifyJSON (no_limits (fun _ => [])) st) = reordered.
Proof. vm_compute. repeat split. Qed.

(* ================================================================== *)
(** * What [JSON.stringify] writes and [JSON.parse] reads back *)

Lemma serialize_written_value v :
  forall gap indent,
    SerializeJSONProperty gap indent (written_value v)
    = SerializeJSONProperty gap indent v.
Proof.
  induction v as [ | b | x | s | l IH | ps IH ] using value_induction;
    intros gap indent; try reflexivity.
  - destruct x; reflexivity.
  - cbn [written_value SerializeJSONProperty]. cbv zeta. f_equal.
    rewrite map_map. apply map_ext_Forall.
    revert IH. apply Forall_impl. intros w Hw. apply Hw.
  - cbn [written_value SerializeJSONProperty]. cbv zeta. f_equal.
    rewrite map_map. apply map_ext_Forall.
    revert IH. apply Forall_impl. intros [k w] Hw. cbn [fst snd] in *.
    rewrite Hw. reflexivity.
Qed.

Lemma written_value_well_formed v :
  well_formed v = true -> well_formed (written_value v) = true.
Proof.
  induction v as [ | b | x | s | l IH | ps IH ] using value_induction;
    try (intros H; exact H).
  - destruct x; intros H; try exact H; reflexivity.
  - cbn [written_value well_formed]. rewrite !forallb_forall.
    intros H w Hw. apply in_map_iff in Hw as (u & <- & Hu).
    rewrite Forall_forall in IH. apply (IH u Hu). apply (H u Hu).
  - cbn [written_value well_formed]. rewrite map_map. cbn [fst].
    intros H. apply andb_true_iff in H as [Hk Hv].
    apply andb_true_iff. split; [ exact Hk | ].
    rewrite forallb_forall in *. intros p Hp.
    apply in_map_iff in Hp as (q & <- & Hq). cbn [snd].
    rewrite Forall_forall in IH. apply (IH q Hq). apply (Hv q Hq).
Qed.

Lemma written_value_survives v : numbers_survive (written_value v) = true.
Proof.
  induction v as [ | b | x | s | l IH | ps IH ] using value_induction;
    try reflexivity.
  - destruct x; reflexivity.
  - cbn [written_value numbers_survive]. rewrite forallb_forall.
    intros w Hw. apply in_map_iff in Hw as (u & <- & Hu).
    rewrite Forall_forall in IH. apply (IH u Hu).
  - cbn [written_value numbers_survive]. rewrite forallb_forall.
    intros p Hp. apply in_map_iff in Hp as (q & <- & Hq). cbn [snd].
    rewrite Forall_forall in IH. apply (IH q Hq).
Qed.

Lemma written_value_counts v :
  count_objects (written_value v) = count_objects v
  /\ count_arrays (written_value v) = count_arrays v.
Proof.
  induction v as [ | b | x | s | l IH | ps IH ] using value_induction;
    try (split; reflexivity).
  - destruct x; split; reflexivity.
  - cbn [written_value count_objects count_arrays]. rewrite !map_map.
    rewrite Forall_forall in IH.
    split; [ | f_equal ]; f_equal; apply map_ext_in; intros w Hw;
      apply (IH w Hw).
  - cbn [written_value count_objects count_arrays]. rewrite !map_map.
    cbn [snd]. rewrite Forall_forall in IH.
    split; [ f_equal | ]; f_equal; apply map_ext_in; intros p Hp;
      apply (IH p Hp).
Qed.

Lemma written_value_truthy v :
  truthy (written_value v) = true -> truthy v = true.
Proof.
  destruct v as [ | b | x | s | l | ps ]; try (intros H; exact H).
  destruct x; cbn; congruence.
Qed.

Lemma parse_stringify_written v space :
  well_formed v = true ->
  JSON_parse (JSON_stringify v space) = Ok (written_value v).
Proof.
  intros Hwf. unfold JSON_stringify.
  rewrite <- serialize_written_value.
  apply (parse_stringify (written_value v) space
           (written_value_well_formed v Hwf) (written_value_survives v)).
Qed.

(** X1.  For every value [v] that [JSON.parse] returns, the text of
    [format v] and the text of [minify v] parse to [written_value v]: [v]
    with every infinity replaced by [null] and every negative zero by
    zero.  Writing that value again gives the same two texts. *)
Theorem stringify_then_parse (t : list N) (v : value) :
  JSON_parse t = Ok v ->
  JSON_parse (format v) = Ok (written_value v)
  /\ JSON_parse (minify v) = Ok (written_value v)
  /\ format (written_value v) = format v
  /\ minify (written_value v) = minify v.
Proof.
  intros H. pose proof (JSON_parse_well_formed t v H) as Hwf.
  split; [ apply parse_stringify_written; exact Hwf | ].
  split; [ apply parse_stringify_written; exact Hwf | ].
  split; apply serialize_written_value.
Qed.

Lemma stringify_then_parse_witness :
  let t := lit "[1e999, -0, 2]" in
  let v := JArray [JNumber posInfinity; JNumber (S754_zero true);
                   JNumber (decimal_to_number false 2 0)] in
  JSON_parse t = Ok v
  /\ JSON_parse (minify v)
     = Ok (JArray [JNull; JNumber (S754_zero false);
                   JNumber (decimal_to_number false 2 0)]).
Proof.
  intros t v.
  assert (H : JSON_parse t = Ok v) by (vm_compute; reflexivity).
  split; [ exact H | ].
  exact (proj1 (proj2 (stringify_then_parse t v H))).
Defined.

(* ================================================================== *)
(** * The text of [JSON.stringify] has no whitespace around it *)

Local Open Scope Z_scope.

Section NumberText.

Variable P : N -> Prop.
Hypothesis P_digit : forall c, isDigit c = true -> P c.
Hypothesis P_dot : P Ch.DOT.
Hypothesis P_minus : P Ch.MINUS.
Hypothesis P_plus : P Ch.PLUS.
Hypothesis P_letters : Forall P (lit "enul").

Lemma digits_chars ds :
  Forall (fun c => isDigit c = true) ds -> Forall P ds.
Proof. apply Forall_impl. exact P_digit. Qed.

Lemma layout_digits_chars ds n :
  Forall (fun c => isDigit c = true) ds -> Forall P (layout_digits ds n).
Proof.
  intros Hds. pose proof (digits_chars ds Hds) as Ht.
  assert (Hzero : P 48%N) by (apply P_digit; reflexivity).
  assert (He : P 101%N) by (inversion P_letters; assumption).
  assert (Hexp : Forall P (exponent_part n)).
  { unfold exponent_part. apply Forall_app. split; [ repeat constructor; exact He | ].
    apply Forall_app. split.
    - destruct (0 <=? n - 1); repeat constructor; assumption.
    - apply digits_chars. apply Z_digits_spec. apply Z.abs_nonneg. }
  assert (Hparts : forall k, Forall P (firstn k ds) /\ Forall P (skipn k ds)).
  { intros k. apply Forall_app. rewrite firstn_skipn. exact Ht. }
  assert (Hrep : forall k, Forall P (List.repeat 48%N k)).
  { intros k. apply Forall_forall. intros d Hd. apply repeat_spec in Hd.
    subst d. exact Hzero. }
  unfold layout_digits.
  destruct (_ && _); [ apply Forall_app; split; [ exact Ht | apply Hrep ] | ].
  destruct (_ && _).
  { apply Forall_app. split; [ apply Hparts | ].
    apply Forall_app. split; [ repeat constructor; exact P_dot | apply Hparts ]. }
  destruct (_ && _).
  { apply Forall_app. split; [ repeat constructor; assumption | ].
    apply Forall_app. split; [ apply Hrep | exact Ht ]. }
  destruct ds as [ | d [ | d' r ] ]; [ constructor | | ].
  - apply Forall_app. split; [ exact Ht | exact Hexp ].
  - inversion Ht as [ | ? ? Hd Hr ]; subst.
    apply Forall_app. split; [ repeat constructor; assumption | ].
    apply Forall_app. split; [ exact Hr | exact Hexp ].
Qed.

Lemma number_text_chars x :
  Forall P (if isFiniteNumber x then Number_toString x else lit "null").
Proof.
  assert (Hnull : Forall P (lit "null")).
  { inversion P_letters as [ | ? ? He H1 ]; subst.
    inversion H1 as [ | ? ? Hn H2 ]; subst.
    inversion H2 as [ | ? ? Hu H3 ]; subst.
    inversion H3 as [ | ? ? Hl _ ]; subst.
    repeat constructor; assumption. }
  destruct x as [ neg | neg | | neg m e ]; cbn [isFiniteNumber Number_toString];
    try exact Hnull.
  - repeat constructor. apply P_digit. reflexivity.
  - pose proof (shortest_digits_nonneg m e) as Hs.
    destruct (shortest_digits m e) as [s j]. cbn [fst] in Hs.
    apply Forall_app. split; [ destruct neg; repeat constructor; exact P_minus | ].
    apply layout_digits_chars. apply Z_digits_spec. exact Hs.
Qed.

End NumberText.

Local Close Scope Z_scope.

Lemma digit_not_ws c : isDigit c = true -> isWS c = false.
Proof.
  unfold isDigit, isWS. rewrite andb_true_iff, !N.leb_le. intros [H1 H2].
  repeat (apply orb_false_iff; split);
    try (apply N.eqb_neq; lia);
    apply andb_false_iff; rewrite !N.leb_gt; lia.
Qed.

Lemma number_text_no_ws x :
  Forall (fun c => isWS c = false)
    (if isFiniteNumber x then Number_toString x else lit "null").
Proof.
  apply number_text_chars; try reflexivity;
    [ exact digit_not_ws | repeat constructor ].
Qed.

Lemma no_ws_closed (s : list N) :
  Forall (fun c => isWS c = false) s -> closed s = true.
Proof.
  induction 1 as [ | c r Hc Hr IH ]; [ reflexivity | ].
  destruct r as [ | d r' ]; [ cbn [closed]; rewrite Hc; reflexivity | ].
  rewrite closed_cons. exact IH.
Qed.

Lemma wrap_last open close gap stepback inner partial :
  exists init, wrap open close gap stepback inner partial = init ++ [close].
Proof.
  unfold wrap. destruct partial as [ | p ps ].
  - exists [open]. reflexivity.
  - destruct (isEmpty gap).
    + eexists. rewrite app_assoc. reflexivity.
    + eexists. rewrite !app_assoc. reflexivity.
Qed.

Lemma layout_digits_nonempty ds n : ds <> [] -> layout_digits ds n <> [].
Proof.
  intros Hds. unfold layout_digits.
  destruct ds as [ | d r ]; [ congruence | ].
  destruct (_ && _); [ discriminate | ].
  destruct (_ && _).
  { destruct (firstn _ _); discriminate. }
  destruct (_ && _); [ discriminate | ].
  destruct r; discriminate.
Qed.

Lemma number_text_nonempty x :
  (if isFiniteNumber x then Number_toString x else lit "null") <> [].
Proof.
  destruct x as [ neg | neg | | neg m e ]; cbn [isFiniteNumber Number_toString];
    try discriminate.
  pose proof (shortest_digits_nonneg m e) as Hs.
  destruct (shortest_digits m e) as [s j]. cbn [fst] in Hs.
  destruct (Z_digits_spec s Hs) as (_ & Hne & _).
  pose proof (layout_digits_nonempty (Z_digits s)
                (Z.of_nat (List.length (Z_digits s)) + j) Hne) as Hl.
  destruct neg; [ discriminate | ]. exact Hl.
Qed.

(** The text of a value starts and ends with a code unit that is not
    whitespace. *)
Lemma serialize_shape v gap indent :
  closed (SerializeJSONProperty gap indent v) = true
  /\ starts_plain (SerializeJSONProperty gap indent v) = true.
Proof.
  destruct v as [ | [ | ] | x | s | l | ps ]; cbn [SerializeJSONProperty];
    try (split; reflexivity).
  - pose proof (number_text_no_ws x) as Hplain.
    pose proof (number_text_nonempty x) as Hne.
    split; [ apply no_ws_closed; exact Hplain | ].
    destruct (if isFiniteNumber x then Number_toString x else lit "null")
      as [ | c r ]; [ congruence | ].
    inversion Hplain as [ | ? ? Hc _ ]; subst.
    cbn [starts_plain]. rewrite Hc. reflexivity.
  - unfold QuoteJSONString. split; [ | reflexivity ].
    rewrite app_assoc. apply closed_snoc.
  - match goal with
    | |- context [wrap ?o ?c ?g ?sb ?i ?p] =>
        destruct (wrap_last o c g sb i p) as [init Hlast];
        destruct (wrap_head o c g sb i p) as [tail Hhead]
    end.
    split; [ rewrite Hlast; apply closed_snoc | rewrite Hhead; reflexivity ].
  - match goal with
    | |- context [wrap ?o ?c ?g ?sb ?i ?p] =>
        destruct (wrap_last o c g sb i p) as [init Hlast];
        destruct (wrap_head o c g sb i p) as [tail Hhead]
    end.
    split; [ rewrite Hlast; apply closed_snoc | rewrite Hhead; reflexivity ].
Qed.

Lemma stringify_trimmed v space :
  trim (JSON_stringify v space) = JSON_stringify v space
  /\ isEmpty (JSON_stringify v space) = false.
Proof.
  unfold JSON_stringify.
  destruct (serialize_shape v (List.repeat Ch.SP (Nat.min 10 space)) [])
    as [Hc Hs].
  split; [ apply trim_fixed; [ exact Hc | left; exact Hs ] | ].
  destruct (SerializeJSONProperty _ _ v); [ discriminate Hs | reflexivity ].
Qed.

(* ================================================================== *)
(** * The page after [validateJSON] *)

Section AfterValidation.

Variable error_message : list N -> list N.

(** X3.  [validateJSON] sets the two counters only for a Valid outcome,
    to the counts of the parsed value; for Empty and Invalid it leaves
    them as they were, so the page goes on showing the counts of an
    earlier document. *)
Theorem validateJSON_counters (st : EditorState) :
  let st' := validateJSON error_message st in
  match outcome st' with
  | Valid v =>
      jsonObjects st' = count_objects v /\ jsonArrays st' = count_arrays v
  | _ =>
      jsonObjects st' = jsonObjects st /\ jsonArrays st' = jsonArrays st
  end.
Proof.
  cbv zeta. unfold validateJSON.
  destruct (isEmpty (trim (editor_value st)));
    [ split; reflexivity | ].
  destruct (JSON_parse (trim (editor_value st))) as [ v | | ];
    try (split; reflexivity).
  unfold outcome, updateJSONStatistics, analyzeJSON.
  rewrite traverse_counts. split; reflexivity.
Qed.



Lemma validateJSON_well_formed (st : EditorState) :
  well_formed (jsonData (validateJSON error_message st)) = true.
Proof.
  unfold validateJSON.
  destruct (isEmpty (trim (editor_value st))); [ reflexivity | ].
  destruct (JSON_parse (trim (editor_value st))) as [ v | | ] eqn:E;
    try reflexivity.
  apply (JSON_parse_well_formed _ _ E).
Qed.

End AfterValidation.

(* ================================================================== *)
(** * The label of an error message *)

Lemma toLower_SP c : toLower c = Ch.SP -> c = Ch.SP.
Proof.
  unfold toLower, Ch.SP.
  destruct ((65 <=? c) && (c <=? 90))%N eqn:E; [ | auto ].
  apply andb_true_iff in E as [E1 E2]. apply N.leb_le in E1, E2. lia.
Qed.

Lemma starts_with_ci_spec w s r :
  starts_with_ci w s = Some r
  <-> exists w', s = w' ++ r /\ List.map toLower w' = w.
Proof.
  revert s. induction w as [ | a w IH ]; intros s; cbn [starts_with_ci].
  - split.
    + intros H. injection H as <-. exists []. split; reflexivity.
    + intros (w' & -> & Hw). destruct w'; [ reflexivity | discriminate ].
  - destruct s as [ | c s' ].
    + split; [ discriminate | ].
      intros (w' & Hs & Hw). destruct w'; discriminate.
    + destruct (N.eqb_spec a (toLower c)) as [-> | Hne].
      * rewrite IH. split.
        -- intros (w' & -> & <-). exists (c :: w'). split; reflexivity.
        -- intros (w' & Hs & Hw). destruct w' as [ | c' w' ]; [ discriminate | ].
           cbn [app List.map] in *. injection Hs as <- ->.
           injection Hw as Hw. exists w'. split; [ reflexivity | exact Hw ].
      * split; [ discriminate | ].
        intros (w' & Hs & Hw). destruct w' as [ | c' w' ]; [ discriminate | ].
        cbn [app List.map] in *. injection Hs as <- ->.
        injection Hw as Ha _. congruence.
Qed.

Lemma head_word_digit w s :
  (exists d rest, starts_with_ci (w ++ [Ch.SP]) s = Some (d :: rest)
                  /\ isDigit d = true)
  <-> exists w' d post,
        s = w' ++ [Ch.SP; d] ++ post
        /\ List.map toLower w' = w /\ isDigit d = true.
Proof.
  split.
  - intros (d & rest & H & Hd).
    apply starts_with_ci_spec in H as (x & -> & Hx).
    destruct (exists_last (l := x)) as (w' & sp & ->).
    { intros ->. destruct w; discriminate Hx. }
    rewrite map_app in Hx. apply app_inj_tail in Hx as [Hw Hsp].
    apply toLower_SP in Hsp. subst sp.
    exists w', d, rest. rewrite <- app_assoc. repeat split; assumption.
  - intros (w' & d & post & -> & Hw & Hd).
    exists d, post. split; [ | exact Hd ].
    apply starts_with_ci_spec. exists (w' ++ [Ch.SP]).
    rewrite <- app_assoc, map_app, Hw. split; reflexivity.
Qed.

Lemma matches_word_digits_spec w s :
  matches_word_digits w s = true <-> mentions w s.
Proof.
  unfold mentions. induction s as [ | c r IH ].
  - split; [ discriminate | ].
    intros (pre & w' & d & post & H & _).
    destruct pre, w'; discriminate H.
  - cbn [matches_word_digits]. split.
    + intros H.
      assert (Hcases :
                (exists d rest,
                    starts_with_ci (w ++ [Ch.SP]) (c :: r) = Some (d :: rest)
                    /\ isDigit d = true)
                \/ matches_word_digits w r = true).
      { destruct (starts_with_ci (w ++ [Ch.SP]) (c :: r)) as [ [ | d rest ] | ];
          [ right; exact H | | right; exact H ].
        apply orb_true_iff in H as [H | H]; [ left | right; exact H ].
        exists d, rest. split; [ reflexivity | exact H ]. }
      destruct Hcases as [Hhead | Hrec].
      * apply head_word_digit in Hhead as (w' & d & post & Hs & Hw & Hd).
        exists [], w', d, post. repeat split; assumption.
      * apply IH in Hrec as (pre & w' & d & post & -> & Hw & Hd).
        exists (c :: pre), w', d, post. repeat split; assumption.
    + intros (pre & w' & d & post & Hs & Hw & Hd).
      destruct pre as [ | c' pre ].
      * assert (Hhead : exists d rest,
                   starts_with_ci (w ++ [Ch.SP]) (c :: r) = Some (d :: rest)
                   /\ isDigit d = true).
        { apply head_word_digit. exists w', d, post.
          repeat split; assumption. }
        destruct Hhead as (d' & rest & -> & Hd'). rewrite Hd'. reflexivity.
      * cbn [app] in Hs. injection Hs as <- Hr.
        assert (Hrec : matches_word_digits w r = true).
        { apply IH. exists pre, w', d, post. repeat split; assumption. }
        rewrite Hrec.
        destruct (starts_with_ci _ _) as [ [ | ? ? ] | ];
          [ reflexivity | apply orb_true_r | reflexivity ].
Qed.

(** X5.  The message shown for a text that is not JSON is the message of
    the host behind one of two labels: [Syntax Error] when the message
    mentions a line or a position with a number, in any case of the
    letters, and [Invalid JSON] otherwise. *)
Theorem error_label (error_message : list N -> list N) (t m : list N) :
  validate error_message t = Invalid m ->
  let host := error_message (trim t) in
  (m = CROSS_MARK :: lit " Syntax Error: " ++ host
   /\ (mentions (lit "line") host \/ mentions (lit "position") host))
  \/ (m = CROSS_MARK :: lit " Invalid JSON: " ++ host
      /\ ~ mentions (lit "line") host /\ ~ mentions (lit "position") host).
Proof.
  rewrite validate_outcome. intros H host.
  assert (Hm : m = displayed_error host).
  { destruct (isEmpty (trim t)); [ discriminate H | ].
    destruct (JSON_parse (trim t)); [ discriminate H | | ];
      injection H as <-; reflexivity. }
  subst m. unfold displayed_error.
  destruct (matches_word_digits (lit "line") host) eqn:El.
  { left. split; [ reflexivity | ].
    left. apply matches_word_digits_spec. exact El. }
  destruct (matches_word_digits (lit "position") host) eqn:Ep.
  { left. split; [ reflexivity | ].
    right. apply matches_word_digits_spec. exact Ep. }
  right. split; [ reflexivity | ].
  split; intros Habs; apply matches_word_digits_spec in Habs; congruence.
Qed.

Lemma error_label_witness :
  let h := fun _ : list N => lit "Unexpected token ] at Position 3" in
  validate h (lit "[1,]")
  = Invalid (CROSS_MARK :: lit " Syntax Error: "
               ++ lit "Unexpected token ] at Position 3")
  /\ (mentions (lit "line") (lit "Unexpected token ] at Position 3")
      \/ mentions (lit "position") (lit "Unexpected token ] at Position 3")).
Proof.
  intros h.
  assert (H : validate h (lit "[1,]")
              = Invalid (CROSS_MARK :: lit " Syntax Error: "
                           ++ lit "Unexpected token ] at Position 3"))
    by (vm_compute; reflexivity).
  split; [ exact H | ].
  destruct (error_label h _ _ H) as [[_ Hyes] | [Habs _]];
    [ exact Hyes | vm_compute in Habs; discriminate Habs ].
Defined.

(* ================================================================== *)
(** * [formatJSON] and [minifyJSON] on a valid document *)

Section Serialized.

Variable error_message : list N -> list N.

(** The page after the text of a value is put into the editor and
    validated. *)
Lemma validateJSON_stringified (v : value) (space : nat) (st : EditorState) :
  well_formed v = true ->
  validateJSON error_message (set_editor_value (JSON_stringify v space) st)
  = updateJSONStatistics (written_value v)
      {|
        isValidJSON := true;
        jsonData := written_value v;
        editor_value := JSON_stringify v space;
        editor_className := lit "json-editor success";
        errorDisplay := errorDisplay st;
        errorDisplay_show := false;
        successDisplay := CHECK_MARK :: lit " Valid JSON";
        successDisplay_show := true;
        jsonStatus := lit "Valid";
        jsonSize := utf8_length (JSON_stringify v space);
        jsonLines := List.length (split Ch.LF (JSON_stringify v space));
        jsonObjects := jsonObjects st;
        jsonArrays := jsonArrays st;
        jsonToolContent := Some (JSON_stringify v space);
        notification := notification st
      |}.
Proof.
  intros Hwf. destruct (stringify_trimmed v space) as [Htrim Hne].
  unfold validateJSON. cbn [set_editor_value editor_value].
  rewrite Htrim, Hne, (parse_stringify_written v space Hwf).
  unfold updateStatistics. rewrite Hne. reflexivity.
Qed.

Lemma written_value_idempotent v :
  written_value (written_value v) = written_value v.
Proof.
  induction v as [ | b | x | s | l IH | ps IH ] using value_induction;
    try reflexivity.
  - destruct x; reflexivity.
  - cbn [written_value]. f_equal. rewrite map_map. apply map_ext_Forall.
    exact IH.
  - cbn [written_value]. f_equal. rewrite map_map. apply map_ext_Forall.
    revert IH. apply Forall_impl. intros [k w] Hw. cbn [fst snd] in *.
    rewrite Hw. reflexivity.
Qed.

Lemma formatJSON_unfold (st : EditorState) :
  isValidJSON st = true -> truthy (jsonData st) = true ->
  formatJSON error_message st
  = showNotification (lit "JSON formatted successfully!") (lit "success")
      (validateJSON error_message
         (set_editor_value (format (jsonData st)) st))
  /\ minifyJSON error_message st
     = showNotification (lit "JSON minified successfully!") (lit "success")
         (validateJSON error_message
            (set_editor_value (minify (jsonData st)) st)).
Proof.
  intros Hvalid Htruthy. unfold formatJSON, minifyJSON.
  rewrite Hvalid, Htruthy. split; reflexivity.
Qed.

(** The page after a serialization depends on the page before only
    through the hidden text of the error banner. *)
Lemma serialized_page (v : value) (space : nat) (m : list N)
    (st1 st2 : EditorState) :
  well_formed v = true -> errorDisplay st1 = errorDisplay st2 ->
  showNotification m (lit "success")
    (validateJSON error_message
       (set_editor_value (JSON_stringify (written_value v) space) st1))
  = showNotification m (lit "success")
      (validateJSON error_message
         (set_editor_value (JSON_stringify v space) st2)).
Proof.
  intros Hwf Herr.
  rewrite (validateJSON_stringified _ space st1
             (written_value_well_formed v Hwf)).
  rewrite (validateJSON_stringified v space st2 Hwf).
  rewrite written_value_idempotent.
  unfold JSON_stringify. rewrite serialize_written_value.
  unfold showNotification, updateJSONStatistics.
  cbn. rewrite Herr. reflexivity.
Qed.

(** On a host that raises no exception: on a valid document whose
    written value is truthy, a second [formatJSON] or [minifyJSON] finds
    nothing to change, and each of the two undoes the layout of the
    other. *)
Lemma format_minify_compose_unlimited (st : EditorState) :
  isValidJSON st = true -> well_formed (jsonData st) = true ->
  truthy (written_value (jsonData st)) = true ->
  formatJSON error_message (formatJSON error_message st)
  = formatJSON error_message st
  /\ minifyJSON error_message (minifyJSON error_message st)
     = minifyJSON error_message st
  /\ minifyJSON error_message (formatJSON error_message st)
     = minifyJSON error_message st
  /\ formatJSON error_message (minifyJSON error_message st)
     = formatJSON error_message st.
Proof.
  intros Hvalid Hwf Htruthy'.
  pose proof (written_value_truthy _ Htruthy') as Htruthy.
  destruct (formatJSON_unfold st Hvalid Htruthy) as [Hf Hm].
  assert (Hafter : forall space m,
            let st1 := showNotification m (lit "success")
                         (validateJSON error_message
                            (set_editor_value
                               (JSON_stringify (jsonData st) space) st)) in
            isValidJSON st1 = true
            /\ jsonData st1 = written_value (jsonData st)
            /\ errorDisplay st1 = errorDisplay st).
  { intros space m. cbv zeta.
    rewrite (validateJSON_stringified _ space st Hwf).
    repeat split. }
  assert (Hnext : forall space m,
            let st1 := showNotification m (lit "success")
                         (validateJSON error_message
                            (set_editor_value
                               (JSON_stringify (jsonData st) space) st)) in
            formatJSON error_message st1 = formatJSON error_message st
            /\ minifyJSON error_message st1 = minifyJSON error_message st).
  { intros space m st1.
    destruct (Hafter space m) as (Hv1 & Hd1 & He1). fold st1 in Hv1, Hd1, He1.
    destruct (formatJSON_unfold st1 Hv1) as [Hf1 Hm1];
      [ rewrite Hd1; exact Htruthy' | ].
    rewrite Hf1, Hm1, Hf, Hm, Hd1. unfold format, minify.
    split; apply serialized_page; assumption. }
  destruct (Hnext 2%nat (lit "JSON formatted successfully!")) as [H1 H2].
  destruct (Hnext 0%nat (lit "JSON minified successfully!")) as [H3 H4].
  unfold format, minify in Hf, Hm.
  rewrite <- Hf in H1, H2. rewrite <- Hm in H3, H4.
  split; [ exact H1 | ]. split; [ exact H4 | ].
  split; [ exact H2 | exact H3 ].
Qed.


End Serialized.


(* ================================================================== *)
(** * [compressJSON]: one line *)

Lemma compact_form_spaces (s : list N) :
  forall b, compact_form b s = true ->
            forall c, In c s -> isWS c = true -> c = Ch.SP.
Proof.
  induction s as [ | d r IH ]; intros b H c Hin Hc; [ destruct Hin | ].
  cbn [compact_form] in H. destruct (isWS d) eqn:Ed.
  - apply andb_true_iff in H as [H Hr]. apply andb_true_iff in H as [H _].
    apply andb_true_iff in H as [Hsp _]. apply N.eqb_eq in Hsp.
    destruct Hin as [<- | Hin]; [ exact Hsp | apply (IH _ Hr c Hin Hc) ].
  - destruct Hin as [<- | Hin]; [ congruence | apply (IH _ H c Hin Hc) ].
Qed.

Lemma collapse_length (s : list N) b :
  List.length (spec_collapse b s) <= List.length s.
Proof.
  revert b. induction s as [ | c r IH ]; intros b; [ apply le_n | ].
  cbn [spec_collapse]. destruct (isWS c); [ destruct b | ];
    cbn [List.length]; try apply le_n_S; try apply le_S; apply IH.
Qed.

Lemma remove_adjacent_length (s : list N) p :
  List.length (spec_remove_adjacent p s) <= List.length s.
Proof.
  revert p. induction s as [ | c r IH ]; intros p; [ apply le_n | ].
  cbn [spec_remove_adjacent]. destruct (_ && _);
    cbn [List.length]; [ apply le_S | apply le_n_S ]; apply IH.
Qed.

Lemma trim_length (s : list N) : List.length (trim s) <= List.length s.
Proof.
  unfold trim, trimEnd, trimStart. rewrite length_rev.
  etransitivity; [ apply dropWhile_length | ]. rewrite length_rev.
  apply dropWhile_length.
Qed.

Lemma compress_compact (s : list N) :
  isEmpty (trim s) = false ->
  compress s = spec_compress (trim s)
  /\ compact_form true (compress s) = true
  /\ isEmpty (compress s) = false
  /\ trim (compress s) = compress s.
Proof.
  intros Hne. unfold compress. rewrite Hne.
  destruct (trim_shape s) as [Hc Hs].
  assert (Hplain : starts_plain (trim s) = true).
  { destruct Hs as [Hs | Hs]; [ exact Hs | ].
    rewrite Hs in Hne. discriminate. }
  rewrite (compressed_trimmed _ Hc Hs).
  pose proof (spec_compress_compact (trim s) Hc Hs) as Hcf.
  split; [ reflexivity | ]. split; [ exact Hcf | ].
  split; [ apply spec_compress_nonempty; exact Hplain | ].
  apply trim_fixed;
    [ apply (compact_form_closed _ _ Hcf) | apply (compact_form_starts _ Hcf) ].
Qed.

(* ================================================================== *)
(** * [compressJSON] on the text of [formatJSON] *)

Lemma structural_plain c : isStructural c = true -> isWS c = false.
Proof.
  intros H. destruct (isWS c) eqn:E; [ | reflexivity ].
  apply ws_not_structural in E. congruence.
Qed.

Lemma scan_plain p b c r :
  isWS c = false ->
  spec_remove_adjacent p (spec_collapse b (c :: r))
  = c :: spec_remove_adjacent (Some c) (spec_collapse false r).
Proof.
  intros Hc. cbn [spec_collapse]. rewrite Hc.
  cbn [spec_remove_adjacent]. rewrite Hc. reflexivity.
Qed.

Lemma collapse_run W Y :
  blank W -> spec_collapse true (W ++ Y) = spec_collapse true Y.
Proof.
  induction 1 as [ | w W' Hw _ IH ]; [ reflexivity | ].
  cbn [app spec_collapse]. rewrite Hw. exact IH.
Qed.

Lemma scan_run p b W c r :
  blank W -> isWS c = false ->
  structural_opt p = true \/ isStructural c = true ->
  spec_remove_adjacent p (spec_collapse b (W ++ c :: r))
  = c :: spec_remove_adjacent (Some c) (spec_collapse false r).
Proof.
  intros HW Hc Hadj.
  destruct HW as [ | w W' Hw HW' ]; [ apply scan_plain; exact Hc | ].
  cbn [app spec_collapse]. rewrite Hw.
  rewrite (collapse_run W' (c :: r) HW').
  destruct b.
  - apply (scan_plain p true c r Hc).
  - cbn [spec_collapse]. rewrite Hc.
    cbn [spec_remove_adjacent List.hd_error structural_opt].
    rewrite SP_is_ws, Hc. cbn [andb].
    destruct Hadj as [-> | ->]; [ reflexivity | rewrite orb_true_r; reflexivity ].
Qed.

Lemma plain_scan (T : list N) :
  Forall (fun c => isWS c = false) T ->
  forall c p b X,
    isWS c = false ->
    exists p',
      spec_remove_adjacent p (spec_collapse b (c :: T ++ X))
      = c :: T ++ spec_remove_adjacent p' (spec_collapse false X).
Proof.
  induction 1 as [ | d r Hd _ IH ]; intros c p b X Hc.
  - exists (Some c). apply scan_plain. exact Hc.
  - rewrite (scan_plain p b c _ Hc). cbn [app].
    destruct (IH d (Some c) false X Hd) as [p' ->]. exists p'. reflexivity.
Qed.

Lemma plain_compresses (T : list N) :
  Forall (fun c => isWS c = false) T -> T <> [] -> compresses_to T T.
Proof.
  intros HT Hne. destruct T as [ | c r ]; [ congruence | ].
  inversion HT as [ | ? ? Hc Hr ]; subst. split.
  - cbn [starts_plain]. rewrite Hc. reflexivity.
  - intros p b X. cbn [app]. apply plain_scan; assumption.
Qed.

Lemma compresses_app T U T' U' :
  compresses_to T U -> compresses_to T' U' ->
  compresses_to (T ++ T') (U ++ U').
Proof.
  intros [Hs H] [Hs' H']. split.
  - destruct T; [ discriminate Hs | exact Hs ].
  - intros p b X. rewrite <- !app_assoc.
    destruct (H p b (T' ++ X)) as [p1 ->].
    destruct (H' p1 false X) as [p2 ->]. exists p2.
    rewrite <- app_assoc. reflexivity.
Qed.

(** Whitespace behind a structural character goes. *)
Lemma after_structural c W T U :
  isStructural c = true -> blank W -> compresses_to T U ->
  compresses_to ([c] ++ W ++ T) ([c] ++ U).
Proof.
  intros Hc HW [Hs H]. pose proof (structural_plain c Hc) as Hp. split.
  - cbn [app starts_plain]. rewrite Hp. reflexivity.
  - intros p b X. cbn [app]. rewrite (scan_plain p b c _ Hp).
    rewrite <- app_assoc.
    destruct T as [ | t0 tr ]; [ discriminate Hs | ].
    cbn [starts_plain] in Hs. apply negb_true_iff in Hs. cbn [app].
    rewrite (scan_run (Some c) false W t0 (tr ++ X) HW Hs (or_introl Hc)).
    rewrite <- (scan_plain None false t0 (tr ++ X) Hs).
    destruct (H None false X) as [p' Hp']. cbn [app] in Hp'. rewrite Hp'.
    exists p'. reflexivity.
Qed.

(** Whitespace in front of a structural character goes. *)
Lemma before_structural T U W c :
  compresses_to T U -> blank W -> isStructural c = true ->
  compresses_to (T ++ W ++ [c]) (U ++ [c]).
Proof.
  intros [Hs H] HW Hc. split.
  - destruct T; [ discriminate Hs | exact Hs ].
  - intros p b X. rewrite <- !app_assoc.
    destruct (H p b (W ++ [c] ++ X)) as [p1 ->]. cbn [app].
    rewrite (scan_run p1 false W c X HW (structural_plain c Hc)
               (or_intror Hc)).
    exists (Some c). rewrite <- app_assoc. reflexivity.
Qed.

Lemma joined_compresses {A} (f g : A -> list N) W (items : list A) :
  blank W -> items <> [] ->
  Forall (fun a => compresses_to (f a) (g a)) items ->
  compresses_to (join (Ch.COMMA :: W) (List.map f items))
    (join [Ch.COMMA] (List.map g items)).
Proof.
  intros HW Hne H. induction H as [ | a items Ha Hitems IH ];
    [ congruence | ].
  destruct items as [ | b items' ]; [ exact Ha | ].
  cbn [List.map]. rewrite !join_cons. apply compresses_app; [ exact Ha | ].
  change (Ch.COMMA :: W) with ([Ch.COMMA] ++ W). rewrite <- app_assoc.
  apply after_structural; [ reflexivity | exact HW | ].
  apply IH. discriminate.
Qed.

Lemma layout_blank gap X :
  blank X -> blank (if isEmpty gap then [] else Ch.LF :: X).
Proof.
  intros HX. destruct (isEmpty gap); [ constructor | ].
  constructor; [ reflexivity | exact HX ].
Qed.

Lemma wrap_compresses {A} (f g : A -> list N) open close gap stepback inner
    (items : list A) :
  isStructural open = true -> isStructural close = true ->
  blank stepback -> blank inner ->
  Forall (fun a => compresses_to (f a) (g a)) items ->
  compresses_to (wrap open close gap stepback inner (List.map f items))
    (wrap open close [] [] [] (List.map g items)).
Proof.
  intros Ho Hc Hstep Hinner Hitems.
  destruct items as [ | a items' ].
  - cbn [List.map wrap]. apply plain_compresses; [ | discriminate ].
    repeat constructor; apply structural_plain; assumption.
  - cbn [List.map]. rewrite !wrap_shape. cbv zeta. cbn [isEmpty app].
    pose proof (joined_compresses f g _ (a :: items')
                  (layout_blank gap inner Hinner) ltac:(discriminate)
                  Hitems) as Hj.
    cbn [List.map] in Hj.
    pose proof (before_structural _ _ _ close Hj
                  (layout_blank gap stepback Hstep) Hc) as Hb.
    pose proof (after_structural open _ _ _ Ho
                  (layout_blank gap inner Hinner) Hb) as Ha.
    cbn [app] in Ha. cbn [app]. exact Ha.
Qed.

Lemma hex_char_not_ws d : (d < 16)%N -> isWS (hex_char d) = false.
Proof.
  intros H. unfold hex_char.
  destruct (d <? 10)%N eqn:E; [ apply N.ltb_lt in E | apply N.ltb_ge in E ];
    (destruct (isWS _) eqn:Ew; [ | reflexivity ]);
    apply blank_range in Ew; lia.
Qed.

Lemma quote_unit_plain c :
  isWS c = false -> Forall (fun c => isWS c = false) (quote_unit c).
Proof.
  intros Hc. unfold quote_unit.
  repeat match goal with
         | |- context [if (c =? ?k)%N then _ else _] =>
             destruct (c =? k)%N; [ repeat constructor | ]
         end.
  destruct ((c <? 32)%N || isHighSurrogate c || isLowSurrogate c).
  - unfold unicodeEscape.
    repeat constructor; apply hex_char_not_ws; apply N.mod_lt; lia.
  - repeat constructor. exact Hc.
Qed.

Lemma quote_units_plain (s : list N) :
  no_ws s = true -> Forall (fun c => isWS c = false) (quote_units s).
Proof.
  unfold no_ws.
  induction s as [s IH] using (induction_ltof1 _ (@List.length N)).
  unfold ltof in IH. intros Hs.
  destruct s as [ | c [ | d r ] ]; [ constructor | | ].
  - rewrite quote_units_single. apply quote_unit_plain.
    cbn [forallb] in Hs. apply andb_true_iff in Hs as [Hc _].
    apply negb_true_iff. exact Hc.
  - rewrite quote_units_pair. cbn [forallb] in Hs.
    apply andb_true_iff in Hs as [Hc Hs'].
    pose proof Hs' as Hdr. cbn [forallb] in Hs'.
    apply andb_true_iff in Hs' as [Hd Hr].
    apply negb_true_iff in Hc, Hd.
    destruct (isHighSurrogate c && isLowSurrogate d).
    + constructor; [ exact Hc | ]. constructor; [ exact Hd | ].
      apply IH; [ cbn [List.length]; lia | exact Hr ].
    + apply Forall_app. split; [ apply quote_unit_plain; exact Hc | ].
      apply IH; [ cbn [List.length]; lia | exact Hdr ].
Qed.

Lemma quoted_compresses (s : list N) :
  no_ws s = true -> compresses_to (QuoteJSONString s) (QuoteJSONString s).
Proof.
  intros Hs. apply plain_compresses; [ | discriminate ].
  unfold QuoteJSONString. apply Forall_app. split; [ repeat constructor | ].
  apply Forall_app. split; [ apply quote_units_plain; exact Hs | ].
  repeat constructor.
Qed.

Lemma gap_space_blank gap : blank (if isEmpty gap then [] else [Ch.SP]).
Proof. destruct (isEmpty gap); repeat constructor. Qed.

Lemma serialize_compresses v :
  strings_no_ws v = true ->
  forall gap indent,
    blank gap -> blank indent ->
    compresses_to (SerializeJSONProperty gap indent v)
      (SerializeJSONProperty [] [] v).
Proof.
  induction v as [ | b | x | s | l IH | ps IH ] using value_induction;
    intros Hv gap indent Hgap Hindent.
  - apply plain_compresses; [ repeat constructor | discriminate ].
  - destruct b; (apply plain_compresses; [ repeat constructor | discriminate ]).
  - apply plain_compresses;
      [ apply number_text_no_ws | apply number_text_nonempty ].
  - apply quoted_compresses. exact Hv.
  - cbn [SerializeJSONProperty app]. cbn [strings_no_ws] in Hv.
    rewrite forallb_forall in Hv.
    apply wrap_compresses; try reflexivity;
      [ exact Hindent | apply Forall_app; split; assumption | ].
    rewrite Forall_forall in IH. apply Forall_forall. intros w Hw.
    apply (IH w Hw (Hv w Hw));
      [ exact Hgap | apply Forall_app; split; assumption ].
  - cbn [SerializeJSONProperty app]. cbn [strings_no_ws] in Hv.
    rewrite forallb_forall in Hv.
    apply wrap_compresses; try reflexivity;
      [ exact Hindent | apply Forall_app; split; assumption | ].
    rewrite Forall_forall in IH. apply Forall_forall. intros [k w] Hw.
    specialize (Hv _ Hw). cbn [fst snd] in Hv.
    apply andb_true_iff in Hv as [Hk Hval].
    apply compresses_app; [ apply quoted_compresses; exact Hk | ].
    cbn [isEmpty]. change ([] ++ SerializeJSONProperty [] [] w)
      with (SerializeJSONProperty [] [] w).
    apply after_structural; [ reflexivity | apply gap_space_blank | ].
    apply (IH _ Hw Hval);
      [ exact Hgap | apply Forall_app; split; assumption ].
Qed.

Lemma compress_stringified v space :
  strings_no_ws v = true -> compress (JSON_stringify v space) = minify v.
Proof.
  intros Hv. destruct (stringify_trimmed v space) as [Htrim Hne].
  assert (Hne' : isEmpty (trim (JSON_stringify v space)) = false)
    by (rewrite Htrim; exact Hne).
  destruct (compress_compact _ Hne') as (-> & _).
  rewrite Htrim. unfold spec_compress, JSON_stringify.
  assert (Hgap : blank (List.repeat Ch.SP (Nat.min 10 space))).
  { apply Forall_forall. intros c Hc. apply repeat_spec in Hc.
    subst c. reflexivity. }
  destruct (serialize_compresses v Hv _ [] Hgap (Forall_nil _)) as [_ H].
  destruct (H None false []) as [p' Hp']. rewrite app_nil_r in Hp'.
  rewrite Hp'. apply app_nil_r.
Qed.

(* ================================================================== *)
(** * Loading the page *)


Lemma trim_trim (s : list N) : trim (trim s) = trim s.
Proof.
  destruct (trim_shape s) as [Hc Hs]. apply trim_fixed; assumption.
Qed.

Lemma dropWhile_incl p (s : list N) c : In c (dropWhile p s) -> In c s.
Proof.
  induction s as [ | d r IH ]; cbn [dropWhile]; [ auto | ].
  destruct (p d); [ right; apply IH; assumption | auto ].
Qed.

Lemma trim_incl (s : list N) c : In c (trim s) -> In c s.
Proof.
  unfold trim, trimEnd, trimStart. intros H.
  apply in_rev in H. apply dropWhile_incl in H. apply in_rev in H.
  apply dropWhile_incl in H. exact H.
Qed.

Lemma normalize_newlines_fixed (s : list N) :
  ~ In Ch.CR s -> normalize_newlines s = s.
Proof.
  induction s as [ | c r IH ]; intros H; [ reflexivity | ].
  cbn [normalize_newlines].
  destruct (N.eqb_spec c Ch.CR) as [-> | _];
    [ exfalso; apply H; left; reflexivity | ].
  rewrite IH; [ reflexivity | ]. intros Hin. apply H. right. exact Hin.
Qed.

Section Loading.

Variable error_message : list N -> list N.



End Loading.

(* ================================================================== *)
(** * Themes *)

Lemma applyTheme_fields (p : Page) :
  let p' := applyTheme p in
  currentTheme p' = currentTheme p
  /\ data_theme p' = Some (currentTheme p)
  /\ theme_icon p'
     = (if text_eqb (currentTheme p) (lit "dark") then SUN else MOON)
  /\ prism_dark_disabled p' = negb (text_eqb (currentTheme p) (lit "dark")).
Proof. repeat split. Qed.


Section Pages.

Variable error_message : list N -> list N.
Variable formatFileSize : N -> list N.

(** X14.  When the page loads, a stored theme that is not empty becomes
    the current theme as it stands, whatever its text; the attribute of
    the document names it, and the icon and the style sheet are those
    of [dark] for [dark] and those of [light] for every other text.
    Without one the page keeps its theme fields.  So the theme that
    [toggleTheme] stored is the theme of the next load. *)
Theorem DOMContentLoaded_theme (p : Page) :
  let p' := DOMContentLoaded error_message p in
  match jsonToolTheme p with
  | Some (c :: r) =>
      currentTheme p' = c :: r
      /\ data_theme p' = Some (c :: r)
      /\ prism_dark_disabled p' = negb (text_eqb (c :: r) (lit "dark"))
      /\ theme_icon p'
         = (if text_eqb (c :: r) (lit "dark") then SUN else MOON)
  | _ =>
      currentTheme p' = currentTheme p
      /\ data_theme p' = data_theme p
      /\ prism_dark_disabled p' = prism_dark_disabled p
      /\ theme_icon p' = theme_icon p
  end
  /\ jsonToolTheme p' = jsonToolTheme p
  /\ forall q : Page,
       jsonToolTheme p = jsonToolTheme (toggleTheme q) ->
       currentTheme p' = currentTheme (toggleTheme q)
       /\ data_theme p' = data_theme (toggleTheme q)
       /\ prism_dark_disabled p' = prism_dark_disabled (toggleTheme q)
       /\ theme_icon p' = theme_icon (toggleTheme q).
Proof.
  cbv zeta.
  assert (Hfields : forall q : Page,
            let q' := on_editor (validateJSON error_message)
                        match jsonToolContent (editor q) with
                        | Some savedJSON =>
                            if isEmpty savedJSON then q
                            else on_editor
                                   (fun st =>
                                      validateJSON error_message
                                        (set_editor_value
                                           (normalize_newlines savedJSON) st))
                                   q
                        | None => q
                        end in
            currentTheme q' = currentTheme q
            /\ data_theme q' = data_theme q
            /\ prism_dark_disabled q' = prism_dark_disabled q
            /\ theme_icon q' = theme_icon q
            /\ jsonToolTheme q' = jsonToolTheme q).
  { intros q. cbv zeta.
    destruct (jsonToolContent (editor q)) as [ [ | c r ] | ];
      repeat split. }
  unfold DOMContentLoaded. cbv zeta.
  destruct (jsonToolTheme p) as [ [ | c r ] | ] eqn:Eth;
    cbn [isEmpty];
    match goal with
    | |- context [on_editor _ match jsonToolContent (editor ?q) with _ => _ end] =>
        destruct (Hfields q) as (H1 & H2 & H3 & H4 & H5)
    end;
    rewrite H1, H2, H3, H4, H5;
    cbn [applyTheme set_currentTheme currentTheme data_theme
         prism_dark_disabled theme_icon jsonToolTheme];
    (split; [ repeat split | ]); (split; [ auto | ]);
    intros q Hq; unfold toggleTheme in *; cbv zeta in *;
    cbn [notify on_editor setItem_jsonToolTheme applyTheme set_currentTheme
         currentTheme data_theme jsonToolTheme prism_dark_disabled
         theme_icon] in *;
    try discriminate Hq;
    injection Hq as Hq.
  - destruct (text_eqb (currentTheme q) (lit "light")); discriminate Hq.
  - rewrite <- Hq. repeat split.
Qed.

End Pages.

Lemma DOMContentLoaded_theme_witness :
  let h := fun _ : list N => @nil N in
  let blank := {|
    editor := initialState;
    currentTheme := lit "light";
    data_theme := None;
    theme_icon := MOON;
    prism_dark_disabled := true;
    jsonToolTheme := None;
    focused := false;
    selection := None;
    clipboard := None;
    alerts := [];
    downloads := []
  |} in
  let p := setItem_jsonToolTheme (lit "dark") blank in
  jsonToolTheme p = jsonToolTheme (toggleTheme blank)
  /\ currentTheme (DOMContentLoaded h p) = currentTheme (toggleTheme blank).
Proof.
  intros h blank p.
  assert (H : jsonToolTheme p = jsonToolTheme (toggleTheme blank))
    by reflexivity.
  split; [ exact H | ].
  exact (proj1 (proj2 (proj2 (DOMContentLoaded_theme h p)) blank H)).
Defined.

(* ================================================================== *)
(** * Clearing, copying, downloading *)

Section Operations.

Variable error_message : list N -> list N.
Variable formatFileSize : N -> list N.


(** X16.  [copyToClipboard] never changes the document.  On an editor
    that is not blank it writes the text of the editor as it stands,
    surrounding whitespace included; when that fails the fallback copies
    the first 99999 code units of the text; and success is reported
    unless the fallback throws, also when it returned without
    copying.  On a blank editor nothing is copied. *)
Theorem copyToClipboard_text (host : Host) (p : Page) :
  let t := editor_value (editor p) in
  let p' := copyToClipboard host p in
  editor_value (editor p') = t
  /\ jsonToolContent (editor p') = jsonToolContent (editor p)
  /\ clipboard p'
     = (if isEmpty (trim t) then clipboard p
        else match writeText host, execCommand_copy host with
             | Written, _ => Some t
             | WriteFailed, Copied => Some (firstn (N.to_nat 99999) t)
             | WriteFailed, _ => clipboard p
             end)
  /\ notification (editor p')
     = (if isEmpty (trim t) then Some (lit "No JSON to copy!", lit "error")
        else match writeText host, execCommand_copy host with
             | WriteFailed, CopyThrew =>
                 Some (lit "Failed to copy. Please try manually.",
                       lit "error")
             | _, _ => Some (lit "JSON copied to clipboard!", lit "success")
             end).
Proof.
  cbv zeta. unfold copyToClipboard. cbv zeta.
  destruct (isEmpty (trim (editor_value (editor p))));
    [ repeat split | ].
  destruct (writeText host); [ repeat split | ].
  assert (Hsel : selected_text (setSelectionRange 0 99999 (select p))
                 = firstn (N.to_nat 99999) (editor_value (editor p))).
  { unfold selected_text, select.
    cbn [setSelectionRange selection editor].
    set (t := editor_value (editor p)).
    rewrite N.min_0_l, N.sub_0_r. change (N.to_nat 0) with 0%nat.
    cbn [skipn].
    destruct (N.min_spec 99999 (N.of_nat (List.length t))) as [[Hlt ->] | [Hle ->]];
      [ reflexivity | ].
    rewrite Nat2N.id. rewrite firstn_all.
    symmetry. apply firstn_all2. lia. }
  destruct (execCommand_copy host); cbn [notify on_editor set_clipboard
    clipboard editor showNotification editor_value jsonToolContent
    notification]; rewrite ?Hsel; repeat split.
Qed.

Lemma replace_colon_dot (s : list N) :
  replaceAll match_colon_dot 0 s
  = List.map (fun c => if ((c =? Ch.COLON) || (c =? Ch.DOT))%N
                       then Ch.MINUS else c) s.
Proof.
  induction s as [ | c r IH ]; [ reflexivity | ].
  cbn [replaceAll match_colon_dot List.map].
  destruct ((c =? Ch.COLON) || (c =? Ch.DOT))%N; cbn [pred app];
    rewrite IH; reflexivity.
Qed.

Lemma replace_colon_dot_free (s : list N) :
  ~ In Ch.COLON (replaceAll match_colon_dot 0 s)
  /\ ~ In Ch.DOT (replaceAll match_colon_dot 0 s).
Proof.
  rewrite replace_colon_dot.
  split; intros H; apply in_map_iff in H as (c & Hc & _);
    destruct (N.eqb_spec c Ch.COLON) as [H1 | H1];
    destruct (N.eqb_spec c Ch.DOT) as [H2 | H2];
    cbn [orb] in Hc; try discriminate Hc; congruence.
Qed.

(** X17.  On an editor that is not blank, [downloadJSON] offers one file:
    its content is the trimmed text of the editor and its name is
    [json-data-], the first 19 code units of the time stamp with every
    colon and dot replaced by a dash, and [.json]; so the part of the
    name in front of the extension has no colon and no dot.  The document
    is not changed.  On a blank editor no file is offered. *)
Theorem downloadJSON_file (host : Host) (p : Page) :
  let t := trim (editor_value (editor p)) in
  let stamp := List.map (fun c => if ((c =? Ch.COLON) || (c =? Ch.DOT))%N
                                  then Ch.MINUS else c)
                 (firstn 19 (toISOString host)) in
  let p' := downloadJSON host p in
  downloads p'
  = (if isEmpty t then downloads p
     else (lit "json-data-" ++ stamp ++ lit ".json", t) :: downloads p)
  /\ List.length stamp = Nat.min 19 (List.length (toISOString host))
  /\ ~ In Ch.COLON stamp /\ ~ In Ch.DOT stamp
  /\ editor_value (editor p') = editor_value (editor p)
  /\ jsonToolContent (editor p') = jsonToolContent (editor p).
Proof.
  cbv zeta. rewrite <- replace_colon_dot.
  destruct (replace_colon_dot_free (firstn 19 (toISOString host)))
    as [Hcolon Hdot].
  split.
  { unfold downloadJSON. cbv zeta.
    destruct (isEmpty (trim (editor_value (editor p)))); reflexivity. }
  split.
  { rewrite replace_colon_dot, length_map, length_firstn. reflexivity. }
  split; [ exact Hcolon | ]. split; [ exact Hdot | ].
  unfold downloadJSON. cbv zeta.
  destruct (isEmpty (trim (editor_value (editor p)))); split; reflexivity.
Qed.

(** X19.  A key event triggers at most one operation, and none without
    Ctrl or Cmd: Enter formats, [m] minifies, [s] downloads, [d] toggles
    the theme, and [C] with Shift copies.  The keys are compared as they
    are, so a capital [M], [S] or [D] and a [c] without Shift trigger
    nothing.  [preventDefault] is called exactly when an operation
    runs. *)
Theorem keydown_dispatch (host : Host) (e : KeyboardEvent) (p : Page) :
  keydown error_message host e p
  = if ctrlKey e || metaKey e then
      if text_eqb (key e) (lit "Enter")
      then (on_editor (formatJSON error_message) p, true)
      else if text_eqb (key e) (lit "m")
      then (on_editor (minifyJSON error_message) p, true)
      else if text_eqb (key e) (lit "s") then (downloadJSON host p, true)
      else if text_eqb (key e) (lit "C") && shiftKey e
      then (copyToClipboard host p, true)
      else if text_eqb (key e) (lit "d") then (toggleTheme p, true)
      else (p, false)
    else (p, false).
Proof.
  unfold keydown. cbv zeta.
  destruct (ctrlKey e || metaKey e); cbn [andb]; [ | reflexivity ].
  destruct (text_eqb (key e) (lit "Enter")) eqn:E1;
    destruct (text_eqb (key e) (lit "m")) eqn:E2;
    destruct (text_eqb (key e) (lit "s")) eqn:E3;
    destruct (text_eqb (key e) (lit "C")) eqn:E4;
    destruct (text_eqb (key e) (lit "d")) eqn:E5;
    destruct (shiftKey e);
    cbn [andb fst]; try reflexivity;
    exfalso;
    repeat match goal with
           | H : text_eqb _ _ = true |- _ => apply text_eqb_eq in H
           | H : text_eqb _ _ = false |- _ => clear H
           end;
    match goal with
    | H1 : key e = _, H2 : key e = _ |- _ =>
        rewrite H1 in H2; vm_compute in H2; discriminate H2
    end.
Qed.

End Operations.


(* ================================================================== *)
(** * [JSON.parse] and the line breaks of a text area

    A carriage return stands in a JSON text only as whitespace between
    tokens, where a line feed does as well; so a text that [JSON.parse]
    accepts is accepted with the same value when its line breaks are
    normalized. *)

Lemma normalize_cons c r :
  (c =? Ch.CR)%N = false ->
  normalize_newlines (c :: r) = c :: normalize_newlines r.
Proof. intros H. cbn [normalize_newlines]. rewrite H. reflexivity. Qed.

(** The first code unit of a normalized text is the first code unit of
    the text, or a line feed for a carriage return. *)
Lemma normalize_head (p : N -> bool) c r :
  p c = false -> p Ch.LF = false ->
  exists d X, normalize_newlines (c :: r) = d :: X /\ p d = false.
Proof.
  intros Hc Hlf. cbn [normalize_newlines].
  destruct (c =? Ch.CR)%N; eexists; eexists; (split; [ reflexivity | ]);
    assumption.
Qed.

Lemma eqb_not_CR c k :
  (c =? k)%N = true -> (k =? Ch.CR)%N = false -> (c =? Ch.CR)%N = false.
Proof. intros H. apply N.eqb_eq in H. subst c. exact (fun E => E). Qed.

Lemma not_JSONWS_not_CR c : isJSONWS c = false -> (c =? Ch.CR)%N = false.
Proof.
  unfold isJSONWS. intros H.
  apply orb_false_iff in H as [H _]. apply orb_false_iff in H as [_ H].
  exact H.
Qed.

Lemma digit_not_CR c : isDigit c = true -> (c =? Ch.CR)%N = false.
Proof.
  unfold isDigit, Ch.CR. rewrite andb_true_iff, !N.leb_le, N.eqb_neq. lia.
Qed.

Lemma hex_not_CR c a : hex_value c = Some a -> (c =? Ch.CR)%N = false.
Proof.
  intros H. destruct (N.eqb_spec c Ch.CR) as [-> | _]; [ | reflexivity ].
  vm_compute in H. discriminate H.
Qed.

Lemma above_control_not_CR c : (c <? 32)%N = false -> (c =? Ch.CR)%N = false.
Proof. unfold Ch.CR. rewrite N.ltb_ge, N.eqb_neq. lia. Qed.

Lemma skip_ws_head s c r : skip_ws s = c :: r -> isJSONWS c = false.
Proof.
  unfold skip_ws. induction s as [ | d s IH ]; cbn [dropWhile];
    [ discriminate | ].
  destruct (isJSONWS d) eqn:E; [ exact IH | ].
  intros H. injection H as <- _. exact E.
Qed.

Lemma skip_ws_normalize_bounded (n : nat) (s : list N) :
  List.length s <= n ->
  skip_ws (normalize_newlines s) = normalize_newlines (skip_ws s).
Proof.
  revert s. induction n as [ | n IH ]; intros s Hn.
  - destruct s; [ reflexivity | cbn [List.length] in Hn; lia ].
  - destruct s as [ | c r ]; [ reflexivity | ]. cbn [List.length] in Hn.
    destruct (c =? Ch.CR)%N eqn:Ec.
    + apply N.eqb_eq in Ec. subst c.
      change (skip_ws (Ch.CR :: r)) with (skip_ws r).
      cbn [normalize_newlines].
      change (Ch.CR =? Ch.CR)%N with true. cbv iota.
      destruct r as [ | d r' ]; [ reflexivity | ].
      destruct (d =? Ch.LF)%N eqn:Ed.
      * apply N.eqb_eq in Ed. subst d.
        change (skip_ws (Ch.LF :: r')) with (skip_ws r').
        change (skip_ws (Ch.LF :: normalize_newlines r'))
          with (skip_ws (normalize_newlines r')).
        apply IH. cbn [List.length] in Hn. lia.
      * change (skip_ws (Ch.LF :: normalize_newlines (d :: r')))
          with (skip_ws (normalize_newlines (d :: r'))).
        apply IH. lia.
    + rewrite (normalize_cons c r Ec). unfold skip_ws. cbn [dropWhile].
      destruct (isJSONWS c).
      * apply (IH r). lia.
      * rewrite (normalize_cons c r Ec). reflexivity.
Qed.

Lemma skip_ws_normalize (s : list N) :
  skip_ws (normalize_newlines s) = normalize_newlines (skip_ws s).
Proof. apply (skip_ws_normalize_bounded _ _ (le_n _)). Qed.

(** The code unit behind skipped whitespace stays where it is. *)
Lemma skip_ws_normalize_cons s c r :
  skip_ws s = c :: r ->
  skip_ws (normalize_newlines s) = c :: normalize_newlines r.
Proof.
  intros H. rewrite skip_ws_normalize, H.
  apply normalize_cons. apply not_JSONWS_not_CR.
  apply (skip_ws_head _ _ _ H).
Qed.

Lemma digits_normalize (s : list N) :
  takeWhile isDigit (normalize_newlines s) = takeWhile isDigit s
  /\ dropWhile isDigit (normalize_newlines s)
     = normalize_newlines (dropWhile isDigit s).
Proof.
  induction s as [ | c r [IHt IHd] ]; [ split; reflexivity | ].
  destruct (isDigit c) eqn:Ec.
  - rewrite (normalize_cons c r (digit_not_CR c Ec)).
    cbn [takeWhile dropWhile]. rewrite Ec, IHt, IHd. split; reflexivity.
  - cbn [takeWhile dropWhile]. rewrite Ec.
    destruct (normalize_head isDigit c r Ec eq_refl) as (d & X & -> & Hd).
    cbn [takeWhile dropWhile]. rewrite Hd. split; reflexivity.
Qed.

Lemma lex_string_normalize (s : list N) :
  forall str rest,
    lex_string s = Ok (str, rest) ->
    lex_string (normalize_newlines s) = Ok (str, normalize_newlines rest).
Proof.
  induction s as [s IH] using (induction_ltof1 _ (@List.length N)).
  unfold ltof in IH. intros str rest H.
  destruct s as [ | c s1 ]; [ discriminate H | ].
  cbn [lex_string] in H.
  assert (Hrec : forall u s2 str r,
            (List.length s2 < List.length (c :: s1))%nat ->
            (let* (str0, rest) := lex_string s2 in Ok (u :: str0, rest))
            = Ok (str, r) ->
            (let* (str0, rest) := lex_string (normalize_newlines s2) in
             Ok (u :: str0, rest))
            = Ok (str, normalize_newlines r)).
  { intros u s2 str' r' Hlen Hu.
    destruct (lex_string s2) as [ [str0 rest0] | | ] eqn:E;
      try discriminate Hu.
    cbn [bind] in Hu. injection Hu as <- <-.
    rewrite (IH s2 Hlen _ _ E). reflexivity. }
  destruct (c =? Ch.QUOTE)%N eqn:Eq.
  { rewrite (normalize_cons c s1 (eqb_not_CR _ _ Eq eq_refl)).
    cbn [lex_string]. rewrite Eq. injection H as <- <-. reflexivity. }
  destruct (c =? Ch.BACKSLASH)%N eqn:Eb.
  - rewrite (normalize_cons c s1 (eqb_not_CR _ _ Eb eq_refl)).
    destruct s1 as [ | e s2 ]; [ discriminate H | ].
    assert (Ee : (e =? Ch.CR)%N = false).
    { destruct (N.eqb_spec e Ch.CR) as [-> | _]; [ | reflexivity ].
      vm_compute in H. discriminate H. }
    rewrite (normalize_cons e s2 Ee). cbn [lex_string]. rewrite Eq, Eb.
    repeat match type of H with
           | (if ?b then _ else _) = _ =>
               destruct b;
               [ apply Hrec; [ cbn [List.length]; lia | exact H ] | ]
           end.
    destruct (e =? 117)%N; [ | discriminate H ].
    destruct s2 as [ | h1 [ | h2 [ | h3 [ | h4 r2 ] ] ] ];
      try discriminate H.
    destruct (hex_value h1) as [ a1 | ] eqn:E1; [ | discriminate H ].
    destruct (hex_value h2) as [ a2 | ] eqn:E2; [ | discriminate H ].
    destruct (hex_value h3) as [ a3 | ] eqn:E3; [ | discriminate H ].
    destruct (hex_value h4) as [ a4 | ] eqn:E4; [ | discriminate H ].
    rewrite (normalize_cons h1 _ (hex_not_CR _ _ E1)).
    rewrite (normalize_cons h2 _ (hex_not_CR _ _ E2)).
    rewrite (normalize_cons h3 _ (hex_not_CR _ _ E3)).
    rewrite (normalize_cons h4 _ (hex_not_CR _ _ E4)).
    rewrite E1, E2, E3, E4.
    apply Hrec; [ cbn [List.length]; lia | exact H ].
  - destruct (c <? 32)%N eqn:Ec; [ discriminate H | ].
    rewrite (normalize_cons c s1 (above_control_not_CR c Ec)).
    cbn [lex_string]. rewrite Eq, Eb, Ec.
    apply Hrec; [ cbn [List.length]; lia | exact H ].
Qed.

Lemma lex_int_normalize s ds r :
  lex_int s = Ok (ds, r) ->
  lex_int (normalize_newlines s) = Ok (ds, normalize_newlines r).
Proof.
  destruct s as [ | d s1 ]; [ discriminate | ].
  cbn [lex_int]. destruct (d =? 48)%N eqn:E0.
  - intros H. injection H as <- <-.
    rewrite (normalize_cons d s1 (eqb_not_CR _ _ E0 eq_refl)).
    cbn [lex_int]. rewrite E0. reflexivity.
  - destruct (isDigit d) eqn:Ed; [ | discriminate ].
    intros H. injection H as <- <-.
    rewrite (normalize_cons d s1 (digit_not_CR d Ed)).
    cbn [lex_int]. rewrite E0, Ed.
    destruct (digits_normalize s1) as [-> ->]. reflexivity.
Qed.

Lemma lex_frac_normalize s ds r :
  lex_frac s = Ok (ds, r) ->
  lex_frac (normalize_newlines s) = Ok (ds, normalize_newlines r).
Proof.
  destruct s as [ | c s1 ].
  { intros H. injection H as <- <-. reflexivity. }
  cbn [lex_frac]. destruct (c =? Ch.DOT)%N eqn:Ec.
  - rewrite (normalize_cons c s1 (eqb_not_CR _ _ Ec eq_refl)).
    cbn [lex_frac]. rewrite Ec.
    destruct (digits_normalize s1) as [-> ->].
    destruct (takeWhile isDigit s1); [ discriminate | ].
    intros H. injection H as <- <-. reflexivity.
  - intros H. injection H as <- <-.
    destruct (normalize_head (fun c => (c =? Ch.DOT)%N) c s1 Ec eq_refl)
      as (d & X & -> & Hd).
    cbn [lex_frac]. rewrite Hd. reflexivity.
Qed.

Lemma lex_exp_normalize s e r :
  lex_exp s = Ok (e, r) ->
  lex_exp (normalize_newlines s) = Ok (e, normalize_newlines r).
Proof.
  destruct s as [ | c s1 ].
  { intros H. injection H as <- <-. reflexivity. }
  cbn [lex_exp]. destruct ((c =? 101) || (c =? 69))%N eqn:Ec.
  - assert (Hc : (c =? Ch.CR)%N = false).
    { destruct (N.eqb_spec c Ch.CR) as [-> | _]; [ | reflexivity ].
      discriminate Ec. }
    rewrite (normalize_cons c s1 Hc). cbn [lex_exp]. rewrite Ec.
    destruct s1 as [ | sg s2 ]; [ discriminate | ].
    destruct (sg =? Ch.CR)%N eqn:Esg.
    { apply N.eqb_eq in Esg. subst sg. intros H. vm_compute in H.
      discriminate H. }
    rewrite (normalize_cons sg s2 Esg).
    destruct (sg =? Ch.MINUS)%N; [ | destruct (sg =? Ch.PLUS)%N ];
      rewrite <- ?(normalize_cons sg s2 Esg);
      match goal with
      | |- context [takeWhile isDigit (normalize_newlines ?u)] =>
          destruct (digits_normalize u) as [-> ->];
          destruct (takeWhile isDigit u)
      end; try discriminate;
      intros H; injection H as <- <-; reflexivity.
  - intros H. injection H as <- <-.
    destruct (normalize_head (fun c => ((c =? 101) || (c =? 69))%N) c s1 Ec
                eq_refl) as (d & X & -> & Hd).
    cbn [lex_exp]. rewrite Hd. reflexivity.
Qed.

Lemma lex_unsigned_normalize neg s x r :
  lex_unsigned neg s = Ok (x, r) ->
  lex_unsigned neg (normalize_newlines s) = Ok (x, normalize_newlines r).
Proof.
  unfold lex_unsigned. intros H.
  destruct (lex_int s) as [ [int s2] | | ] eqn:E1; try discriminate.
  rewrite (lex_int_normalize _ _ _ E1). cbn [bind] in *.
  destruct (lex_frac s2) as [ [frac s3] | | ] eqn:E2; try discriminate.
  rewrite (lex_frac_normalize _ _ _ E2). cbn [bind] in *.
  destruct (lex_exp s3) as [ [e s4] | | ] eqn:E3; try discriminate.
  rewrite (lex_exp_normalize _ _ _ E3). cbn [bind] in *.
  injection H as <- <-. reflexivity.
Qed.

Lemma lex_number_normalize s x r :
  lex_number s = Ok (x, r) ->
  lex_number (normalize_newlines s) = Ok (x, normalize_newlines r).
Proof.
  destruct s as [ | c s1 ]; [ apply (lex_unsigned_normalize false []) | ].
  cbn [lex_number]. destruct (c =? Ch.MINUS)%N eqn:Ec.
  - rewrite (normalize_cons c s1 (eqb_not_CR _ _ Ec eq_refl)).
    cbn [lex_number]. rewrite Ec. apply lex_unsigned_normalize.
  - intros H. apply lex_unsigned_normalize in H.
    destruct (normalize_head (fun c => (c =? Ch.MINUS)%N) c s1 Ec eq_refl)
      as (d & X & E & Hd).
    rewrite E in *. cbn [lex_number]. rewrite Hd. exact H.
Qed.

Lemma strip_prefix_normalize kw :
  Forall (fun k => (k =? Ch.CR)%N = false) kw ->
  forall s r, strip_prefix kw s = Some r ->
    strip_prefix kw (normalize_newlines s) = Some (normalize_newlines r).
Proof.
  induction 1 as [ | k kw' Hk _ IH ]; intros s r H.
  - cbn [strip_prefix] in *. injection H as <-. reflexivity.
  - destruct s as [ | c s1 ]; [ discriminate H | ].
    cbn [strip_prefix] in H. destruct (k =? c)%N eqn:E; [ | discriminate H ].
    assert (Hc : (c =? Ch.CR)%N = false).
    { apply N.eqb_eq in E. subst c. exact Hk. }
    rewrite (normalize_cons c s1 Hc). cbn [strip_prefix]. rewrite E.
    apply IH. exact H.
Qed.

Lemma lex_keyword_normalize kw v s v' r :
  forallb (fun k => negb (k =? Ch.CR)%N) kw = true ->
  lex_keyword kw v s = Ok (v', r) ->
  lex_keyword kw v (normalize_newlines s) = Ok (v', normalize_newlines r).
Proof.
  intros Hkw H. unfold lex_keyword in *.
  destruct (strip_prefix kw s) as [ r1 | ] eqn:E; [ | discriminate ].
  injection H as <- <-.
  assert (Hkw' : Forall (fun k => (k =? Ch.CR)%N = false) kw).
  { apply Forall_forall. intros k Hk.
    rewrite forallb_forall in Hkw. apply negb_true_iff. apply Hkw. exact Hk. }
  rewrite (strip_prefix_normalize kw Hkw' s r1 E). reflexivity.
Qed.

(** The code unit behind skipped whitespace, in the text and in the
    normalized text. *)
Ltac next_unit H :=
  match type of H with
  | context [skip_ws ?r] =>
      let c := fresh "c" in
      let r' := fresh "r" in
      let Es := fresh "Es" in
      destruct (skip_ws r) as [ | c r' ] eqn:Es; [ discriminate H | ];
      rewrite (skip_ws_normalize_cons _ _ _ Es); cbv iota
  end.

Lemma parse_normalize :
  forall n,
    (forall s v r, parse_value n s = Ok (v, r) ->
       parse_value n (normalize_newlines s) = Ok (v, normalize_newlines r))
    /\ (forall s vs r, parse_elements n s = Ok (vs, r) ->
          parse_elements n (normalize_newlines s)
          = Ok (vs, normalize_newlines r))
    /\ (forall s ms r, parse_members n s = Ok (ms, r) ->
          parse_members n (normalize_newlines s)
          = Ok (ms, normalize_newlines r)).
Proof.
  induction n as [ | f (IHv & IHe & IHm) ].
  { repeat split; intros; discriminate. }
  repeat split.
  - intros s v r H. rewrite parse_value_unfold in *.
    next_unit H.
    destruct (c =? Ch.LBRACE)%N.
    { next_unit H.
      destruct (c0 =? Ch.RBRACE)%N.
      - injection H as <- <-. reflexivity.
      - destruct (parse_members f r0) as [ [ms rest] | | ] eqn:Em;
          try discriminate H.
        rewrite (IHm _ _ _ Em). cbn [bind] in *.
        injection H as <- <-. reflexivity. }
    destruct (c =? Ch.LBRACKET)%N.
    { next_unit H.
      destruct (c0 =? Ch.RBRACKET)%N.
      - injection H as <- <-. reflexivity.
      - destruct (parse_elements f r0) as [ [vs rest] | | ] eqn:Ee;
          try discriminate H.
        rewrite (IHe _ _ _ Ee). cbn [bind] in *.
        injection H as <- <-. reflexivity. }
    destruct (c =? Ch.QUOTE)%N.
    { destruct (lex_string r0) as [ [str rest] | | ] eqn:El;
        try discriminate H.
      rewrite (lex_string_normalize _ _ _ El). cbn [bind] in *.
      injection H as <- <-. reflexivity. }
    assert (Hc : (c =? Ch.CR)%N = false).
    { apply not_JSONWS_not_CR. apply (skip_ws_head _ _ _ Es). }
    rewrite <- (normalize_cons c r0 Hc).
    destruct (c =? 116)%N;
      [ apply (lex_keyword_normalize (lit "true") (JBool true) _ _ _
                 eq_refl H) | ].
    destruct (c =? 102)%N;
      [ apply (lex_keyword_normalize (lit "false") (JBool false) _ _ _
                 eq_refl H) | ].
    destruct (c =? 110)%N;
      [ apply (lex_keyword_normalize (lit "null") JNull _ _ _ eq_refl H) | ].
    destruct ((c =? Ch.MINUS)%N || isDigit c); [ | discriminate H ].
    destruct (lex_number (c :: r0)) as [ [x rest] | | ] eqn:El;
      try discriminate H.
    rewrite (lex_number_normalize _ _ _ El). cbn [bind] in *.
    injection H as <- <-. reflexivity.
  - intros s vs r H. rewrite parse_elements_unfold in *.
    destruct (parse_value f s) as [ [v r1] | | ] eqn:Ev;
      try discriminate H.
    rewrite (IHv _ _ _ Ev). cbn [bind] in *.
    next_unit H.
    destruct (c =? Ch.COMMA)%N.
    + destruct (parse_elements f r0) as [ [vs' rest] | | ] eqn:Ee;
        try discriminate H.
      rewrite (IHe _ _ _ Ee). cbn [bind] in *.
      injection H as <- <-. reflexivity.
    + destruct (c =? Ch.RBRACKET)%N; [ | discriminate H ].
      injection H as <- <-. reflexivity.
  - intros s ms r H. rewrite parse_members_unfold in *.
    next_unit H.
    destruct (c =? Ch.QUOTE)%N; [ | discriminate H ].
    destruct (lex_string r0) as [ [k r1] | | ] eqn:El; try discriminate H.
    rewrite (lex_string_normalize _ _ _ El). cbn [bind] in *.
    next_unit H.
    destruct (c0 =? Ch.COLON)%N; [ | discriminate H ].
    destruct (parse_value f r2) as [ [v r3] | | ] eqn:Ev; try discriminate H.
    rewrite (IHv _ _ _ Ev). cbn [bind] in *.
    next_unit H.
    destruct (c1 =? Ch.COMMA)%N.
    + destruct (parse_members f r4) as [ [ms' rest] | | ] eqn:Em;
        try discriminate H.
      rewrite (IHm _ _ _ Em). cbn [bind] in *.
      injection H as <- <-. reflexivity.
    + destruct (c1 =? Ch.RBRACE)%N; [ | discriminate H ].
      injection H as <- <-. reflexivity.
Qed.

(** A text that [JSON.parse] accepts is accepted with the same value
    when it is read from a text area. *)
Lemma JSON_parse_normalize (t : list N) (v : value) :
  JSON_parse t = Ok v -> JSON_parse (normalize_newlines t) = Ok v.
Proof.
  intros H. unfold JSON_parse in H.
  destruct (parse_value (2 * List.length t + 1) t) as [ [v0 r] | | ] eqn:E;
    try discriminate H.
  destruct (skip_ws r) eqn:Er; [ | discriminate H ].
  injection H as <-.
  apply (JSON_parse_of_parse_value _ _ _ _
           (proj1 (parse_normalize _) _ _ _ E)).
  rewrite skip_ws_normalize, Er. reflexivity.
Qed.

(* ================================================================== *)
(** * [validateJSON] with the exceptions of the host *)

Lemma normalize_newlines_bounded (n : nat) (s : list N) :
  List.length s <= n -> ~ In Ch.CR (normalize_newlines s).
Proof.
  revert s. induction n as [ | n IH ]; intros s Hn.
  - destruct s; [ intros [] | cbn [List.length] in Hn; lia ].
  - destruct s as [ | c r ]; [ intros [] | ].
    cbn [List.length] in Hn. cbn [normalize_newlines].
    destruct (N.eqb_spec c Ch.CR) as [-> | Hc].
    + intros [H | H]; [ discriminate H | ].
      destruct r as [ | d r' ]; [ destruct H | ].
      destruct (d =? Ch.LF)%N.
      * revert H. apply IH. cbn [List.length] in Hn. lia.
      * revert H. apply IH. lia.
    + intros [H | H]; [ congruence | ].
      revert H. apply IH. lia.
Qed.

(** The text that the script reads from the editor holds no carriage
    return. *)
Lemma jsonEditor_value_no_CR (st : EditorState) :
  ~ In Ch.CR (jsonEditor_value st).
Proof. apply (normalize_newlines_bounded _ _ (le_n _)). Qed.

Lemma jsonEditor_value_fixed (st : EditorState) :
  ~ In Ch.CR (editor_value st) -> jsonEditor_value st = editor_value st.
Proof. apply normalize_newlines_fixed. Qed.

Lemma validateJSON_throws (h : Limits) (st : EditorState) (message : list N) :
  setItem_error h (trim (jsonEditor_value st)) = Some message ->
  Exn.validateJSON h st = Throws message st.
Proof. intros H. unfold Exn.validateJSON. cbv zeta. rewrite H. reflexivity. Qed.

(** What [validateJSON] writes when the store accepts the text, field by
    field. *)
Lemma validateJSON_returns (h : Limits) (st : EditorState) :
  let t := trim (jsonEditor_value st) in
  setItem_error h t = None ->
  exists st',
    Exn.validateJSON h st = Returns st'
    /\ editor_value st' = editor_value st
    /\ jsonToolContent st' = Some t
    /\ jsonSize st' = utf8_length t
    /\ jsonLines st' = (if isEmpty t then 0 else List.length (split Ch.LF t))
    /\ notification st' = notification st
    /\ outcome st'
       = (if isEmpty t then Empty
          else match JSON_parse t with
               | Ok v => match traverse_error h v with
                         | None => Valid v
                         | Some message => Invalid (displayed_error message)
                         end
               | _ => Invalid (displayed_error (SyntaxError_message h t))
               end)
    /\ (isValidJSON st', jsonData st')
       = (if isEmpty t then (false, JNull)
          else match JSON_parse t with
               | Ok v => match traverse_error h v with
                         | None => (true, v)
                         | Some _ => (false, JNull)
                         end
               | _ => (false, JNull)
               end)
    /\ successDisplay_show st' = isValidJSON st'
    /\ errorDisplay_show st' = negb (isEmpty t) && negb (isValidJSON st')
    /\ (jsonObjects st', jsonArrays st')
       = (if isValidJSON st'
          then (objects (analyzeJSON (jsonData st')),
                arrays (analyzeJSON (jsonData st')))
          else (jsonObjects st, jsonArrays st)).
Proof.
  cbv zeta. intros Hstore. unfold Exn.validateJSON. cbv zeta.
  rewrite Hstore.
  destruct (isEmpty (trim (jsonEditor_value st))) eqn:Eempty.
  - eexists. split; [ reflexivity | ].
    repeat split. cbn [jsonLines Exn.shown_empty updateStatistics].
    rewrite Eempty. reflexivity.
  - destruct (JSON_parse (trim (jsonEditor_value st))) as [ v | | ].
    + destruct (traverse_error h v) as [ message | ];
        (eexists; split; [ reflexivity | ]); repeat split;
        cbn [jsonLines Exn.shown_valid Exn.shown_invalid updateStatistics
               updateJSONStatistics];
        rewrite Eempty; reflexivity.
    + eexists. split; [ reflexivity | ]. repeat split.
      cbn [jsonLines Exn.shown_invalid updateStatistics].
      rewrite Eempty. reflexivity.
    + eexists. split; [ reflexivity | ]. repeat split.
      cbn [jsonLines Exn.shown_invalid updateStatistics].
      rewrite Eempty. reflexivity.
Qed.

(** A call that returned found a store that accepted the text. *)
Lemma validateJSON_returned (h : Limits) (st st' : EditorState) :
  Exn.validateJSON h st = Returns st' ->
  setItem_error h (trim (jsonEditor_value st)) = None.
Proof.
  intros H.
  destruct (setItem_error h (trim (jsonEditor_value st))) as [ m | ] eqn:E;
    [ | reflexivity ].
  rewrite (validateJSON_throws h st m E) in H. discriminate H.
Qed.

(** On a host that raises no exception for the text of the editor, and
    for a text without carriage return, the run is the one of
    [validateJSON] above. *)
Lemma validateJSON_no_exception (h : Limits) (st : EditorState) :
  ~ In Ch.CR (editor_value st) ->
  setItem_error h (trim (editor_value st)) = None ->
  (forall v, JSON_parse (trim (editor_value st)) = Ok v ->
             traverse_error h v = None) ->
  Exn.validateJSON h st = Returns (validateJSON (SyntaxError_message h) st).
Proof.
  intros Hcr Hstore Hstack. unfold Exn.validateJSON. cbv zeta.
  rewrite (jsonEditor_value_fixed st Hcr), Hstore. unfold validateJSON.
  destruct (isEmpty (trim (editor_value st))); [ reflexivity | ].
  destruct (JSON_parse (trim (editor_value st))) as [ v | | ] eqn:E;
    try reflexivity.
  rewrite (Hstack v eq_refl). reflexivity.
Qed.

Lemma validate_returns (h : Limits) (t : list N) :
  let t' := trim (normalize_newlines t) in
  setItem_error h t' = None ->
  Exn.validate h t
  = Some (if isEmpty t' then Empty
          else match JSON_parse t' with
               | Ok v => match traverse_error h v with
                         | None => Valid v
                         | Some message => Invalid (displayed_error message)
                         end
               | _ => Invalid (displayed_error (SyntaxError_message h t'))
               end).
Proof.
  cbv zeta. intros Hstore. unfold Exn.validate.
  destruct (validateJSON_returns h (set_editor_value t initialState) Hstore)
    as (st' & -> & _ & _ & _ & _ & _ & Hout & _).
  rewrite Hout. reflexivity.
Qed.

(** C3, as the code has it.  [validate] classifies the text that the
    editor returns (the input with its line breaks normalized), trimmed.
    When the store refuses the trimmed text, [validateJSON] throws and
    there is no outcome.  Otherwise the outcome is Empty when the trimmed
    text is empty; Valid with the parsed value when it is JSON and the
    analysis of the value completes; Invalid with the displayed message
    of the exception, which is not empty, when it is JSON and the
    analysis exhausts the stack, and when it is not JSON.  In particular
    an input that is JSON as it stands, and a text that the editor
    returns and that is JSON as it stands, yield Valid when the analysis
    completes.  The parser decides every text. *)
Theorem validate_classifies (h : Limits) (t : list N) :
  let x := normalize_newlines t in
  let t' := trim x in
  (forall message, setItem_error h t' = Some message ->
     Exn.validate h t = None)
  /\ (setItem_error h t' = None ->
      (isEmpty t' = true -> Exn.validate h t = Some Empty)
      /\ (forall v, isEmpty t' = false -> JSON_parse t' = Ok v ->
            Exn.validate h t
            = Some match traverse_error h v with
                   | None => Valid v
                   | Some message => Invalid (displayed_error message)
                   end)
      /\ (forall v, JSON_parse t = Ok v -> traverse_error h v = None ->
            Exn.validate h t = Some (Valid v))
      /\ (forall v, JSON_parse x = Ok v -> traverse_error h v = None ->
            Exn.validate h t = Some (Valid v))
      /\ (isEmpty t' = false -> JSON_parse t' = SyntaxError ->
            exists message,
              Exn.validate h t = Some (Invalid message)
              /\ message = displayed_error (SyntaxError_message h t')
              /\ message <> []))
  /\ JSON_parse t' <> OutOfFuel
  /\ (forall message, displayed_error message <> []).
Proof.
  cbv zeta. split.
  - intros message Hstore. unfold Exn.validate.
    rewrite (validateJSON_throws h (set_editor_value t initialState) message
               Hstore).
    reflexivity.
  - split; [ | split; [ apply JSON_parse_fuel
                      | apply displayed_error_nonempty ] ].
    intros Hstore. rewrite (validate_returns h t Hstore). repeat split.
    + intros ->. reflexivity.
    + intros v -> ->. reflexivity.
    + intros v H Hstack.
      destruct (JSON_parse_trim (normalize_newlines t) v
                  (JSON_parse_normalize t v H)) as [-> ->].
      rewrite Hstack. reflexivity.
    + intros v H Hstack.
      destruct (JSON_parse_trim (normalize_newlines t) v H) as [-> ->].
      rewrite Hstack. reflexivity.
    + intros -> ->. eexists. split; [ reflexivity | ].
      split; [ reflexivity | apply displayed_error_nonempty ].
Qed.

Lemma validate_classifies_witness :
  let h := no_limits (fun _ => lit "Unexpected token") in
  JSON_parse (lit " [1] ")
  = Ok (JArray [JNumber (decimal_to_number false 1 0)])
  /\ Exn.validate h (lit " [1] ")
     = Some (Valid (JArray [JNumber (decimal_to_number false 1 0)])).
Proof.
  intros h.
  assert (H : JSON_parse (lit " [1] ")
              = Ok (JArray [JNumber (decimal_to_number false 1 0)]))
    by (vm_compute; reflexivity).
  split; [ exact H | ].
  destruct (validate_classifies h (lit " [1] ")) as (_ & Hreturns & _).
  destruct (Hreturns eq_refl) as (_ & _ & Hvalid & _).
  exact (Hvalid _ H eq_refl).
Defined.

(** C7, as the code has it.  [validateJSON] stores and measures the
    trimmed text that the editor returns, in which every line break is a
    line feed.  When the store accepts it, every call, whatever the
    outcome, stores that text under [jsonToolContent] and sets the byte
    size to its UTF-8 length (the number of bytes of its encoding, for a
    text of 16-bit code units) and the line count to the number of
    segments between line feeds (one more than the number of line
    feeds), 0 for an empty trimmed text.  When the store refuses it, the
    call throws and the page is as before: nothing is stored or
    measured. *)
Theorem validateJSON_persists_trimmed (h : Limits) (st : EditorState) :
  let t := trim (jsonEditor_value st) in
  (setItem_error h t = None ->
   exists st',
     Exn.validateJSON h st = Returns st'
     /\ jsonToolContent st' = Some t
     /\ jsonSize st' = utf8_length t
     /\ (code_units t = true ->
         jsonSize st' = N.of_nat (List.length (utf8_bytes t)))
     /\ jsonLines st'
        = (if isEmpty t then 0 else List.length (split Ch.LF t)))
  /\ (forall message, setItem_error h t = Some message ->
        Exn.validateJSON h st = Throws message st)
  /\ List.length (split Ch.LF t) = S (count_occ N.eq_dec t Ch.LF)
  /\ ~ In Ch.CR t
  /\ (~ In Ch.CR (editor_value st) -> t = trim (editor_value st)).
Proof.
  cbv zeta. split.
  - intros Hstore.
    destruct (validateJSON_returns h st Hstore)
      as (st' & Hrun & _ & H1 & H2 & H3 & _).
    exists st'. split; [ exact Hrun | ]. split; [ exact H1 | ].
    split; [ exact H2 | ].
    split; [ intros Hu; rewrite H2; apply utf8_length_bytes; exact Hu | ].
    exact H3.
  - split; [ intros message; apply validateJSON_throws | ].
    split; [ apply split_length | ].
    split.
    + intros H. apply (jsonEditor_value_no_CR st). apply trim_incl. exact H.
    + intros H. rewrite (jsonEditor_value_fixed st H). reflexivity.
Qed.

Lemma validateJSON_persists_trimmed_witness :
  let h := no_limits (fun _ => []) in
  let st := set_editor_value (lit " [1,
2] ") initialState in
  code_units (trim (jsonEditor_value st)) = true
  /\ exists st',
       Exn.validateJSON h st = Returns st'
       /\ jsonToolContent st' = Some (lit "[1,
2]")
       /\ jsonSize st' = 6%N
       /\ jsonLines st' = 2.
Proof.
  intros h st.
  assert (Hu : code_units (trim (jsonEditor_value st)) = true) by reflexivity.
  destruct (validateJSON_persists_trimmed h st) as (Hreturns & _).
  destruct (Hreturns eq_refl) as (st' & Hrun & H1 & _ & H2 & H3).
  split; [ exact Hu | ].
  exists st'. split; [ exact Hrun | ]. split; [ exact H1 | ].
  split; [ exact (H2 Hu) | exact H3 ].
Defined.

(* ================================================================== *)
(** * The page after [validateJSON] has returned *)

(** What a call that returned found and left. *)
Lemma validateJSON_found (h : Limits) (st st' : EditorState) :
  Exn.validateJSON h st = Returns st' ->
  let t := trim (jsonEditor_value st) in
  jsonEditor_value st' = jsonEditor_value st
  /\ setItem_error h t = None
  /\ (isValidJSON st' = true ->
      isEmpty t = false /\ JSON_parse t = Ok (jsonData st')
      /\ traverse_error h (jsonData st') = None
      /\ outcome st' = Valid (jsonData st'))
  /\ (isValidJSON st' = false ->
      jsonData st' = JNull
      /\ (isEmpty t = true /\ outcome st' = Empty
          \/ isEmpty t = false /\ JSON_parse t = SyntaxError
             /\ outcome st'
                = Invalid (displayed_error (SyntaxError_message h t))
          \/ exists v message,
               isEmpty t = false /\ JSON_parse t = Ok v
               /\ traverse_error h v = Some message
               /\ outcome st' = Invalid (displayed_error message))).
Proof.
  intros Hrun. cbv zeta.
  pose proof (validateJSON_returned h st st' Hrun) as Hstore.
  destruct (validateJSON_returns h st Hstore)
    as (st1 & Hrun1 & Hed & _ & _ & _ & _ & Hout & Hflag & _).
  rewrite Hrun in Hrun1. injection Hrun1 as <-.
  split; [ unfold jsonEditor_value; rewrite Hed; reflexivity | ].
  split; [ exact Hstore | ].
  destruct (isEmpty (trim (jsonEditor_value st))) eqn:Eempty.
  { injection Hflag as Hv Hd. split; [ congruence | ].
    intros _. split; [ exact Hd | ]. left. split; [ reflexivity | exact Hout ]. }
  pose proof (JSON_parse_fuel (trim (jsonEditor_value st))) as Hfuel.
  destruct (JSON_parse (trim (jsonEditor_value st))) as [ v | | ] eqn:Eparse;
    [ | | congruence ].
  - destruct (traverse_error h v) as [ message | ] eqn:Estack;
      injection Hflag as Hv Hd.
    + split; [ congruence | ]. intros _. split; [ exact Hd | ].
      right. right. exists v, message. repeat split; assumption.
    + split; [ | congruence ]. intros _. rewrite Hd.
      repeat split; assumption.
  - injection Hflag as Hv Hd. split; [ congruence | ].
    intros _. split; [ exact Hd | ]. right. left.
    repeat split; assumption.
Qed.

(** X2.  After every call of [validateJSON] that returns, the globals and
    the page agree with the text of the editor.  When [isValidJSON] is
    true, the trimmed text of the editor is JSON, [jsonData] is the value
    that [JSON.parse] returns for it, and the counters are the counts of
    that value; when it is false, [jsonData] is [null].  The success
    banner is shown exactly when the flag is true, the error banner
    exactly when the flag is false and the trimmed text is not empty; the
    store holds the trimmed text; the editor and the notification are as
    before. *)
Theorem validateJSON_consistent (h : Limits) (st st' : EditorState) :
  Exn.validateJSON h st = Returns st' ->
  let t := trim (jsonEditor_value st') in
  (isValidJSON st' = true ->
   isEmpty t = false /\ JSON_parse t = Ok (jsonData st')
   /\ jsonObjects st' = count_objects (jsonData st')
   /\ jsonArrays st' = count_arrays (jsonData st'))
  /\ (isValidJSON st' = false -> jsonData st' = JNull)
  /\ successDisplay_show st' = isValidJSON st'
  /\ errorDisplay_show st' = negb (isEmpty t) && negb (isValidJSON st')
  /\ jsonToolContent st' = Some t
  /\ editor_value st' = editor_value st
  /\ notification st' = notification st.
Proof.
  intros Hrun. cbv zeta.
  destruct (validateJSON_found h st st' Hrun)
    as (Hed & Hstore & Hvalid & Hinvalid).
  destruct (validateJSON_returns h st Hstore)
    as (st1 & Hrun1 & Hed1 & Hs & _ & _ & Hn & _ & _ & Hsucc & Herr & Hcount).
  rewrite Hrun in Hrun1. injection Hrun1 as <-.
  rewrite Hed.
  split.
  { intros Hflag. destruct (Hvalid Hflag) as (Hne & Hparse & _).
    rewrite Hflag in Hcount. injection Hcount as Ho Ha.
    unfold analyzeJSON in Ho, Ha. rewrite traverse_counts in Ho, Ha.
    repeat split; assumption. }
  split; [ intros Hflag; exact (proj1 (Hinvalid Hflag)) | ].
  repeat split; assumption.
Qed.

Lemma validateJSON_consistent_witness :
  let h := no_limits (fun _ => []) in
  let st := set_editor_value (lit " [{}] ") initialState in
  exists st',
    Exn.validateJSON h st = Returns st'
    /\ JSON_parse (lit "[{}]") = Ok (jsonData st')
    /\ jsonObjects st' = 1.
Proof.
  intros h st.
  destruct (validateJSON_returns h st eq_refl) as (st' & Hrun & _).
  exists st'. split; [ exact Hrun | ].
  destruct (validateJSON_consistent h st st' Hrun) as (Hvalid & _).
  assert (Hflag : isValidJSON st' = true).
  { unfold Exn.validateJSON in Hrun. vm_compute in Hrun.
    injection Hrun as <-. reflexivity. }
  destruct (Hvalid Hflag) as (_ & Hparse & Ho & _).
  assert (Hdata : jsonData st' = JArray [JObject []]).
  { unfold Exn.validateJSON in Hrun. vm_compute in Hrun.
    injection Hrun as <-. reflexivity. }
  split.
  - rewrite Hdata. vm_compute. reflexivity.
  - rewrite Ho, Hdata. reflexivity.
Defined.

(** X4.  A second call of [validateJSON] changes nothing when the host
    answers as during the first: if a call returned, a call on the page
    it left, on a host with the same answers for the text of the editor,
    returns the same page. *)
Theorem validateJSON_idempotent (h h' : Limits) (st st' : EditorState) :
  Exn.validateJSON h st = Returns st' ->
  same_answers h h' (trim (jsonEditor_value st)) ->
  Exn.validateJSON h' st' = Returns st'.
Proof.
  intros Hrun (Hs & Hm & Ht).
  pose proof (validateJSON_returned h st st' Hrun) as Hstore.
  rewrite Hstore in Hs.
  unfold Exn.validateJSON in Hrun. cbv zeta in Hrun. rewrite Hstore in Hrun.
  unfold Exn.validateJSON. cbv zeta.
  destruct (isEmpty (trim (jsonEditor_value st))) eqn:Eempty.
  { injection Hrun as <-.
    change (jsonEditor_value
              (Exn.shown_empty
                 (updateStatistics (trim (jsonEditor_value st))
                    (setItem_jsonToolContent (trim (jsonEditor_value st))
                       st))))
      with (jsonEditor_value st).
    rewrite Hs, Eempty. reflexivity. }
  destruct (JSON_parse (trim (jsonEditor_value st))) as [ v | | ] eqn:Eparse.
  - specialize (Ht v eq_refl).
    destruct (traverse_error h v) as [ message | ] eqn:Estack;
      injection Hrun as <-.
    + change (jsonEditor_value
                (Exn.shown_invalid message
                   (Exn.shown_valid v
                      (updateStatistics (trim (jsonEditor_value st))
                         (setItem_jsonToolContent
                            (trim (jsonEditor_value st)) st)))))
        with (jsonEditor_value st).
      rewrite Hs, Eempty, Eparse, Ht. reflexivity.
    + change (jsonEditor_value
                (updateJSONStatistics v
                   (Exn.shown_valid v
                      (updateStatistics (trim (jsonEditor_value st))
                         (setItem_jsonToolContent
                            (trim (jsonEditor_value st)) st)))))
        with (jsonEditor_value st).
      rewrite Hs, Eempty, Eparse, Ht. reflexivity.
  - injection Hrun as <-.
    change (jsonEditor_value
              (Exn.shown_invalid
                 (SyntaxError_message h (trim (jsonEditor_value st)))
                 (updateStatistics (trim (jsonEditor_value st))
                    (setItem_jsonToolContent (trim (jsonEditor_value st))
                       st))))
      with (jsonEditor_value st).
    rewrite Hs, Eempty, Eparse, Hm. reflexivity.
  - exfalso. apply (JSON_parse_fuel _ Eparse).
Qed.

Lemma validateJSON_idempotent_witness :
  let h := no_limits (fun _ => lit "Unexpected token") in
  let st := set_editor_value (lit " [1, 2 ") initialState in
  exists st',
    Exn.validateJSON h st = Returns st'
    /\ Exn.validateJSON h st' = Returns st'.
Proof.
  intros h st.
  destruct (validateJSON_returns h st eq_refl) as (st' & Hrun & _).
  exists st'. split; [ exact Hrun | ].
  apply (validateJSON_idempotent h h st st' Hrun).
  repeat split.
Defined.

(* ================================================================== *)
(** * Valid documents that the guard rejects *)

(** What [formatJSON] and [minifyJSON] notify behind the guard. *)
Lemma serialize_into_editor_notifies (h : Limits) (space : nat)
    (done failed : list N) (st : EditorState) :
  exists st0,
    Exn.serialize_into_editor h space done failed st
    = showNotification done (lit "success") st0
    \/ exists message,
         Exn.serialize_into_editor h space done failed st
         = showNotification (failed ++ message) (lit "error") st0.
Proof.
  unfold Exn.serialize_into_editor.
  destruct (stringify_error h (jsonData st) space) as [ message | ].
  - exists st. right. exists message. reflexivity.
  - cbv zeta.
    destruct (Exn.validateJSON h
                (set_editor_value (JSON_stringify (jsonData st) space) st))
      as [ st0 | message st0 ].
    + exists st0. left. reflexivity.
    + exists st0. right. exists message. reflexivity.
Qed.

Lemma guard_passed (h : Limits) (space : nat) (done failed : list N)
    (st : EditorState) :
  (done = lit "JSON formatted successfully!"
   /\ failed = lit "Error formatting JSON: ")
  \/ (done = lit "JSON minified successfully!"
      /\ failed = lit "Error minifying JSON: ") ->
  Exn.serialize_into_editor h space done failed st <> precondition_error st.
Proof.
  intros Hmsg Heq.
  destruct (serialize_into_editor_notifies h space done failed st)
    as (st0 & [H | (message & H)]);
    rewrite H in Heq; apply (f_equal notification) in Heq;
    cbn [notification showNotification precondition_error] in Heq.
  - apply (f_equal (fun o : option (list N * list N) =>
                      match o with Some (_, ty) => ty | None => [] end))
      in Heq.
    vm_compute in Heq. discriminate Heq.
  - apply (f_equal (fun o : option (list N * list N) =>
                      match o with Some (c :: _, _) => c | _ => 0%N end))
      in Heq.
    destruct Hmsg as [[_ ->] | [_ ->]]; vm_compute in Heq; discriminate Heq.
Qed.

(** C10.  A document that validates as Valid with the value [v] takes the
    precondition-error branch of [formatJSON] and of [minifyJSON]
    exactly when [v] is [null], [false], a zero or the empty string,
    whatever the host answers; the branch notifies [Please enter valid
    JSON first!] as an error and leaves the editor, the store, the value
    and the flag as they are.  Such documents exist: the texts [null],
    [false], [0], [-0] and the empty string literal validate as Valid
    on every host whose store accepts them and whose stack suffices for
    a scalar. *)
Theorem guard_rejects_falsy_documents (h : Limits) :
  (forall t v st,
     Exn.validateJSON h (set_editor_value t initialState) = Returns st ->
     outcome st = Valid v ->
     forall h' : Limits,
       (Exn.formatJSON h' st = precondition_error st
        <-> falsy_json v = true)
       /\ (Exn.minifyJSON h' st = precondition_error st
           <-> falsy_json v = true)
       /\ notification (precondition_error st)
          = Some (lit "Please enter valid JSON first!", lit "error")
       /\ editor_value (precondition_error st) = t
       /\ jsonToolContent (precondition_error st) = jsonToolContent st
       /\ jsonData (precondition_error st) = v
       /\ isValidJSON (precondition_error st) = true)
  /\ (let accepted (t : list N) (v : value) :=
        setItem_error h t = None -> traverse_error h v = None ->
        Exn.validate h t = Some (Valid v) /\ falsy_json v = true in
      accepted (lit "null") JNull
      /\ accepted (lit "false") (JBool false)
      /\ accepted (lit "0") (JNumber (S754_zero false))
      /\ accepted (lit "-0") (JNumber (S754_zero true))
      /\ accepted [Ch.QUOTE; Ch.QUOTE] (JString [])).
Proof.
  split.
  - intros t v st Hrun Hout h'.
    destruct (validateJSON_found h _ st Hrun) as (_ & Hstore & Hvalid & Hinvalid).
    destruct (validateJSON_returns h _ Hstore) as (st1 & Hrun1 & Hed & _).
    rewrite Hrun in Hrun1. injection Hrun1 as <-.
    cbn [editor_value set_editor_value] in Hed.
    assert (Hflag : isValidJSON st = true).
    { destruct (isValidJSON st) eqn:E; [ reflexivity | ].
      destruct (Hinvalid eq_refl)
        as (_ & [(_ & H) | [(_ & _ & H) | (v0 & m & _ & _ & _ & H)]]);
        rewrite H in Hout; discriminate Hout. }
    destruct (Hvalid Hflag) as (_ & Hparse & _ & Hout').
    rewrite Hout' in Hout. injection Hout as Hv.
    pose proof (truthy_parsed _ (JSON_parse_well_formed _ _ Hparse))
      as Htruthy.
    rewrite Hv in Htruthy.
    repeat split; try assumption.
    + unfold Exn.formatJSON. rewrite Hflag, Hv, Htruthy, negb_involutive.
      cbn [negb orb]. destruct (falsy_json v); [ reflexivity | ].
      intros H. exfalso. revert H. apply guard_passed. left. split; reflexivity.
    + unfold Exn.formatJSON. rewrite Hflag, Hv, Htruthy, negb_involutive.
      cbn [negb orb]. intros ->. reflexivity.
    + unfold Exn.minifyJSON. rewrite Hflag, Hv, Htruthy, negb_involutive.
      cbn [negb orb]. destruct (falsy_json v); [ reflexivity | ].
      intros H. exfalso. revert H. apply guard_passed. right. split; reflexivity.
    + unfold Exn.minifyJSON. rewrite Hflag, Hv, Htruthy, negb_involutive.
      cbn [negb orb]. intros ->. reflexivity.
  - assert (Hacc : forall t v,
              trim (normalize_newlines t) = t -> isEmpty t = false ->
              JSON_parse t = Ok v ->
              setItem_error h t = None -> traverse_error h v = None ->
              Exn.validate h t = Some (Valid v)).
    { intros t v Ht Hne Hp Hs Hst.
      pose proof (validate_returns h t) as H. cbv zeta in H.
      rewrite Ht in H. rewrite (H Hs), Hne, Hp, Hst. reflexivity. }
    cbv zeta. repeat split;
      apply Hacc; try assumption; vm_compute; reflexivity.
Qed.

Lemma guard_rejects_falsy_documents_witness :
  let h := no_limits (fun _ => lit "Unexpected token") in
  let st := state_of (Exn.validateJSON h
                        (set_editor_value (lit "0") initialState)) in
  Exn.validate h (lit "0") = Some (Valid (JNumber (S754_zero false)))
  /\ Exn.formatJSON h st = precondition_error st
  /\ notification (Exn.formatJSON h st)
     = Some (lit "Please enter valid JSON first!", lit "error").
Proof.
  intros h st.
  destruct (guard_rejects_falsy_documents h) as (Hguard & _ & _ & Hzero & _).
  destruct (Hzero eq_refl eq_refl) as (Hvalid & Hfalsy).
  assert (Hrun : Exn.validateJSON h (set_editor_value (lit "0") initialState)
                 = Returns st).
  { destruct (validateJSON_returns h (set_editor_value (lit "0") initialState)
                eq_refl) as (st' & Hrun & _).
    unfold st. rewrite Hrun. reflexivity. }
  assert (Hout : outcome st = Valid (JNumber (S754_zero false)))
    by (vm_compute; reflexivity).
  destruct (Hguard _ _ st Hrun Hout h) as ((_ & Hformat) & _ & Hnote & _).
  split; [ exact Hvalid | ].
  split; [ exact (Hformat Hfalsy) | ].
  rewrite (Hformat Hfalsy). exact Hnote.
Defined.

(* ================================================================== *)
(** * The text of [JSON.stringify] holds no carriage return *)

Abbreviation no_CR := (Forall (fun c : N => c <> Ch.CR)).

Ltac differ :=
  let H := fresh in intros H; vm_compute in H; discriminate H.

Lemma isDigit_not_CR c : isDigit c = true -> c <> Ch.CR.
Proof.
  unfold isDigit, Ch.CR. rewrite andb_true_iff, !N.leb_le. lia.
Qed.

Lemma number_text_no_CR x :
  no_CR (if isFiniteNumber x then Number_toString x else lit "null").
Proof.
  apply (number_text_chars (fun c => c <> Ch.CR));
    [ exact isDigit_not_CR | differ | differ | differ
    | repeat constructor; differ ].
Qed.

Lemma hex_char_not_CR d : hex_char d <> Ch.CR.
Proof.
  unfold hex_char, Ch.CR. destruct (d <? 10)%N; lia.
Qed.

Lemma quote_unit_no_CR c : no_CR (quote_unit c).
Proof.
  destruct (N.eq_dec c 13) as [-> | Hc];
    [ repeat constructor; differ | ].
  unfold quote_unit.
  repeat match goal with
         | |- context [if (c =? ?k)%N then _ else _] =>
             destruct (c =? k)%N; [ repeat constructor; differ | ]
         end.
  destruct ((c <? 32)%N || isHighSurrogate c || isLowSurrogate c).
  - unfold unicodeEscape.
    repeat constructor; try apply hex_char_not_CR; differ.
  - repeat constructor. exact Hc.
Qed.

Lemma quote_units_no_CR (s : list N) : no_CR (quote_units s).
Proof.
  induction s as [s IH] using (induction_ltof1 _ (@List.length N)).
  unfold ltof in IH.
  destruct s as [ | c [ | d r ] ]; [ constructor | | ].
  - rewrite quote_units_single. apply quote_unit_no_CR.
  - rewrite quote_units_pair.
    destruct (isHighSurrogate c && isLowSurrogate d) eqn:E.
    + apply andb_true_iff in E as [Ec Ed].
      unfold isHighSurrogate in Ec. unfold isLowSurrogate in Ed.
      apply andb_true_iff in Ec as [Ec _]. apply andb_true_iff in Ed as [Ed _].
      apply N.leb_le in Ec, Ed.
      constructor; [ unfold Ch.CR; lia | ].
      constructor; [ unfold Ch.CR; lia | ].
      apply IH. cbn [List.length]. lia.
    + apply Forall_app. split; [ apply quote_unit_no_CR | ].
      apply IH. cbn [List.length]. lia.
Qed.

Lemma quoted_no_CR (s : list N) : no_CR (QuoteJSONString s).
Proof.
  unfold QuoteJSONString. apply Forall_app. split;
    [ repeat constructor; differ | ].
  apply Forall_app. split; [ apply quote_units_no_CR | ].
  repeat constructor; differ.
Qed.

Lemma join_no_CR (sep : list N) (parts : list (list N)) :
  no_CR sep -> Forall (fun p => no_CR p) parts -> no_CR (join sep parts).
Proof.
  intros Hsep Hparts. induction Hparts as [ | p ps Hp Hps IH ];
    [ constructor | ].
  destruct ps as [ | q ps ]; [ exact Hp | ].
  rewrite join_cons. apply Forall_app. split; [ exact Hp | ].
  apply Forall_app. split; [ exact Hsep | exact IH ].
Qed.

Lemma wrap_no_CR open close gap stepback inner (partial : list (list N)) :
  open <> Ch.CR -> close <> Ch.CR -> no_CR stepback -> no_CR inner ->
  Forall (fun p => no_CR p) partial ->
  no_CR (wrap open close gap stepback inner partial).
Proof.
  intros Ho Hc Hstep Hinner Hparts.
  assert (Hlf : Ch.LF <> Ch.CR) by differ.
  assert (Hcomma : Ch.COMMA <> Ch.CR) by differ.
  unfold wrap. destruct partial as [ | p ps ];
    [ repeat constructor; assumption | ].
  destruct (isEmpty gap).
  - apply Forall_app. split; [ repeat constructor; assumption | ].
    apply Forall_app. split;
      [ apply join_no_CR; [ repeat constructor; assumption | exact Hparts ]
      | repeat constructor; assumption ].
  - apply Forall_app. split; [ repeat constructor; assumption | ].
    apply Forall_app. split; [ repeat constructor; assumption | ].
    apply Forall_app. split; [ exact Hinner | ].
    apply Forall_app. split.
    + apply join_no_CR; [ | exact Hparts ].
      apply Forall_app. split; [ repeat constructor; assumption | ].
      exact Hinner.
    + apply Forall_app. split; [ repeat constructor; assumption | ].
      apply Forall_app. split; [ exact Hstep | ].
      repeat constructor; assumption.
Qed.

Lemma serialize_no_CR (v : value) :
  forall gap indent,
    no_CR gap -> no_CR indent -> no_CR (SerializeJSONProperty gap indent v).
Proof.
  induction v as [ | b | x | s | l IH | ps IH ] using value_induction;
    intros gap indent Hgap Hindent.
  - repeat constructor; differ.
  - destruct b; repeat constructor; differ.
  - apply number_text_no_CR.
  - apply quoted_no_CR.
  - cbn [SerializeJSONProperty]. cbv zeta.
    apply wrap_no_CR; try differ;
      [ exact Hindent | apply Forall_app; split; assumption | ].
    rewrite Forall_forall in IH. apply Forall_forall. intros p Hp.
    apply in_map_iff in Hp as (w & <- & Hw).
    apply (IH w Hw); [ exact Hgap | apply Forall_app; split; assumption ].
  - cbn [SerializeJSONProperty]. cbv zeta.
    apply wrap_no_CR; try differ;
      [ exact Hindent | apply Forall_app; split; assumption | ].
    rewrite Forall_forall in IH. apply Forall_forall. intros p Hp.
    apply in_map_iff in Hp as ([k w] & <- & Hw).
    apply Forall_app. split; [ apply quoted_no_CR | ].
    apply Forall_app. split; [ repeat constructor; differ | ].
    apply Forall_app. split;
      [ destruct (isEmpty gap); repeat constructor; differ | ].
    apply (IH _ Hw); [ exact Hgap | apply Forall_app; split; assumption ].
Qed.

Lemma stringify_no_CR (v : value) (space : nat) :
  ~ In Ch.CR (JSON_stringify v space).
Proof.
  unfold JSON_stringify. intros H.
  assert (Hgap : no_CR (List.repeat Ch.SP (Nat.min 10 space))).
  { apply Forall_forall. intros c Hc. apply repeat_spec in Hc. subst c.
    differ. }
  pose proof (serialize_no_CR v _ [] Hgap (Forall_nil _)) as Hall.
  rewrite Forall_forall in Hall. apply (Hall _ H). reflexivity.
Qed.

(** The script reads the text of a value from the editor as it wrote
    it. *)
Lemma stringified_read (v : value) (space : nat) (st : EditorState) :
  trim (jsonEditor_value (set_editor_value (JSON_stringify v space) st))
  = JSON_stringify v space.
Proof.
  rewrite jsonEditor_value_fixed by apply stringify_no_CR.
  apply stringify_trimmed.
Qed.

(* ================================================================== *)
(** * [formatJSON] and [minifyJSON] with the exceptions of the host *)

Lemma validateJSON_editor (h : Limits) (st : EditorState) :
  editor_value (state_of (Exn.validateJSON h st)) = editor_value st.
Proof.
  destruct (setItem_error h (trim (jsonEditor_value st))) as [ m | ] eqn:E.
  - rewrite (validateJSON_throws h st m E). reflexivity.
  - destruct (validateJSON_returns h st E) as (st' & -> & Hed & _).
    exact Hed.
Qed.

(** The page after the text of a value was put into the editor and
    validated by a store that accepts the text. *)
Lemma validateJSON_stringified_fields (h : Limits) (v : value) (space : nat)
    (st : EditorState) :
  well_formed v = true ->
  let t := JSON_stringify v space in
  setItem_error h t = None ->
  exists st',
    Exn.validateJSON h (set_editor_value t st) = Returns st'
    /\ editor_value st' = t
    /\ jsonToolContent st' = Some t
    /\ jsonSize st' = utf8_length t
    /\ notification st' = notification st
    /\ match traverse_error h (written_value v) with
       | None =>
           outcome st' = Valid (written_value v)
           /\ isValidJSON st' = true
           /\ jsonData st' = written_value v
           /\ jsonObjects st' = count_objects v
           /\ jsonArrays st' = count_arrays v
       | Some message =>
           outcome st' = Invalid (displayed_error message)
           /\ isValidJSON st' = false
           /\ jsonData st' = JNull
           /\ jsonObjects st' = jsonObjects st
           /\ jsonArrays st' = jsonArrays st
       end.
Proof.
  intros Hwf t Hstore.
  pose proof (stringified_read v space st) as Hread. fold t in Hread.
  destruct (validateJSON_returns h (set_editor_value t st))
    as (st' & Hrun & Hed & Hs & Hsize & _ & Hn & Hout & Hflag & _ & _ & Hc).
  { rewrite Hread. exact Hstore. }
  rewrite Hread in Hs, Hsize, Hout, Hflag.
  destruct (stringify_trimmed v space) as [_ Hne]. fold t in Hne.
  rewrite Hne in Hout, Hflag.
  unfold t in Hout, Hflag.
  rewrite (parse_stringify_written v space Hwf) in Hout, Hflag.
  exists st'. split; [ exact Hrun | ]. split; [ exact Hed | ].
  split; [ exact Hs | ]. split; [ exact Hsize | ]. split; [ exact Hn | ].
  destruct (traverse_error h (written_value v)) as [ message | ];
    injection Hflag as Hv Hd; rewrite Hv in Hc; injection Hc as Ho Ha.
  - repeat split; assumption.
  - rewrite Hd in Ho, Ha. unfold analyzeJSON in Ho, Ha.
    rewrite traverse_counts in Ho, Ha. cbn [objects arrays] in Ho, Ha.
    destruct (written_value_counts v) as [Eo Ea].
    rewrite Eo in Ho. rewrite Ea in Ha.
    repeat split; assumption.
Qed.

Lemma validateJSON_stringified_throws (h : Limits) (v : value) (space : nat)
    (st : EditorState) (message : list N) :
  setItem_error h (JSON_stringify v space) = Some message ->
  Exn.validateJSON h (set_editor_value (JSON_stringify v space) st)
  = Throws message (set_editor_value (JSON_stringify v space) st).
Proof.
  intros H. apply validateJSON_throws. rewrite stringified_read. exact H.
Qed.

(** On a host that serves the document, the run behind the guard is the
    one of [formatJSON] and [minifyJSON] above. *)
Lemma serialize_no_exception (h : Limits) (space : nat) (done failed : list N)
    (st : EditorState) :
  well_formed (jsonData st) = true -> serves h (jsonData st) space ->
  Exn.serialize_into_editor h space done failed st
  = showNotification done (lit "success")
      (validateJSON (SyntaxError_message h)
         (set_editor_value (JSON_stringify (jsonData st) space) st)).
Proof.
  intros Hwf (Hwrite & Hstore & Hstack).
  unfold Exn.serialize_into_editor. rewrite Hwrite. cbv zeta.
  rewrite validateJSON_no_exception; [ reflexivity | | | ];
    cbn [set_editor_value editor_value].
  - apply stringify_no_CR.
  - rewrite (proj1 (stringify_trimmed _ _)). exact Hstore.
  - intros v. rewrite (proj1 (stringify_trimmed _ _)).
    rewrite (parse_stringify_written _ space Hwf).
    intros H. injection H as <-. exact Hstack.
Qed.

Lemma formatJSON_no_exception (h : Limits) (st : EditorState) :
  isValidJSON st = true -> truthy (jsonData st) = true ->
  well_formed (jsonData st) = true ->
  (serves h (jsonData st) 2 ->
   Exn.formatJSON h st = formatJSON (SyntaxError_message h) st)
  /\ (serves h (jsonData st) 0 ->
      Exn.minifyJSON h st = minifyJSON (SyntaxError_message h) st).
Proof.
  intros Hvalid Htruthy Hwf.
  destruct (formatJSON_unfold (SyntaxError_message h) st Hvalid Htruthy)
    as [-> ->].
  unfold Exn.formatJSON, Exn.minifyJSON. rewrite Hvalid, Htruthy.
  cbn [negb orb].
  split; intros Hserves; apply serialize_no_exception; assumption.
Qed.

(** What the body behind the guard leaves in the editor. *)
Lemma serialize_into_editor_value (h : Limits) (space : nat)
    (done failed : list N) (st : EditorState) :
  (stringify_error h (jsonData st) space = None ->
   editor_value (Exn.serialize_into_editor h space done failed st)
   = JSON_stringify (jsonData st) space)
  /\ (forall message,
        stringify_error h (jsonData st) space = Some message ->
        Exn.serialize_into_editor h space done failed st
        = showNotification (failed ++ message) (lit "error") st).
Proof.
  unfold Exn.serialize_into_editor. split.
  - intros ->. cbv zeta.
    pose proof (validateJSON_editor h
                  (set_editor_value (JSON_stringify (jsonData st) space) st))
      as H.
    destruct (Exn.validateJSON h _); exact H.
  - intros message ->. reflexivity.
Qed.

(** C8, as the code has it.  For every value, [format] is the pretty form
    of the specification (two spaces for each level of nesting) and
    [minify] the compact form, which is [format] without insignificant
    whitespace; both list the elements of an array and the members of an
    object in the order in which the value holds them.  On a valid
    document whose value is truthy this is what [formatJSON] and
    [minifyJSON] put into the editor when [JSON.stringify] returns; when
    it throws, the editor and the rest of the page are as before and the
    message of the exception is notified as an error.  In a parsed value
    the keys of every object stand in property order, array indices first
    and ascending; the other keys follow in the order in which the text
    first has them. *)
Theorem format_minify_layout :
  (forall v,
     format v = spec_pretty 0 v
     /\ minify v = spec_compact v
     /\ strip_layout Outside (format v) = minify v
     /\ strip_layout Outside (minify v) = minify v)
  /\ (forall h st,
        isValidJSON st = true -> truthy (jsonData st) = true ->
        (stringify_error h (jsonData st) 2 = None ->
         editor_value (Exn.formatJSON h st) = format (jsonData st))
        /\ (forall message,
              stringify_error h (jsonData st) 2 = Some message ->
              Exn.formatJSON h st
              = showNotification (lit "Error formatting JSON: " ++ message)
                  (lit "error") st)
        /\ (stringify_error h (jsonData st) 0 = None ->
            editor_value (Exn.minifyJSON h st) = minify (jsonData st))
        /\ (forall message,
              stringify_error h (jsonData st) 0 = Some message ->
              Exn.minifyJSON h st
              = showNotification (lit "Error minifying JSON: " ++ message)
                  (lit "error") st))
  /\ (forall t v, JSON_parse t = Ok v -> keys_ordered v = true)
  /\ (forall ms o,
        evaluate (JObject ms) = JObject o ->
        other_keys (List.map fst o)
        = first_occurrences [] (other_keys (List.map fst ms))
        /\ forall k, In k (List.map fst o) <-> In k (List.map fst ms)).
Proof.
  split; [ exact format_layout | ].
  split; [ | split; [ | exact evaluate_object_keys ] ].
  - intros h st Hvalid Htruthy.
    unfold Exn.formatJSON, Exn.minifyJSON. rewrite Hvalid, Htruthy.
    cbn [negb orb].
    destruct (serialize_into_editor_value h 2
                (lit "JSON formatted successfully!")
                (lit "Error formatting JSON: ") st) as [Hf Hfe].
    destruct (serialize_into_editor_value h 0
                (lit "JSON minified successfully!")
                (lit "Error minifying JSON: ") st) as [Hm Hme].
    split; [ exact Hf | ]. split; [ exact Hfe | ].
    split; [ exact Hm | exact Hme ].
  - intros t v H. apply well_formed_keys_ordered.
    apply (JSON_parse_well_formed t v H).
Qed.

Lemma format_minify_layout_witness :
  let h := no_limits (fun _ => []) in
  let t := lit "{" ++ QuoteJSONString (lit "b") ++ lit ":1,"
           ++ QuoteJSONString (lit "1") ++ lit ":2}" in
  let v := JObject [(lit "1", JNumber (decimal_to_number false 2 0));
                    (lit "b", JNumber (decimal_to_number false 1 0))] in
  let st := state_of (Exn.validateJSON h (set_editor_value t initialState)) in
  JSON_parse t = Ok v
  /\ keys_ordered v = true
  /\ editor_value (Exn.formatJSON h st) = format (jsonData st).
Proof.
  intros h t v st.
  assert (H : JSON_parse t = Ok v) by (vm_compute; reflexivity).
  assert (Hvalid : isValidJSON st = true) by (vm_compute; reflexivity).
  assert (Htruthy : truthy (jsonData st) = true) by (vm_compute; reflexivity).
  destruct format_minify_layout as (_ & Hprogram & Hkeys & _).
  split; [ exact H | ].
  split; [ exact (Hkeys t v H) | ].
  exact (proj1 (Hprogram h st Hvalid Htruthy) eq_refl).
Defined.

(** X6.  On a valid document whose value [v] is truthy, [formatJSON] and
    [minifyJSON] end in one of four ways.  When [JSON.stringify] throws,
    the page is as before with the message of the exception notified as
    an error.  Otherwise the editor holds the text of [v].  When the
    store refuses that text, nothing else has changed (the store, the
    flag, the value and the counters are those of the old document) and
    the message is notified as an error.  When the store accepts it, the
    text is stored and measured and the success notification is shown;
    the document is then Valid with the value [written_value v] and the
    counters of [v], unless the analysis exhausts the stack, in which
    case it is Invalid with the displayed message, [jsonData] is [null]
    and the counters are as before. *)
Theorem format_minify_valid_document (h : Limits) (st : EditorState) :
  isValidJSON st = true -> truthy (jsonData st) = true ->
  well_formed (jsonData st) = true ->
  let v := jsonData st in
  let run (space : nat) (done failed : list N) (st' : EditorState) :=
    let t := JSON_stringify v space in
    match stringify_error h v space with
    | Some message =>
        st' = showNotification (failed ++ message) (lit "error") st
    | None =>
        editor_value st' = t
        /\ match setItem_error h t with
           | Some message =>
               st' = showNotification (failed ++ message) (lit "error")
                       (set_editor_value t st)
           | None =>
               jsonToolContent st' = Some t
               /\ jsonSize st' = utf8_length t
               /\ notification st' = Some (done, lit "success")
               /\ match traverse_error h (written_value v) with
                  | None =>
                      outcome st' = Valid (written_value v)
                      /\ isValidJSON st' = true
                      /\ jsonData st' = written_value v
                      /\ jsonObjects st' = count_objects v
                      /\ jsonArrays st' = count_arrays v
                  | Some message =>
                      outcome st' = Invalid (displayed_error message)
                      /\ isValidJSON st' = false
                      /\ jsonData st' = JNull
                      /\ jsonObjects st' = jsonObjects st
                      /\ jsonArrays st' = jsonArrays st
                  end
           end
    end in
  run 2 (lit "JSON formatted successfully!") (lit "Error formatting JSON: ")
    (Exn.formatJSON h st)
  /\ run 0 (lit "JSON minified successfully!") (lit "Error minifying JSON: ")
       (Exn.minifyJSON h st).
Proof.
  intros Hvalid Htruthy Hwf v run.
  assert (Hrun : forall space done failed,
            run space done failed
              (Exn.serialize_into_editor h space done failed st)).
  { intros space done failed. subst run v. cbv beta zeta.
    unfold Exn.serialize_into_editor.
    destruct (stringify_error h (jsonData st) space) as [ m | ];
      [ reflexivity | ].
    cbv zeta.
    destruct (setItem_error h (JSON_stringify (jsonData st) space))
      as [ m | ] eqn:Estore.
    - rewrite (validateJSON_stringified_throws h _ space st m Estore).
      split; reflexivity.
    - destruct (validateJSON_stringified_fields h _ space st Hwf Estore)
        as (st' & -> & Hed & Hs & Hsize & _ & Hrest).
      cbn [showNotification editor_value jsonToolContent jsonSize
             notification].
      split; [ exact Hed | ]. split; [ exact Hs | ].
      split; [ exact Hsize | ]. split; [ reflexivity | ].
      destruct (traverse_error h (written_value (jsonData st)));
        exact Hrest. }
  unfold Exn.formatJSON, Exn.minifyJSON. rewrite Hvalid, Htruthy.
  cbn [negb orb]. split; apply Hrun.
Qed.

Lemma format_minify_valid_document_witness :
  let h := no_limits (fun _ : list N => @nil N) in
  let st := state_of (Exn.validateJSON h
                        (set_editor_value (lit "[1e999, {}]")
                           initialState)) in
  editor_value (Exn.formatJSON h st) = format (jsonData st)
  /\ outcome (Exn.minifyJSON h st) = Valid (JArray [JNull; JObject []]).
Proof.
  intros h st.
  assert (Hvalid : isValidJSON st = true) by (vm_compute; reflexivity).
  assert (Htruthy : truthy (jsonData st) = true) by (vm_compute; reflexivity).
  assert (Hwf : well_formed (jsonData st) = true)
    by (vm_compute; reflexivity).
  destruct (format_minify_valid_document h st Hvalid Htruthy Hwf)
    as [Hf Hm].
  cbv beta zeta in Hf, Hm.
  change (stringify_error h (jsonData st) 2) with (@None (list N)) in Hf.
  change (stringify_error h (jsonData st) 0) with (@None (list N)) in Hm.
  change (setItem_error h (JSON_stringify (jsonData st) 0))
    with (@None (list N)) in Hm.
  change (traverse_error h (written_value (jsonData st)))
    with (@None (list N)) in Hm.
  cbv iota in Hf, Hm.
  destruct Hf as (Hed & _). destruct Hm as (_ & _ & _ & _ & Hout & _).
  split; [ exact Hed | exact Hout ].
Defined.

(** The page that [formatJSON] and [minifyJSON] leave on a host that
    raises no exception. *)
Lemma serialized_document (error_message : list N -> list N)
    (st : EditorState) :
  isValidJSON st = true -> truthy (jsonData st) = true ->
  well_formed (jsonData st) = true ->
  let w := written_value (jsonData st) in
  (isValidJSON (formatJSON error_message st) = true
   /\ jsonData (formatJSON error_message st) = w)
  /\ (isValidJSON (minifyJSON error_message st) = true
      /\ jsonData (minifyJSON error_message st) = w).
Proof.
  intros Hvalid Htruthy Hwf. cbv zeta.
  destruct (formatJSON_unfold error_message st Hvalid Htruthy) as [-> ->].
  unfold format, minify.
  rewrite !(validateJSON_stringified error_message _ _ st Hwf).
  repeat split.
Qed.

(** X7.  On a valid document whose written value is truthy and on a host
    that serves the document and its written value, a second
    [formatJSON] or [minifyJSON] finds nothing to change, and each of the
    two undoes the layout of the other: the page after [minifyJSON] is
    the same whether or not [formatJSON] ran before, and conversely. *)
Theorem format_minify_compose (h : Limits) (st : EditorState) :
  isValidJSON st = true -> well_formed (jsonData st) = true ->
  truthy (written_value (jsonData st)) = true ->
  let v := jsonData st in
  serves h v 2 -> serves h v 0 ->
  serves h (written_value v) 2 -> serves h (written_value v) 0 ->
  Exn.formatJSON h (Exn.formatJSON h st) = Exn.formatJSON h st
  /\ Exn.minifyJSON h (Exn.minifyJSON h st) = Exn.minifyJSON h st
  /\ Exn.minifyJSON h (Exn.formatJSON h st) = Exn.minifyJSON h st
  /\ Exn.formatJSON h (Exn.minifyJSON h st) = Exn.formatJSON h st.
Proof.
  intros Hvalid Hwf Htruthy' v H2 H0 Hw2 Hw0. subst v.
  pose proof (written_value_truthy _ Htruthy') as Htruthy.
  destruct (formatJSON_no_exception h st Hvalid Htruthy Hwf) as [Hf Hm].
  rewrite (Hf H2), (Hm H0).
  destruct (serialized_document (SyntaxError_message h) st Hvalid Htruthy Hwf)
    as [[Hfv Hfd] [Hmv Hmd]].
  pose proof (written_value_well_formed _ Hwf) as Hwfw.
  destruct (formatJSON_no_exception h
              (formatJSON (SyntaxError_message h) st) Hfv)
    as [Hff Hmf]; [ rewrite Hfd; exact Htruthy' | rewrite Hfd; exact Hwfw | ].
  destruct (formatJSON_no_exception h
              (minifyJSON (SyntaxError_message h) st) Hmv)
    as [Hfm Hmm]; [ rewrite Hmd; exact Htruthy' | rewrite Hmd; exact Hwfw | ].
  rewrite Hfd in Hff, Hmf. rewrite Hmd in Hfm, Hmm.
  rewrite (Hff Hw2), (Hmf Hw0), (Hfm Hw2), (Hmm Hw0).
  apply (format_minify_compose_unlimited (SyntaxError_message h) st);
    assumption.
Qed.

Lemma format_minify_compose_witness :
  let h := no_limits (fun _ : list N => @nil N) in
  let st := state_of (Exn.validateJSON h
                        (set_editor_value (lit "[-0, {}]") initialState)) in
  Exn.minifyJSON h (Exn.formatJSON h st) = Exn.minifyJSON h st.
Proof.
  intros h st.
  assert (Hvalid : isValidJSON st = true) by (vm_compute; reflexivity).
  assert (Hwf : well_formed (jsonData st) = true)
    by (vm_compute; reflexivity).
  assert (Htruthy : truthy (written_value (jsonData st)) = true)
    by (vm_compute; reflexivity).
  assert (Hserves : forall v space, serves h v space)
    by (intros v space; repeat split).
  exact (proj1 (proj2 (proj2
           (format_minify_compose h st Hvalid Hwf Htruthy
              (Hserves _ _) (Hserves _ _) (Hserves _ _) (Hserves _ _))))).
Defined.

(* ================================================================== *)
(** * [compressJSON] with the exceptions of the host *)

Lemma compress_no_CR (s : list N) :
  isEmpty (trim s) = false -> ~ In Ch.CR (compress s).
Proof.
  intros Hne Hin.
  destruct (compress_compact s Hne) as (_ & Hcf & _).
  pose proof (compact_form_spaces _ _ Hcf _ Hin eq_refl) as H.
  discriminate H.
Qed.

Lemma compress_blank (s : list N) :
  isEmpty (trim s) = true -> compress s = s.
Proof. intros H. unfold compress. rewrite H. reflexivity. Qed.

Lemma compress_text (s : list N) :
  isEmpty (trim s) = false -> compressed (trim s) = compress s.
Proof. intros H. unfold compress. rewrite H. reflexivity. Qed.

Lemma compressJSON_editor (h : Limits) (st : EditorState) :
  editor_value (state_of (Exn.compressJSON h st))
  = if isEmpty (trim (jsonEditor_value st)) then editor_value st
    else compress (jsonEditor_value st).
Proof.
  unfold Exn.compressJSON. cbv zeta.
  destruct (isEmpty (trim (jsonEditor_value st))) eqn:E; [ reflexivity | ].
  rewrite (compress_text _ E).
  pose proof (validateJSON_editor h
                (set_editor_value (compress (jsonEditor_value st)) st)) as H.
  destruct (Exn.validateJSON h _); exact H.
Qed.

Lemma compress_unfold (s : list N) :
  compress s = if isEmpty (trim s) then s else spec_compress (trim s).
Proof.
  unfold compress.
  destruct (isEmpty (trim s)) eqn:E; [ reflexivity | ].
  destruct (trim_shape s) as [Hc Hs].
  apply compressed_trimmed; assumption.
Qed.

(** C5, as the code has it.  [compressJSON] leaves a text alone whose
    trimmed form is empty, and notifies [Please enter some JSON first!]
    as an error with the rest of the page unchanged; on any other text,
    valid JSON or not, it leaves in the editor the transform of the
    specification (collapse every run of whitespace to one space, then
    drop the whitespace next to a structural character) applied to the
    trimmed text.  This holds of the run without exceptions and, for the
    text that the editor returns, of the run on any host: the editor is
    assigned before [validateJSON] is called. *)
Theorem compress_refines_spec :
  (forall error_message st,
     editor_value (compressJSON error_message st)
     = compress (editor_value st))
  /\ (forall s,
        compress s = if isEmpty (trim s) then s else spec_compress (trim s))
  /\ (forall error_message st,
        isEmpty (trim (editor_value st)) = true ->
        compressJSON error_message st
        = showNotification (lit "Please enter some JSON first!")
            (lit "error") st)
  /\ (forall h st,
        jsonEditor_value (state_of (Exn.compressJSON h st))
        = compress (jsonEditor_value st)
        /\ (isEmpty (trim (jsonEditor_value st)) = true ->
            Exn.compressJSON h st
            = Returns
                (showNotification (lit "Please enter some JSON first!")
                   (lit "error") st))).
Proof.
  split; [ exact compressJSON_editor_value | ].
  split; [ exact compress_unfold | ].
  split.
  - intros error_message st H. unfold compressJSON. cbv zeta.
    rewrite H. reflexivity.
  - intros h st. split.
    + unfold jsonEditor_value at 1. rewrite compressJSON_editor.
      destruct (isEmpty (trim (jsonEditor_value st))) eqn:E.
      * rewrite (compress_blank _ E). reflexivity.
      * apply normalize_newlines_fixed. apply compress_no_CR. exact E.
    + intros H. unfold Exn.compressJSON. cbv zeta. rewrite H. reflexivity.
Qed.

(** X9.  On an editor that is not blank, [compressJSON] leaves one line
    in the editor: the only whitespace left is single spaces, none of
    them at either end or next to one of the characters [{ } [ ] , :],
    and the text is no longer than the text it read.  When the store
    accepts that line, it is the stored text, the line count is 1 and
    the success notification is shown; when the store refuses it,
    [compressJSON] throws with nothing changed but the editor, and
    nothing is notified. *)
Theorem compressJSON_one_line (h : Limits) (st : EditorState) :
  isEmpty (trim (jsonEditor_value st)) = false ->
  let t := compress (jsonEditor_value st) in
  let st' := state_of (Exn.compressJSON h st) in
  editor_value st' = t
  /\ compact_form true t = true
  /\ (forall c, In c t -> isWS c = true -> c = Ch.SP)
  /\ List.length t <= List.length (jsonEditor_value st)
  /\ (setItem_error h t = None ->
      Exn.compressJSON h st = Returns st'
      /\ jsonLines st' = 1
      /\ jsonToolContent st' = Some t
      /\ notification st'
         = Some (lit "Whitespace removed successfully!", lit "success"))
  /\ (forall message,
        setItem_error h t = Some message ->
        Exn.compressJSON h st = Throws message (set_editor_value t st)).
Proof.
  intros Hne. cbv zeta.
  rewrite compressJSON_editor, Hne.
  destruct (compress_compact _ Hne) as (Hspec & Hcf & Hne' & Htrim).
  pose proof (compact_form_spaces _ _ Hcf) as Hsp.
  split; [ reflexivity | ]. split; [ exact Hcf | ]. split; [ exact Hsp | ].
  split.
  { rewrite Hspec. unfold spec_compress.
    etransitivity; [ apply remove_adjacent_length | ].
    etransitivity; [ apply collapse_length | apply trim_length ]. }
  assert (Hread : trim (jsonEditor_value
                          (set_editor_value (compress (jsonEditor_value st))
                             st))
                  = compress (jsonEditor_value st)).
  { rewrite jsonEditor_value_fixed by (apply compress_no_CR; exact Hne).
    exact Htrim. }
  unfold Exn.compressJSON. cbv zeta. rewrite Hne, (compress_text _ Hne).
  split.
  - intros Hstore.
    destruct (validateJSON_returns h
                (set_editor_value (compress (jsonEditor_value st)) st))
      as (st' & -> & _ & Hs & _ & Hlines & _).
    { rewrite Hread. exact Hstore. }
    rewrite Hread in Hs, Hlines. rewrite Hne' in Hlines.
    cbn [state_of showNotification jsonLines jsonToolContent notification].
    split; [ reflexivity | ].
    split; [ | split; [ exact Hs | reflexivity ] ].
    rewrite Hlines, split_length.
    rewrite (proj1 (count_occ_not_In N.eq_dec _ _)); [ reflexivity | ].
    intros Hin. specialize (Hsp _ Hin eq_refl). discriminate Hsp.
  - intros message Hstore.
    rewrite (validateJSON_throws h _ message); [ reflexivity | ].
    rewrite Hread. exact Hstore.
Qed.

Lemma compressJSON_one_line_witness :
  let h := no_limits (fun _ : list N => @nil N) in
  let st := set_editor_value (lit "
   { a :  1 ,
     b }  ") initialState in
  editor_value (state_of (Exn.compressJSON h st)) = lit "{a:1,b}"
  /\ jsonLines (state_of (Exn.compressJSON h st)) = 1.
Proof.
  intros h st.
  assert (Hne : isEmpty (trim (jsonEditor_value st)) = false) by reflexivity.
  destruct (compressJSON_one_line h st Hne) as (Hed & _ & _ & _ & Hok & _).
  split; [ rewrite Hed; vm_compute; reflexivity | ].
  exact (proj1 (proj2 (Hok eq_refl))).
Defined.

(** X10.  For a value in which no string and no key holds whitespace,
    [compress] turns the text of [format] into the text of [minify] and
    leaves the text of [minify] as it is; so [compressJSON] after a
    [formatJSON] or a [minifyJSON] in which [JSON.stringify] returned
    leaves the text of [minify] in the editor, whatever the store and
    the stack do. *)
Theorem compress_formatted (v : value) :
  strings_no_ws v = true ->
  compress (format v) = minify v
  /\ compress (minify v) = minify v
  /\ forall (h h' : Limits) (st : EditorState),
       isValidJSON st = true -> truthy v = true -> jsonData st = v ->
       (stringify_error h v 2 = None ->
        editor_value (state_of (Exn.compressJSON h' (Exn.formatJSON h st)))
        = minify v)
       /\ (stringify_error h v 0 = None ->
           editor_value (state_of (Exn.compressJSON h' (Exn.minifyJSON h st)))
           = minify v).
Proof.
  intros Hv.
  split; [ apply compress_stringified; exact Hv | ].
  split; [ apply compress_stringified; exact Hv | ].
  intros h h' st Hvalid Htruthy Hdata. subst v.
  assert (Hafter : forall space st1,
            editor_value st1 = JSON_stringify (jsonData st) space ->
            editor_value (state_of (Exn.compressJSON h' st1))
            = minify (jsonData st)).
  { intros space st1 Hed. rewrite compressJSON_editor.
    unfold jsonEditor_value. rewrite Hed.
    rewrite (normalize_newlines_fixed _ (stringify_no_CR _ space)).
    rewrite (proj1 (stringify_trimmed _ space)).
    rewrite (proj2 (stringify_trimmed _ space)).
    apply compress_stringified. exact Hv. }
  unfold Exn.formatJSON, Exn.minifyJSON. rewrite Hvalid, Htruthy.
  cbn [negb orb].
  split; intros Hwrite.
  - apply (Hafter 2).
    apply (proj1 (serialize_into_editor_value h 2 _ _ st) Hwrite).
  - apply (Hafter 0).
    apply (proj1 (serialize_into_editor_value h 0 _ _ st) Hwrite).
Qed.

Lemma compress_formatted_witness :
  let v := JObject [(lit "a", JArray [JNumber (decimal_to_number false 1 0);
                                      JString (lit "x,y")]);
                    (lit "b", JNull)] in
  strings_no_ws v = true /\ compress (format v) = minify v.
Proof.
  intros v.
  assert (H : strings_no_ws v = true) by reflexivity.
  split; [ exact H | ].
  exact (proj1 (compress_formatted v H)).
Defined.

(* ================================================================== *)
(** * Loading the page, with the exceptions of the host *)

(** What a call that returns leaves depends on the trimmed text of the
    editor and on the answers of the host for it. *)
Lemma validateJSON_determined (h h' : Limits) (st st' r r' : EditorState) :
  Exn.validateJSON h st = Returns r ->
  Exn.validateJSON h' st' = Returns r' ->
  trim (jsonEditor_value st') = trim (jsonEditor_value st) ->
  same_answers h h' (trim (jsonEditor_value st)) ->
  outcome r' = outcome r
  /\ isValidJSON r' = isValidJSON r
  /\ jsonData r' = jsonData r
  /\ jsonSize r' = jsonSize r
  /\ jsonLines r' = jsonLines r
  /\ jsonToolContent r' = jsonToolContent r.
Proof.
  intros Hrun Hrun' Htext (_ & Hm & Ht).
  pose proof (validateJSON_returned h st r Hrun) as Hstore.
  pose proof (validateJSON_returned h' st' r' Hrun') as Hstore'.
  destruct (validateJSON_returns h st Hstore)
    as (r0 & Hr0 & _ & Hs & Hsize & Hlines & _ & Hout & Hflag & _).
  rewrite Hrun in Hr0. injection Hr0 as <-.
  destruct (validateJSON_returns h' st' Hstore')
    as (r0 & Hr0 & _ & Hs' & Hsize' & Hlines' & _ & Hout' & Hflag' & _).
  rewrite Hrun' in Hr0. injection Hr0 as <-.
  rewrite Htext in Hs', Hsize', Hlines', Hout', Hflag'.
  rewrite Hm in Hout'.
  assert (Hsame : forall (A : Type) (f : value -> option (list N) -> A)
                         (a : A),
            match JSON_parse (trim (jsonEditor_value st)) with
            | Ok v => f v (traverse_error h' v)
            | _ => a
            end
            = match JSON_parse (trim (jsonEditor_value st)) with
              | Ok v => f v (traverse_error h v)
              | _ => a
              end).
  { intros A f a.
    destruct (JSON_parse (trim (jsonEditor_value st))) as [ v | | ] eqn:E;
      try reflexivity.
    rewrite (Ht v eq_refl). reflexivity. }
  assert (Hout2 : outcome r' = outcome r).
  { rewrite Hout, Hout'.
    destruct (isEmpty (trim (jsonEditor_value st))); [ reflexivity | ].
    pose proof (Hsame _
                  (fun v o => match o with
                              | None => Valid v
                              | Some message =>
                                  Invalid (displayed_error message)
                              end)
                  (Invalid (displayed_error
                              (SyntaxError_message h
                                 (trim (jsonEditor_value st)))))) as H.
    cbv beta in H.
    destruct (JSON_parse (trim (jsonEditor_value st))); exact H. }
  assert (Hflag2 : (isValidJSON r', jsonData r') = (isValidJSON r, jsonData r)).
  { rewrite Hflag, Hflag'.
    destruct (isEmpty (trim (jsonEditor_value st))); [ reflexivity | ].
    pose proof (Hsame _
                  (fun v o => match o with
                              | None => (true, v)
                              | Some _ => (false, JNull)
                              end)
                  (false, JNull)) as H.
    cbv beta in H.
    destruct (JSON_parse (trim (jsonEditor_value st))); exact H. }
  injection Hflag2 as Hv Hd.
  rewrite Hs, Hs', Hsize, Hsize', Hlines, Hlines'.
  repeat split; assumption.
Qed.

Lemma page_eta (p : Page) : on_editor (fun _ => editor p) p = p.
Proof. destruct p; reflexivity. Qed.

(** The handler of [DOMContentLoaded] on a page whose store holds a
    document that is not empty. *)
Lemma DOMContentLoaded_restores (h1 h2 : Limits) (p0 : Page) (t : list N)
    (st2 st3 : EditorState) :
  jsonToolContent (editor p0) = Some t -> isEmpty t = false ->
  Exn.validateJSON h1 (set_editor_value t (editor p0)) = Returns st2 ->
  Exn.validateJSON h2 st2 = Returns st3 ->
  exists p', Exn.DOMContentLoaded h1 h2 p0 = Returns p' /\ editor p' = st3.
Proof.
  intros Hstore Hne H1 H2. unfold Exn.DOMContentLoaded. cbv zeta.
  destruct (jsonToolTheme p0) as [ [ | c r ] | ];
    cbn [isEmpty editor applyTheme set_currentTheme];
    rewrite Hstore, Hne; unfold Exn.run_on_editor;
    cbn [editor applyTheme set_currentTheme]; rewrite H1;
    cbn [editor on_editor]; rewrite H2;
    (eexists; split; [ reflexivity | reflexivity ]).
Qed.

(** The handler of [DOMContentLoaded] on a page whose store holds no
    document, or an empty one. *)
Lemma DOMContentLoaded_keeps (h1 h2 : Limits) (p0 : Page) :
  jsonToolContent (editor p0) = None
  \/ jsonToolContent (editor p0) = Some [] ->
  editor (state_of (Exn.DOMContentLoaded h1 h2 p0))
  = state_of (Exn.validateJSON h2 (editor p0)).
Proof.
  intros Hstore. unfold Exn.DOMContentLoaded. cbv zeta.
  destruct (jsonToolTheme p0) as [ [ | c r ] | ];
    cbn [isEmpty editor applyTheme set_currentTheme];
    (destruct Hstore as [-> | ->]); cbn [isEmpty];
    unfold Exn.run_on_editor; cbn [editor applyTheme set_currentTheme];
    destruct (Exn.validateJSON h2 (editor p0)); reflexivity.
Qed.

Lemma trimmed_read (st : EditorState) (st0 : EditorState) :
  let t := trim (jsonEditor_value st) in
  trim (jsonEditor_value (set_editor_value t st0)) = t.
Proof.
  cbv zeta. rewrite jsonEditor_value_fixed.
  - cbn [set_editor_value editor_value]. apply trim_trim.
  - cbn [set_editor_value editor_value]. intros H.
    apply (jsonEditor_value_no_CR st). apply trim_incl. exact H.
Qed.

(** X12.  A document survives a reload.  When a call of [validateJSON]
    returned on a text whose trimmed form is not empty, and a page loads
    with the store that the call left, on a host that answers for the
    trimmed text as the host of the call did, then the handler of
    [DOMContentLoaded] returns, the trimmed text is in the editor, and
    the outcome, the flag, the value, the size, the line count and the
    stored text are those that the call left. *)
Theorem reload_restores (h h1 h2 : Limits) (st st1 : EditorState)
    (p0 : Page) :
  Exn.validateJSON h st = Returns st1 ->
  let t := trim (jsonEditor_value st) in
  isEmpty t = false ->
  jsonToolContent (editor p0) = jsonToolContent st1 ->
  same_answers h h1 t -> same_answers h h2 t ->
  exists p',
    Exn.DOMContentLoaded h1 h2 p0 = Returns p'
    /\ editor_value (editor p') = t
    /\ outcome (editor p') = outcome st1
    /\ isValidJSON (editor p') = isValidJSON st1
    /\ jsonData (editor p') = jsonData st1
    /\ jsonSize (editor p') = jsonSize st1
    /\ jsonLines (editor p') = jsonLines st1
    /\ jsonToolContent (editor p') = jsonToolContent st1.
Proof.
  intros Hrun t Hne Hstore Hsame1 Hsame2.
  pose proof (validateJSON_returned h st st1 Hrun) as Haccepts. fold t in Haccepts.
  destruct (validateJSON_returns h st Haccepts) as (r & Hr & _ & Hs & _).
  rewrite Hrun in Hr. injection Hr as <-. fold t in Hs.
  rewrite Hs in Hstore.
  pose proof (trimmed_read st (editor p0)) as Hread. cbv zeta in Hread.
  fold t in Hread.
  destruct (validateJSON_returns h1 (set_editor_value t (editor p0)))
    as (st2 & Hrun2 & Hed2 & _).
  { rewrite Hread. rewrite (proj1 Hsame1). exact Haccepts. }
  cbn [set_editor_value editor_value] in Hed2.
  assert (Hread2 : trim (jsonEditor_value st2) = t).
  { unfold jsonEditor_value. rewrite Hed2. exact Hread. }
  destruct (validateJSON_returns h2 st2) as (st3 & Hrun3 & Hed3 & _).
  { rewrite Hread2. rewrite (proj1 Hsame2). exact Haccepts. }
  destruct (DOMContentLoaded_restores h1 h2 p0 t st2 st3 Hstore Hne Hrun2 Hrun3)
    as (p' & Hload & Hp').
  exists p'. split; [ exact Hload | ]. rewrite Hp'.
  split; [ rewrite Hed3; exact Hed2 | ].
  apply (validateJSON_determined h h2 st st2 st1 st3 Hrun Hrun3 Hread2 Hsame2).
Qed.

Lemma reload_restores_witness :
  let h := no_limits (fun _ : list N => @nil N) in
  let st := set_editor_value (lit " [1, 2] ") initialState in
  let p0 := {|
    editor := setItem_jsonToolContent (lit "[1, 2]") initialState;
    currentTheme := lit "light";
    data_theme := None;
    theme_icon := [];
    prism_dark_disabled := true;
    jsonToolTheme := None;
    focused := false;
    selection := None;
    clipboard := None;
    alerts := [];
    downloads := []
  |} in
  exists p',
    Exn.DOMContentLoaded h h p0 = Returns p'
    /\ editor_value (editor p') = lit "[1, 2]"
    /\ outcome (editor p') = outcome (state_of (Exn.validateJSON h st)).
Proof.
  intros h st p0.
  destruct (validateJSON_returns h st eq_refl) as (st1 & Hrun & _ & Hs & _).
  assert (Hne : isEmpty (trim (jsonEditor_value st)) = false) by reflexivity.
  assert (Hstore : jsonToolContent (editor p0) = jsonToolContent st1)
    by (rewrite Hs; reflexivity).
  assert (Hsame : same_answers h h (trim (jsonEditor_value st)))
    by (repeat split).
  destruct (reload_restores h h h st st1 p0 Hrun Hne Hstore Hsame Hsame)
    as (p' & Hload & Hed & Hout & _).
  exists p'. split; [ exact Hload | ]. split; [ exact Hed | ].
  rewrite Hrun. exact Hout.
Defined.

(** X20.  When the timer of the input listener fires, the store takes
    the text that the editor returns, surrounding whitespace included,
    and nothing else of the page changes; when the store refuses the
    text, the listener throws and the page is as before.  A page that
    loads with the stored text, when it is not empty and the store of
    the loading host accepts its trimmed form, has the text in its
    editor again; loading validates the text as [validate] does and
    replaces the stored text by its trimmed form.  A page that loads with
    an empty stored text keeps the text of the page. *)
Theorem autosave_reload (h h1 h2 : Limits) (p p0 : Page) :
  let t := jsonEditor_value (editor p) in
  (forall message, setItem_error h t = Some message ->
     Exn.autosave h p = Throws message p)
  /\ (setItem_error h t = None ->
      Exn.autosave h p = Returns (on_editor (setItem_jsonToolContent t) p)
      /\ jsonToolContent (editor (state_of (Exn.autosave h p))) = Some t
      /\ editor_value (editor (state_of (Exn.autosave h p)))
         = editor_value (editor p))
  /\ (jsonToolContent (editor p0) = Some t ->
      (isEmpty t = false ->
       setItem_error h1 (trim t) = None -> setItem_error h2 (trim t) = None ->
       exists p',
         Exn.DOMContentLoaded h1 h2 p0 = Returns p'
         /\ editor_value (editor p') = t
         /\ jsonToolContent (editor p') = Some (trim t)
         /\ Exn.validate h2 t = Some (outcome (editor p')))
      /\ (isEmpty t = true ->
          editor_value (editor (state_of (Exn.DOMContentLoaded h1 h2 p0)))
          = editor_value (editor p0))).
Proof.
  cbv zeta. split; [ | split ].
  - intros message H. unfold Exn.autosave. cbv zeta. rewrite H. reflexivity.
  - intros H. unfold Exn.autosave. cbv zeta. rewrite H.
    repeat split.
  - intros Hstore.
    pose proof (jsonEditor_value_no_CR (editor p)) as Hcr.
    set (t := jsonEditor_value (editor p)) in *.
    split.
    + intros Hne H1 H2.
      assert (Hread : forall st0,
                jsonEditor_value (set_editor_value t st0) = t).
      { intros st0. apply jsonEditor_value_fixed. exact Hcr. }
      destruct (validateJSON_returns h1 (set_editor_value t (editor p0)))
        as (st2 & Hrun2 & Hed2 & _).
      { rewrite Hread. exact H1. }
      cbn [set_editor_value editor_value] in Hed2.
      assert (Hread2 : jsonEditor_value st2 = t).
      { unfold jsonEditor_value. rewrite Hed2.
        apply normalize_newlines_fixed. exact Hcr. }
      destruct (validateJSON_returns h2 st2)
        as (st3 & Hrun3 & Hed3 & Hs3 & _ & _ & _ & Hout3 & _).
      { rewrite Hread2. exact H2. }
      rewrite Hread2 in Hs3, Hout3.
      destruct (DOMContentLoaded_restores h1 h2 p0 t st2 st3 Hstore Hne
                  Hrun2 Hrun3) as (p' & Hload & Hp').
      exists p'. split; [ exact Hload | ]. rewrite Hp'.
      split; [ rewrite Hed3; exact Hed2 | ]. split; [ exact Hs3 | ].
      pose proof (validate_returns h2 t) as Hv. cbv zeta in Hv.
      rewrite (normalize_newlines_fixed t Hcr) in Hv.
      rewrite (Hv H2), Hout3. reflexivity.
    + intros He. destruct t as [ | c r ]; [ | discriminate He ].
      rewrite (DOMContentLoaded_keeps h1 h2 p0 (or_intror Hstore)).
      destruct (setItem_error h2 (trim (jsonEditor_value (editor p0))))
        as [ m | ] eqn:E.
      * rewrite (validateJSON_throws h2 (editor p0) m E). reflexivity.
      * destruct (validateJSON_returns h2 (editor p0) E)
          as (st' & -> & Hed & _).
        exact Hed.
Qed.

Lemma autosave_reload_witness :
  let h := no_limits (fun _ : list N => @nil N) in
  let page (st : EditorState) := {|
    editor := st;
    currentTheme := lit "light";
    data_theme := None;
    theme_icon := [];
    prism_dark_disabled := true;
    jsonToolTheme := None;
    focused := false;
    selection := None;
    clipboard := None;
    alerts := [];
    downloads := []
  |} in
  let p := page (set_editor_value (lit " [1, 2] ") initialState) in
  let p0 := editor (state_of (Exn.autosave h p)) in
  jsonToolContent p0 = Some (lit " [1, 2] ")
  /\ exists p',
       Exn.DOMContentLoaded h h (page p0) = Returns p'
       /\ editor_value (editor p') = lit " [1, 2] "
       /\ jsonToolContent (editor p') = Some (lit "[1, 2]").
Proof.
  intros h page p p0.
  destruct (autosave_reload h h h p (page p0)) as (_ & Hsave & Hload).
  destruct (Hsave eq_refl) as (_ & Hstore & _).
  split; [ exact Hstore | ].
  destruct (Hload Hstore) as (Hrestore & _).
  destruct (Hrestore eq_refl eq_refl eq_refl) as (p' & Hrun & Hed & Hs & _).
  exists p'. split; [ exact Hrun | ]. split; [ exact Hed | exact Hs ].
Defined.

(* ================================================================== *)
(** * [validateAndShowDetails] with the exceptions of the host *)

Section DetailsPopup.

Variable formatFileSize : N -> list N.

(** X18.  [validateAndShowDetails] validates first.  When the store
    refuses the trimmed text, it throws with the page as before: no
    popup, no notification.  Otherwise, for a Valid outcome, also for the
    documents [null], [false], [0] and the empty string that
    [formatJSON] refuses, it analyses the value once more: when that
    exhausts the stack it throws after the validation, and otherwise it
    shows the popup with the counts of objects and arrays of the parsed
    value and the size of the trimmed text.  For every other outcome it
    shows no popup and the error notification. *)
Theorem validateAndShowDetails_popup (h h' : Limits) (p : Page) :
  let t := trim (jsonEditor_value (editor p)) in
  let run := Exn.validateAndShowDetails formatFileSize h h' p in
  (forall message, setItem_error h t = Some message ->
     run = Throws message p)
  /\ (setItem_error h t = None ->
      exists st',
        Exn.validateJSON h (editor p) = Returns st'
        /\ let p' := on_editor (fun _ => st') p in
           match outcome st' with
           | Valid v =>
               match traverse_error h' v with
               | Some message => run = Throws message p'
               | None =>
                   run
                   = Returns
                       (alert
                          (details_message
                             {| objects := count_objects v;
                                arrays := count_arrays v |}
                             (formatFileSize (utf8_length t))) p')
               end
           | _ =>
               run
               = Returns
                   (notify (lit "Please fix JSON errors first!")
                      (lit "error") p')
           end).
Proof.
  cbv zeta. split.
  - intros message H. unfold Exn.validateAndShowDetails, Exn.run_on_editor.
    rewrite (validateJSON_throws h (editor p) message H).
    rewrite page_eta. reflexivity.
  - intros Hstore.
    destruct (validateJSON_returns h (editor p) Hstore)
      as (st' & Hrun & _ & _ & Hsize & _ & _ & Hout & Hflag & _).
    exists st'. split; [ exact Hrun | ].
    unfold Exn.validateAndShowDetails, Exn.run_on_editor. rewrite Hrun.
    cbn [editor on_editor]. rewrite Hout.
    destruct (isEmpty (trim (jsonEditor_value (editor p)))).
    { injection Hflag as -> _. reflexivity. }
    destruct (JSON_parse (trim (jsonEditor_value (editor p)))) as [ v | | ].
    + destruct (traverse_error h v) as [ message | ];
        injection Hflag as -> Hd; [ reflexivity | ].
      rewrite Hd, Hsize.
      destruct (traverse_error h' v); [ reflexivity | ].
      unfold analyzeJSON. rewrite traverse_counts. reflexivity.
    + injection Hflag as -> _. reflexivity.
    + injection Hflag as -> _. reflexivity.
Qed.

End DetailsPopup.

Lemma validateAndShowDetails_popup_witness :
  let h := no_limits (fun _ : list N => @nil N) in
  let size := fun _ : N => lit "1 bytes" in
  let p := {|
    editor := set_editor_value (lit "0") initialState;
    currentTheme := lit "light";
    data_theme := None;
    theme_icon := [];
    prism_dark_disabled := true;
    jsonToolTheme := None;
    focused := false;
    selection := None;
    clipboard := None;
    alerts := [];
    downloads := []
  |} in
  alerts (state_of (Exn.validateAndShowDetails size h h p))
  = [details_message {| objects := 0; arrays := 0 |} (lit "1 bytes")].
Proof.
  intros h size p.
  destruct (validateAndShowDetails_popup size h h p) as (_ & Hpopup).
  destruct (Hpopup eq_refl) as (st' & Hrun & H).
  assert (Hst : st' = state_of (Exn.validateJSON h (editor p)))
    by (rewrite Hrun; reflexivity).
  cbv zeta in H. rewrite Hst in H.
  change (outcome (state_of (Exn.validateJSON h (editor p))))
    with (Valid (JNumber (S754_zero false))) in H.
  cbv iota beta in H.
  change (traverse_error h (JNumber (S754_zero false)))
    with (@None (list N)) in H.
  cbv iota in H. rewrite H. reflexivity.
Defined.
